(* ===== verification/_CoqProject ===== *)
-Q . S2P
Prelude.v
Common.v
Filestore.v
Store.v
StoreSpec.v
StoreInst.v
StoreRecovery.v
StoreDamage.v
JournalProps.v
Entries.v
Bilog.v
BilogProps.v
Texts.v
BTree.v
Snapshot.v
SnapshotAlloc.v
SnapshotWrite.v
SnapshotInv.v
SnapshotMerge.v
SnapshotReplay.v
SnapshotFormat.v
SnapshotCompact.v
SnapshotInst.v
SnapshotProps.v
Net.v
NetInst.v
NetSpec.v
Ops.v
OpsSpec.v
Server.v
Handlers.v
ServerSpec.v
HandlerSpec.v
Converge.v
OpsInst.v
ServerInv.v
NetCork.v
NetProps.v
HandlerProps.v
Viewer.v
ViewerProps.v
Iolimit.v
IolimitProps.v
Sockets.v
LowLevel.v
LowLevelInv.v
LowLevelSpec.v
LowLevelProps.v
Mount.v
MountProps.v
Replies.v
Bridge.v
Rsync.v
Pool.v
PoolSpec.v
PoolProps.v
Hash.v
Cli.v
Startup.v
StartupInst.v
StartupProps.v
Lifecycle.v
Commands.v
Listen.v
Encoded.v
Undo.v
SnapshotCmd.v
SnapshotCmdProps.v
WinSecurity.v
WinOps.v
WinHandlers.v
WinSpec.v
WinInst.v
WinProps.v
WinStart.v
WinStartProps.v
Readers.v
ReadersProps.v
FuseTable.v
ViewerMain.v
