(* ===== verification/Prelude.v ===== *)
(** * fsyncer: a verified model

    fsyncer replicates a file system: a FUSE server intercepts every call that
    changes it, journals the call, applies it to the backing store and sends it
    to clients, which apply it to their own copy. A journal can be replayed or
    undone, and folded into a snapshot.

    ** The parts and where they are modelled

    - Calls, messages, path and error helpers ([fsyncd/src/common/mod.rs],
      [file_security.rs]): [Common]. [VFSCall] has the source's constructors.
    - The store of deleted files ([journal/filestore.rs]): [Filestore], a
      state-passing model over a listing of the store directory.
    - The journal ring file ([journal/store.rs]): [Store], generic in the entry
      type and in the serialisation ([StoreFormat], with bincode's documented
      behaviour as [StoreFormatLaws]; [StoreInst] shows that it can hold).
      [StoreSpec] has the abstract journal (a queue of blocks of records) and
      the simulation; [StoreRecovery] what a reopened journal finds;
      [StoreDamage] what the reverse iterator makes of a record that was
      overwritten; [JournalProps] the properties.
    - Journal entries ([journal/mod.rs], [forward.rs], [mdata.rs]): [Entries],
      with the trait as the class [JournalEntry]. The two-way entries
      ([journal/bilog.rs]): [Bilog], all twelve kinds with [new], [xor],
      [apply] and [old]; [BilogProps] states when an entry can be redone and
      undone, through the class [Reversible].
    - Snapshots ([snapshot/forward.rs]): [Snapshot] over the ordered maps of
      [BTree]. [SnapshotAlloc] proves the free list, [SnapshotWrite] the
      placing of one write, [SnapshotInv] and [SnapshotMerge] the whole
      snapshot against the reference [effect] (in which the rename of a directory
      moves what is below it), [SnapshotReplay] the replay
      iterator against [snapshot_calls], [SnapshotCompact] compaction,
      [SnapshotFormat] the file on disk; [SnapshotInst] has a concrete format
      and [SnapshotProps] the properties.
    - The snapshot command ([snapshot/mod.rs]): [SnapshotCmd], from the
      arguments to the files and the backing store; [SnapshotCmdProps].
    - The connection of server and client ([server/client.rs],
      [client/mod.rs]): [Net], with bincode as [MsgFormat] and the packet
      compressors as [Compressor]. [NetSpec] has frames and [handle], what one
      message makes of a client; [NetInst] a concrete format. A client with
      several dispatch threads: [Pool], the client and the server's threads that
      wait for it, until they time out, as one system in which several dispatches
      run at once, in parts (class [Parts]); [PoolSpec] says when they can be taken
      one after the other and what holds of each thread of the server, [PoolProps]
      has the properties.
    - The server ([server/mod.rs]): [Server], with [pre_op], [post_op], corking,
      the flusher and the harvester. [ServerSpec] states what an operation sends
      and what the reader makes of answers; [ServerInv] is the server as a state
      machine with its invariant; [NetCork] the proof that a cork is a barrier;
      [NetProps] the properties.
    - The command line and the start ([main.rs], the rest of [client/mod.rs] and
      [server/mod.rs], [common/security_unix.rs], the checksum of a tree in
      [common/mod.rs]): [Cli] has the declared arguments and the start of a
      client, with what [clap] promises as [parsed]; [Startup] has [server_main]
      over the class [ServerHost]; [Hash] has [hash_metadata]. [StartupInst] has
      instances, [StartupProps] the properties. [Commands] has [main] with the
      commands [checksum] and [fakeshell]. [Lifecycle] puts the parts together:
      connecting, accepting, serving and the loop of the client.
    - System calls and [dispatch] ([common/ops_unix.rs],
      [client/dispatch_unix.rs]): [Ops], over the class [Syscalls]. [OpsSpec] has
      [Mirror], the interface of two file systems on which the same calls have
      the same effect; [OpsInst] a small one that is a [Mirror].
    - The handlers ([fuse_hl/write_unix.rs]): [Handlers]. [HandlerSpec] relates
      each to [dispatch], [Converge] runs of requests to what a client does;
      [HandlerProps] has the properties. The handlers that only read
      ([fuse_hl/read_unix.rs]): [Readers], over the class [ReadCalls] with the
      laws [ReadLaws]; [ReadersProps]. [FuseTable] has the table of callbacks and
      [xmp_init] ([fuse_hl/mod.rs], [fuseops.rs]), and which request reaches which
      handler.
    - Viewing and replaying a journal ([journal/viewer.rs]): [Viewer], over the
      iterators of [Store] and [dispatch]; [ViewerProps] composes the server's
      handlers, the ring file and the replay; [Undo] does so for a two-way
      journal replayed backwards. [ViewerMain] is the command from its arguments
      on, and its properties.
    - The bandwidth limiter ([iolimit/src/lib.rs]): [Iolimit], over the classes
      [Clock] and [Writer]; [IolimitProps] bounds its rate. [Sockets] has the
      writer of a TCP connection ([server/net.rs]) and shows that under the
      limiter it is the stream of [Net]; [Encoded] puts the encoder of a
      compressed stream on top, as a class with laws. [Listen] has the listeners
      and the accepting thread with its descriptors, those duplicated for rsync
      included.
    - The low-level handlers ([fuse_ll/mod.rs], with [setattr], [forget_multi]
      and the table of operations of [fuse/src]), which the server does not
      start: [LowLevel], over the class [LowSys]. [LowLevelInv] has the
      invariant of the table of inodes and weakest preconditions, [LowLevelSpec]
      what each request does, [LowLevelProps] the properties. [Mount] has the
      library around them ([fuse/src/lib.rs], [ops.rs]): the trait with its
      defaults, the callbacks and [mount]; [MountProps]. [Replies] has [send],
      and shows that replies stay within their buffers.
    - Initial synchronisation ([common/rsync.rs]): [Bridge], the two directions
      of the bridge between rsync and the connection; [Rsync], the bridges of
      both sides as a system of four threads. How rsync is started is in
      [Commands].
    - The Windows port: [WinSecurity] has the texts of security descriptors
      ([common/security_windows.rs]), [WinOps] the operations and [dispatch]
      ([common/ops_windows.rs], [write_windows.c], [client/dispatch_windows.rs]),
      [WinHandlers] the callbacks of Dokan ([dokan/write_windows.rs]). [WinSpec]
      has [WinMirror], two systems on which the same calls have the same effect,
      and what each request sends and which calls it makes;
      [WinInst] a small one, [WinProps] the properties. [WinStart] has what is
      particular to its start: full paths, the checksum, copying security, the
      mount path, and Dokan from its options to its result ([dokan/src/lib.rs]);
      [WinStartProps]. These sources build calls
      in an older syntax than [common/mod.rs] declares; the model has the fields
      of the declarations.
    - Errors with the places they went through ([error.rs]), C strings
      ([common/ffi.rs]) and the texts of journal entries: [Texts]. The other parts
      keep errors without places, and paths.

    The server's handler of a call runs [pre_op], the system calls and [post_op].
    [pre_op] writes the call to every client ([response_msg]) and to the journal
    ([write_entry]); a client reads it ([read_msg]), runs [dispatch] and answers,
    and the server's reader puts the answer in the cell on which [post_op] waits.

    ** Conventions

    Rust results are [outcome]s: a value, an [Err], a panic, or [NoFuel] for a
    loop cut off by its bound. State is passed by the monad [M]. Machine integers
    are [Z]; every operation that can wrap is written with [u32], [u64], [i32]
    or [i64] (release builds wrap). A regular file is its length, a function
    from offsets to bytes, and a cursor. Code outside the sources is a parameter:
    serialisation formats, checksums, the file system an entry looks at
    ([fsview]), the names of tokens, the system calls.

    ** What is proved

    - Journal: what is written is read back by both iterators, each write
      refines the abstract queue, as long as no block is left exactly full; a
      journal that has not gone round its ring and has used more than one block
      is found again when it is reopened; the reverse iterator ends with an error
      at a record whose checksum no longer fits. The cases in which these fail in
      the source are theorems too: the exactly full ring and the journal closed
      within its first block.
    - Store of deleted files: its invariant, eviction, the token that a reopened
      store reuses, and the gap that a rename that failed leaves in the tokens.
    - Two-way entries: undo and redo for the metadata, creation and removal
      kinds; for writes, truncations, renames and attributes exactly when they
      can or cannot be reversed.
    - Snapshots: the allocator, the overlay a write makes, the effect of every
      merged call but [link], as long as no directory is renamed, the calls replay
      gives, compaction, and the round trip through the disk; and the defects
      found on the way, the rename of a directory among them.
    - Recovery: the command [journal replay] on the file of a forward journal,
      on a copy of the tree the server started from, gives the server's tree; it
      panics if a request had failed. Replaying a two-way journal backwards gives
      every file the attributes it had; but the command never replays backwards,
      because it looks for the option in the wrong place.
    - The snapshot command: merging a journal that has not gone round its ring
      and applying the snapshot gives the calls of the journal their effect, for
      the calls of which a snapshot keeps all ([call_ok]).
    - Replication: a client applies the calls meant for it, in the order sent; a
      cork is a barrier for clients with one dispatch thread; an answer reaches the thread it is for and no other, in
      every reachable state; and after requests served one after the other the
      client's tree is the server's. The last needs that order: that the calls
      of concurrent handlers reach the backing store as they were sent is left
      to the kernel ([interleaved_writes_diverge] is what happens without).
    - Several dispatch threads: in every interleaving, time-outs and panics
      included, each server thread is told codes of its own calls, each at most
      once, and as long as it has not timed out all of them and in its order;
      everything on its way is dispatched and answered without the help of a
      time-out; calls whose parts commute have the effect of a sequence of whole
      dispatches. A cork can overtake a call that is still in the queue.
    - Start: the options of a client and both codecs of a connection agree; a
      client with a mirrored tree is accepted, and after the session that follows
      has the server's tree ([session_mirrors]); what runs when FUSE takes over;
      that every command has its branch; and the command lines that can only
      panic. A client whose initial synchronisation failed is accepted. The
      accepting thread leaves open the descriptors of the clients and two for each
      initial synchronisation, and ends at the first error.
    - Handlers: each does what [dispatch] does on a client; those that read
      change nothing and leak nothing. On Windows, a request on an open file and
      its call keep two mirrored copies mirrored, and security descriptors come
      back from their text. The defects found are
      theorems: unlinking with a two-way journal, writing differences, packet
      compression, late answers, and codes of failed renames and opens.
    - Low-level handlers: no sequence of requests of a kernel reaches an inode
      that was freed (because none ever is), and reading a directory ends. The
      defects found are theorems: closed descriptors, directories below the
      root, links, attributes, and renames to another directory; and that a mounted
      file system is taken down in order but was never asked.
    - Initial synchronisation: however the threads run, two rsyncs that never
      both wait come to an end, with all bytes delivered and nothing left on the
      connection; and the frame that overruns the buffer, the frame that is
      split, and the word that is left when the server's rsync ends first.
    - The limiter: the bytes let through in a time, and that its wait ends; and
      that a limited socket loses and reorders nothing, and a flushed message can
      be decoded by the client without further traffic, compressed or not.
    - The start on Windows: for which lengths a full path fits its buffer, that
      taking the mount path ends, and what becomes of the result of Dokan.

    ** Bounds and fuel

    Loops run on structural recursion or on fuel that the definitions compute
    from their input (blocks in the ring, entries in the store, bytes to copy or
    to hash, files left to replay) or that a theorem bounds (one more than the
    entries to replay, two readings of the clock to sleep, the entries left in a
    directory, the frames sent); the theorems show
    that it suffices. Snapshot
    theorems keep addresses below [ADDR_LIMIT] = 2^62 and let [ext] bound the
    ends of writes, so that a run of n calls uses at most 2 * n * ext bytes;
    journal theorems keep positions below 2^63.

    ** Not modelled

    Log output; the generated and declared bindings of FUSE and Dokan
    ([fuse/bindings.rs], the [extern] blocks of [dokan/src/lib.rs]), which have no
    logic, and the build scripts; the handlers in C; the writer of sockets on other
    systems than Linux.
    Convergence is proved for requests served one after the other, not for
    handlers that run at the same time. Threads are modelled as
    sequences of whole steps, with a wait for a cork as the error [WouldBlock]
    and a timeout as an answer of [None] ([Pool] has the time-outs as steps, and
    dispatches in parts). The
    compared quotient of [compact] is taken as a fraction, which agrees with the
    doubles of the source below 2^50. A hash map is iterated in the order of
    first insertion. *)

From stdpp Require Import base list numbers option.
From Stdlib Require Import ZArith Lia.

Local Open Scope Z_scope.

(** ** Results

    [io::Error] as the sources build it: an operating-system error code, an
    [ErrorKind] with a message, or the end-of-file error of [read_exact]. *)
Inductive io_error :=
| OsError (code : Z)
| UnexpectedEof
| WouldBlock
| NotFound
| OtherError.

#[export] Instance io_error_eq_dec : EqDecision io_error.
Proof. solve_decision. Defined.

(** What a Rust call can do: return a value, return [Err], or panic.
    [NoFuel] marks a bounded unfolding of a loop that was cut off; it is never a
    result of the source, and the theorems rule it out. *)
Inductive outcome (A : Type) :=
| Ok (a : A)
| Err (e : io_error)
| Panic
| NoFuel.
Arguments Ok {A} a.
Arguments Err {A} e.
Arguments Panic {A}.
Arguments NoFuel {A}.

#[export] Instance outcome_ret : MRet outcome := fun A a => Ok a.
#[export] Instance outcome_bind : MBind outcome := fun A B f m =>
  match m with
  | Ok a => f a
  | Err e => Err e
  | Panic => Panic
  | NoFuel => NoFuel
  end.

#[export] Instance outcome_fmap : FMap outcome := fun A B f m =>
  match m with
  | Ok a => Ok (f a)
  | Err e => Err e
  | Panic => Panic
  | NoFuel => NoFuel
  end.

(** A method with [&mut self]: the receiver is returned in every case, since a
    caller that gets [Err] keeps the partly updated object. *)
Definition M (S A : Type) : Type := S -> outcome A * S.

#[export] Instance M_ret {S} : MRet (M S) := fun A a s => (Ok a, s).
#[export] Instance M_bind {S} : MBind (M S) := fun A B f m s =>
  match m s with
  | (Ok a, s') => f a s'
  | (Err e, s') => (Err e, s')
  | (Panic, s') => (Panic, s')
  | (NoFuel, s') => (NoFuel, s')
  end.

Definition get {S} : M S S := fun s => (Ok s, s).
Definition put {S} (s : S) : M S unit := fun _ => (Ok tt, s).
Definition modify {S} (f : S -> S) : M S unit := fun s => (Ok tt, f s).
Definition lift {S A} (o : outcome A) : M S A := fun s => (o, s).
Definition throw {S A} (e : io_error) : M S A := fun s => (Err e, s).
Definition panic {S A} : M S A := fun s => (Panic, s).

(** [option::unwrap] / [expect], and [map_err] of a codec failure to
    [io::ErrorKind::Other]. *)
Definition expect {S A} (o : option A) : M S A :=
  fun s => match o with Some a => (Ok a, s) | None => (Panic, s) end.
Definition ok_or_other {S A} (o : option A) : M S A :=
  fun s => match o with Some a => (Ok a, s) | None => (Err OtherError, s) end.

(** ** Machine integers

    The release profile is modelled: [+], [-] and [*] wrap around, [as] casts
    truncate, division by zero panics. *)
Definition wrap (w z : Z) : Z := z mod 2 ^ w.
Definition swrap (w z : Z) : Z := (z + 2 ^ (w - 1)) mod 2 ^ w - 2 ^ (w - 1).
Definition u8 (z : Z) : Z := wrap 8 z.
Definition u32 (z : Z) : Z := wrap 32 z.
Definition u64 (z : Z) : Z := wrap 64 z.
Definition i32 (z : Z) : Z := swrap 32 z.
Definition i64 (z : Z) : Z := swrap 64 z.

Definition is_byte (b : Z) : Prop := 0 <= b < 256.

(** Little-endian and big-endian fixed-width integers ([byteorder]). *)
Fixpoint le_bytes (n : nat) (z : Z) : list Z :=
  match n with
  | O => []
  | S n => z mod 256 :: le_bytes n (z / 256)
  end.

Fixpoint le_val (l : list Z) : Z :=
  match l with
  | [] => 0
  | b :: l => b + 256 * le_val l
  end.

Definition le32 (z : Z) : list Z := le_bytes 4 z.
Definition le64 (z : Z) : list Z := le_bytes 8 z.
Definition be32 (z : Z) : list Z := rev (le_bytes 4 z).
Definition be_val (l : list Z) : Z := le_val (rev l).

(** Length of a byte string as an integer. *)
Definition zlen {A} (l : list A) : Z := Z.of_nat (length l).

Arguments le32 : simpl never.
Arguments le64 : simpl never.
Arguments be32 : simpl never.
Arguments zlen : simpl never.
Arguments wrap : simpl never.
Arguments swrap : simpl never.
Arguments u8 : simpl never.
Arguments u32 : simpl never.
Arguments u64 : simpl never.
Arguments i32 : simpl never.
Arguments i64 : simpl never.

(** ** Regular files

    A [std::fs::File]: its length, its contents by offset and the cursor that
    [seek] and the sequential readers move. Bytes past the length are 0. *)
Record file := mk_file { f_len : Z; f_data : Z -> Z; f_pos : Z }.

Definition file_bytes (f : file) (off : Z) (n : nat) : list Z :=
  (fun i => f_data f (off + Z.of_nat i)) <$> seq 0 n.

(** [FileExt::read_exact_at]: an empty buffer is filled without reading. *)
Definition read_exact_at (f : file) (off n : Z) : outcome (list Z) :=
  if (n =? 0) || (off + n <=? f_len f)
  then Ok (file_bytes f off (Z.to_nat n)) else Err UnexpectedEof.

(** [FileExt::write_all_at]: a write past the end extends the file. *)
Definition write_all_at (f : file) (buf : list Z) (off : Z) : file :=
  match buf with
  | [] => f
  | _ =>
    {| f_len := Z.max (f_len f) (off + zlen buf);
       f_data := fun i =>
         if (off <=? i) && (i <? off + zlen buf)
         then default 0 (buf !! Z.to_nat (i - off)) else f_data f i;
       f_pos := f_pos f |}
  end.

(** [Seek::seek] to an absolute position, [File::set_len]. *)
Definition seek_start (f : file) (off : Z) : file :=
  {| f_len := f_len f; f_data := f_data f; f_pos := off |}.
Definition set_len (f : file) (n : Z) : file :=
  {| f_len := n; f_data := fun i => if i <? n then f_data f i else 0;
     f_pos := f_pos f |}.

(** [Read::read_exact] at the cursor, which moves past what was read. *)
Definition read_exact (n : Z) : M file (list Z) := fun f =>
  match read_exact_at f (f_pos f) n with
  | Ok l => (Ok l, seek_start f (f_pos f + n))
  | e => (e, f)
  end.

(** The bytes [l] are in the file at [off]. *)
Definition at_bytes (f : file) (off : Z) (l : list Z) : Prop :=
  forall i b, l !! i = Some b -> f_data f (off + Z.of_nat i) = b.

(** ** Tactics and hints *)
Create HintDb fsyncer.
Create Rewrite HintDb fsyncer.

(** Reduces the state monad around a known result. *)
Ltac munfold := unfold mbind, mret, M_bind, M_ret, outcome_bind, outcome_ret,
  get, put, modify, lift, throw, panic, expect, ok_or_other in *.

(** Decides ground facts by computation: equalities of data, comparisons. *)
Ltac ground := vm_compute; repeat split; discriminate.

(** ** Lemmas on results

    A run that succeeds, taken apart. *)
Lemma bind_ok {S A B} (m : M S A) (f : A -> M S B) s b s' :
  mbind f m s = (Ok b, s') -> exists a s1, m s = (Ok a, s1) /\ f a s1 = (Ok b, s').
Proof. unfold mbind, M_bind. destruct (m s) as [[a| | |] s1]; try done. intros E. by exists a, s1. Qed.

Lemma obind_ok {A B} (o : outcome A) (f : A -> outcome B) b :
  mbind f o = Ok b -> exists a, o = Ok a /\ f a = Ok b.
Proof. destruct o; try done. intros E. by exists a. Qed.

Lemma lift_ok {S A} (o : outcome A) (s : S) a s' : lift o s = (Ok a, s') -> o = Ok a /\ s' = s.
Proof. unfold lift. by intros [= -> ->]. Qed.

(** ** Lemmas on integers *)
Lemma wrap_small w z : 0 <= z < 2 ^ w -> wrap w z = z.
Proof. apply Z.mod_small. Qed.

Lemma u64_small z : 0 <= z < 2 ^ 64 -> u64 z = z.
Proof. apply wrap_small. Qed.

Lemma u32_small z : 0 <= z < 2 ^ 32 -> u32 z = z.
Proof. apply wrap_small. Qed.

Lemma u64_range z : 0 <= u64 z < 2 ^ 64.
Proof. apply Z.mod_pos_bound. lia. Qed.

Lemma u32_range z : 0 <= u32 z < 2 ^ 32.
Proof. apply Z.mod_pos_bound. lia. Qed.

Lemma i64_small z : - 2 ^ 63 <= z < 2 ^ 63 -> i64 z = z.
Proof. intros H. unfold i64, swrap. rewrite Z.mod_small; lia. Qed.

Lemma zlen_nonneg {A} (l : list A) : 0 <= zlen l.
Proof. unfold zlen. lia. Qed.

Lemma zlen_nil {A} : zlen (@nil A) = 0.
Proof. reflexivity. Qed.

Lemma zlen_cons {A} (x : A) l : zlen (x :: l) = 1 + zlen l.
Proof. unfold zlen. simpl length. lia. Qed.

Lemma zlen_app {A} (k l : list A) : zlen (k ++ l) = zlen k + zlen l.
Proof. unfold zlen. rewrite length_app. lia. Qed.

#[export] Hint Rewrite @zlen_nil @zlen_cons @zlen_app : fsyncer.
#[export] Hint Resolve zlen_nonneg u64_range u32_range : fsyncer.

(** ** Lemmas on fixed-width encodings *)
Lemma length_le_bytes n z : length (le_bytes n z) = n.
Proof. revert z. induction n; intros z; simpl; auto. Qed.

Lemma length_be32 z : length (be32 z) = 4%nat.
Proof. unfold be32. by rewrite length_rev, length_le_bytes. Qed.

Lemma zlen_le32 z : zlen (le32 z) = 4.
Proof. unfold zlen, le32. by rewrite length_le_bytes. Qed.

Lemma le_val_bytes n z :
  0 <= z < 256 ^ Z.of_nat n -> le_val (le_bytes n z) = z.
Proof.
  revert z. induction n as [|n IH]; intros z Hz.
  - simpl in *. lia.
  - cbn [le_bytes le_val]. rewrite IH.
    + pose proof (Z.div_mod z 256). lia.
    + rewrite Nat2Z.inj_succ, Z.pow_succ_r in Hz by lia.
      split; [apply Z.div_pos; lia|apply Z.div_lt_upper_bound; lia].
Qed.

Lemma le32_val z : 0 <= z < 2 ^ 32 -> le_val (le32 z) = z.
Proof. intros H. apply le_val_bytes. simpl. lia. Qed.

Lemma be32_val z : 0 <= z < 2 ^ 32 -> be_val (be32 z) = z.
Proof.
  intros H. unfold be_val, be32. rewrite rev_involutive. by apply le32_val.
Qed.

Lemma le_bytes_range n z : Forall is_byte (le_bytes n z).
Proof.
  revert z. induction n; intros z; simpl; constructor; auto.
  apply Z.mod_pos_bound. lia.
Qed.

(** A four-byte integer is all zeroes only when it is 0. *)
Lemma le32_zero z : 0 <= z < 2 ^ 32 -> le32 z = [0; 0; 0; 0] -> z = 0.
Proof. intros Hz H. rewrite <- (le32_val z Hz), H. reflexivity. Qed.

(** ** Lemmas on files *)
Lemma length_file_bytes f off n : length (file_bytes f off n) = n.
Proof. unfold file_bytes. by rewrite length_fmap, length_seq. Qed.

Lemma at_bytes_read f off l :
  at_bytes f off l -> file_bytes f off (length l) = l.
Proof.
  intros H. apply list_eq. intros i. unfold file_bytes.
  rewrite list_lookup_fmap. destruct (l !! i) as [b|] eqn:E.
  - pose proof (lookup_lt_Some _ _ _ E).
    rewrite lookup_seq_lt by lia. simpl. f_equal. by apply H.
  - rewrite lookup_seq_ge; [done|]. by apply lookup_ge_None.
Qed.

Lemma at_bytes_nil f off : at_bytes f off [].
Proof. intros i b H. by rewrite lookup_nil in H. Qed.

Lemma at_bytes_app f off k l :
  at_bytes f off (k ++ l) <->
  at_bytes f off k /\ at_bytes f (off + zlen k) l.
Proof.
  unfold at_bytes, zlen. split.
  - intros H. split; intros i b E.
    + apply H. by apply lookup_app_l_Some.
    + rewrite <- Z.add_assoc, <- Nat2Z.inj_add. apply H.
      rewrite lookup_app_r by lia. rewrite <- E. f_equal. lia.
  - intros [Hk Hl] i b E. apply lookup_app_Some in E as [E|[Hi E]].
    + by apply Hk.
    + rewrite <- (Hl _ _ E). f_equal. lia.
Qed.

Lemma at_bytes_write_same f off l :
  at_bytes (write_all_at f l off) off l.
Proof.
  intros i b E. pose proof (lookup_lt_Some _ _ _ E) as Hi.
  destruct l as [|x l]; [by rewrite lookup_nil in E|].
  unfold write_all_at. cbn [f_data].
  destruct (off <=? _) eqn:E1; [|lia].
  destruct (_ <? _) eqn:E2; [|unfold zlen in E2; lia]. simpl andb.
  replace (Z.to_nat (off + Z.of_nat i - off)) with i by lia.
  by rewrite E.
Qed.

Lemma write_all_at_other f l off i :
  i < off \/ off + zlen l <= i -> f_data (write_all_at f l off) i = f_data f i.
Proof.
  intros H. destruct l as [|x l]; [done|]. unfold write_all_at. cbn [f_data].
  destruct (off <=? i) eqn:E1; [|done].
  destruct (i <? _) eqn:E2; [lia|done].
Qed.

Lemma at_bytes_write_other f l off off' l' :
  off' + zlen l' <= off \/ off + zlen l <= off' ->
  at_bytes f off' l' -> at_bytes (write_all_at f l off) off' l'.
Proof.
  intros Hd H i b E. rewrite write_all_at_other; [by apply H|].
  pose proof (lookup_lt_Some _ _ _ E). unfold zlen in *. lia.
Qed.

Lemma f_len_write f l off :
  off + zlen l <= f_len f -> f_len (write_all_at f l off) = f_len f.
Proof. destruct l; [done|]. unfold write_all_at. cbn [f_len]. lia. Qed.

Lemma at_bytes_seek f p off l : at_bytes f off l -> at_bytes (seek_start f p) off l.
Proof. done. Qed.

Lemma read_exact_at_ok f off l :
  at_bytes f off l -> off + zlen l <= f_len f ->
  read_exact_at f off (zlen l) = Ok l.
Proof.
  intros Ha Hl. unfold read_exact_at.
  replace (off + zlen l <=? f_len f) with true by lia.
  rewrite orb_true_r. f_equal. unfold zlen. rewrite Nat2Z.id.
  by apply at_bytes_read.
Qed.

#[export] Hint Resolve at_bytes_nil at_bytes_write_same at_bytes_seek : fsyncer.
