(* ===== verification/Common.v ===== *)
(** * Shared data and helpers: [fsyncd/src/common/mod.rs]

    The VFS calls that are journalled, replicated and replayed, the wire
    messages, and the helper functions every component uses: path translation,
    in-place XOR, human-readable sizes, zero-run-length coding and the lazily
    created value. Paths are [std::path] paths compared by component. *)

From stdpp Require Import base list numbers option strings.
From Stdlib Require Import ZArith Lia Ascii String.
From S2P Require Import Prelude.

Local Open Scope Z_scope.

(** ** Paths *)
Record path := mk_path { p_abs : bool; p_comps : list string }.

#[export] Instance path_eq_dec : EqDecision path.
Proof. solve_decision. Defined.

(** [Path::join] with a relative or an absolute argument. *)
Definition path_join (base p : path) : path :=
  if p_abs p then p else mk_path (p_abs base) (p_comps base ++ p_comps p).

(** [Path::strip_prefix("/")] on a path that starts with the root. *)
Definition strip_root (p : path) : path := mk_path false (p_comps p).

Definition translate_path (p root : path) : path :=
  path_join root (if p_abs p then strip_root p else p).

(** ** Time stamps and ownership *)
Record Timespec := mk_Timespec { ts_high : Z; ts_low : Z }.

#[export] Instance Timespec_eq_dec : EqDecision Timespec.
Proof. solve_decision. Defined.

Definition Timespec_bitxor (a b : Timespec) : Timespec :=
  mk_Timespec (Z.lxor (ts_high a) (ts_high b)) (Z.lxor (ts_low a) (ts_low b)).

Inductive FileSecurity :=
| Windows (str_desc : string) (info : option Z)
| Unix (uid gid : Z)
| Portable (owner group : option string).

#[export] Instance FileSecurity_eq_dec : EqDecision FileSecurity.
Proof. solve_decision. Defined.

(** ** The calls *)
Inductive VFSCall :=
| mknod (p : path) (mode rdev : Z) (sec : FileSecurity)
| mkdir (p : path) (sec : FileSecurity) (mode : Z)
| unlink (p : path)
| rmdir (p : path)
| symlink (from to : path) (sec : FileSecurity)
| rename (from to : path) (flags : Z)
| link (from to : path) (sec : FileSecurity)
| chmod (p : path) (mode : Z)
| truncate (p : path) (size : Z)
| write (p : path) (offset : Z) (buf : list Z)
| diff_write (p : path) (offset : Z) (buf : list Z)
| fallocate (p : path) (mode offset length : Z)
| setxattr (p : path) (name value : list Z) (flags : Z)
| removexattr (p : path) (name : list Z)
| create (p : path) (flags : Z) (sec : FileSecurity) (mode : Z)
| utimens (p : path) (timespec : Timespec * Timespec * Timespec)
| fsync (p : path) (isdatasync : Z)
| truncating_write (p : path) (offset : Z) (buf : list Z) (length : Z)
| security (p : path) (sec : FileSecurity).

#[export] Instance VFSCall_eq_dec : EqDecision VFSCall.
Proof. solve_decision. Defined.

(** ** Messages between server and client *)
Inductive ClientMode :=
| MODE_ASYNC | MODE_SYNC | MODE_SEMISYNC | MODE_FLUSHSYNC | MODE_CONTROL.

#[export] Instance ClientMode_eq_dec : EqDecision ClientMode.
Proof. solve_decision. Defined.

Definition ClientMode_eqb (a b : ClientMode) : bool := bool_decide (a = b).

(** [bitflags!] sets are their bits. *)
Definition CompMode_RT_DSSC_ZLIB : Z := 1.
Definition CompMode_RT_DSSC_CHUNKED : Z := 2.
Definition CompMode_RT_DSSC_ZSTD : Z := 4.
Definition CompMode_STREAM_ZSTD : Z := 8.
Definition CompMode_STREAM_LZ4 : Z := 16.
Definition CompMode_STREAM_MASK : Z := 24.
Definition Options_INITIAL_RSYNC : Z := 1.
Definition flags_contains (set flag : Z) : bool := Z.land set flag =? flag.
Definition flags_intersects (set flag : Z) : bool := negb (Z.land set flag =? 0).
Definition flags_insert (set flag : Z) : Z := Z.lor set flag.

Record InitMsg := mk_InitMsg {
  im_mode : ClientMode; im_dsthash : Z; im_compress : Z;
  im_iolimit_bps : Z; im_options : Z }.

Inductive ClientAck := Ack | Dead | RetCode (code : Z).

#[export] Instance ClientAck_eq_dec : EqDecision ClientAck.
Proof. solve_decision. Defined.

Record AckMsg := mk_AckMsg { retcode : ClientAck; ack_tid : Z }.

Inductive FsyncerMsg :=
| Msg_InitMsg (m : InitMsg)
| Msg_AsyncOp (call : VFSCall)
| Msg_SyncOp (call : VFSCall) (tid : Z)
| Msg_Ack (m : AckMsg)
| Msg_Cork (tid : Z)
| Msg_AckCork (tid : Z)
| Msg_Uncork
| Msg_NOP.

(** ** Slices *)
Definition buf_get (buf : list Z) (i : Z) : outcome Z :=
  match buf !! Z.to_nat i with
  | Some b => if i <? 0 then Panic else Ok b
  | None => Panic
  end.

Definition buf_set (buf : list Z) (i v : Z) : outcome (list Z) :=
  if (0 <=? i) && (i <? zlen buf) then Ok (<[Z.to_nat i := v]> buf) else Panic.

(** [xor_buf]: XORs [old] into the front of [new]. *)
Fixpoint xor_prefix (new old : list Z) : list Z :=
  match old, new with
  | o :: old, n :: new => Z.lxor n o :: xor_prefix new old
  | _, _ => new
  end.

Definition xor_buf (new old : list Z) : outcome (list Z) :=
  if zlen old <=? zlen new then Ok (xor_prefix new old) else Panic.

(** [Result<T, T>::err_or_ok]. *)
Definition err_or_ok {T} (r : T + T) : T :=
  match r with inl t => t | inr t => t end.

(** ** Sizes with a unit suffix *)
Definition digit_val (c : ascii) : option Z :=
  let n := Z.of_nat (nat_of_ascii c) in
  if (48 <=? n) && (n <=? 57) then Some (n - 48) else None.

Fixpoint parse_digits (acc : Z) (l : list ascii) : option Z :=
  match l with
  | [] => Some acc
  | c :: l =>
    match digit_val c with
    | Some d =>
      let acc := acc * 10 + d in
      if acc <? 2 ^ 64 then parse_digits acc l else None
    | None => None
    end
  end.

(** [str::parse::<usize>] (64-bit). *)
Definition parse_u64 (l : list ascii) : option Z :=
  match l with
  | [] => None
  | c :: l' =>
    if Ascii.eqb c "+"%char
    then match l' with [] => None | _ => parse_digits 0 l' end
    else parse_digits 0 l
  end.

Definition parse_human_size (s : string) : outcome (option Z) :=
  let l := list_ascii_of_string s in
  match last l with
  | None => Panic
  | Some c =>
    let front := removelast l in
    let scaled (k : Z) := Ok ((fun n => u64 (n * k)) <$> parse_u64 front) in
    if Ascii.eqb c "K" || Ascii.eqb c "k" then scaled 1024
    else if Ascii.eqb c "M" || Ascii.eqb c "m" then scaled (1024 * 1024)
    else if Ascii.eqb c "G" || Ascii.eqb c "g" then scaled (1024 * 1024 * 1024)
    else Ok (parse_u64 l)
  end.

(** ** Zero-run-length coding *)

(** The inner [while] that counts zeroes; [run] is a [u8] that stops at 255, so
    256 rounds are enough. *)
Fixpoint zrle_zeros (fuel : nat) (buf : list Z) (i run : Z) : Z * Z :=
  match fuel with
  | O => (i, run)
  | S fuel =>
    if (i <? zlen buf) && (default 1 (buf !! Z.to_nat i) =? 0) && negb (run =? 255)
    then zrle_zeros fuel buf (i + 1) (run + 1) else (i, run)
  end.

(** The inner [while] that moves literals down. *)
Fixpoint zrle_copy (fuel : nat) (buf : list Z) (i saved : Z) : outcome (list Z * Z) :=
  match fuel with
  | O => NoFuel
  | S fuel =>
    if i <? zlen buf then
      b ← buf_get buf i;
      if b =? 0 then Ok (buf, i)
      else buf ← buf_set buf (u64 (i - saved)) b;
           zrle_copy fuel buf (i + 1) saved
    else Ok (buf, i)
  end.

Fixpoint zrle_loop (fuel : nat) (buf : list Z) (i saved : Z)
  : outcome (option (list Z) * list Z) :=
  match fuel with
  | O => NoFuel
  | S fuel =>
    if i <? zlen buf then
      let '(i, run) := zrle_zeros 256 buf i 0 in
      if (run =? 1) && (saved =? 0) then Ok (None, buf)
      else
        let saved := u64 (u64 (saved + run) - 2) in
        buf ← buf_set buf (u64 (u64 (i - saved) - 2)) 0;
        buf ← buf_set buf (u64 (u64 (i - saved) - 1)) run;
        '(buf, i) ← zrle_copy (S (List.length buf)) buf i saved;
        zrle_loop fuel buf i saved
    else
      let final_len := u64 (zlen buf - saved) in
      if final_len <=? zlen buf
      then Ok (Some (take (Z.to_nat final_len) buf), buf) else Panic
  end.

(** [zrle]: the compressed prefix, if any, and the buffer it was built in. *)
Definition zrle (buf : list Z) : outcome (option (list Z) * list Z) :=
  zrle_loop (S (List.length buf)) buf 0 0.

(** The literals from [i] on, up to the next zero byte. *)
Fixpoint literals (l : list Z) : list Z * list Z :=
  match l with
  | [] => ([], [])
  | b :: l' => if b =? 0 then ([], l) else let '(k, r) := literals l' in (b :: k, r)
  end.

(** [zrld]: [cap] is the capacity the vector is known to have; growing past it
    with [set_len] is undefined behaviour and modelled as a panic. *)
Fixpoint zrld_loop (fuel : nat) (buf vec : list Z) (cap : Z) : outcome (list Z) :=
  match fuel with
  | O => NoFuel
  | S fuel =>
    match buf with
    | [] => Ok vec
    | b :: rest =>
      '(vec, rest) ←
        (if b =? 0 then
           match rest with
           | [] => Panic
           | num :: rest =>
             if zlen vec + num <=? cap
             then Ok (vec ++ replicate (Z.to_nat num) 0, rest) else Panic
           end
         else Ok (vec, buf));
      let '(lits, rest) := literals rest in
      let vec := vec ++ lits in
      zrld_loop fuel rest vec (Z.max cap (zlen vec))
    end
  end.

Definition zrld (buf : list Z) (size_hint : option Z) : outcome (list Z) :=
  zrld_loop (S (List.length buf)) buf [] (default 0 size_hint).

(** ** A value created on first use *)
Record Lazy (T : Type) := mk_Lazy { lazy_f : option (unit -> T); lazy_t : option T }.
Arguments mk_Lazy {T} _ _.
Arguments lazy_f {T} _.
Arguments lazy_t {T} _.

Definition Lazy_new {T} (f : unit -> T) : Lazy T := mk_Lazy (Some f) None.

Definition Lazy_get_or_create {T} : M (Lazy T) T := fun z =>
  match lazy_t z with
  | Some t => (Ok t, z)
  | None =>
    match lazy_f z with
    | Some f => (Ok (f tt), mk_Lazy None (Some (f tt)))
    | None => (Panic, z)
    end
  end.

Definition Lazy_take {T} (z : Lazy T) : outcome T :=
  match lazy_t z, lazy_f z with
  | Some t, _ => Ok t
  | None, Some f => Ok (f tt)
  | None, None => Panic
  end.

(** ** Lemmas on XOR *)
Lemma lxor_cancel_r a b : Z.lxor (Z.lxor a b) b = a.
Proof. by rewrite Z.lxor_assoc, Z.lxor_nilpotent, Z.lxor_0_r. Qed.

Lemma lxor_cancel_l a b : Z.lxor a (Z.lxor a b) = b.
Proof. by rewrite <- Z.lxor_assoc, Z.lxor_nilpotent, Z.lxor_0_l. Qed.

Lemma Timespec_xor_cancel_r a b : Timespec_bitxor (Timespec_bitxor a b) b = a.
Proof. destruct a. unfold Timespec_bitxor. simpl. by rewrite !lxor_cancel_r. Qed.

Lemma Timespec_xor_comm a b : Timespec_bitxor a b = Timespec_bitxor b a.
Proof. unfold Timespec_bitxor. by rewrite Z.lxor_comm, (Z.lxor_comm (ts_low a)). Qed.

Lemma length_xor_prefix new old : List.length (xor_prefix new old) = List.length new.
Proof.
  revert new. induction old as [|o old IH]; intros [|n new]; simpl; auto.
Qed.

Lemma xor_prefix_cancel new old : xor_prefix (xor_prefix new old) old = new.
Proof.
  revert new. induction old as [|o old IH]; intros [|n new]; simpl; auto.
  by rewrite lxor_cancel_r, IH.
Qed.

#[export] Hint Rewrite lxor_cancel_r lxor_cancel_l Timespec_xor_cancel_r
  xor_prefix_cancel length_xor_prefix : fsyncer.
