(* ===== verification/Filestore.v ===== *)
(** * Store of deleted files: [fsyncd/src/journal/filestore.rs]

    A bilog journal keeps the contents of unlinked regular files in the
    directory [.fsyncer-deleted] of the backing store, one file per token, and
    evicts the oldest tokens when the configured size is exceeded. The host
    file system is reduced to what the component asks of it: that directory,
    in the order [read_dir] lists it, the metadata of other paths, and which
    renames into the directory fail. *)

From stdpp Require Import base list numbers option strings sorting.
From Stdlib Require Import ZArith Lia.
From S2P Require Import Prelude Common.

Local Open Scope Z_scope.

(** Metadata the store reads. *)
Record meta := mk_meta { m_len : Z; m_uid : Z; m_gid : Z }.

(** A directory entry is named by the number its file name parses to, [None]
    for a name that [parse::<u64>] refuses. *)
Record host := mk_host {
  h_store_exists : bool;
  h_store : list (option Z * meta);
  h_outside : path -> option meta;
  h_rename : path -> Z -> option io_error }.   (* the error of moving a path to a token *)

Inductive DeletePolicy := FilestoreEntry.

Record FileStore := mk_FileStore {
  current_size : Z; oldest_token : Z; current_token : Z; max_size : Z;
  fs_vfsroot : path; policy : DeletePolicy }.

Definition FILESTORE_PATH : string := ".fsyncer-deleted".

Definition store_entry (h : host) (token : Z) : option meta :=
  snd <$> List.find (fun e => bool_decide (fst e = Some token)) (h_store h).

(** [fs::remove_file] and [fs::rename] on the store directory. *)
Definition store_remove (h : host) (token : Z) : host :=
  mk_host (h_store_exists h)
    (List.filter (fun e => negb (bool_decide (fst e = Some token))) (h_store h)) (h_outside h) (h_rename h).

Definition store_rename (h : host) (p : path) (m : meta) (token : Z) : host :=
  mk_host (h_store_exists h)
    (h_store (store_remove h token) ++ [(Some token, m)])
    (fun q => if bool_decide (q = p) then None else h_outside h q) (h_rename h).

(** [FileStore::new]. *)
Definition token_of (o : option (option Z * meta)) : M host Z :=
  match o with
  | None => mret 0
  | Some (t, _) => expect t
  end.

Definition FileStore_new (vfsroot : path) (max : Z) : M host FileStore :=
  h ← get;
  _ ← (if h_store_exists h then mret tt
       else put (mk_host true (h_store h) (h_outside h) (h_rename h)));
  h ← get;
  let size := foldl (fun acc e => u64 (acc + m_len (snd e))) 0 (h_store h) in
  oldest ← token_of (head (h_store h));
  current ← token_of (last (h_store h));
  mret (mk_FileStore size oldest current max vfsroot FilestoreEntry).

(** [FileStore::delete]. *)
Definition FileStore_delete (token : Z) : M (FileStore * host) Z :=
  '(st, h) ← get;
  match store_entry h token with
  | None => throw NotFound
  | Some m =>
    _ ← put (mk_FileStore (u64 (current_size st - m_len m)) (u64 (oldest_token st + 1))
               (current_token st) (max_size st) (fs_vfsroot st) (policy st),
             store_remove h token);
    mret (m_len m)
  end.

(** The eviction loop of [FileStore::store]. *)
Fixpoint evict (fuel : nat) (size : Z) : M (FileStore * host) unit :=
  match fuel with
  | O => lift NoFuel
  | S fuel =>
    '(st, h) ← get;
    if max_size st <? u64 (current_size st + size) then
      match policy st with
      | FilestoreEntry =>
        _ ← FileStore_delete (oldest_token st);
        evict fuel size
      end
    else mret tt
  end.

(** [FileStore::store]. Every round of the loop removes a stored file or fails,
    which bounds the rounds by the number of stored files. The token is used up
    before the file is moved. *)
Definition FileStore_store (p : path) : M (FileStore * host) Z :=
  '(st, h) ← get;
  m ← expect (h_outside h p);
  _ ← evict (S (length (h_store h))) (m_len m);
  '(st, h) ← get;
  let token := current_token st in
  let st := mk_FileStore (current_size st) (oldest_token st) (u64 (current_token st + 1))
              (max_size st) (fs_vfsroot st) (policy st) in
  match h_rename h p token with
  | Some e => _ ← put (st, h); throw e
  | None =>
    _ ← put (mk_FileStore (u64 (current_size st + m_len m)) (oldest_token st)
               (current_token st) (max_size st) (fs_vfsroot st) (policy st),
             store_rename h p m token);
    mret token
  end.

(** [FileStore::recover]: the call that links a stored file back. *)
Definition FileStore_recover (token_name : Z -> string) (h : host) (token : Z) (p : path)
  : outcome VFSCall :=
  match store_entry h token with
  | None => Err NotFound
  | Some m => Ok (link (mk_path true [FILESTORE_PATH; token_name token]) p
                       (Unix (m_uid m) (m_gid m)))
  end.

(** ** Invariant

    The stored tokens are [oldest_token .. current_token - 1] in listing order
    and [current_size] is their total size. *)
Definition total_size (l : list (option Z * meta)) : Z :=
  foldr (fun e acc => m_len (snd e) + acc) 0 l.

Definition sizes_ok (l : list (option Z * meta)) : Prop :=
  Forall (fun e => 0 <= m_len (snd e)) l.

Record store_inv (st : FileStore) (h : host) : Prop := mk_store_inv {
  si_order : 0 <= oldest_token st <= current_token st;
  si_tokens_bound : current_token st < 2 ^ 63;
  si_max : 0 <= max_size st < 2 ^ 63;
  si_tokens : map fst (h_store h) =
    Some <$> seqZ (oldest_token st) (current_token st - oldest_token st);
  si_sizes : sizes_ok (h_store h);
  si_size : current_size st = total_size (h_store h);
  si_budget : total_size (h_store h) <= max_size st }.

Lemma total_size_nonneg l : sizes_ok l -> 0 <= total_size l.
Proof. induction 1; simpl; lia. Qed.

Lemma total_size_app k l : total_size (k ++ l) = total_size k + total_size l.
Proof. induction k; simpl; lia. Qed.

Lemma filter_id_Forall {A} (P : A -> bool) l :
  Forall (fun x => P x = true) l -> List.filter P l = l.
Proof. induction 1 as [|x l Hx Hl IH]; simpl; [done|]. by rewrite Hx, IH. Qed.

(** Tokens below the first of a run, or past its last, name no entry of it. *)
Lemma tokens_absent (l : list (option Z * meta)) a n t :
  map fst l = Some <$> seqZ a n -> t < a \/ a + n <= t ->
  Forall (fun e => fst e <> Some t) l.
Proof.
  intros Hl Ht. apply Forall_forall. intros e He Heq.
  assert (fst e ∈ map fst l) as Hin
    by (apply list_elem_of_In, in_map; by apply list_elem_of_In).
  rewrite Hl, Heq in Hin. apply list_elem_of_fmap in Hin as (z & Hz & Hin).
  apply elem_of_seqZ in Hin. inv Hz. lia.
Qed.

Lemma store_entry_absent h t :
  Forall (fun e => fst e <> Some t) (h_store h) -> store_entry h t = None.
Proof.
  unfold store_entry. induction 1 as [|e l He Hl IH]; [done|]. simpl.
  by rewrite bool_decide_false.
Qed.

Lemma store_remove_absent h t :
  Forall (fun e => fst e <> Some t) (h_store h) -> store_remove h t = h.
Proof.
  intros H. unfold store_remove. rewrite filter_id_Forall; [by destruct h|].
  eapply Forall_impl; [apply H|]. intros e He. simpl. by rewrite bool_decide_false.
Qed.

Lemma store_inv_fresh st h :
  store_inv st h -> Forall (fun e => fst e <> Some (current_token st)) (h_store h).
Proof. intros []. eapply tokens_absent; [done|lia]. Qed.

(** A nonempty store starts with its oldest token, and deleting it removes the
    head of the listing and keeps the invariant. *)
Lemma delete_oldest st h :
  store_inv st h -> oldest_token st < current_token st ->
  exists m l, h_store h = (Some (oldest_token st), m) :: l /\
    let st' := mk_FileStore (current_size st - m_len m) (oldest_token st + 1)
      (current_token st) (max_size st) (fs_vfsroot st) (policy st) in
    let h' := mk_host (h_store_exists h) l (h_outside h) (h_rename h) in
    FileStore_delete (oldest_token st) (st, h) = (Ok (m_len m), (st', h')) /\
    store_inv st' h'.
Proof.
  intros [Ho Hc Hm Ht Hs Hz Hb] Hlt. rewrite seqZ_cons in Ht by lia.
  destruct (h_store h) as [|[t m] l] eqn:Hh; [done|].
  injection Ht as -> Hl. exists m, l. split; [done|].
  unfold sizes_ok in Hs. inv Hs. simpl in *.
  pose proof (total_size_nonneg l ltac:(done)).
  assert (Forall (fun e => fst e <> Some (oldest_token st)) l) as Hf
    by (eapply tokens_absent; [done|lia]).
  split.
  - unfold FileStore_delete, store_entry, store_remove. munfold. rewrite Hh. simpl.
    rewrite bool_decide_true by done. simpl.
    rewrite !u64_small by lia. rewrite filter_id_Forall; [done|].
    eapply Forall_impl; [apply Hf|]. intros e He. simpl. by rewrite bool_decide_false.
  - constructor; simpl; try done; try lia.
    rewrite Hl. do 2 f_equal; lia.
Qed.

(** The eviction loop ends with the invariant kept, room for the new file, and
    only the oldest files gone. *)
Lemma evict_spec n st h size :
  store_inv st h -> (length (h_store h) < n)%nat -> 0 <= size <= max_size st ->
  exists st' h', evict n size (st, h) = (Ok tt, (st', h')) /\ store_inv st' h' /\
    current_token st' = current_token st /\ max_size st' = max_size st /\
    current_size st' + size <= max_size st /\
    h_outside h' = h_outside h /\ h_rename h' = h_rename h /\ h_store h' `suffix_of` h_store h.
Proof.
  revert st h. induction n as [|n IH]; intros st h Hinv Hn Hsz; [lia|].
  cbn [evict]. munfold. pose proof Hinv as [Ho Hc Hm Ht Hs Hz Hb].
  pose proof (total_size_nonneg _ Hs). rewrite u64_small by lia.
  destruct (max_size st <? current_size st + size) eqn:E.
  2: { exists st, h. split_and!; try done. lia. }
  destruct (decide (oldest_token st < current_token st)) as [Hlt|Hge].
  2: { replace (current_token st - oldest_token st) with 0 in Ht by lia.
       destruct (h_store h); [|done]. simpl in *. lia. }
  destruct (delete_oldest st h Hinv Hlt) as (m & l & Hh & Hd & Hi).
  destruct (policy st) eqn:Hp. rewrite Hd.
  destruct (IH _ _ Hi) as (st' & h' & -> & Hi' & H1 & H2 & H3 & H4 & H5 & H6);
    [simpl; rewrite Hh in Hn; simpl in Hn; lia|simpl; lia|].
  exists st', h'. split_and!; try done. rewrite Hh. by apply suffix_cons_r.
Qed.

Lemma store_rename_inv st h p m :
  store_inv st h -> 0 <= m_len m -> current_size st + m_len m <= max_size st ->
  current_token st + 1 < 2 ^ 63 ->
  store_inv
    (mk_FileStore (current_size st + m_len m) (oldest_token st) (current_token st + 1)
       (max_size st) (fs_vfsroot st) (policy st))
    (store_rename h p m (current_token st)).
Proof.
  intros Hi Hm Hr Ht. pose proof (store_inv_fresh _ _ Hi) as Hf.
  destruct Hi as [Ho Hc Hmx Htk Hs Hz Hb].
  unfold store_rename. rewrite store_remove_absent by done.
  constructor; simpl; try lia.
  - rewrite map_app, Htk. simpl.
    replace (current_token st + 1 - oldest_token st)
      with (current_token st - oldest_token st + 1) by lia.
    rewrite seqZ_app, fmap_app by lia. simpl. do 3 f_equal. lia.
  - apply Forall_app. split; [done|]. repeat constructor. done.
  - rewrite total_size_app. simpl. lia.
  - rewrite total_size_app. simpl. lia.
Qed.

Lemma store_entry_renamed h p m t :
  Forall (fun e => fst e <> Some t) (h_store h) ->
  store_entry (store_rename h p m t) t = Some m.
Proof.
  intros H. unfold store_rename, store_entry. rewrite store_remove_absent by done.
  simpl. induction H as [|e l He Hl IH]; simpl.
  - by rewrite bool_decide_true.
  - by rewrite bool_decide_false.
Qed.

(** A token that was used up without a file: the listing is one short of what
    the invariant says. *)
Lemma token_gap st h st' :
  store_inv st h -> oldest_token st' = oldest_token st -> current_token st' = current_token st + 1 -> ~ store_inv st' h.
Proof.
  intros [Ho _ _ Ht _ _ _] Eo Ec [_ _ _ Ht' _ _ _]. rewrite Ht, Eo, Ec in Ht'. apply (f_equal length) in Ht'.
  rewrite !length_fmap, !length_seqZ in Ht'. lia.
Qed.

Lemma store_spec st h p m :
  store_inv st h -> h_outside h p = Some m -> 0 <= m_len m <= max_size st ->
  current_token st + 1 < 2 ^ 63 ->
  exists st' h', current_token st' = current_token st + 1 /\ store_entry h (current_token st) = None /\
    match h_rename h p (current_token st) with
    | None => FileStore_store p (st, h) = (Ok (current_token st), (st', h')) /\ store_inv st' h' /\
        store_entry h' (current_token st) = Some m /\ h_outside h' p = None
    | Some e => FileStore_store p (st, h) = (Err e, (st', h')) /\ ~ store_inv st' h' /\
        current_size st' = total_size (h_store h') /\ h_store h' `suffix_of` h_store h /\ h_outside h' = h_outside h
    end.
Proof.
  intros Hinv Hp Hlen Hct. unfold FileStore_store. munfold. rewrite Hp.
  destruct (evict_spec (S (length (h_store h))) st h (m_len m) Hinv)
    as (st1 & h1 & -> & Hi & Hc & Hmx & Hroom & Hout & Hren & Hsuf); [lia|lia|].
  pose proof Hi as [Ho' Hc' Hm' Ht' Hs' Hz' Hb'].
  pose proof (total_size_nonneg _ Hs'). rewrite (u64_small (current_token st1 + 1)) by lia.
  rewrite <- Hc, <- Hren. destruct (h_rename h1 p (current_token st1)) as [e|] eqn:Er.
  - eexists _, _. split; [|split; [|split; [reflexivity|]]]; [done|rewrite Hc; by apply store_entry_absent, store_inv_fresh|].
    split_and!; [by apply (token_gap st1)|done..].
  - eexists _, _. cbn [current_size oldest_token current_token max_size fs_vfsroot policy].
    rewrite (u64_small (current_size st1 + m_len m)) by lia.
    split; [|split; [|split; [reflexivity|]]]; [done|rewrite Hc; by apply store_entry_absent, store_inv_fresh|].
    split_and!; [apply store_rename_inv; try done; lia|by apply store_entry_renamed, store_inv_fresh|simpl; by rewrite bool_decide_true].
Qed.

(** When such a token is the oldest one, no file can be evicted any more. *)
Lemma evict_stops_at_gap n st h size :
  store_entry h (oldest_token st) = None -> max_size st < u64 (current_size st + size) ->
  evict (S n) size (st, h) = (Err NotFound, (st, h)).
Proof.
  intros Hn Hs. cbn [evict]. munfold. apply Z.ltb_lt in Hs. rewrite Hs. destruct (policy st).
  unfold FileStore_delete. munfold. by rewrite Hn.
Qed.

(** C25. Storing a file that fits uses a token that names no stored file. If the
    file can be moved, the invariant and the size budget are kept and the file is
    under that token. If it cannot, the error is returned with the file left in
    place and the size right, but the token is used up: the invariant does not
    hold any more, and an eviction that comes to the missing token fails
    ([evict_stops_at_gap]). *)
Theorem filestore_store_correct st h p m :
  store_inv st h -> h_outside h p = Some m -> 0 <= m_len m <= max_size st ->
  current_token st + 1 < 2 ^ 63 ->
  exists st' h', current_token st' = current_token st + 1 /\ store_entry h (current_token st) = None /\
    match h_rename h p (current_token st) with
    | None => FileStore_store p (st, h) = (Ok (current_token st), (st', h')) /\ store_inv st' h' /\
        store_entry h' (current_token st) = Some m /\ h_outside h' p = None
    | Some e => FileStore_store p (st, h) = (Err e, (st', h')) /\ ~ store_inv st' h' /\
        current_size st' = total_size (h_store h') /\ h_store h' `suffix_of` h_store h /\ h_outside h' = h_outside h
    end.
Proof. apply store_spec. Qed.

Lemma foldl_sizes l acc :
  sizes_ok l -> 0 <= acc -> acc + total_size l < 2 ^ 64 ->
  foldl (fun acc e => u64 (acc + m_len (snd e))) acc l = acc + total_size l.
Proof.
  intros Hs. revert acc. induction Hs as [|e l He Hl IH]; intros acc Ha Hb; simpl in *.
  - lia.
  - pose proof (total_size_nonneg l Hl). rewrite u64_small by lia. rewrite IH; lia.
Qed.

Lemma last_token (l : list (option Z * meta)) a n :
  map fst l = Some <$> seqZ a n -> 0 < n ->
  exists l' m, l = l' ++ [(Some (a + n - 1), m)].
Proof.
  intros Hl Hn. destruct (exists_last (l := l)) as (l' & [t m] & ->).
  { intros ->. rewrite seqZ_cons in Hl by lia. done. }
  exists l', m. replace n with (n - 1 + 1) in Hl by lia.
  rewrite seqZ_app, fmap_app, map_app in Hl by lia. simpl in Hl.
  apply app_inj_2 in Hl as [_ Hl]; [|done].
  injection Hl as ->. do 4 f_equal. lia.
Qed.

(** Opening a store with files in it: the oldest token and the total size are
    read back, but the next token is the newest one in use. *)
Lemma FileStore_new_spec st h vfsroot max :
  store_inv st h -> oldest_token st < current_token st -> h_store_exists h = true ->
  FileStore_new vfsroot max h =
    (Ok (mk_FileStore (current_size st) (oldest_token st) (current_token st - 1) max
           vfsroot FilestoreEntry), h).
Proof.
  intros [Ho Hc Hm Ht Hs Hz Hb] Hlt Hex. unfold FileStore_new, token_of. munfold.
  rewrite Hex. pose proof (last_token _ _ _ Ht ltac:(lia)) as (l' & m & Hl).
  pose proof (total_size_nonneg _ Hs).
  rewrite foldl_sizes by (done || lia).
  assert (exists m0, head (h_store h) = Some (Some (oldest_token st), m0)) as [m0 Hh].
  { rewrite seqZ_cons in Ht by lia. destruct (h_store h) as [|[t m1] ?]; [done|].
    injection Ht as ->. eauto. }
  pose proof (f_equal last Hl) as Hlast. rewrite last_snoc in Hlast.
  rewrite Hh, Hlast. do 2 f_equal. f_equal; lia.
Qed.

(** Known defect: reopening a store that holds files takes the newest token in use as the next
    one, so the next stored file replaces the newest stored file. *)
Theorem filestore_reopen_overwrites st h vfsroot max p mp :
  store_inv st h -> oldest_token st < current_token st -> h_store_exists h = true ->
  h_outside h p = Some mp -> 0 <= m_len mp ->
  total_size (h_store h) + m_len mp <= max < 2 ^ 63 -> (forall t, h_rename h p t = None) ->
  exists st1 st2 h2 m,
    FileStore_new vfsroot max h = (Ok st1, h) /\
    store_entry h (current_token st1) = Some m /\
    FileStore_store p (st1, h) = (Ok (current_token st1), (st2, h2)) /\
    store_entry h2 (current_token st1) = Some mp /\
    length (h_store h2) = length (h_store h).
Proof.
  intros Hinv Hlt Hex Hp Hm0 Hmx Hren.
  pose proof (FileStore_new_spec st h vfsroot max Hinv Hlt Hex) as Hnew.
  destruct Hinv as [Ho Hc Hm Ht Hs Hz Hb].
  pose proof (last_token _ _ _ Ht ltac:(lia)) as (l & m & Hl).
  replace (oldest_token st + (current_token st - oldest_token st) - 1)
    with (current_token st - 1) in Hl by lia.
  pose proof (total_size_nonneg _ Hs).
  assert (Forall (fun e => fst e <> Some (current_token st - 1)) l) as Hf.
  { eapply (tokens_absent l (oldest_token st) (current_token st - oldest_token st - 1)); [|lia].
    rewrite Hl in Ht. rewrite map_app in Ht.
    replace (current_token st - oldest_token st)
      with (current_token st - oldest_token st - 1 + 1) in Ht by lia.
    rewrite seqZ_app, fmap_app in Ht by lia. by apply app_inj_2 in Ht as [Ht _]. }
  assert (store_remove h (current_token st - 1)
          = mk_host (h_store_exists h) l (h_outside h) (h_rename h)) as Hrm.
  { unfold store_remove. rewrite Hl, List.filter_app. simpl.
    rewrite bool_decide_true by done. simpl. rewrite app_nil_r, filter_id_Forall; [done|].
    eapply Forall_impl; [apply Hf|]. intros e He. simpl. by rewrite bool_decide_false. }
  eexists _, _, _, m. split; [exact Hnew|]. simpl. split_and!.
  - unfold store_entry. rewrite Hl. clear -Hf.
    induction Hf; simpl; [by rewrite bool_decide_true|by rewrite bool_decide_false].
  - unfold FileStore_store. cbn [evict]. munfold. rewrite Hp. simpl.
    rewrite u64_small by lia.
    replace (max <? current_size st + m_len mp) with false by lia. by rewrite Hren.
  - unfold store_rename, store_entry. cbn [current_token]. rewrite Hrm. simpl. clear -Hf.
    induction Hf; simpl; [by rewrite bool_decide_true|by rewrite bool_decide_false].
  - unfold store_rename. cbn [current_token]. rewrite Hrm, Hl. simpl. rewrite !length_app. done.
Qed.

(** ** A store of two files *)
Definition demo_host : host :=
  mk_host true [(Some 3, mk_meta 40 0 0); (Some 4, mk_meta 50 0 0)]
    (fun p => if bool_decide (p = mk_path true ["f"%string]) then Some (mk_meta 30 7 8) else None) (fun _ _ => None).
Definition demo_filestore : FileStore := mk_FileStore 90 3 5 100 (mk_path true []) FilestoreEntry.

Lemma demo_store_inv : store_inv demo_filestore demo_host.
Proof. constructor; try (cbn; lia); try reflexivity. repeat constructor; cbn; lia. Qed.

(** The same when the file cannot be moved. *)
Definition stuck_host : host := mk_host true (h_store demo_host) (h_outside demo_host) (fun _ _ => Some (OsError 18)).

Lemma filestore_store_correct_witness :
  (exists st' h', FileStore_store (mk_path true ["f"%string]) (demo_filestore, demo_host)
    = (Ok 5, (st', h')) /\ store_inv st' h' /\ store_entry h' 5 = Some (mk_meta 30 7 8)) /\
  exists st' h', FileStore_store (mk_path true ["f"%string]) (demo_filestore, stuck_host)
    = (Err (OsError 18), (st', h')) /\ current_token st' = 6 /\ ~ store_inv st' h'.
Proof.
  assert (store_inv demo_filestore stuck_host) as Hi by (destruct demo_store_inv; by constructor).
  destruct (filestore_store_correct demo_filestore demo_host (mk_path true ["f"%string])
    (mk_meta 30 7 8) demo_store_inv) as (st' & h' & _ & _ & Hs & Hinv & He & _);
    [reflexivity|cbn; lia|cbn; lia|].
  destruct (filestore_store_correct demo_filestore stuck_host (mk_path true ["f"%string])
    (mk_meta 30 7 8) Hi) as (st2 & h2 & Ht & _ & Hs2 & Hn & _);
    [reflexivity|cbn; lia|cbn; lia|].
  split; [exists st', h'; exact (conj Hs (conj Hinv He))|exists st2, h2; exact (conj Hs2 (conj Ht Hn))].
Defined.

Lemma filestore_reopen_overwrites_witness :
  exists st1 st2 h2, FileStore_new (mk_path true []) 1000 demo_host = (Ok st1, demo_host) /\
    FileStore_store (mk_path true ["f"%string]) (st1, demo_host) = (Ok (current_token st1), (st2, h2)) /\
    length (h_store h2) = 2%nat.
Proof.
  destruct (filestore_reopen_overwrites demo_filestore demo_host (mk_path true []) 1000
    (mk_path true ["f"%string]) (mk_meta 30 7 8) demo_store_inv)
    as (st1 & st2 & h2 & m & Hn & _ & Hs & _ & Hl);
    [cbn; lia|reflexivity|reflexivity|cbn; lia|cbn; lia|done|].
  exists st1, st2, h2. by split_and!.
Defined.
