(* ===== verification/Store.v ===== *)
(** * The journal ring file: [fsyncd/src/journal/store.rs]

    A journal is a file with a fixed-size header followed by a ring of
    128 KiB blocks. [head] and [tail] are logical offsets that only grow; the
    ring position of an offset is its remainder by the ring size. Entries never
    cross a block; the rest of a block is marked by a zero length word, or left
    alone when fewer than four bytes remain.

    [bincode] and the [crc] crate are parameters: the class [StoreFormat] holds
    the functions the code calls and [StoreFormatLaws] what it relies on. *)

From stdpp Require Import base list numbers option strings.
From Stdlib Require Import ZArith Lia.
From S2P Require Import Prelude Common Filestore.

Local Open Scope Z_scope.

(** ** Data *)
Definition BLOCK_SIZE : Z := 1024 * 128.

Inductive JournalType := JT_Invalid | JT_Bilog | JT_Forward | JT_Undo.

#[export] Instance JournalType_eq_dec : EqDecision JournalType.
Proof. solve_decision. Defined.

Record JournalHeader := mk_JournalHeader {
  h_tail : Z; h_head : Z; h_trans_ctr : Z; h_ty : JournalType }.

(** [SystemTime] in nanoseconds. *)
Inductive EntryContent (T : Type) :=
| Payload (t : T)
| Time (t : Z).
Arguments Payload {T} t.
Arguments Time {T} t.

Record StoreEntry (T : Type) := mk_StoreEntry {
  e_fsize : Z; e_trans_id : Z; e_inner : EntryContent T; e_crc32 : Z }.
Arguments mk_StoreEntry {T} _ _ _ _.
Arguments e_fsize {T} _.
Arguments e_trans_id {T} _.
Arguments e_inner {T} _.
Arguments e_crc32 {T} _.

Record JournalConfig := mk_JournalConfig {
  c_sync : bool; c_journal_size : Z; c_filestore_size : Z;
  c_vfsroot : path; c_journal_type : JournalType }.

Record Journal := mk_Journal {
  j_header : JournalHeader; j_size : Z; j_file : file; j_sync : bool;
  j_sbuf : list Z; j_last_time : Z; j_fstore : FileStore }.

Record JournalIterator (T : Type) := mk_JournalIterator {
  it_header : JournalHeader; it_journal : Journal; it_block_buffer : list (StoreEntry T) }.
Arguments mk_JournalIterator {T} _ _ _.
Arguments it_header {T} _.
Arguments it_journal {T} _.
Arguments it_block_buffer {T} _.

(** ** What the journal uses of [bincode] and [crc] *)
Class StoreFormat (T : Type) := {
  ser_header : JournalHeader -> list Z;
  de_header : list Z -> option JournalHeader;
  ser_entry : StoreEntry T -> list Z;
  de_entry : list Z -> option (StoreEntry T);
  checksum_ieee : list Z -> Z }.

(** Values whose fields are in the range of their Rust types. *)
Definition header_ok (h : JournalHeader) : Prop :=
  0 <= h_tail h < 2 ^ 64 /\ 0 <= h_head h < 2 ^ 64 /\ 0 <= h_trans_ctr h < 2 ^ 32.

Definition entry_ok {T} (P : EntryContent T -> Prop) (e : StoreEntry T) : Prop :=
  0 <= e_fsize e < 2 ^ 32 /\ 0 <= e_trans_id e < 2 ^ 32 /\
  0 <= e_crc32 e < 2 ^ 32 /\ P (e_inner e).

(** Documented behaviour: decoding inverts encoding; a struct is its fields in
    order; [u32] takes four little-endian bytes; the header has only
    fixed-width fields; a CRC-32 is 32 bits wide. *)
Class StoreFormatLaws (T : Type) {F : StoreFormat T} := {
  content_ok : EntryContent T -> Prop;
  ser_content : EntryContent T -> list Z;
  law_header_length : forall h1 h2, length (ser_header h1) = length (ser_header h2);
  law_header_de : forall h, header_ok h -> de_header (ser_header h) = Some h;
  law_entry_layout : forall e, ser_entry e =
    le32 (e_fsize e) ++ le32 (e_trans_id e) ++ ser_content (e_inner e) ++ le32 (e_crc32 e);
  law_entry_de : forall e, entry_ok content_ok e -> de_entry (ser_entry e) = Some e;
  law_checksum : forall l, 0 <= checksum_ieee l < 2 ^ 32 }.

(** ** Arithmetic *)
Definition align_up_always (off align : Z) : Z := u64 ((off / align + 1) * align).

Definition align_down (off align : Z) : Z :=
  Z.land off (2 ^ 64 - 1 - (align - 1)).

Arguments BLOCK_SIZE : simpl never.
Arguments align_up_always : simpl never.
Arguments align_down : simpl never.

Section Store.
Context {T : Type} {F : StoreFormat T}.

Definition HEADER_SIZE : Z := zlen (ser_header (mk_JournalHeader 0 0 0 JT_Invalid)).

Definition set_header (j : Journal) (h : JournalHeader) : Journal :=
  mk_Journal h (j_size j) (j_file j) (j_sync j) (j_sbuf j) (j_last_time j) (j_fstore j).
Definition set_file (j : Journal) (f : file) : Journal :=
  mk_Journal (j_header j) (j_size j) f (j_sync j) (j_sbuf j) (j_last_time j) (j_fstore j).
Definition set_sbuf (j : Journal) (b : list Z) : Journal :=
  mk_Journal (j_header j) (j_size j) (j_file j) (j_sync j) b (j_last_time j) (j_fstore j).
Definition set_last_time (j : Journal) (t : Z) : Journal :=
  mk_Journal (j_header j) (j_size j) (j_file j) (j_sync j) (j_sbuf j) t (j_fstore j).
Definition set_tail (h : JournalHeader) (x : Z) : JournalHeader :=
  mk_JournalHeader x (h_head h) (h_trans_ctr h) (h_ty h).
Definition set_head (h : JournalHeader) (x : Z) : JournalHeader :=
  mk_JournalHeader (h_tail h) x (h_trans_ctr h) (h_ty h).
Definition set_ctr (h : JournalHeader) (x : Z) : JournalHeader :=
  mk_JournalHeader (h_tail h) (h_head h) x (h_ty h).

(** [Journal::file_off]: [%] panics when the ring is empty. *)
Definition file_off (j : Journal) (off : Z) : outcome Z :=
  if j_size j =? 0 then Panic else Ok (u64 (HEADER_SIZE + off mod j_size j)).

(** [self.file.read_exact_at(buf, self.file_off(off))]. *)
Definition read_at (j : Journal) (off n : Z) : outcome (list Z) :=
  o ← file_off j off; read_exact_at (j_file j) o n.

(** [self.file.write_all_at(buf, self.file_off(off))]. *)
Definition write_at (buf : list Z) (off : Z) : M Journal unit :=
  j ← get;
  o ← lift (file_off j off);
  put (set_file j (write_all_at (j_file j) buf o)).

(** [Journal::seek]. *)
Definition seek (off : Z) : M Journal unit :=
  j ← get;
  o ← lift (file_off j off);
  put (set_file j (seek_start (j_file j) o)).

(** [Journal::flush]: a [File] has no user-space buffer to write out. *)
Definition flush : M Journal unit := mret tt.

(** [Journal::write_header]. *)
Definition write_header : M Journal unit :=
  j ← get;
  put (set_file j (write_all_at (j_file j) (ser_header (j_header j)) 0)).

(** [self.file.read_u32::<LittleEndian>()] at the cursor. *)
Definition read_u32_le : M Journal Z :=
  j ← get;
  match read_exact 4 (j_file j) with
  | (Ok l, f) => _ ← put (set_file j f); mret (le_val l)
  | (Err e, f) => _ ← put (set_file j f); throw e
  | (Panic, f) => panic
  | (NoFuel, f) => lift NoFuel
  end.

(** ** Writing *)

(** The block switch of [write_inner]: terminate the block, move to the next
    one, drop the oldest block when the ring is full, record the header. *)
Definition switch_block (space_in_block : Z) : M Journal unit :=
  j ← get;
  _ ← (if 4 <=? space_in_block
       then write_at [0; 0; 0; 0] (h_tail (j_header j)) else mret tt);
  _ ← modify (fun j => set_header j
        (set_tail (j_header j) (align_up_always (h_tail (j_header j)) BLOCK_SIZE)));
  j ← get;
  _ ← (if u64 (h_head (j_header j) + j_size j) =? h_tail (j_header j)
       then put (set_header j (set_head (j_header j) (u64 (h_head (j_header j) + BLOCK_SIZE))))
       else mret tt);
  write_header.

(** The end of [write_inner]: put the serialised entry at the tail and advance
    the tail and the transaction counter. *)
Definition append_buf (buf : list Z) (esize : Z) : M Journal unit :=
  _ ← modify (fun j => set_sbuf j buf);
  j ← get;
  _ ← write_at buf (h_tail (j_header j));
  _ ← modify (fun j => set_header j (set_ctr
        (set_tail (j_header j) (u64 (h_tail (j_header j) + esize)))
        (u32 (h_trans_ctr (j_header j) + 1))));
  j ← get;
  if j_sync j then flush else mret tt.

(** [Journal::write_inner]: [assert!] panics on an entry of a block or more. *)
Definition write_inner (e : StoreEntry T) : M Journal unit :=
  let esize := zlen (ser_entry e) in
  if negb (esize <? BLOCK_SIZE) then panic
  else
    let e := mk_StoreEntry (u32 esize) (e_trans_id e) (e_inner e) (e_crc32 e) in
    j ← get;
    let space_in_block :=
      u64 (align_up_always (h_tail (j_header j)) BLOCK_SIZE - h_tail (j_header j)) in
    _ ← (if space_in_block <? esize then switch_block space_in_block else mret tt);
    let buf := ser_entry e in
    let buf := take (length buf - 4) buf in
    let buf := buf ++ le32 (checksum_ieee buf) in
    append_buf buf esize.

(** [Journal::write_entry]; [now] is what the clock returns. *)
Definition write_entry (now : Z) (t : T) : M Journal unit :=
  j ← get;
  if now <? j_last_time j then panic
  else
    _ ← (if 1000000000 <? now - j_last_time j then
           _ ← write_inner (mk_StoreEntry 0 (h_trans_ctr (j_header j)) (Time now) 0);
           modify (fun j => set_last_time j now)
         else mret tt);
    j ← get;
    write_inner (mk_StoreEntry 0 (h_trans_ctr (j_header j)) (Payload t) 0).

(** ** Reading

    [next] returns [Option<Result<..>>]: [Ok None] is [None], [Ok (Some e)] is
    [Some(Ok(e))] and [Err e] is [Some(Err(e))]. *)
Definition read_forward (j : Journal) : JournalIterator T :=
  mk_JournalIterator (j_header j) j [].

Definition read_reverse (j : Journal) : JournalIterator T :=
  mk_JournalIterator (j_header j) j [].

Definition it_set_head (x : Z) : M (JournalIterator T) unit := modify (fun it =>
  mk_JournalIterator (set_head (it_header it) x) (it_journal it) (it_block_buffer it)).
Definition it_set_tail (x : Z) : M (JournalIterator T) unit := modify (fun it =>
  mk_JournalIterator (set_tail (it_header it) x) (it_journal it) (it_block_buffer it)).

(** Skips the padding at the end of a block. *)
Definition skip_padding : M (JournalIterator T) unit :=
  it ← get;
  let head := h_head (it_header it) in
  let up := align_up_always head BLOCK_SIZE in
  if u64 (up - head) <? 4 then it_set_head up
  else
    buf ← lift (read_at (it_journal it) head 4);
    if bool_decide (buf = [0; 0; 0; 0]) then it_set_head up else mret tt.

(** Reads the entry at the iterator's head and steps over it. *)
Definition take_entry : M (JournalIterator T) (option (StoreEntry T)) :=
  it ← get;
  let head := h_head (it_header it) in
  buf ← lift (read_at (it_journal it) head 4);
  let fsize := le_val buf in
  buf ← lift (read_at (it_journal it) head fsize);
  entry ← ok_or_other (de_entry buf);
  _ ← it_set_head (u64 (head + e_fsize entry));
  mret (Some entry).

(** [Iterator::next] of the forward iterator. *)
Definition next_forward : M (JournalIterator T) (option (StoreEntry T)) :=
  it ← get;
  if h_head (it_header it) =? h_tail (it_header it) then mret None
  else _ ← skip_padding; take_entry.

(** The [loop] of the reverse iterator: decodes a block from its start into the
    block buffer, checking sizes and checksums. *)
Fixpoint decode_block (fuel : nat) (decode_tail : Z) : M (JournalIterator T) unit :=
  match fuel with
  | O => lift NoFuel
  | S fuel =>
    it ← get;
    if u64 (h_tail (it_header it) - decode_tail) <? 4 then mret tt
    else
      buf ← lift (read_at (it_journal it) decode_tail 4);
      if bool_decide (buf = [0; 0; 0; 0]) then mret tt
      else
        let fsize := le_val buf in
        if u64 (align_up_always decode_tail BLOCK_SIZE - decode_tail) <? fsize
        then throw OtherError
        else
          _ ← (fun it => let '(r, j) := seek decode_tail (it_journal it) in
                 (r, mk_JournalIterator (it_header it) j (it_block_buffer it)));
          it ← get;
          buf ← lift (read_at (it_journal it) decode_tail fsize);
          if zlen buf <? 4 then panic
          else
            let crc_recorded := le_val (drop (length buf - 4) buf) in
            let crc_computed := checksum_ieee (take (length buf - 4) buf) in
            if negb (crc_recorded =? crc_computed) then throw OtherError
            else
              entry ← ok_or_other (de_entry buf);
              _ ← modify (fun it => mk_JournalIterator (it_header it) (it_journal it)
                    (it_block_buffer it ++ [entry]));
              decode_block fuel (u64 (decode_tail + fsize))
  end.

(** Steps the reverse iterator's [tail] back by the block that was decoded. *)
Definition retreat_tail : M (JournalIterator T) unit :=
  it ← get;
  let tail := h_tail (it_header it) in
  if negb (tail mod BLOCK_SIZE =? 0) then it_set_tail (align_down tail BLOCK_SIZE)
  else if negb (tail =? 0) && negb (tail =? h_head (it_header it))
       then it_set_tail (u64 (tail - BLOCK_SIZE)) else mret tt.

(** [Iterator::next] of the reverse iterator. A decoded entry takes at least a
    byte of its block, so [BLOCK_SIZE] rounds are enough for one block. *)
Definition next_reverse : M (JournalIterator T) (option (StoreEntry T)) :=
  it ← get;
  let tail := h_tail (it_header it) in
  let pop : M (JournalIterator T) (option (StoreEntry T)) := fun it =>
    match last (it_block_buffer it) with
    | None => (Ok None, it)
    | Some e => (Ok (Some e), mk_JournalIterator (it_header it) (it_journal it)
                   (removelast (it_block_buffer it)))
    end in
  match it_block_buffer it with
  | _ :: _ => pop
  | [] =>
    if (h_head (it_header it) =? tail) || (tail =? 0) then mret None
    else
      let decode_tail :=
        if negb (tail mod BLOCK_SIZE =? 0) then align_down tail BLOCK_SIZE
        else u64 (tail - BLOCK_SIZE) in
      _ ← decode_block (Z.to_nat BLOCK_SIZE) decode_tail;
      _ ← retreat_tail;
      pop
  end.

(** Runs an iterator to its end, or to its first error. *)
Fixpoint collect (next : M (JournalIterator T) (option (StoreEntry T)))
  (fuel : nat) : M (JournalIterator T) (list (StoreEntry T)) :=
  match fuel with
  | O => lift NoFuel
  | S fuel =>
    o ← next;
    match o with
    | None => mret []
    | Some e => es ← collect next fuel; mret (e :: es)
    end
  end.

(** ** Creating and opening *)

(** The parts of [Journal::new] and [Journal::open] that build the object;
    [fstore] is the result of [FileStore::new]. *)
Definition ring_size (f : file) : Z := align_down (u64 (f_len f - HEADER_SIZE)) BLOCK_SIZE.

Definition Journal_new (f : file) (c : JournalConfig) (now : Z)
  (fstore : outcome FileStore) : outcome Journal :=
  st ← fstore;
  Ok (mk_Journal (mk_JournalHeader 0 0 0 (c_journal_type c)) (ring_size f) f
        (c_sync c) [] now st).

(** The recovery [loop] of [Journal::open]: follows entries from the recorded
    tail while their transaction ids are consecutive. *)
Fixpoint traverse (fuel : nat) (new_tail tx_max : Z) : M Journal (Z * Z) :=
  match fuel with
  | O => lift NoFuel
  | S fuel =>
    j ← get;
    if align_up_always (h_tail (j_header j)) BLOCK_SIZE <? new_tail
    then mret (new_tail, tx_max)
    else if u64 (align_up_always new_tail BLOCK_SIZE - new_tail) <? 4
    then mret (new_tail, tx_max)
    else
      _ ← seek new_tail;
      fsize ← read_u32_le;
      if fsize =? 0 then mret (new_tail, tx_max)
      else
        let new_tail := u64 (new_tail + fsize) in
        next_tx ← read_u32_le;
        if negb (next_tx =? u32 (tx_max + 1)) then mret (new_tail, tx_max)
        else traverse fuel new_tail next_tx
  end.

(** [Journal::open]. The tail moves by at least a byte in every round and the
    loop stops past the block after the recorded tail. *)
Definition Journal_open (f : file) (c : JournalConfig) (now : Z)
  (fstore : outcome FileStore) : outcome Journal :=
  let f := seek_start f 0 in
  let '(r, f) := read_exact HEADER_SIZE f in
  bytes ← (match r with Err _ => Err OtherError | r => r end);
  header ← (match de_header bytes with Some h => Ok h | None => Err OtherError end);
  if negb (bool_decide (c_journal_type c = JT_Invalid)) &&
     negb (bool_decide (h_ty header = c_journal_type c)) then Err OtherError
  else
    st ← fstore;
    let j := mk_Journal header (ring_size f) f (c_sync c) [] now st in
    let '(r, j) := traverse (Z.to_nat (2 * BLOCK_SIZE)) (h_tail header)
                     (h_trans_ctr header - 1) j in
    '(new_tail, tx_max) ← r;
    Ok (set_header j (set_ctr (set_tail (j_header j) new_tail) (u32 (tx_max + 1)))).

End Store.
