(* ===== verification/StoreSpec.v ===== *)
(** * What the journal promises

    The abstract journal is a list of blocks, oldest first, each a list of
    records (transaction id and content). [Repr] relates it to the ring file of
    [Store]; [spec_write] is the abstract write. *)

From stdpp Require Import base list numbers option strings.
From Stdlib Require Import ZArith Lia.
From S2P Require Import Prelude Common Filestore Store.

Local Open Scope Z_scope.

(** ** Alignment *)
Lemma align_up_always_block n r :
  0 <= n -> 0 <= r < BLOCK_SIZE -> (n + 1) * BLOCK_SIZE < 2 ^ 64 ->
  align_up_always (n * BLOCK_SIZE + r) BLOCK_SIZE = (n + 1) * BLOCK_SIZE.
Proof.
  intros Hn Hr Hb. unfold align_up_always.
  replace ((n * BLOCK_SIZE + r) / BLOCK_SIZE) with n.
  - apply u64_small. unfold BLOCK_SIZE in *. lia.
  - apply Z.div_unique with r; unfold BLOCK_SIZE in *; lia.
Qed.

Lemma align_down_spec off :
  0 <= off < 2 ^ 64 -> align_down off BLOCK_SIZE = off / BLOCK_SIZE * BLOCK_SIZE.
Proof.
  intros H. unfold align_down, BLOCK_SIZE.
  change (2 ^ 64 - 1 - (1024 * 128 - 1)) with (Z.land (Z.ones 64) (Z.lnot (Z.ones 17))).
  rewrite Z.land_assoc, Z.land_ones by lia.
  rewrite Z.mod_small by lia. rewrite <- Z.ldiff_land.
  rewrite Z.ldiff_ones_r by lia.
  rewrite Z.shiftl_mul_pow2, Z.shiftr_div_pow2 by lia. done.
Qed.

Lemma mod_ring n r k :
  0 < k -> 0 <= r < BLOCK_SIZE ->
  (n * BLOCK_SIZE + r) mod (k * BLOCK_SIZE) = (n mod k) * BLOCK_SIZE + r.
Proof.
  intros Hk Hr. pose proof (Z.mod_pos_bound n k Hk). pose proof (Z.div_mod n k ltac:(lia)).
  symmetry. apply Z.mod_unique with (n / k); unfold BLOCK_SIZE in *; nia.
Qed.

Lemma mod_distinct q i j k :
  0 < k -> 0 <= i < k -> 0 <= j < k -> i <> j -> (q + i) mod k <> (q + j) mod k.
Proof.
  intros Hk Hi Hj Hij Heq.
  pose proof (Z.div_mod (q + i) k ltac:(lia)).
  pose proof (Z.div_mod (q + j) k ltac:(lia)).
  assert (i - j = k * ((q + i) / k - (q + j) / k)) by lia.
  assert ((q + i) / k - (q + j) / k = 0) by nia. nia.
Qed.

(** Reduces projections of entries, headers and journals only. *)
Ltac jsimpl := cbn [e_fsize e_trans_id e_inner e_crc32 fst snd h_tail h_head h_trans_ctr h_ty
  j_header j_size j_file j_sync j_sbuf j_last_time j_fstore it_header it_journal it_block_buffer
  set_header set_file set_sbuf set_last_time set_tail set_head set_ctr] in *.

Section Spec.
Context {T : Type} {F : StoreFormat T} {L : StoreFormatLaws T}.

(** ** Records and their bytes *)
Abbreviation rec := (Z * EntryContent T)%type.

Definition esize (r : rec) : Z := 12 + zlen (ser_content (snd r)).

Definition prefix_bytes (r : rec) : list Z :=
  le32 (esize r) ++ le32 (fst r) ++ ser_content (snd r).

(** The entry as it is read back. *)
Definition stored (r : rec) : StoreEntry T :=
  mk_StoreEntry (esize r) (fst r) (snd r) (checksum_ieee (prefix_bytes r)).

Definition enc (r : rec) : list Z := prefix_bytes r ++ le32 (checksum_ieee (prefix_bytes r)).

Definition rec_ok (r : rec) : Prop :=
  0 <= fst r < 2 ^ 32 /\ content_ok (snd r) /\ esize r < BLOCK_SIZE.

Fixpoint used (b : list rec) : Z :=
  match b with [] => 0 | r :: b => esize r + used b end.

Definition block_bytes (b : list rec) : list Z := mjoin (enc <$> b).

(** ** The abstract write

    The record goes to the last block when it fits, otherwise to a new block;
    the oldest block is dropped when all [k] blocks of the ring are in use. *)
Definition spec_write (k : Z) (bs : list (list rec)) (r : rec) : list (list rec) :=
  match last bs with
  | None => [[r]]
  | Some b =>
    if used b + esize r <=? BLOCK_SIZE
    then removelast bs ++ [b ++ [r]]
    else (if zlen bs =? k then drop 1 bs else bs) ++ [[r]]
  end.

(** ** Representation *)

(** File position of ring block number [n]. *)
Definition pos (k n : Z) : Z := HEADER_SIZE + (n mod k) * BLOCK_SIZE.

Definition terminated (f : file) (p : Z) (b : list rec) : Prop :=
  BLOCK_SIZE - used b < 4 \/ at_bytes f (p + used b) [0; 0; 0; 0].

Definition block_ok (f : file) (p : Z) (b : list rec) : Prop :=
  b <> [] /\ Forall rec_ok b /\ used b <= BLOCK_SIZE /\ at_bytes f p (block_bytes b).

(** The ring has [k] blocks and its oldest one is number [q]. *)
Record Ring (k q : Z) (j : Journal) (bs : list (list rec)) : Prop := mk_Ring {
  ring_k : 0 < k;
  ring_q : 0 <= q;
  ring_size_eq : j_size j = k * BLOCK_SIZE;
  ring_file : HEADER_SIZE + j_size j <= f_len (j_file j) < 2 ^ 63;
  ring_head : h_head (j_header j) = q * BLOCK_SIZE;
  ring_ctr : 0 <= h_trans_ctr (j_header j) < 2 ^ 32;
  ring_len : zlen bs <= k;
  ring_tail : 0 <= h_tail (j_header j) < 2 ^ 63;
  ring_blocks : forall i b, bs !! i = Some b ->
    block_ok (j_file j) (pos k (q + Z.of_nat i)) b }.

(** All blocks are ended and the next record opens a new one. *)
Record Closed (k q : Z) (j : Journal) (bs : list (list rec)) : Prop := mk_Closed {
  closed_ring : Ring k q j bs;
  closed_tail : h_tail (j_header j) = (q + zlen bs) * BLOCK_SIZE;
  closed_term : forall i b, bs !! i = Some b ->
    terminated (j_file j) (pos k (q + Z.of_nat i)) b }.

(** The journal [j] holds the blocks [bs]; the last one is open. *)
Record Repr (k q : Z) (j : Journal) (bs : list (list rec)) : Prop := mk_Repr {
  repr_ring : Ring k q j bs;
  repr_tail : h_tail (j_header j) =
    match last bs with
    | None => q * BLOCK_SIZE
    | Some b => (q + zlen bs - 1) * BLOCK_SIZE + used b
    end;
  repr_term : forall i b, bs !! i = Some b -> (S i < length bs)%nat ->
    terminated (j_file j) (pos k (q + Z.of_nat i)) b }.

(** ** Sizes and encodings *)
Lemma esize_pos r : 12 <= esize r.
Proof. unfold esize. pose proof (zlen_nonneg (ser_content (snd r))). lia. Qed.

Lemma zlen_enc r : zlen (enc r) = esize r.
Proof.
  unfold enc, prefix_bytes, esize. rewrite !zlen_app, !zlen_le32. lia.
Qed.

Lemma enc_stored r : enc r = ser_entry (stored r).
Proof.
  rewrite law_entry_layout. unfold enc, prefix_bytes, stored. jsimpl.
  by rewrite <- !app_assoc.
Qed.

Lemma rec_esize_u32 r : rec_ok r -> u32 (esize r) = esize r.
Proof.
  intros (_ & _ & H). pose proof (esize_pos r). apply u32_small.
  unfold BLOCK_SIZE in H. lia.
Qed.

Lemma de_stored r : rec_ok r -> de_entry (enc r) = Some (stored r).
Proof.
  intros (Ht & Hc & He). rewrite enc_stored. apply law_entry_de.
  pose proof (esize_pos r). pose proof (law_checksum (prefix_bytes r)).
  unfold entry_ok, stored, BLOCK_SIZE in *. simpl. split_and!; try done; lia.
Qed.

Lemma used_app b c : used (b ++ c) = used b + used c.
Proof. induction b; simpl; lia. Qed.

Lemma used_nonneg b : 0 <= used b.
Proof. induction b as [|r b IH]; simpl; [lia|]. pose proof (esize_pos r). lia. Qed.

Lemma zlen_block_bytes b : zlen (block_bytes b) = used b.
Proof.
  induction b as [|r b IH]; [done|].
  change (block_bytes (r :: b)) with (enc r ++ block_bytes b).
  cbn [used]. by rewrite zlen_app, zlen_enc, IH.
Qed.

Lemma block_bytes_app b c : block_bytes (b ++ c) = block_bytes b ++ block_bytes c.
Proof. unfold block_bytes. by rewrite fmap_app, join_app. Qed.

Lemma block_bytes_one r : block_bytes [r] = enc r.
Proof. unfold block_bytes. cbn. by rewrite app_nil_r. Qed.

(** The bytes [write_inner] builds for a record. *)
Lemma write_inner_buf r :
  rec_ok r ->
  let buf := ser_entry (mk_StoreEntry (u32 (esize r)) (fst r) (snd r) 0) in
  take (length buf - 4) buf ++ le32 (checksum_ieee (take (length buf - 4) buf)) = enc r.
Proof.
  intros Hr. cbn zeta. rewrite rec_esize_u32 by done. rewrite law_entry_layout. jsimpl.
  rewrite !app_assoc. rewrite take_app_length'.
  - unfold enc, prefix_bytes. by rewrite !app_assoc.
  - rewrite !length_app. unfold le32. rewrite !length_le_bytes. lia.
Qed.

Lemma write_inner_size tid c : zlen (ser_entry (mk_StoreEntry 0 tid c 0)) = esize (tid, c).
Proof.
  rewrite law_entry_layout. jsimpl. rewrite !zlen_app, !zlen_le32. unfold esize. jsimpl. lia.
Qed.

(** ** Positions *)
Lemma header_size_nonneg : 0 <= HEADER_SIZE.
Proof. apply zlen_nonneg. Qed.

Lemma pos_bounds k n :
  0 < k -> HEADER_SIZE <= pos k n /\ pos k n + BLOCK_SIZE <= HEADER_SIZE + k * BLOCK_SIZE.
Proof.
  intros Hk. unfold pos. pose proof (Z.mod_pos_bound n k Hk).
  unfold BLOCK_SIZE. lia.
Qed.

Lemma pos_disjoint k q i j :
  0 < k -> 0 <= i < k -> 0 <= j < k -> i <> j ->
  pos k (q + i) + BLOCK_SIZE <= pos k (q + j) \/ pos k (q + j) + BLOCK_SIZE <= pos k (q + i).
Proof.
  intros Hk Hi Hj Hij. pose proof (mod_distinct q i j k Hk Hi Hj Hij).
  unfold pos, BLOCK_SIZE. lia.
Qed.

Lemma file_off_ring k j n r :
  0 < k -> j_size j = k * BLOCK_SIZE ->
  HEADER_SIZE + j_size j <= f_len (j_file j) < 2 ^ 63 ->
  0 <= r < BLOCK_SIZE -> file_off j (n * BLOCK_SIZE + r) = Ok (pos k n + r).
Proof.
  intros Hk Hs Hf Hr. unfold file_off. pose proof (pos_bounds k n Hk).
  pose proof header_size_nonneg.
  replace (j_size j =? 0) with false by (unfold BLOCK_SIZE in *; lia).
  rewrite Hs, mod_ring by done. f_equal.
  rewrite Z.add_assoc. change (HEADER_SIZE + n mod k * BLOCK_SIZE) with (pos k n).
  apply u64_small. unfold BLOCK_SIZE in *. lia.
Qed.

(** ** Blocks under writes elsewhere *)
Lemma block_ok_write f p b l off :
  block_ok f p b -> p + used b <= off \/ off + zlen l <= p ->
  block_ok (write_all_at f l off) p b.
Proof.
  intros (Hne & Hr & Hu & Ha) Hd. split_and!; try done.
  apply at_bytes_write_other; [|done]. rewrite zlen_block_bytes. lia.
Qed.

Lemma terminated_write f p b l off :
  terminated f p b -> p + BLOCK_SIZE <= off \/ off + zlen l <= p ->
  terminated (write_all_at f l off) p b.
Proof.
  intros Ht Hd. unfold terminated in *.
  destruct (decide (BLOCK_SIZE - used b < 4)) as [|Hge]; [by left|].
  destruct Ht as [|Ht]; [lia|]. right.
  apply at_bytes_write_other; [|done]. change (zlen [0; 0; 0; 0]) with 4.
  pose proof (used_nonneg b). lia.
Qed.

(** ** Appending *)
Definition appended (j : Journal) (buf : list Z) (o size : Z) : Journal :=
  set_header (set_file (set_sbuf j buf) (write_all_at (j_file j) buf o))
    (set_ctr (set_tail (j_header j) (u64 (h_tail (j_header j) + size)))
       (u32 (h_trans_ctr (j_header j) + 1))).

(** What a write does to the rest of the journal object. *)
Definition advanced (j j' : Journal) (by_at_most : Z) : Prop :=
  h_trans_ctr (j_header j') = u32 (h_trans_ctr (j_header j) + 1) /\
  h_tail (j_header j') <= h_tail (j_header j) + by_at_most /\
  j_last_time j' = j_last_time j.

Lemma append_buf_eq j buf o size :
  file_off j (h_tail (j_header j)) = Ok o ->
  append_buf buf size j = (Ok tt, appended j buf o size).
Proof.
  intros Ho. unfold append_buf, write_at, appended, flush. munfold. jsimpl.
  unfold file_off in *. jsimpl. rewrite Ho. jsimpl. by destruct (j_sync j).
Qed.

(** Opening a new block with a record. *)
Lemma append_closed k q j bs r :
  Closed k q j bs -> zlen bs < k -> rec_ok r ->
  h_tail (j_header j) + BLOCK_SIZE < 2 ^ 63 ->
  exists j', append_buf (enc r) (esize r) j = (Ok tt, j') /\ Repr k q j' (bs ++ [[r]]) /\
    advanced j j' (esize r).
Proof.
  intros [[Hk Hq Hs Hf Hh Hc Hl Ht Hb] Htail Hterm] Hlen Hr Hbound.
  pose proof Hr as (_ & _ & Hsz). pose proof (esize_pos r).
  pose proof (file_off_ring k j (q + zlen bs) 0 Hk Hs Hf ltac:(unfold BLOCK_SIZE; lia)) as Ho.
  rewrite Z.add_0_r, <- Htail in Ho. rewrite Z.add_0_r in Ho.
  rewrite (append_buf_eq _ _ _ _ Ho). eexists. split; [done|].
  pose proof (pos_bounds k (q + zlen bs) Hk). unfold appended.
  assert (forall i b, bs !! i = Some b ->
    pos k (q + Z.of_nat i) + BLOCK_SIZE <= pos k (q + zlen bs) \/
    pos k (q + zlen bs) + zlen (enc r) <= pos k (q + Z.of_nat i)) as Hdis.
  { intros i b Hi. apply lookup_lt_Some in Hi. rewrite zlen_enc.
    destruct (pos_disjoint k q (Z.of_nat i) (zlen bs)); unfold zlen in *; lia. }
  split; [|split_and!; jsimpl; [done|rewrite u64_small; lia|done]].
  constructor; [constructor|..]; jsimpl; try done.
  - rewrite f_len_write; [done|]. rewrite zlen_enc. lia.
  - apply u32_range.
  - rewrite zlen_app. change (zlen [[r]]) with 1. lia.
  - rewrite u64_small; lia.
  - intros i b Hi. apply lookup_app_Some in Hi as [Hi|[Hi Hi2]].
    + apply block_ok_write; [by apply Hb|]. destruct (Hb _ _ Hi) as (_ & _ & Hu & _).
      specialize (Hdis _ _ Hi). lia.
    + destruct (i - length bs)%nat eqn:Hi0; [|done]. injection Hi2 as <-.
      replace (Z.of_nat i) with (zlen bs) by (unfold zlen; lia).
      split_and!; [done|by apply Forall_singleton|simpl; lia|].
      rewrite block_bytes_one. apply at_bytes_write_same.
  - rewrite last_snoc, zlen_app. change (zlen [[r]]) with 1. simpl.
    rewrite u64_small by lia. lia.
  - intros i b Hi Hlt. rewrite length_app in Hlt. simpl in Hlt.
    rewrite lookup_app_l in Hi by lia.
    apply terminated_write; [by apply Hterm|]. by apply (Hdis i b).
Qed.

(** Adding a record to the open block. *)
Lemma append_open k q j bs b r :
  Repr k q j (bs ++ [b]) -> rec_ok r -> used b + esize r <= BLOCK_SIZE ->
  h_tail (j_header j) + BLOCK_SIZE < 2 ^ 63 ->
  exists j', append_buf (enc r) (esize r) j = (Ok tt, j') /\ Repr k q j' (bs ++ [b ++ [r]]) /\
    advanced j j' (esize r).
Proof.
  intros [[Hk Hq Hs Hf Hh Hc Hl Ht Hb] Htail Hterm] Hr Hfit Hbound.
  rewrite last_snoc, zlen_app in Htail. rewrite zlen_app in Hl.
  change (zlen [b]) with 1 in *.
  replace (q + (zlen bs + 1) - 1) with (q + zlen bs) in Htail by lia.
  pose proof Hr as (_ & _ & Hsz). pose proof (esize_pos r). pose proof (used_nonneg b).
  pose proof (file_off_ring k j (q + zlen bs) (used b) Hk Hs Hf ltac:(lia)) as Ho.
  rewrite <- Htail in Ho.
  rewrite (append_buf_eq _ _ _ _ Ho). eexists. split; [done|].
  pose proof (pos_bounds k (q + zlen bs) Hk). unfold appended.
  assert (forall i c, bs !! i = Some c ->
    pos k (q + Z.of_nat i) + BLOCK_SIZE <= pos k (q + zlen bs) + used b \/
    pos k (q + zlen bs) + used b + zlen (enc r) <= pos k (q + Z.of_nat i)) as Hdis.
  { intros i c Hi. apply lookup_lt_Some in Hi. rewrite zlen_enc.
    destruct (pos_disjoint k q (Z.of_nat i) (zlen bs)); unfold zlen in *; lia. }
  split; [|split_and!; jsimpl; [done|rewrite u64_small; lia|done]].
  constructor; [constructor|..]; jsimpl; try done.
  - rewrite f_len_write; [done|]. rewrite zlen_enc. lia.
  - apply u32_range.
  - rewrite zlen_app. change (zlen [b ++ [r]]) with 1. lia.
  - rewrite u64_small; lia.
  - intros i c Hi. apply lookup_app_Some in Hi as [Hi|[Hi Hi2]].
    + assert (block_ok (j_file j) (pos k (q + Z.of_nat i)) c) as Hbc
        by (apply Hb; by apply lookup_app_l_Some).
      apply block_ok_write; [done|]. destruct Hbc as (_ & _ & Hu & _).
      specialize (Hdis _ _ Hi). lia.
    + destruct (i - length bs)%nat eqn:Hi0; [|done]. injection Hi2 as <-.
      replace (Z.of_nat i) with (zlen bs) by (unfold zlen; lia).
      destruct (Hb (length bs) b) as (Hne & Hrs & Hu & Ha).
      { by rewrite lookup_app_r, Nat.sub_diag by lia. }
      split_and!.
      * by destruct b.
      * apply Forall_app. by rewrite Forall_singleton.
      * rewrite used_app. simpl. lia.
      * rewrite block_bytes_app, block_bytes_one, at_bytes_app, zlen_block_bytes. split.
        -- apply at_bytes_write_other; [rewrite zlen_block_bytes; lia|done].
        -- apply at_bytes_write_same.
  - rewrite last_snoc, zlen_app, used_app. change (zlen [b ++ [r]]) with 1. simpl.
    rewrite u64_small by lia. lia.
  - intros i c Hi Hlt. rewrite length_app in Hlt. simpl in Hlt.
    rewrite lookup_app_l in Hi by lia.
    apply terminated_write; [|by apply (Hdis i c)].
    apply Hterm; [by apply lookup_app_l_Some|]. rewrite length_app. simpl. lia.
Qed.

(** ** Switching blocks *)
Lemma zlen_header h : zlen (ser_header h) = HEADER_SIZE.
Proof. unfold HEADER_SIZE, zlen. f_equal. apply law_header_length. Qed.

Lemma Closed_write_header k q j bs h :
  Closed k q j bs -> Closed k q (set_file j (write_all_at (j_file j) (ser_header h) 0)) bs.
Proof.
  intros [[Hk Hq Hs Hf Hh Hc Hl Ht Hb] Htail Hterm].
  assert (forall n, 0 + zlen (ser_header h) <= pos k n) as Hd.
  { intros n. rewrite zlen_header. pose proof (pos_bounds k n Hk). lia. }
  constructor; [constructor|..]; jsimpl; try done.
  - rewrite f_len_write; [done|]. rewrite zlen_header. unfold BLOCK_SIZE in *. lia.
  - intros i b Hi. apply block_ok_write; [by apply Hb|]. by right.
  - intros i b Hi. apply terminated_write; [by apply Hterm|]. by right.
Qed.

Lemma Closed_drop k q j bs :
  Closed k q j bs -> zlen bs = k ->
  Closed k (q + 1) (set_header j (set_head (j_header j) ((q + 1) * BLOCK_SIZE))) (drop 1 bs) /\
  zlen (drop 1 bs) < k.
Proof.
  intros [[Hk Hq Hs Hf Hh Hc Hl Ht Hb] Htail Hterm] Hz.
  assert (zlen (drop 1 bs) = zlen bs - 1) as Hd
    by (unfold zlen in *; rewrite length_drop; lia).
  split; [|lia].
  constructor; [constructor|..]; jsimpl; try done; try lia.
  - intros i b Hi. rewrite lookup_drop in Hi. apply Hb in Hi.
    by replace (q + 1 + Z.of_nat i) with (q + Z.of_nat (1 + i)) by lia.
  - intros i b Hi. rewrite lookup_drop in Hi. apply Hterm in Hi.
    by replace (q + 1 + Z.of_nat i) with (q + Z.of_nat (1 + i)) by lia.
Qed.

(** Ending the open block: by a zero word, or by nothing when it does not fit. *)
Lemma Repr_end_block k q j bs b :
  Repr k q j (bs ++ [b]) -> used b < BLOCK_SIZE ->
  h_tail (j_header j) + BLOCK_SIZE < 2 ^ 63 ->
  let f := if 4 <=? BLOCK_SIZE - used b
           then write_all_at (j_file j) [0; 0; 0; 0] (pos k (q + zlen bs) + used b)
           else j_file j in
  Closed k q (set_header (set_file j f)
    (set_tail (j_header j) ((q + zlen bs + 1) * BLOCK_SIZE))) (bs ++ [b]).
Proof.
  intros [[Hk Hq Hs Hf Hh Hc Hl Ht Hb] Htail Hterm] Hu Hbound. cbn zeta.
  rewrite last_snoc, zlen_app in Htail. rewrite zlen_app in Hl.
  change (zlen [b]) with 1 in *. pose proof (used_nonneg b).
  pose proof (pos_bounds k (q + zlen bs) Hk).
  assert (forall i c, bs !! i = Some c ->
    pos k (q + Z.of_nat i) + BLOCK_SIZE <= pos k (q + zlen bs) \/
    pos k (q + zlen bs) + BLOCK_SIZE <= pos k (q + Z.of_nat i)) as Hdis.
  { intros i c Hi. apply lookup_lt_Some in Hi.
    destruct (pos_disjoint k q (Z.of_nat i) (zlen bs)); unfold zlen in *; lia. }
  assert (forall i c, (bs ++ [b]) !! i = Some c ->
    bs !! i = Some c \/ (c = b /\ Z.of_nat i = zlen bs)) as Hcase.
  { intros i c Hi. apply lookup_app_Some in Hi as [Hi|[Hi Hi2]]; [by left|]. right.
    destruct (i - length bs)%nat eqn:E; [|done]. injection Hi2 as <-.
    split; [done|]. unfold zlen. lia. }
  destruct (4 <=? BLOCK_SIZE - used b) eqn:E4.
  2: { constructor; [constructor|..]; jsimpl; try done.
       - rewrite zlen_app. change (zlen [b]) with 1. lia.
       - unfold BLOCK_SIZE in *. lia.
       - rewrite zlen_app. change (zlen [b]) with 1. lia.
       - intros i c Hi. destruct (Hcase i c Hi) as [Hi'|[-> _]]; [|left; lia].
         apply Hterm; [done|]. apply lookup_lt_Some in Hi'. rewrite length_app. simpl. lia. }
  constructor; [constructor|..]; jsimpl; try done.
  - rewrite f_len_write; [done|]. change (zlen [0; 0; 0; 0]) with 4. lia.
  - rewrite zlen_app. change (zlen [b]) with 1. lia.
  - unfold BLOCK_SIZE in *. lia.
  - intros i c Hi. apply block_ok_write; [by apply Hb|].
    change (zlen [0; 0; 0; 0]) with 4. destruct (Hb i c Hi) as (_ & _ & Huc & _).
    destruct (Hcase i c Hi) as [Hi'|[-> ->]]; [|lia]. specialize (Hdis i c Hi'). lia.
  - rewrite zlen_app. change (zlen [b]) with 1. lia.
  - intros i c Hi. destruct (Hcase i c Hi) as [Hi'|[-> ->]].
    + apply terminated_write.
      * apply Hterm; [done|]. apply lookup_lt_Some in Hi'. rewrite length_app. simpl. lia.
      * change (zlen [0; 0; 0; 0]) with 4. specialize (Hdis i c Hi'). lia.
    + right. apply at_bytes_write_same.
Qed.

(** The journal after its open block [b] has been ended. *)
Definition ended (k q : Z) (j : Journal) (bs : list (list rec)) (b : list rec) : Journal :=
  let f := if 4 <=? BLOCK_SIZE - used b
           then write_all_at (j_file j) [0; 0; 0; 0] (pos k (q + zlen bs) + used b)
           else j_file j in
  set_header (set_file j f) (set_tail (j_header j) ((q + zlen bs + 1) * BLOCK_SIZE)).

Lemma switch_block_eq k q j bs b :
  Repr k q j (bs ++ [b]) -> used b < BLOCK_SIZE ->
  h_tail (j_header j) + BLOCK_SIZE < 2 ^ 63 ->
  let j1 := ended k q j bs b in
  let j2 := if zlen (bs ++ [b]) =? k
            then set_header j1 (set_head (j_header j1) ((q + 1) * BLOCK_SIZE)) else j1 in
  switch_block (BLOCK_SIZE - used b) j =
    (Ok tt, set_file j2 (write_all_at (j_file j2) (ser_header (j_header j2)) 0)).
Proof.
  intros [[Hk Hq Hs Hf Hh Hc Hl Ht Hb] Htail Hterm] Hu Hbound.
  rewrite last_snoc in Htail. rewrite zlen_app in *. change (zlen [b]) with 1 in *.
  pose proof (used_nonneg b). pose proof header_size_nonneg.
  replace (q + (zlen bs + 1) - 1) with (q + zlen bs) in Htail by lia.
  pose proof (zlen_nonneg bs).
  pose proof (file_off_ring k j (q + zlen bs) (used b) Hk Hs Hf ltac:(lia)) as Ho.
  rewrite <- Htail in Ho.
  assert (align_up_always (h_tail (j_header j)) BLOCK_SIZE
          = (q + zlen bs + 1) * BLOCK_SIZE) as Hup.
  { rewrite Htail. apply align_up_always_block; unfold BLOCK_SIZE in *; lia. }
  assert (u64 (h_head (j_header j) + j_size j) = (q + k) * BLOCK_SIZE) as Hfull.
  { rewrite Hh, Hs, u64_small; unfold BLOCK_SIZE in *; lia. }
  assert (((q + k) * BLOCK_SIZE =? (q + zlen bs + 1) * BLOCK_SIZE) = (zlen bs + 1 =? k)) as Heqk
    by (unfold BLOCK_SIZE; lia).
  assert (u64 (h_head (j_header j) + BLOCK_SIZE) = (q + 1) * BLOCK_SIZE) as Hnext.
  { rewrite Hh, u64_small; unfold BLOCK_SIZE in *; lia. }
  unfold switch_block, write_at, write_header, ended. munfold.
  destruct (4 <=? BLOCK_SIZE - used b); rewrite ?Ho; jsimpl;
    rewrite Hup; rewrite Hfull, Heqk, Hnext; by destruct (zlen bs + 1 =? k).
Qed.

Lemma switch_block_spec k q j bs b :
  Repr k q j (bs ++ [b]) -> used b < BLOCK_SIZE ->
  h_tail (j_header j) + BLOCK_SIZE < 2 ^ 63 ->
  exists j' q', switch_block (BLOCK_SIZE - used b) j = (Ok tt, j') /\
    (let bs' := if zlen (bs ++ [b]) =? k then drop 1 (bs ++ [b]) else bs ++ [b] in
     Closed k q' j' bs' /\ zlen bs' < k) /\
    h_tail (j_header j') <= h_tail (j_header j) + BLOCK_SIZE /\
    h_trans_ctr (j_header j') = h_trans_ctr (j_header j) /\ j_last_time j' = j_last_time j.
Proof.
  intros HR Hu Hbound. pose proof (Repr_end_block k q j bs b HR Hu Hbound) as HC.
  rewrite (switch_block_eq k q j bs b HR Hu Hbound). cbn zeta in *.
  change (Closed k q (ended k q j bs b) (bs ++ [b])) in HC.
  assert ((q + zlen bs + 1) * BLOCK_SIZE <= h_tail (j_header j) + BLOCK_SIZE) as Hlt.
  { destruct HR as [_ Htail _]. rewrite Htail, last_snoc, zlen_app.
    pose proof (used_nonneg b). change (zlen [b]) with 1. unfold BLOCK_SIZE in *; lia. }
  pose proof (ring_len _ _ _ _ (repr_ring _ _ _ _ HR)) as Hl.
  destruct (zlen (bs ++ [b]) =? k) eqn:Ek.
  - destruct (Closed_drop _ _ _ _ HC) as [HD HCl]; [lia|].
    eexists _, _. split; [reflexivity|]. split_and!; try done.
    exact (Closed_write_header _ _ _ _ _ HD).
  - eexists _, _. split; [reflexivity|]. split_and!; try done; [|lia].
    exact (Closed_write_header _ _ _ _ _ HC).
Qed.

(** ** The write refines the abstract write *)

(** The last block is exactly full and so is the ring: the one state in which
    the code opens a new block without dropping the oldest one. *)
Definition exactly_full (k : Z) (bs : list (list rec)) : bool :=
  match last bs with
  | Some b => (used b =? BLOCK_SIZE) && (zlen bs =? k)
  | None => false
  end.

Lemma tail_space t n u :
  t = n * BLOCK_SIZE + u -> 0 <= n -> 0 <= u < BLOCK_SIZE -> (n + 1) * BLOCK_SIZE < 2 ^ 64 ->
  u64 (align_up_always t BLOCK_SIZE - t) = BLOCK_SIZE - u.
Proof.
  intros -> Hn Hu Hb. rewrite align_up_always_block by done.
  rewrite u64_small; unfold BLOCK_SIZE in *; lia.
Qed.

(** A journal without an open block is closed. *)
Lemma Repr_Closed k q j bs :
  Repr k q j bs -> (forall b, last bs = Some b -> used b = BLOCK_SIZE) -> Closed k q j bs.
Proof.
  intros [HR Htail Hterm] Hlast. constructor; [done|..].
  - rewrite Htail. destruct (last bs) as [b|] eqn:E.
    + rewrite (Hlast b) by done. lia.
    + apply last_None in E as ->. rewrite zlen_nil. lia.
  - intros i b Hi. destruct (decide (S i < length bs)%nat) as [Hlt|Hge]; [by apply Hterm|].
    left. rewrite (Hlast b); [lia|]. rewrite last_lookup. rewrite <- Hi. f_equal.
    apply lookup_lt_Some in Hi. lia.
Qed.

(** The journal's own step on a record: its buffer is the record's encoding. *)
Lemma write_inner_unfold tid c j :
  rec_ok (tid, c) ->
  write_inner (mk_StoreEntry 0 tid c 0) j =
    let space := u64 (align_up_always (h_tail (j_header j)) BLOCK_SIZE
                      - h_tail (j_header j)) in
    ((if space <? esize (tid, c) then switch_block space else mret tt)
       ≫= fun _ => append_buf (enc (tid, c)) (esize (tid, c))) j.
Proof.
  intros Hr. pose proof (write_inner_buf _ Hr) as Hbuf. cbn zeta in Hbuf.
  unfold write_inner. rewrite write_inner_size.
  replace (negb (esize (tid, c) <? BLOCK_SIZE)) with false
    by (destruct Hr as (_ & _ & Hr); lia).
  jsimpl. rewrite Hbuf. done.
Qed.

Lemma advanced_weaken (P : Journal -> Prop) (Q : Journal -> Prop) j m n :
  m <= n -> (exists j', P j' /\ Q j' /\ advanced j j' m) ->
  exists j', P j' /\ Q j' /\ advanced j j' n.
Proof.
  intros Hmn (j' & HP & HQ & Hc & Ht & Hl). exists j'.
  unfold advanced. split_and!; try done. lia.
Qed.

Lemma write_inner_refines k q j bs tid c :
  Repr k q j bs -> rec_ok (tid, c) -> exactly_full k bs = false ->
  h_tail (j_header j) + 2 * BLOCK_SIZE < 2 ^ 63 ->
  exists q' j', write_inner (mk_StoreEntry 0 tid c 0) j = (Ok tt, j') /\
    Repr k q' j' (spec_write k bs (tid, c)) /\ advanced j j' (2 * BLOCK_SIZE).
Proof.
  intros HR Hr Hnf Hbound. rewrite write_inner_unfold by done. cbn zeta.
  pose proof HR as [[Hk Hq Hs Hf Hh Hc Hl Ht Hb] Htail Hterm].
  pose proof (zlen_nonneg bs). destruct (Hr) as (_ & _ & Hsz). unfold spec_write.
  destruct (last bs) as [b|] eqn:Elast.
  - assert (exists bs0, bs = bs0 ++ [b]) as [bs0 ->] by (by apply last_Some).
    pose proof (used_nonneg b). rewrite removelast_last. rewrite zlen_app in *.
    change (zlen [b]) with 1 in *. pose proof (zlen_nonneg bs0).
    destruct (Hb (length bs0) b) as (_ & _ & Hu & _).
    { by rewrite lookup_app_r, Nat.sub_diag by lia. }
    destruct (decide (used b = BLOCK_SIZE)) as [Heq|Hne].
    + assert (zlen (bs0 ++ [b]) < k) as Hlt.
      { unfold exactly_full in Hnf. rewrite Elast, zlen_app in Hnf. rewrite zlen_app.
        change (zlen [b]) with 1 in *. lia. }
      assert (Closed k q j (bs0 ++ [b])) as HC.
      { apply Repr_Closed; [done|]. intros b' Hb'. rewrite last_snoc in Hb'. by inv Hb'. }
      pose proof (closed_tail _ _ _ _ HC) as Htail'. rewrite <- (Z.add_0_r (_ * _)) in Htail'.
      rewrite (tail_space _ _ _ Htail') by (unfold zlen, BLOCK_SIZE in *; lia).
      replace (BLOCK_SIZE - 0 <? esize (tid, c)) with false by lia.
      replace (used b + esize (tid, c) <=? BLOCK_SIZE) with false
        by (pose proof (esize_pos (tid, c)); lia).
      rewrite zlen_app in Hlt. change (zlen [b]) with 1 in Hlt.
      replace (zlen bs0 + 1 =? k) with false by lia.
      exists q. eapply advanced_weaken; [|apply append_closed; try done; [rewrite zlen_app; done|lia]].
      lia.
    + replace (q + (zlen bs0 + 1) - 1) with (q + zlen bs0) in Htail by lia.
      rewrite (tail_space _ _ _ Htail) by (unfold BLOCK_SIZE in *; lia).
      destruct (used b + esize (tid, c) <=? BLOCK_SIZE) eqn:Efit.
      * replace (BLOCK_SIZE - used b <? esize (tid, c)) with false by lia.
        exists q. eapply advanced_weaken; [|apply append_open; try done; lia]. lia.
      * replace (BLOCK_SIZE - used b <? esize (tid, c)) with true by lia.
        destruct (switch_block_spec k q j bs0 b HR) as (j1 & q1 & Hsw & [HC HCl] & Ht1 & Hc1 & Hlt1);
          [lia|lia|].
        unfold mbind, M_bind. rewrite Hsw. rewrite zlen_app in HC, HCl.
        change (zlen [b]) with 1 in HC, HCl. exists q1.
        destruct (append_closed k q1 j1 _ (tid, c) HC HCl Hr) as (j2 & Ha & HR2 & Hct & Htl & Hlt2);
          [lia|].
        exists j2. unfold advanced. split_and!; try done; [congruence|lia|congruence].
  - apply last_None in Elast as ->.
    rewrite <- (Z.add_0_r (_ * _)) in Htail.
    rewrite (tail_space _ _ _ Htail) by (unfold BLOCK_SIZE in *; lia).
    replace (BLOCK_SIZE - 0 <? esize (tid, c)) with false by lia.
    exists q. eapply advanced_weaken; [|apply (append_closed k q j []); try done; [|lia]];
      [unfold BLOCK_SIZE in *; lia|].
    by apply Repr_Closed.
Qed.

(** ** Reading a represented journal *)
Lemma read_at_ring k q j bs n r l :
  Ring k q j bs -> 0 <= r -> r + zlen l <= BLOCK_SIZE -> 0 < zlen l ->
  at_bytes (j_file j) (pos k n + r) l ->
  read_at j (n * BLOCK_SIZE + r) (zlen l) = Ok l.
Proof.
  intros [Hk Hq Hs Hf _ _ _ _ _] Hr Hl Hl0 Ha. unfold read_at. munfold.
  rewrite (file_off_ring k) by (done || lia).
  apply read_exact_at_ok; [done|]. pose proof (pos_bounds k n Hk). lia.
Qed.

Lemma block_bytes_mid b1 r b2 :
  block_bytes (b1 ++ r :: b2) = block_bytes b1 ++ enc r ++ block_bytes b2.
Proof. by rewrite block_bytes_app. Qed.

(** Record [r] of block [i] can be read where it was written: its length word,
    then all of it. *)
Lemma read_record k q j bs i b1 r b2 :
  Ring k q j bs -> bs !! i = Some (b1 ++ r :: b2) ->
  let off := (q + Z.of_nat i) * BLOCK_SIZE + used b1 in
  rec_ok r /\ used b1 + esize r <= BLOCK_SIZE /\
  read_at j off 4 = Ok (le32 (esize r)) /\ read_at j off (esize r) = Ok (enc r).
Proof.
  intros HR Hi off. destruct (ring_blocks _ _ _ _ HR _ _ Hi) as (_ & Hok & Hu & Ha).
  rewrite used_app in Hu. simpl in Hu. pose proof (used_nonneg b1). pose proof (used_nonneg b2).
  apply Forall_app in Hok as [_ Hok]. inv Hok.
  rewrite block_bytes_mid, !at_bytes_app, zlen_block_bytes in Ha.
  destruct Ha as (_ & Ha & _). pose proof (esize_pos r).
  split_and!; [done|lia| |].
  - rewrite <- (zlen_le32 (esize r)).
    eapply read_at_ring; rewrite ?zlen_le32; try done; try lia.
    unfold enc, prefix_bytes in Ha. rewrite <- !app_assoc in Ha.
    by apply at_bytes_app in Ha as [Ha _].
  - rewrite <- zlen_enc. eapply read_at_ring; rewrite ?zlen_enc; try done; lia.
Qed.

Lemma le32_esize r : rec_ok r -> le_val (le32 (esize r)) = esize r.
Proof.
  intros (_ & _ & H). pose proof (esize_pos r). apply le32_val. unfold BLOCK_SIZE in H. lia.
Qed.

Lemma le32_esize_nonzero r : rec_ok r -> le32 (esize r) <> [0; 0; 0; 0].
Proof.
  intros Hr H. pose proof (esize_pos r). pose proof (le32_esize r Hr) as Hv.
  rewrite H in Hv. simpl in Hv. lia.
Qed.

(** Where the forward iterator stands: after the records [b1] of block [i],
    with [rest] to come. *)
Definition at_forward (k q : Z) (bs : list (list rec)) (it : JournalIterator T)
  (rest : list rec) : Prop :=
  h_tail (it_header it) = h_tail (j_header (it_journal it)) /\
  ((bs = [] /\ rest = [] /\ h_head (it_header it) = h_tail (it_header it)) \/
   exists i b1 b2, bs !! i = Some (b1 ++ b2) /\
     h_head (it_header it) = (q + Z.of_nat i) * BLOCK_SIZE + used b1 /\
     rest = b2 ++ mjoin (drop (S i) bs)).

Lemma last_block_used k q j bs b : Ring k q j bs -> last bs = Some b -> 12 <= used b.
Proof.
  intros HR Hl. rewrite last_lookup in Hl.
  destruct (ring_blocks _ _ _ _ HR _ _ Hl) as (Hne & _).
  destruct b as [|r b]; [done|]. simpl. pose proof (esize_pos r). pose proof (used_nonneg b). lia.
Qed.

(** The tail lies past every record. *)
Lemma offset_below_tail k q j bs i b1 b2 :
  Repr k q j bs -> bs !! i = Some (b1 ++ b2) ->
  (q + Z.of_nat i) * BLOCK_SIZE + used b1 <= h_tail (j_header j) /\
  ((q + Z.of_nat i) * BLOCK_SIZE + used b1 = h_tail (j_header j) <->
   b2 = [] /\ S i = length bs).
Proof.
  intros HR Hi. pose proof (lookup_lt_Some _ _ _ Hi) as Hlt.
  destruct HR as [HR Htail Hterm].
  destruct (last bs) as [b|] eqn:Hb; [|by apply last_None in Hb as ->].
  pose proof (last_block_used _ _ _ _ _ HR Hb).
  destruct (ring_blocks _ _ _ _ HR _ _ Hi) as (_ & _ & Hu & _).
  rewrite used_app in Hu. pose proof (used_nonneg b1). pose proof (used_nonneg b2).
  destruct (decide (S i = length bs)) as [Hlast|Hnl].
  - rewrite last_lookup in Hb. replace (pred (length bs)) with i in Hb by lia.
    rewrite Hb in Hi. inv Hi. rewrite used_app in Htail.
    replace (zlen bs - 1) with (Z.of_nat i) in * by (unfold zlen; lia).
    replace (q + zlen bs - 1) with (q + Z.of_nat i) in Htail by (unfold zlen in *; lia).
    split; [lia|]. split; [|intros [-> _]; simpl in *; lia].
    intros He. split; [|done]. destruct b2 as [|r b2]; [done|].
    simpl in *. pose proof (esize_pos r). pose proof (used_nonneg b2). lia.
  - assert ((q + Z.of_nat i + 1) * BLOCK_SIZE <= (q + zlen bs - 1) * BLOCK_SIZE) as Hm
      by (unfold zlen, BLOCK_SIZE; lia).
    split; [lia|]. split; [lia|]. intros [_ ?]. lia.
Qed.

(** Reading one record at a known place. *)
Lemma take_entry_spec k q j bs it i b1 r b2 :
  Repr k q j bs -> it_journal it = j -> bs !! i = Some (b1 ++ r :: b2) ->
  h_head (it_header it) = (q + Z.of_nat i) * BLOCK_SIZE + used b1 ->
  take_entry it
  = (Ok (Some (stored r)), mk_JournalIterator
       (set_head (it_header it) ((q + Z.of_nat i) * BLOCK_SIZE + used (b1 ++ [r])))
       (it_journal it) (it_block_buffer it)).
Proof.
  intros HR Hj Hi Hh. destruct (read_record k q j bs i b1 r b2 (repr_ring _ _ _ _ HR) Hi)
    as (Hr & Hfit & H4 & Hall).
  subst j. unfold take_entry, it_set_head. munfold. rewrite Hh, H4, le32_esize, Hall, de_stored by done. jsimpl.
  assert (bs !! i = Some ((b1 ++ [r]) ++ b2)) as Hi' by (by rewrite <- app_assoc).
  destruct (offset_below_tail _ _ _ _ _ _ _ HR Hi') as [Hle _].
  pose proof (ring_tail _ _ _ _ (repr_ring _ _ _ _ HR)).
  pose proof (ring_q _ _ _ _ (repr_ring _ _ _ _ HR)).
  rewrite used_app in *. simpl in *. pose proof (used_nonneg b1). pose proof (esize_pos r).
  rewrite u64_small by (unfold BLOCK_SIZE in *; lia).
  unfold stored. jsimpl. do 3 f_equal. lia.
Qed.

(** Nothing is skipped in front of a record. *)
Lemma skip_padding_record k q j bs it i b1 r b2 :
  Repr k q j bs -> it_journal it = j -> bs !! i = Some (b1 ++ r :: b2) ->
  h_head (it_header it) = (q + Z.of_nat i) * BLOCK_SIZE + used b1 ->
  skip_padding it = (Ok tt, it).
Proof.
  intros HR Hj Hi Hh. pose proof (repr_ring _ _ _ _ HR) as HRing.
  destruct (read_record k q j bs i b1 r b2 HRing Hi) as (Hr & Hfit & H4 & _).
  destruct (offset_below_tail _ _ _ _ _ _ _ HR Hi) as [Hle _].
  pose proof (ring_tail _ _ _ _ HRing). pose proof (ring_q _ _ _ _ HRing).
  pose proof (used_nonneg b1). pose proof (esize_pos r). subst j.
  unfold skip_padding. munfold. rewrite (tail_space _ _ _ Hh) by (unfold BLOCK_SIZE in *; lia).
  replace (BLOCK_SIZE - used b1 <? 4) with false by lia.
  rewrite Hh, H4, bool_decide_false; [done|]. by apply le32_esize_nonzero.
Qed.

(** At the end of a block that is not the last, the iterator moves to the next. *)
Lemma skip_padding_end k q j bs it i b :
  Repr k q j bs -> it_journal it = j -> bs !! i = Some b -> (S i < length bs)%nat ->
  h_head (it_header it) = (q + Z.of_nat i) * BLOCK_SIZE + used b ->
  skip_padding it = (Ok tt, mk_JournalIterator
    (set_head (it_header it) ((q + Z.of_nat (S i)) * BLOCK_SIZE))
    (it_journal it) (it_block_buffer it)).
Proof.
  intros HR Hj Hi Hlt Hh. pose proof (repr_ring _ _ _ _ HR) as HRing.
  destruct (ring_blocks _ _ _ _ HRing _ _ Hi) as (_ & _ & Hu & _).
  destruct (lookup_lt_is_Some_2 bs (S i) ltac:(lia)) as [b' Hi'].
  destruct (ring_blocks _ _ _ _ HRing _ _ Hi') as (Hne' & _).
  destruct b' as [|r b']; [done|].
  pose proof (ring_tail _ _ _ _ HRing). pose proof (ring_q _ _ _ _ HRing).
  destruct (offset_below_tail _ _ _ _ _ [] _ HR Hi') as [Hle _]. simpl used in Hle.
  pose proof (used_nonneg b). replace (q + Z.of_nat (S i)) with (q + Z.of_nat i + 1) in * by lia.
  destruct (decide (used b = BLOCK_SIZE)) as [Hfull|Hpart].
  - assert (h_head (it_header it) = (q + Z.of_nat (S i)) * BLOCK_SIZE + used []) as Hh'
      by (simpl used; unfold BLOCK_SIZE in *; lia).
    rewrite (skip_padding_record k q j bs it (S i) [] r b') by done.
    destruct it as [[] ? ?]. unfold set_head. jsimpl. simpl used in Hh'. do 3 f_equal.
    unfold BLOCK_SIZE in *. lia.
  - assert (align_up_always (h_head (it_header it)) BLOCK_SIZE
            = (q + Z.of_nat i + 1) * BLOCK_SIZE) as Hup.
    { rewrite Hh. apply align_up_always_block; unfold BLOCK_SIZE in *; lia. }
    unfold skip_padding, it_set_head. munfold.
    rewrite (tail_space _ _ _ Hh) by (unfold BLOCK_SIZE in *; lia). rewrite Hup.
    destruct (BLOCK_SIZE - used b <? 4) eqn:E4; [done|].
    destruct (repr_term _ _ _ _ HR i b Hi Hlt) as [|Hz]; [lia|]. subst j.
    rewrite Hh. change 4 with (zlen [0; 0; 0; 0]) at 1.
    rewrite (read_at_ring k q (it_journal it) bs (q + Z.of_nat i) (used b) [0; 0; 0; 0])
      by (done || (change (zlen [0; 0; 0; 0]) with 4; lia)).
    by rewrite bool_decide_true.
Qed.

Lemma mjoin_drop_cons (bs : list (list rec)) i b :
  bs !! i = Some b -> mjoin (drop i bs) = b ++ mjoin (drop (S i) bs).
Proof. intros Hi. by rewrite (drop_S _ _ _ Hi). Qed.

(** One call of [next] yields the next record, or [None] when none is left. *)
Lemma next_forward_step k q j bs it rest :
  Repr k q j bs -> it_journal it = j -> at_forward k q bs it rest ->
  match rest with
  | [] => next_forward it = (Ok None, it)
  | r :: rest' => exists it', next_forward it = (Ok (Some (stored r)), it') /\
      it_journal it' = j /\ at_forward k q bs it' rest'
  end.
Proof.
  intros HR Hj [Htail [(-> & -> & Hh)|(i & b1 & b2 & Hi & Hh & ->)]].
  { unfold next_forward. munfold. by rewrite Hh, Z.eqb_refl. }
  rewrite Hj in Htail.
  destruct (offset_below_tail _ _ _ _ _ _ _ HR Hi) as [Hle Hend].
  pose proof (lookup_lt_Some _ _ _ Hi) as Hlt. unfold next_forward. munfold.
  destruct b2 as [|r b2].
  - destruct (decide (S i = length bs)) as [Hlast|Hnl].
    + rewrite drop_ge by lia. simpl. rewrite Hh, Htail, (proj2 Hend), Z.eqb_refl by done. done.
    + replace (h_head (it_header it) =? h_tail (it_header it)) with false
        by (symmetry; apply Z.eqb_neq; rewrite Hh, Htail, Hend; intros [_ ?]; done).
      rewrite app_nil_r in Hi.
      rewrite (skip_padding_end k q j bs it i b1) by (done || lia).
      destruct (lookup_lt_is_Some_2 bs (S i) ltac:(lia)) as [b' Hi'].
      rewrite (mjoin_drop_cons bs (S i) b') by done.
      destruct (ring_blocks _ _ _ _ (repr_ring _ _ _ _ HR) _ _ Hi') as (Hne' & _).
      destruct b' as [|r b']; [done|]. simpl.
      erewrite (take_entry_spec k q j bs _ (S i) [] r b');
        [|done|done|done|jsimpl; simpl used; lia].
      eexists. split; [done|]. split; [done|]. split; [jsimpl; congruence|].
      right. exists (S i), [r], b'. split_and!; [done|jsimpl; done|done].
  - replace (h_head (it_header it) =? h_tail (it_header it)) with false
      by (symmetry; apply Z.eqb_neq; rewrite Hh, Htail, Hend; intros [? _]; done).
    rewrite (skip_padding_record k q j bs it i b1 r b2) by done.
    rewrite (take_entry_spec k q j bs it i b1 r b2) by done. simpl.
    eexists. split; [done|]. split; [done|]. split; [jsimpl; congruence|].
    right. exists i, (b1 ++ [r]), b2. split_and!; [by rewrite <- app_assoc|jsimpl; done|done].
Qed.

(** The forward iterator over a journal ends and yields its records in order. *)
Lemma collect_forward_at k q j bs it rest n :
  Repr k q j bs -> it_journal it = j -> at_forward k q bs it rest ->
  (length rest < n)%nat ->
  exists it', collect next_forward n it = (Ok (stored <$> rest), it').
Proof.
  intros HR. revert it n. induction rest as [|r rest IH]; intros it n Hj Hat Hn;
    (destruct n as [|n]; [simpl in Hn; lia|]); cbn [collect]; munfold;
    pose proof (next_forward_step _ _ _ _ _ _ HR Hj Hat) as Hstep.
  - rewrite Hstep. eauto.
  - destruct Hstep as (it1 & -> & Hj1 & Hat1).
    destruct (IH it1 n Hj1 Hat1) as [it2 ->]; [simpl in Hn; lia|]. eauto.
Qed.

Lemma at_forward_start k q j bs :
  Repr k q j bs -> at_forward k q bs (read_forward j) (mjoin bs).
Proof.
  intros HR. split; [done|]. unfold read_forward. jsimpl.
  pose proof (ring_head _ _ _ _ (repr_ring _ _ _ _ HR)) as Hh.
  pose proof (repr_tail _ _ _ _ HR) as Ht.
  destruct bs as [|b bs]; [left|right].
  - split_and!; [done|done|]. by rewrite Ht.
  - exists O, [], b. split_and!; [done| |done]. simpl used. lia.
Qed.

(** ** Reading backwards *)
Lemma Repr_seek k q j bs p :
  Repr k q j bs -> Repr k q (set_file j (seek_start (j_file j) p)) bs.
Proof.
  intros [[Hk Hq Hs Hf Hh Hc Hl Ht Hb] Htail Hterm].
  constructor; [constructor|..]; jsimpl; try done.
Qed.

(** Where the decoding of block [i] has to stop. *)
Definition decode_limit (q : Z) (bs : list (list rec)) (i : nat) (b : list rec) (lim : Z) : Prop :=
  (S i = length bs /\ lim = (q + Z.of_nat i) * BLOCK_SIZE + used b) \/
  ((S i < length bs)%nat /\ lim = (q + Z.of_nat i + 1) * BLOCK_SIZE).

Lemma split_enc r :
  take (length (enc r) - 4) (enc r) = prefix_bytes r /\
  drop (length (enc r) - 4) (enc r) = le32 (checksum_ieee (prefix_bytes r)).
Proof.
  assert (length (enc r) - 4 = length (prefix_bytes r))%nat as ->.
  { unfold enc, le32. rewrite length_app, length_le_bytes. lia. }
  unfold enc. split; [apply take_app_length|apply drop_app_length].
Qed.

(** Decoding stops at the end of the records of a block. *)
Lemma decode_block_end k q bs i b it fuel :
  Repr k q (it_journal it) bs -> bs !! i = Some b -> (0 < fuel)%nat ->
  decode_limit q bs i b (h_tail (it_header it)) ->
  decode_block fuel ((q + Z.of_nat i) * BLOCK_SIZE + used b) it = (Ok tt, it).
Proof.
  intros HR Hi Hfuel Hlim. destruct fuel as [|fuel]; [lia|]. cbn [decode_block]. munfold.
  pose proof (repr_ring _ _ _ _ HR) as HRing. pose proof (used_nonneg b).
  destruct (ring_blocks _ _ _ _ HRing _ _ Hi) as (_ & _ & Hu & _).
  destruct Hlim as [[Hlast ->]|[Hlt ->]].
  - rewrite Z.sub_diag. done.
  - replace (u64 _) with (BLOCK_SIZE - used b)
      by (rewrite u64_small; unfold BLOCK_SIZE in *; lia).
    destruct (BLOCK_SIZE - used b <? 4) eqn:E4; [done|].
    destruct (repr_term _ _ _ _ HR i b Hi Hlt) as [|Hz]; [lia|].
    change 4 with (zlen [0; 0; 0; 0]) at 1.
    rewrite (read_at_ring k q (it_journal it) bs (q + Z.of_nat i) (used b) [0; 0; 0; 0])
      by (done || (change (zlen [0; 0; 0; 0]) with 4; lia)).
    by rewrite bool_decide_true.
Qed.

(** One round of the loop, at the length word of an entry. *)
Lemma decode_entry fuel n u size buf o it :
  0 <= n -> 0 <= u -> u + size <= BLOCK_SIZE -> 4 <= size -> (n + 1) * BLOCK_SIZE < 2 ^ 64 ->
  4 <= h_tail (it_header it) - (n * BLOCK_SIZE + u) < 2 ^ 64 ->
  file_off (it_journal it) (n * BLOCK_SIZE + u) = Ok o ->
  read_at (it_journal it) (n * BLOCK_SIZE + u) 4 = Ok (le32 size) ->
  read_at (it_journal it) (n * BLOCK_SIZE + u) size = Ok buf -> zlen buf = size ->
  let j1 := set_file (it_journal it) (seek_start (j_file (it_journal it)) o) in
  decode_block (S fuel) (n * BLOCK_SIZE + u) it =
    if negb (le_val (drop (length buf - 4) buf) =? checksum_ieee (take (length buf - 4) buf))
    then (Err OtherError, mk_JournalIterator (it_header it) j1 (it_block_buffer it))
    else match de_entry buf with
         | Some e => decode_block fuel (n * BLOCK_SIZE + u + size)
                       (mk_JournalIterator (it_header it) j1 (it_block_buffer it ++ [e]))
         | None => (Err OtherError, mk_JournalIterator (it_header it) j1 (it_block_buffer it))
         end.
Proof.
  intros Hn Hu Hfit Hsz Hb Hroom Ho H4 Hall Hlen j1. cbn [decode_block]. munfold.
  rewrite (u64_small (h_tail _ - _)) by lia. replace (h_tail (it_header it) - _ <? 4) with false by lia.
  rewrite H4, bool_decide_false.
  2: { intros E. apply (f_equal le_val) in E. rewrite le32_val in E by (unfold BLOCK_SIZE in *; lia). simpl in E. lia. }
  rewrite le32_val by (unfold BLOCK_SIZE in *; lia).
  rewrite (tail_space _ _ _ eq_refl) by (unfold BLOCK_SIZE in *; lia).
  replace (BLOCK_SIZE - u <? size) with false by lia.
  unfold seek. munfold. rewrite Ho. jsimpl. change (read_at (set_file _ _) ?a ?b) with (read_at (it_journal it) a b).
  rewrite Hall. replace (zlen buf <? 4) with false by lia.
  destruct (negb _); [done|]. unfold ok_or_other. destruct (de_entry buf); [|done]. munfold. jsimpl.
  by rewrite u64_small by (unfold BLOCK_SIZE in *; lia).
Qed.

(** How far the tail is above a record of the block it ends. *)
Lemma decode_room k q j bs i b1 r b2 lim : Ring k q j bs -> bs !! i = Some (b1 ++ r :: b2) ->
  decode_limit q bs i (b1 ++ r :: b2) lim ->
  12 <= lim - ((q + Z.of_nat i) * BLOCK_SIZE + used b1) <= BLOCK_SIZE.
Proof.
  intros HRing Hi Hlim. destruct (ring_blocks _ _ _ _ HRing _ _ Hi) as (_ & _ & Hu & _).
  pose proof (used_nonneg b1). pose proof (used_nonneg b2). pose proof (esize_pos r).
  rewrite used_app in Hu. simpl in Hu. destruct Hlim as [[_ ->]|[_ ->]]; [rewrite used_app; simpl|]; lia.
Qed.

(** Decoding a record that is as it was written. *)
Lemma decode_record k q bs i b1 r b2 it fuel :
  Ring k q (it_journal it) bs -> bs !! i = Some (b1 ++ r :: b2) -> (q + Z.of_nat i + 1) * BLOCK_SIZE < 2 ^ 64 ->
  4 <= h_tail (it_header it) - ((q + Z.of_nat i) * BLOCK_SIZE + used b1) < 2 ^ 64 ->
  exists p, decode_block (S fuel) ((q + Z.of_nat i) * BLOCK_SIZE + used b1) it =
    decode_block fuel ((q + Z.of_nat i) * BLOCK_SIZE + used (b1 ++ [r]))
      (mk_JournalIterator (it_header it) (set_file (it_journal it) (seek_start (j_file (it_journal it)) p))
        (it_block_buffer it ++ [stored r])).
Proof.
  intros HRing Hi Hb Hroom. destruct (read_record k q _ bs i b1 r b2 HRing Hi) as (Hr & Hfit & H4 & Hall).
  pose proof (used_nonneg b1). pose proof (esize_pos r). destruct HRing as [Hk Hq Hs Hf _ _ _ _ _].
  pose proof (file_off_ring k (it_journal it) (q + Z.of_nat i) (used b1) Hk Hs Hf ltac:(lia)) as Ho.
  exists (pos k (q + Z.of_nat i) + used b1).
  rewrite (decode_entry fuel (q + Z.of_nat i) (used b1) (esize r) (enc r) (pos k (q + Z.of_nat i) + used b1) it
    ltac:(lia) ltac:(lia) Hfit ltac:(lia) Hb Hroom Ho H4 Hall (zlen_enc r)).
  destruct (split_enc r) as [-> ->]. rewrite le32_val by apply law_checksum. rewrite Z.eqb_refl. cbn [negb].
  rewrite de_stored by done. rewrite used_app. simpl used. by rewrite Z.add_0_r, Z.add_assoc.
Qed.

Lemma decode_block_spec k q bs i b1 b2 it fuel :
  Repr k q (it_journal it) bs -> bs !! i = Some (b1 ++ b2) -> (length b2 < fuel)%nat ->
  decode_limit q bs i (b1 ++ b2) (h_tail (it_header it)) ->
  exists j', decode_block fuel ((q + Z.of_nat i) * BLOCK_SIZE + used b1) it =
    (Ok tt, mk_JournalIterator (it_header it) j' (it_block_buffer it ++ (stored <$> b2))) /\
    Repr k q j' bs /\ j_header j' = j_header (it_journal it).
Proof.
  revert b1 it fuel. induction b2 as [|r b2 IH]; intros b1 it fuel HR Hi Hfuel Hlim.
  { exists (it_journal it). split; [|done]. rewrite app_nil_r in Hi, Hlim.
    rewrite (decode_block_end k q bs i b1 it fuel) by done.
    rewrite app_nil_r. by destruct it. }
  destruct fuel as [|fuel]; [simpl in Hfuel; lia|].
  pose proof (repr_ring _ _ _ _ HR) as HRing. pose proof (decode_room _ _ _ _ _ _ _ _ _ HRing Hi Hlim) as Hroom.
  destruct (offset_below_tail _ _ _ _ _ _ _ HR Hi) as [Hle _].
  pose proof (ring_tail _ _ _ _ HRing). pose proof (ring_q _ _ _ _ HRing). pose proof (used_nonneg b1).
  destruct (decode_record k q bs i b1 r b2 it fuel HRing Hi) as [p Hd]; [unfold BLOCK_SIZE in *; lia..|].
  rewrite Hd. destruct (IH (b1 ++ [r]) (mk_JournalIterator (it_header it) (set_file (it_journal it)
    (seek_start (j_file (it_journal it)) p)) (it_block_buffer it ++ [stored r])) fuel) as (j2 & Hd2 & HR2 & Hh2);
    jsimpl; [by apply Repr_seek|by rewrite <- app_assoc|simpl in Hfuel; lia|by rewrite <- app_assoc|].
  exists j2. rewrite Hd2. jsimpl. rewrite <- app_assoc. by split_and!.
Qed.

Lemma length_used b : 12 * zlen b <= used b.
Proof.
  induction b as [|r b IH]; [done|]. rewrite zlen_cons. simpl.
  pose proof (esize_pos r). lia.
Qed.

(** The start of the block that ends at [tail], as [next] computes it. *)
Lemma block_start_of_tail tail n u :
  tail = n * BLOCK_SIZE + u -> 0 < u <= BLOCK_SIZE -> 0 <= n -> tail < 2 ^ 64 ->
  (if negb (tail mod BLOCK_SIZE =? 0) then align_down tail BLOCK_SIZE
   else u64 (tail - BLOCK_SIZE)) = n * BLOCK_SIZE.
Proof.
  intros Htu Hu Hn Hb. destruct (decide (u = BLOCK_SIZE)) as [->|Hub].
  - assert (tail mod BLOCK_SIZE = 0) as ->.
    { rewrite Htu. replace (n * BLOCK_SIZE + BLOCK_SIZE) with ((n + 1) * BLOCK_SIZE) by lia.
      apply Z.mod_mul. done. }
    simpl. rewrite u64_small by (unfold BLOCK_SIZE in *; lia). lia.
  - assert (tail mod BLOCK_SIZE = u) as ->
      by (rewrite Htu; symmetry; apply Z.mod_unique with n; unfold BLOCK_SIZE in *; lia).
    replace (negb (u =? 0)) with true by lia.
    rewrite align_down_spec by (unfold BLOCK_SIZE in *; lia). f_equal.
    rewrite Htu. symmetry. apply Z.div_unique with u; unfold BLOCK_SIZE in *; lia.
Qed.

(** The iterator's tail is the end of block [i]: of its records when it is the
    last block, of the block itself otherwise. *)
Definition tail_ends_block (q : Z) (bs : list (list rec)) (i : nat)
  (it : JournalIterator T) : Prop :=
  (i = length bs /\ h_tail (it_header it) = h_tail (j_header (it_journal it))) \/
  ((i < length bs)%nat /\ h_tail (it_header it) = (q + Z.of_nat i) * BLOCK_SIZE).

(** Where the reverse iterator stands: the records [c] of a decoded block are
    buffered, the blocks before number [i] are still to be decoded. *)
Definition at_reverse (k q : Z) (bs : list (list rec)) (it : JournalIterator T)
  (rest : list rec) : Prop :=
  exists i c, Repr k q (it_journal it) bs /\
    h_head (it_header it) = q * BLOCK_SIZE /\
    it_block_buffer it = stored <$> c /\ tail_ends_block q bs i it /\
    rest = rev c ++ rev (mjoin (take i bs)).

Lemma tail_ends_block_spec k q bs i b it :
  Repr k q (it_journal it) bs -> bs !! i = Some b -> tail_ends_block q bs (S i) it ->
  decode_limit q bs i b (h_tail (it_header it)) /\ h_tail (it_header it) < 2 ^ 63 /\
  exists u, 0 < u <= BLOCK_SIZE /\
    h_tail (it_header it) = (q + Z.of_nat i) * BLOCK_SIZE + u.
Proof.
  intros HR Hi Htl. pose proof (repr_ring _ _ _ _ HR) as HRing.
  destruct (ring_blocks _ _ _ _ HRing _ _ Hi) as (Hne & _ & Hu & _).
  pose proof (ring_tail _ _ _ _ HRing) as Htb. pose proof (length_used b) as Hlen.
  assert (1 <= zlen b) as Hb1
    by (destruct b; [done|rewrite zlen_cons; pose proof (zlen_nonneg b); lia]).
  destruct Htl as [[Hl Hx]|[Hl Hx]]; rewrite Hx in *.
  - assert (h_tail (j_header (it_journal it))
            = (q + Z.of_nat i) * BLOCK_SIZE + used b) as Ht.
    { rewrite (repr_tail _ _ _ _ HR), last_lookup.
      replace (pred (length bs)) with i by lia. rewrite Hi. unfold zlen. lia. }
    split_and!; [by left|lia|]. exists (used b). lia.
  - destruct (lookup_lt_is_Some_2 bs (S i) ltac:(lia)) as [b' Hi'].
    destruct (offset_below_tail _ _ _ _ _ [] _ HR Hi') as [Hle _]. simpl used in Hle.
    split_and!; [right; split; [done|lia]|lia|].
    exists BLOCK_SIZE. unfold BLOCK_SIZE. lia.
Qed.

(** Decoding the block before the iterator's tail, and stepping back over it. *)
Lemma decode_and_retreat k q bs i b it :
  Repr k q (it_journal it) bs -> bs !! i = Some b -> it_block_buffer it = [] ->
  h_head (it_header it) = q * BLOCK_SIZE -> tail_ends_block q bs (S i) it ->
  exists j', next_reverse it =
    (Ok (stored <$> last b), mk_JournalIterator
       (set_tail (it_header it) ((q + Z.of_nat i) * BLOCK_SIZE)) j'
       (stored <$> removelast b)) /\
    Repr k q j' bs /\ j_header j' = j_header (it_journal it).
Proof.
  intros HR Hi Hbuf Hhead Htl. pose proof (repr_ring _ _ _ _ HR) as HRing.
  pose proof (ring_q _ _ _ _ HRing).
  destruct (ring_blocks _ _ _ _ HRing _ _ Hi) as (Hne & _ & Hu & _).
  destruct (tail_ends_block_spec k q bs i b it HR Hi Htl) as (Hlim & Htb & u & Hu0 & Htu).
  pose proof (length_used b) as Hlen.
  destruct (decode_block_spec k q bs i [] b it (Z.to_nat BLOCK_SIZE) HR Hi)
    as (j' & Hd & HR' & Hh'); [unfold zlen, BLOCK_SIZE in *; lia|done|].
  simpl used in Hd. rewrite Z.add_0_r in Hd. rewrite Hbuf, app_nil_l in Hd.
  pose proof (block_start_of_tail _ _ _ Htu Hu0 ltac:(lia) ltac:(lia)) as Hdt.
  exists j'. split; [|done]. unfold next_reverse. munfold. rewrite Hbuf, Hdt.
  replace (_ || _) with false by (unfold BLOCK_SIZE in *; lia).
  rewrite Hd. unfold retreat_tail, it_set_tail. munfold. jsimpl.
  destruct (negb (h_tail (it_header it) mod BLOCK_SIZE =? 0)) eqn:E.
  2: replace (_ && _) with true by (unfold BLOCK_SIZE in *; lia).
  all: rewrite Hdt; jsimpl; destruct (last b) as [r|] eqn:Eb; [|by apply last_None in Eb].
  all: apply last_Some in Eb as [b0 ->]; rewrite removelast_last, fmap_app.
  all: cbn [fmap list_fmap option_fmap]; by rewrite last_snoc, removelast_last.
Qed.

Lemma mjoin_take_S (bs : list (list rec)) i b :
  bs !! i = Some b -> mjoin (take (S i) bs) = mjoin (take i bs) ++ b.
Proof.
  intros Hi. rewrite (take_S_r _ _ _ Hi), join_app. simpl. by rewrite app_nil_r.
Qed.

(** Popping a buffered entry. *)
Lemma next_reverse_buffered it c r :
  it_block_buffer it = stored <$> (c ++ [r]) ->
  next_reverse it = (Ok (Some (stored r)),
    mk_JournalIterator (it_header it) (it_journal it) (stored <$> c)).
Proof.
  intros Hb. unfold next_reverse. munfold. rewrite Hb.
  destruct (stored <$> c ++ [r]) as [|e es] eqn:E; [by destruct c|].
  rewrite Hb, <- E. rewrite fmap_app. cbn [fmap list_fmap].
  by rewrite last_snoc, removelast_last.
Qed.

Lemma next_reverse_step k q bs it rest :
  at_reverse k q bs it rest ->
  match rest with
  | [] => next_reverse it = (Ok None, it)
  | r :: rest' => exists it', next_reverse it = (Ok (Some (stored r)), it') /\
      at_reverse k q bs it' rest'
  end.
Proof.
  intros (i & c & HR & Hhead & Hbuf & Htl & ->).
  destruct c as [|r c _] using rev_ind.
  2: { rewrite rev_app_distr. simpl. rewrite (next_reverse_buffered it c r) by done.
       eexists. split; [done|]. exists i, c. by split_and!. }
  destruct i as [|i].
  - simpl. unfold next_reverse. munfold. rewrite Hbuf.
    assert (h_head (it_header it) = h_tail (it_header it)) as ->.
    { rewrite Hhead. destruct Htl as [[Hl ->]|[_ ->]]; [|lia].
      destruct bs; [|done]. by rewrite (repr_tail _ _ _ _ HR). }
    by rewrite Z.eqb_refl.
  - assert (is_Some (bs !! i)) as [b Hi]
      by (apply lookup_lt_is_Some; destruct Htl as [[? _]|[? _]]; lia).
    destruct (decode_and_retreat k q bs i b it HR Hi Hbuf Hhead Htl) as (j' & Hn & HR' & Hh').
    destruct (ring_blocks _ _ _ _ (repr_ring _ _ _ _ HR) _ _ Hi) as (Hne & _).
    destruct b as [|r b _] using rev_ind; [done|].
    rewrite last_snoc, removelast_last in Hn.
    rewrite (mjoin_take_S _ _ _ Hi), rev_app_distr, (rev_app_distr b). simpl.
    eexists. split; [exact Hn|]. exists i, b. split_and!; try done.
    right. split; [by apply lookup_lt_Some in Hi|done].
Qed.

Lemma collect_reverse_at k q bs it rest n :
  at_reverse k q bs it rest -> (length rest < n)%nat ->
  exists it', collect next_reverse n it = (Ok (stored <$> rest), it').
Proof.
  revert it n. induction rest as [|r rest IH]; intros it n Hat Hn;
    (destruct n as [|n]; [simpl in Hn; lia|]); cbn [collect]; munfold;
    pose proof (next_reverse_step _ _ _ _ _ Hat) as Hstep.
  - rewrite Hstep. eauto.
  - destruct Hstep as (it1 & -> & Hat1).
    destruct (IH it1 n Hat1) as [it2 ->]; [simpl in Hn; lia|]. eauto.
Qed.

Lemma at_reverse_start k q j bs :
  Repr k q j bs -> at_reverse k q bs (read_reverse j) (rev (mjoin bs)).
Proof.
  intros HR. exists (length bs), []. unfold read_reverse. jsimpl. split_and!; try done.
  - apply (ring_head _ _ _ _ (repr_ring _ _ _ _ HR)).
  - by left.
  - by rewrite firstn_all.
Qed.

(** ** Histories *)

(** What is left of a history of records after writing them one by one. *)
Definition spec_history (k : Z) (rs : list rec) : list (list rec) :=
  foldl (spec_write k) [] rs.

Lemma spec_write_suffix k bs r :
  exists dropped, mjoin bs ++ [r] = dropped ++ mjoin (spec_write k bs r).
Proof.
  unfold spec_write. destruct (last bs) as [b|] eqn:E.
  - apply last_Some in E as [bs0 ->]. destruct (_ <=? _).
    + exists []. rewrite removelast_last, !join_app. simpl. by rewrite !app_nil_r, app_assoc.
    + destruct (_ =? k).
      * generalize (bs0 ++ [b]). intros l. exists (mjoin (take 1 l)).
        by rewrite join_app, app_assoc, <- join_app, take_drop.
      * exists []. rewrite !join_app. simpl. done.
  - apply last_None in E as ->. by exists [].
Qed.

(** The journal's records are always the newest ones of the history. *)
Lemma spec_history_suffix k rs : mjoin (spec_history k rs) `suffix_of` rs.
Proof.
  unfold spec_history. induction rs as [|r rs IH] using rev_ind; [done|].
  rewrite foldl_app. simpl. destruct IH as [d Hd].
  destruct (spec_write_suffix k (foldl (spec_write k) [] rs) r) as [d' Hd'].
  exists (d ++ d'). rewrite Hd at 1. by rewrite <- !app_assoc, <- Hd'.
Qed.

(** The records one [write_entry] produces, the clock value it leaves behind,
    and those of a run of calls. *)
Definition entry_records (last ctr now : Z) (t : T) : list rec :=
  if 1000000000 <? now - last then [(ctr, Time now); (u32 (ctr + 1), Payload t)]
  else [(ctr, Payload t)].

Definition next_last (last now : Z) : Z :=
  if 1000000000 <? now - last then now else last.

Fixpoint history (last ctr : Z) (l : list (Z * T)) : list rec :=
  match l with
  | [] => []
  | (now, t) :: l =>
    let rs := entry_records last ctr now t in
    rs ++ history (next_last last now) (u32 (ctr + zlen rs)) l
  end.

Fixpoint write_entries (l : list (Z * T)) : M Journal unit :=
  match l with
  | [] => mret tt
  | (now, t) :: l => _ ← write_entry now t; write_entries l
  end.

(** The clock never runs behind the last time entry. *)
Fixpoint clock_ok (last : Z) (l : list (Z * T)) : Prop :=
  match l with
  | [] => True
  | (now, _) :: l => last <= now /\ clock_ok (next_last last now) l
  end.

(** No record is written onto an exactly full ring. *)
Fixpoint never_full (k : Z) (bs : list (list rec)) (rs : list rec) : Prop :=
  match rs with
  | [] => True
  | r :: rs => exactly_full k bs = false /\ never_full k (spec_write k bs r) rs
  end.

Lemma write_entry_refines k q j bs now t :
  let ctr := h_trans_ctr (j_header j) in
  let rs := entry_records (j_last_time j) ctr now t in
  Repr k q j bs -> j_last_time j <= now -> Forall rec_ok rs -> never_full k bs rs ->
  h_tail (j_header j) + 2 * BLOCK_SIZE * (zlen rs + 1) < 2 ^ 63 ->
  exists q' j', write_entry now t j = (Ok tt, j') /\
    Repr k q' j' (foldl (spec_write k) bs rs) /\
    j_last_time j' = next_last (j_last_time j) now /\
    h_trans_ctr (j_header j') = u32 (ctr + zlen rs) /\
    h_tail (j_header j') <= h_tail (j_header j) + 2 * BLOCK_SIZE * zlen rs.
Proof.
  intros ctr rs HR Hnow Hok Hnf Hb. subst rs. unfold entry_records, next_last in *.
  unfold write_entry. munfold. replace (now <? j_last_time j) with false by lia.
  destruct (1000000000 <? now - j_last_time j) eqn:E.
  - inv Hok. inv H2. destruct Hnf as (Hf1 & Hf2 & _).
    change (zlen [(ctr, Time now); (u32 (ctr + 1), Payload t)]) with 2 in *.
    destruct (write_inner_refines k q j bs ctr (Time now) HR)
      as (q1 & j1 & Hw1 & HR1 & Hc1 & Ht1 & Hl1); [done|done|unfold BLOCK_SIZE in *; lia|].
    fold ctr. rewrite Hw1. jsimpl. rewrite Hc1. fold ctr.
    destruct (write_inner_refines k q1 (set_last_time j1 now) (spec_write k bs (ctr, Time now))
      (u32 (ctr + 1)) (Payload t)) as (q2 & j2 & Hw2 & HR2 & Hc2 & Ht2 & Hl2); jsimpl;
      [|done|done|unfold BLOCK_SIZE in *; lia|].
    { destruct HR1 as [[] ? ?]. constructor; [constructor|..]; jsimpl; done. }
    exists q2, j2. rewrite Hw2. split_and!; try done; jsimpl.
    + rewrite Hc2, Hc1. fold ctr. unfold u32, wrap. rewrite Zplus_mod_idemp_l. f_equal. lia.
    + unfold BLOCK_SIZE in *. lia.
  - inv Hok. destruct Hnf as (Hf1 & _). change (zlen [(ctr, Payload t)]) with 1 in *.
    destruct (write_inner_refines k q j bs ctr (Payload t) HR)
      as (q1 & j1 & Hw1 & HR1 & Hc1 & Ht1 & Hl1); [done|done|unfold BLOCK_SIZE in *; lia|].
    exists q1, j1. fold ctr. rewrite Hw1. by split_and!.
Qed.

Lemma never_full_app k bs rs rs' :
  never_full k bs (rs ++ rs') <-> never_full k bs rs /\ never_full k (foldl (spec_write k) bs rs) rs'.
Proof. revert bs. induction rs as [|r rs IH]; intros bs; simpl; [tauto|]. rewrite IH. tauto. Qed.

Lemma write_entries_refines k l q j bs :
  let rs := history (j_last_time j) (h_trans_ctr (j_header j)) l in
  Repr k q j bs -> clock_ok (j_last_time j) l -> Forall rec_ok rs -> never_full k bs rs ->
  h_tail (j_header j) + 2 * BLOCK_SIZE * (zlen rs + 1) < 2 ^ 63 ->
  exists q' j', write_entries l j = (Ok tt, j') /\
    Repr k q' j' (foldl (spec_write k) bs rs) /\
    h_tail (j_header j') <= h_tail (j_header j) + 2 * BLOCK_SIZE * zlen rs.
Proof.
  revert q j bs. induction l as [|[now t] l IH]; intros q j bs rs HR Hclk Hok Hnf Hb.
  { exists q, j. split_and!; [done..|]. change (zlen rs) with 0. lia. }
  subst rs. cbn [history] in *. destruct Hclk as [Hnow Hclk].
  apply Forall_app in Hok as [Hok1 Hok2]. apply never_full_app in Hnf as [Hnf1 Hnf2].
  rewrite zlen_app in Hb. pose proof (zlen_nonneg (history (next_last (j_last_time j) now)
    (u32 (h_trans_ctr (j_header j) + zlen (entry_records (j_last_time j)
      (h_trans_ctr (j_header j)) now t))) l)).
  destruct (write_entry_refines k q j bs now t HR Hnow Hok1 Hnf1)
    as (q1 & j1 & Hw & HR1 & Hl1 & Hc1 & Ht1); [unfold BLOCK_SIZE in *; lia|].
  rewrite foldl_app, <- Hl1, <- Hc1 in *.
  destruct (IH q1 j1 _ HR1 Hclk Hok2 Hnf2) as (q2 & j2 & Hw2 & HR2 & Ht2);
    [unfold BLOCK_SIZE in *; lia|].
  exists q2, j2. split_and!; [|done|rewrite zlen_app; unfold BLOCK_SIZE in *; lia].
  cbn [write_entries]. munfold. by rewrite Hw.
Qed.

(** A new journal on a file with room for [k] blocks is empty. *)
Lemma Journal_new_Repr f c now st k :
  0 < k -> HEADER_SIZE + k * BLOCK_SIZE <= f_len f < HEADER_SIZE + (k + 1) * BLOCK_SIZE ->
  f_len f < 2 ^ 63 ->
  exists j, Journal_new f c now (Ok st) = Ok j /\ Repr k 0 j [] /\
    j_last_time j = now /\ j_header j = mk_JournalHeader 0 0 0 (c_journal_type c).
Proof.
  intros Hk Hf Hb. unfold Journal_new, ring_size. munfold. eexists. split; [done|].
  split; [|done]. pose proof header_size_nonneg.
  assert (align_down (u64 (f_len f - HEADER_SIZE)) BLOCK_SIZE = k * BLOCK_SIZE) as Hs.
  { rewrite u64_small by (unfold BLOCK_SIZE in *; lia).
    rewrite align_down_spec by (unfold BLOCK_SIZE in *; lia). f_equal.
    symmetry. apply Z.div_unique with (f_len f - HEADER_SIZE - k * BLOCK_SIZE);
      unfold BLOCK_SIZE in *; lia. }
  constructor; [constructor|..]; jsimpl; try done; try lia; rewrite ?zlen_nil; lia.
Qed.

End Spec.
