(* ===== verification/StoreInst.v ===== *)
(** * A concrete entry format

    [bincode]'s fixed-width little-endian layout for entries whose payload is a
    byte string, with a byte sum in place of the CRC. It shows that the laws of
    [StoreFormatLaws] can hold, and lets the journal be run on small inputs. *)

From stdpp Require Import base list numbers option strings.
From Stdlib Require Import ZArith Lia.
From S2P Require Import Prelude Common Filestore Store.

Local Open Scope Z_scope.

Definition tag_of_type (t : JournalType) : Z :=
  match t with JT_Invalid => 0 | JT_Bilog => 1 | JT_Forward => 2 | JT_Undo => 3 end.

Definition type_of_tag (z : Z) : option JournalType :=
  if z =? 0 then Some JT_Invalid else if z =? 1 then Some JT_Bilog
  else if z =? 2 then Some JT_Forward else if z =? 3 then Some JT_Undo else None.

Definition header_bytes (h : JournalHeader) : list Z :=
  le64 (h_tail h) ++ le64 (h_head h) ++ le32 (h_trans_ctr h) ++ le32 (tag_of_type (h_ty h)).

Definition bytes_header (l : list Z) : option JournalHeader :=
  mk_JournalHeader (le_val (take 8 l)) (le_val (take 8 (drop 8 l)))
    (le_val (take 4 (drop 16 l))) <$> type_of_tag (le_val (take 4 (drop 20 l))).

Definition content_bytes (c : EntryContent (list Z)) : list Z :=
  match c with
  | Payload l => le32 0 ++ le64 (zlen l) ++ l
  | Time t => le32 1 ++ le64 t
  end.

Definition entry_bytes (e : StoreEntry (list Z)) : list Z :=
  le32 (e_fsize e) ++ le32 (e_trans_id e) ++ content_bytes (e_inner e) ++ le32 (e_crc32 e).

Definition bytes_entry (l : list Z) : option (StoreEntry (list Z)) :=
  let mk c rest := mk_StoreEntry (le_val (take 4 l)) (le_val (take 4 (drop 4 l))) c
                     (le_val (take 4 rest)) in
  let tag := le_val (take 4 (drop 8 l)) in
  let word := le_val (take 8 (drop 12 l)) in
  let rest := drop 20 l in
  if tag =? 0
  then Some (mk (Payload (take (Z.to_nat word) rest)) (drop (Z.to_nat word) rest))
  else if tag =? 1 then Some (mk (Time word) rest) else None.

Definition byte_sum (l : list Z) : Z := u32 (foldr Z.add 0 l).

#[export] Instance bytes_format : StoreFormat (list Z) := {|
  ser_header := header_bytes; de_header := bytes_header;
  ser_entry := entry_bytes; de_entry := bytes_entry; checksum_ieee := byte_sum |}.

Definition bytes_ok (c : EntryContent (list Z)) : Prop :=
  match c with Payload l => zlen l < 2 ^ 63 | Time t => 0 <= t < 2 ^ 63 end.

(** Taking and dropping fixed-width words. *)
Lemma take_le n z (l : list Z) : take n (le_bytes n z ++ l) = le_bytes n z.
Proof. apply take_app_length'. by rewrite length_le_bytes. Qed.

Lemma drop_le n m z (l : list Z) : drop (n + m) (le_bytes n z ++ l) = drop m l.
Proof. rewrite drop_app_ge; rewrite length_le_bytes; [|lia]. f_equal. lia. Qed.

Lemma le64_val z : 0 <= z < 2 ^ 64 -> le_val (le64 z) = z.
Proof. intros H. apply le_val_bytes. simpl. lia. Qed.

Lemma bytes_header_inv h : header_ok h -> bytes_header (header_bytes h) = Some h.
Proof.
  intros (Ht & Hh & Hc). unfold bytes_header, header_bytes, le64, le32.
  rewrite take_le, (drop_le 8 0), (drop_le 8 8), (drop_le 8 12).
  rewrite (drop_le 8 0), (drop_le 8 4), (drop_le 4 0), drop_0.
  rewrite !drop_0, !take_le. rewrite <- (app_nil_r (le_bytes 4 (tag_of_type _))), take_le.
  rewrite !le_val_bytes by (simpl; lia || (destruct (h_ty h); simpl; lia)).
  destruct h as [? ? ? []]; done.
Qed.

Lemma bytes_entry_inv e : entry_ok bytes_ok e -> bytes_entry (entry_bytes e) = Some e.
Proof.
  intros (Hf & Ht & Hc & Hok). unfold bytes_entry, entry_bytes, content_bytes, le64, le32.
  rewrite take_le, (drop_le 4 0), (drop_le 4 4), (drop_le 4 8), (drop_le 4 16).
  rewrite drop_0, take_le, (drop_le 4 0), (drop_le 4 4), (drop_le 4 12), drop_0.
  rewrite !(le_val_bytes 4) by (simpl; lia).
  destruct e as [fs ti c cr]. cbn [e_fsize e_trans_id e_inner e_crc32] in *.
  destruct c as [l|t]; simpl in Hok; rewrite <- !app_assoc, take_le.
  - rewrite (drop_le 4 0), (drop_le 4 8), (drop_le 8 0), !drop_0, take_le.
    rewrite le_val_bytes by (simpl; lia). simpl Z.eqb. cbn iota.
    rewrite le_val_bytes by (pose proof (zlen_nonneg l); simpl; lia).
    unfold zlen. rewrite Nat2Z.id.
    rewrite take_app_length, drop_app_length, <- (app_nil_r (le_bytes 4 cr)), take_le.
    by rewrite le_val_bytes by (simpl; lia).
  - rewrite (drop_le 4 0), (drop_le 4 8), (drop_le 8 0), !drop_0, take_le.
    rewrite le_val_bytes by (simpl; lia). simpl Z.eqb. cbn iota.
    rewrite <- (app_nil_r (le_bytes 4 cr)), take_le.
    by rewrite !le_val_bytes by (simpl; lia).
Qed.

#[export] Instance bytes_format_laws : StoreFormatLaws (list Z).
Proof.
  refine {| content_ok := bytes_ok; ser_content := content_bytes |}.
  - intros h1 h2. change (length (header_bytes h1) = length (header_bytes h2)).
    unfold header_bytes, le64, le32.
    by rewrite !length_app, !length_le_bytes.
  - apply bytes_header_inv.
  - done.
  - apply bytes_entry_inv.
  - intros l. apply u32_range.
Defined.

(** ** Entries of any type that can be written as bytes

    [f] writes a payload and [g] reads it back where they agree. *)
Section Mapped.
Context {T : Type} (f : T -> list Z) (g : list Z -> T).

Definition map_content {A B} (h : A -> B) (c : EntryContent A) : EntryContent B :=
  match c with Payload t => Payload (h t) | Time t => Time t end.

Definition map_entry {A B} (h : A -> B) (e : StoreEntry A) : StoreEntry B :=
  mk_StoreEntry (e_fsize e) (e_trans_id e) (map_content h (e_inner e)) (e_crc32 e).

Definition mapped_format : StoreFormat T := {|
  ser_header := header_bytes; de_header := bytes_header;
  ser_entry := fun e => entry_bytes (map_entry f e);
  de_entry := fun l => map_entry g <$> bytes_entry l;
  checksum_ieee := byte_sum |}.

Definition mapped_ok (c : EntryContent T) : Prop :=
  bytes_ok (map_content f c) /\ map_content g (map_content f c) = c.

Definition mapped_format_laws : StoreFormatLaws T (F := mapped_format).
Proof.
  refine (Build_StoreFormatLaws T mapped_format mapped_ok
    (fun c => content_bytes (map_content f c)) _ _ _ _ _).
  - intros h1 h2. cbn. unfold header_bytes, le64, le32. by rewrite !length_app, !length_le_bytes.
  - apply bytes_header_inv.
  - done.
  - intros e (Hf & Ht & Hc & Hok & Hinv). cbn. rewrite bytes_entry_inv by done.
    cbn. f_equal. destruct e. unfold map_entry. cbn in *. by rewrite Hinv.
  - intros l. apply u32_range.
Defined.

End Mapped.
