(* ===== verification/StoreRecovery.v ===== *)
(** * Reopening a journal

    On its first lap around the ring a journal is durable: the file alone, read
    by [Journal::open], gives back the header the process had in memory. *)

From stdpp Require Import base list numbers option strings.
From Stdlib Require Import ZArith Lia.
From S2P Require Import Prelude Common Filestore Store StoreSpec.

Local Open Scope Z_scope.

Section Recovery.
Context {T : Type} {F : StoreFormat T} {L : StoreFormatLaws T}.
Abbreviation rec := (Z * EntryContent T)%type.

(** ** Invariant *)
Definition block_t0 (b : list rec) : Z := match b with (t, _) :: _ => t | [] => 0 end.

Definition consecutive (t0 : Z) (b : list rec) : Prop :=
  forall i r, b !! i = Some r -> fst r = u32 (t0 + Z.of_nat i).

Definition zero_from (f : file) (off : Z) : Prop := forall i, off <= i -> f_data f i = 0.

Definition disk_header (j : Journal) (bs : list (list rec)) (b : list rec) : JournalHeader :=
  mk_JournalHeader ((zlen bs - 1) * BLOCK_SIZE) 0 (block_t0 b) (h_ty (j_header j)).

(** The header an all-zero file decodes to. *)
Definition blank_header : JournalHeader := mk_JournalHeader 0 0 0 JT_Invalid.

Record Durable (k : Z) (j : Journal) (bs : list (list rec)) : Prop := mk_Durable {
  du_repr : Repr k 0 j bs;
  du_size : ring_size (j_file j) = j_size j;
  du_zero : zero_from (j_file j) (HEADER_SIZE + h_tail (j_header j));
  du_room : forall b, last bs = Some b -> used b < BLOCK_SIZE;
  du_ids : forall b, last bs = Some b ->
    consecutive (block_t0 b) b /\ h_trans_ctr (j_header j) = u32 (block_t0 b + zlen b);
  du_header : forall b, last bs = Some b -> 1 < zlen bs ->
    at_bytes (j_file j) 0 (ser_header (disk_header j bs b));
  du_blank : zlen bs <= 1 -> at_bytes (j_file j) 0 (ser_header blank_header) }.

(** ** Reading words at the cursor *)
Lemma read_u32_le_spec j v :
  at_bytes (j_file j) (f_pos (j_file j)) (le32 v) -> 0 <= v < 2 ^ 32 ->
  f_pos (j_file j) + 4 <= f_len (j_file j) ->
  read_u32_le j = (Ok v, set_file j (seek_start (j_file j) (f_pos (j_file j) + 4))).
Proof.
  intros Ha Hv Hl. unfold read_u32_le, read_exact. munfold.
  pose proof (read_exact_at_ok _ _ _ Ha) as Hr. rewrite zlen_le32 in Hr.
  rewrite Hr by done. by rewrite le32_val.
Qed.

(** The ring geometry a journal object has, whatever its header says. *)
Record Geometry (k : Z) (j : Journal) : Prop := mk_Geometry {
  geo_k : 0 < k;
  geo_size : j_size j = k * BLOCK_SIZE;
  geo_file : HEADER_SIZE + j_size j <= f_len (j_file j) < 2 ^ 63 }.

Lemma Geometry_seek k j p :
  Geometry k j -> Geometry k (set_file j (seek_start (j_file j) p)).
Proof. intros []. by constructor. Qed.

Lemma seek_geometry k j n r :
  Geometry k j -> 0 <= r < BLOCK_SIZE ->
  seek (n * BLOCK_SIZE + r) j = (Ok tt, set_file j (seek_start (j_file j) (pos k n + r))).
Proof.
  intros [Hk Hs Hf] Hr. unfold seek. munfold. by rewrite (file_off_ring k).
Qed.

(** ** The recovery loop *)
Lemma consecutive_cons t0 r b :
  consecutive t0 (r :: b) -> fst r = u32 t0 /\ consecutive (t0 + 1) b.
Proof.
  intros H. split.
  - rewrite (H O r eq_refl). f_equal. lia.
  - intros i r' Hi. rewrite (H (S i) r' Hi). f_equal. lia.
Qed.

Lemma u32_succ a b : u32 a = u32 b -> u32 (a + 1) = u32 (b + 1).
Proof.
  unfold u32, wrap. intros H. rewrite <- (Zplus_mod_idemp_l a), H. by rewrite Zplus_mod_idemp_l.
Qed.

Lemma u32_u32 a : u32 (u32 a) = u32 a.
Proof. unfold u32, wrap. by rewrite Zmod_mod. Qed.

(** At the end of the records, the loop stops where it is. *)
Lemma traverse_end k j n b tx fuel :
  Geometry k j -> 0 <= n -> (n + 1) * BLOCK_SIZE < 2 ^ 63 ->
  h_tail (j_header j) = n * BLOCK_SIZE -> used b < BLOCK_SIZE -> (0 < fuel)%nat ->
  terminated (j_file j) (pos k n) b ->
  exists f', traverse fuel (n * BLOCK_SIZE + used b) tx j =
    (Ok (n * BLOCK_SIZE + used b, tx), set_file j (seek_start (j_file j) f')).
Proof.
  intros HG Hn Hb Htail Hu Hfuel Hz. destruct fuel as [|fuel]; [lia|].
  pose proof (used_nonneg b). cbn [traverse]. munfold.
  assert (align_up_always (h_tail (j_header j)) BLOCK_SIZE = (n + 1) * BLOCK_SIZE) as ->.
  { rewrite Htail, <- (Z.add_0_r (n * _)).
    apply align_up_always_block; unfold BLOCK_SIZE in *; lia. }
  assert (j = set_file j (seek_start (j_file j) (f_pos (j_file j)))) as Hid
    by (destruct j as [? ? [] ? ? ? ?]; done).
  replace ((n + 1) * BLOCK_SIZE <? n * BLOCK_SIZE + used b) with false
    by (unfold BLOCK_SIZE in *; lia).
  rewrite (tail_space _ _ _ eq_refl) by (unfold BLOCK_SIZE in *; lia).
  destruct (BLOCK_SIZE - used b <? 4) eqn:E4; [by eexists; rewrite <- Hid|].
  destruct Hz as [|Hz]; [lia|].
  rewrite (seek_geometry k) by (done || lia).
  rewrite (read_u32_le_spec _ 0); jsimpl; [..|done|].
  - simpl. eexists. done.
  - done.
  - destruct HG as [Hk Hs Hf]. pose proof (pos_bounds k n Hk).
    unfold seek_start. cbn [f_pos f_len]. lia.
Qed.

Lemma traverse_spec k j n b1 b2 t0 tx fuel :
  Geometry k j -> 0 <= n -> (n + 1) * BLOCK_SIZE < 2 ^ 63 ->
  h_tail (j_header j) = n * BLOCK_SIZE ->
  at_bytes (j_file j) (pos k n) (block_bytes (b1 ++ b2)) ->
  Forall rec_ok (b1 ++ b2) -> used (b1 ++ b2) < BLOCK_SIZE ->
  terminated (j_file j) (pos k n) (b1 ++ b2) ->
  consecutive t0 b2 -> u32 (tx + 1) = u32 t0 -> (length b2 < fuel)%nat ->
  exists f' tx', traverse fuel (n * BLOCK_SIZE + used b1) tx j =
    (Ok (n * BLOCK_SIZE + used (b1 ++ b2), tx'), set_file j (seek_start (j_file j) f')) /\
    u32 (tx' + 1) = u32 (t0 + zlen b2).
Proof.
  revert j b1 t0 tx fuel. induction b2 as [|r b2 IH];
    intros j b1 t0 tx fuel HG Hn Hb Htail Ha Hok Hu Hz Hcons Htx Hfuel.
  { rewrite app_nil_r in *. destruct (traverse_end k j n b1 tx fuel) as [f' Ht]; try done.
    exists f', tx. split; [done|]. rewrite zlen_nil, Z.add_0_r. done. }
  destruct fuel as [|fuel]; [simpl in Hfuel; lia|].
  pose proof (used_nonneg b1). pose proof (used_nonneg b2). pose proof (esize_pos r).
  pose proof Hu as Hu'. rewrite used_app in Hu'. simpl in Hu'.
  pose proof Hok as Hok'. apply Forall_app in Hok' as [_ Hok'].
  apply Forall_cons_1 in Hok' as [(Htid & Hcok & Hsz) _].
  destruct (consecutive_cons _ _ _ Hcons) as [Hid Hcons'].
  pose proof Ha as Ha'. rewrite block_bytes_mid, !at_bytes_app, zlen_block_bytes in Ha'.
  destruct Ha' as (_ & Ha' & _). unfold enc, prefix_bytes in Ha'. rewrite <- !app_assoc in Ha'.
  rewrite !at_bytes_app, !zlen_le32 in Ha'. destruct Ha' as (Hw1 & Hw2 & _).
  cbn [traverse]. munfold.
  assert (align_up_always (h_tail (j_header j)) BLOCK_SIZE = (n + 1) * BLOCK_SIZE) as ->.
  { rewrite Htail, <- (Z.add_0_r (n * _)).
    apply align_up_always_block; unfold BLOCK_SIZE in *; lia. }
  replace ((n + 1) * BLOCK_SIZE <? n * BLOCK_SIZE + used b1) with false
    by (unfold BLOCK_SIZE in *; lia).
  rewrite (tail_space _ _ _ eq_refl) by (unfold BLOCK_SIZE in *; lia).
  replace (BLOCK_SIZE - used b1 <? 4) with false by lia.
  rewrite (seek_geometry k) by (done || lia).
  destruct HG as [Hk Hs Hf]. pose proof (pos_bounds k n Hk).
  rewrite (read_u32_le_spec _ (esize r)); jsimpl; unfold seek_start; cbn [f_pos f_len f_data];
    [|done|unfold BLOCK_SIZE in *; lia|lia].
  replace (esize r =? 0) with false by lia.
  rewrite (read_u32_le_spec _ (fst r)); jsimpl; unfold seek_start; cbn [f_pos f_len f_data];
    [|done|done|lia].
  rewrite u64_small by (unfold BLOCK_SIZE in *; lia).
  replace (fst r =? u32 (tx + 1)) with true by (rewrite Hid, Htx; symmetry; apply Z.eqb_refl).
  cbn [negb].
  replace (n * BLOCK_SIZE + used b1 + esize r)
    with (n * BLOCK_SIZE + used (b1 ++ [r])) by (rewrite used_app; simpl; lia).
  edestruct (IH (set_file j (seek_start (j_file j) (pos k n + used b1 + 4 + 4)))
    (b1 ++ [r]) (t0 + 1) (fst r) fuel) as (f' & tx' & Ht & Hx); jsimpl;
    rewrite <- ?app_assoc; try done; [..|simpl in Hfuel; lia|].
  { rewrite Hid. apply u32_succ. apply u32_u32. }
  rewrite <- app_assoc in Ht. cbn [app] in Ht.
  exists f', tx'. split; [exact Ht|]. rewrite Hx, zlen_cons. f_equal. lia.
Qed.

(** ** Reopening *)
Lemma pos_first_lap k n : 0 <= n < k -> pos k n = HEADER_SIZE + n * BLOCK_SIZE.
Proof. intros H. unfold pos. by rewrite Z.mod_small. Qed.

Lemma zero_from_terminated f k n b :
  0 <= n < k -> zero_from f (HEADER_SIZE + (n * BLOCK_SIZE + used b)) ->
  terminated f (pos k n) b.
Proof.
  intros Hn Hz. right. intros i x Hi. rewrite pos_first_lap by done.
  rewrite Hz by lia. do 4 (destruct i as [|i]; [by inv Hi|]). done.
Qed.

Lemma Journal_open_Durable k j bs c now st :
  Durable k j bs -> 1 < zlen bs ->
  c_journal_type c = JT_Invalid \/ c_journal_type c = h_ty (j_header j) ->
  exists j', Journal_open (j_file j) c now (Ok st) = Ok j' /\
    j_header j' = j_header j /\ Repr k 0 j' bs.
Proof.
  intros [HR Hsz Hzero Hroom Hids Hdisk _] Hlen Hty.
  destruct (last bs) as [b|] eqn:Elast; [|apply last_None in Elast as ->; by rewrite zlen_nil in Hlen].
  specialize (Hroom b eq_refl). destruct (Hids b eq_refl) as [Hcons Hctr].
  specialize (Hdisk b eq_refl Hlen). pose proof HR as [[Hk _ Hs Hf Hh Hc Hl Ht Hb] Htail _].
  rewrite Elast in Htail. set (n := zlen bs - 1) in *.
  replace (0 + zlen bs - 1) with n in Htail by lia.
  destruct (Hb (Z.to_nat n) b) as (Hne & Hok & Hu & Ha).
  { rewrite <- Elast, last_lookup. f_equal. unfold n, zlen. lia. }
  rewrite Z.add_0_l, Z2Nat.id in Ha by lia.
  pose proof (used_nonneg b). pose proof header_size_nonneg.
  assert (h_ty (disk_header j bs b) = h_ty (j_header j)) as Hdty by done.
  assert (0 <= block_t0 b < 2 ^ 32) as Ht0.
  { destruct b as [|[t ?] b]; [done|]. apply Forall_cons_1 in Hok as [(Htt & _) _]. done. }
  unfold Journal_open, read_exact. cbn [f_pos seek_start].
  pose proof (read_exact_at_ok (seek_start (j_file j) 0) 0 _ Hdisk) as Hread.
  rewrite zlen_header in Hread. cbn [f_len seek_start] in Hread.
  rewrite Hread by (unfold BLOCK_SIZE in *; lia). unfold mbind, outcome_bind.
  rewrite law_header_de by (unfold header_ok, disk_header; cbn; unfold BLOCK_SIZE in *; lia).
  rewrite Hdty. replace (negb _ && negb _) with false.
  2: { destruct Hty as [-> | ->]; [done|]. rewrite andb_comm.
       by rewrite (bool_decide_eq_true_2 (h_ty _ = h_ty _)) by done. }
  change (h_tail (disk_header j bs b)) with (n * BLOCK_SIZE).
  change (h_trans_ctr (disk_header j bs b)) with (block_t0 b).
  match goal with |- context [traverse _ _ _ ?jj] => set (j0 := jj) end.
  edestruct (traverse_spec k j0 n [] b (block_t0 b) (block_t0 b - 1)
    (Z.to_nat (2 * BLOCK_SIZE))) as (f' & tx' & Htr & Htx); try done.
  - constructor; [done|..]; unfold j0; jsimpl; cbn [f_len seek_start];
      [by rewrite <- Hs, <- Hsz|]. change (ring_size _) with (ring_size (j_file j)). lia.
  - lia.
  - unfold BLOCK_SIZE in *; lia.
  - apply zero_from_terminated; [lia|]. cbn [app]. rewrite <- Htail. exact Hzero.
  - f_equal. lia.
  - pose proof (length_used b). unfold zlen in *. lia.
  - simpl used in Htr. rewrite Z.add_0_r in Htr. rewrite Htr.
    eexists. split; [reflexivity|]. unfold j0. jsimpl. cbn [app].
    rewrite Htx, <- Hctr, <- Htail. split.
    + unfold disk_header, set_ctr, set_tail. jsimpl. destruct (j_header j). jsimpl.
      f_equal. lia.
    + destruct HR as [[] ? ?]. constructor; [constructor|..]; jsimpl; try done;
        cbn [f_len f_data seek_start]; try done;
        change (ring_size _) with (ring_size (j_file j)); by rewrite Hsz.
Qed.

(** ** Writes on the first lap keep the journal durable *)

(** The next record neither fills its block exactly nor wraps around. *)
Definition stays_on_lap (k : Z) (bs : list (list rec)) (r : rec) : Prop :=
  match last bs with
  | None => True
  | Some b => used b + esize r < BLOCK_SIZE \/ (BLOCK_SIZE < used b + esize r /\ zlen bs < k)
  end.

Lemma zero_from_write f off off' l o :
  zero_from f off -> off <= off' -> o + zlen l <= off' ->
  zero_from (write_all_at f l o) off'.
Proof. intros Hz H1 H2 i Hi. rewrite write_all_at_other by lia. apply Hz. lia. Qed.

Lemma ring_size_write f l o :
  o + zlen l <= f_len f -> ring_size (write_all_at f l o) = ring_size f.
Proof. intros H. unfold ring_size. by rewrite f_len_write. Qed.

Lemma consecutive_snoc t0 b c :
  consecutive t0 b -> consecutive t0 (b ++ [(u32 (t0 + zlen b), c)]).
Proof.
  intros H i r Hi. apply lookup_app_Some in Hi as [Hi|[Hge Hi]]; [by apply H|].
  destruct (i - length b)%nat eqn:E; [|done]. inv Hi. cbn. f_equal. unfold zlen. lia.
Qed.

(** Appending to the block that starts at [n]. *)
Lemma Durable_append_open k j bs b r j' :
  fst r = h_trans_ctr (j_header j) -> Durable k j (bs ++ [b]) -> rec_ok r -> used b + esize r < BLOCK_SIZE ->
  h_tail (j_header j) + BLOCK_SIZE < 2 ^ 63 ->
  append_buf (enc r) (esize r) j = (Ok tt, j') -> Durable k j' (bs ++ [b ++ [r]]).
Proof.
  intros Hid [HR Hsz Hzero Hroom Hids Hdisk Hblank] Hr Hfit Hbound Heq.
  destruct (append_open k 0 j bs b r HR Hr) as (j2 & Heq2 & HR2 & _); [lia|lia|].
  rewrite Heq in Heq2. inv Heq2.
  pose proof HR as [[Hk _ Hs Hf Hh Hc Hl Ht Hb] Htail _].
  rewrite last_snoc, zlen_app in Htail. rewrite zlen_app in Hl. change (zlen [b]) with 1 in *.
  pose proof (used_nonneg b). pose proof header_size_nonneg. pose proof (esize_pos r).
  pose proof (zlen_nonneg bs). pose proof (pos_bounds k (zlen bs) Hk).
  replace (0 + (zlen bs + 1) - 1) with (zlen bs) in Htail by lia.
  assert (0 <= used b < BLOCK_SIZE) as Hub by lia.
  pose proof (file_off_ring k j (zlen bs) (used b) Hk Hs Hf Hub) as Ho.
  rewrite <- Htail in Ho. rewrite (append_buf_eq _ _ _ _ Ho) in Heq. inv Heq.
  destruct (Hids b) as [Hcons Hctr]; [by rewrite last_snoc|].
  destruct (Hb (length bs) b) as (Hne & _); [by rewrite lookup_app_r, Nat.sub_diag by lia|].
  assert (block_t0 (b ++ [r]) = block_t0 b) as Ht0 by (by destruct b).
  assert (zlen (enc r) = esize r) as Henc by apply zlen_enc.
  constructor; [done|..]; unfold appended; jsimpl.
  - rewrite ring_size_write by lia. done.
  - rewrite u64_small by lia. eapply zero_from_write; [exact Hzero|lia|].
    rewrite Htail, pos_first_lap by lia. lia.
  - intros b' Hb'. rewrite last_snoc in Hb'. inv Hb'. rewrite used_app. cbn [used]. lia.
  - intros b' Hb'. rewrite last_snoc in Hb'. inv Hb'. rewrite Ht0. split.
    + destruct r as [t c]. cbn in Hid. rewrite Hid, Hctr. by apply consecutive_snoc.
    + rewrite Hctr, zlen_app, <- u32_u32. change (zlen [r]) with 1.
      rewrite Z.add_assoc. rewrite u32_u32. apply u32_succ, u32_u32.
  - intros b' Hb' Hlen. rewrite last_snoc in Hb'. inv Hb'.
    apply at_bytes_write_other; [rewrite zlen_header; lia|].
    unfold disk_header in *. jsimpl. rewrite Ht0, !zlen_app in *.
    apply (Hdisk b); [by rewrite last_snoc|done].
  - rewrite zlen_app. change (zlen [_]) with 1. intros Hlen.
    apply at_bytes_write_other; [rewrite zlen_header; lia|].
    apply Hblank. rewrite zlen_app. change (zlen [b]) with 1. lia.
Qed.

(** Opening the next block. *)
Lemma Durable_append_closed k j bs r j' :
  fst r = h_trans_ctr (j_header j) -> Closed k 0 j bs -> zlen bs < k -> rec_ok r ->
  ring_size (j_file j) = j_size j ->
  zero_from (j_file j) (HEADER_SIZE + h_tail (j_header j)) ->
  at_bytes (j_file j) 0
    (ser_header (match bs with [] => blank_header | _ => j_header j end)) ->
  h_tail (j_header j) + BLOCK_SIZE < 2 ^ 63 ->
  append_buf (enc r) (esize r) j = (Ok tt, j') -> Durable k j' (bs ++ [[r]]).
Proof.
  intros Hid HC Hlt Hr Hsz Hzero Hdisk Hbound Heq.
  destruct (append_closed k 0 j bs r HC Hlt Hr) as (j2 & Heq2 & HR2 & _); [lia|].
  rewrite Heq in Heq2. inv Heq2.
  pose proof HC as [[Hk _ Hs Hf Hh Hc Hl Ht Hb] Htail _]. rewrite Z.add_0_l in Htail.
  pose proof header_size_nonneg. pose proof (esize_pos r). pose proof (zlen_nonneg bs).
  pose proof (pos_bounds k (zlen bs) Hk). destruct (Hr) as (_ & _ & Hrs).
  pose proof (file_off_ring k j (zlen bs) 0 Hk Hs Hf ltac:(done)) as Ho.
  rewrite !Z.add_0_r, <- Htail in Ho. rewrite (append_buf_eq _ _ _ _ Ho) in Heq. inv Heq.
  assert (zlen (enc r) = esize r) as Henc by apply zlen_enc.
  constructor; [done|..]; unfold appended; jsimpl.
  - rewrite ring_size_write by lia. done.
  - rewrite u64_small by lia. eapply zero_from_write; [exact Hzero|lia|].
    rewrite Htail, pos_first_lap by lia. lia.
  - intros b' Hb'. rewrite last_snoc in Hb'. inv Hb'. cbn [used]. lia.
  - intros b' Hb'. rewrite last_snoc in Hb'. inv Hb'. destruct r as [t c]. cbn in Hid. rewrite Hid in *. split; [|done].
    intros [|i] r' Hi; [|done]. inv Hi. cbn. rewrite u32_small; lia.
  - intros b' Hb' Hlen. rewrite last_snoc in Hb'. inv Hb'.
    apply at_bytes_write_other; [rewrite zlen_header; lia|].
    destruct bs as [|b0 bs]; [done|].
    unfold disk_header. jsimpl. rewrite zlen_app. change (zlen [[r]]) with 1.
    replace ((zlen (b0 :: bs) + 1 - 1) * BLOCK_SIZE) with (h_tail (j_header j)) by lia.
    replace (mk_JournalHeader _ 0 _ _) with (j_header j); [done|].
    destruct r as [t c]. cbn in Hid |- *. rewrite Hid.
    destruct (j_header j). jsimpl. f_equal. lia.
  - rewrite zlen_app. change (zlen [_]) with 1. intros Hlen.
    apply at_bytes_write_other; [rewrite zlen_header; lia|].
    destruct bs as [|b0 bs]; [done|]. rewrite zlen_cons in Hlen.
    pose proof (zlen_nonneg bs). lia.
Qed.

(** After the block switch the next record opens a block. *)
Lemma Durable_ended k j bs b :
  Durable k j (bs ++ [b]) -> h_tail (j_header j) + BLOCK_SIZE < 2 ^ 63 ->
  let j1 := ended k 0 j bs b in
  let j2 := set_file j1 (write_all_at (j_file j1) (ser_header (j_header j1)) 0) in
  Closed k 0 j2 (bs ++ [b]) /\ ring_size (j_file j2) = j_size j2 /\
  zero_from (j_file j2) (HEADER_SIZE + h_tail (j_header j2)) /\
  at_bytes (j_file j2) 0 (ser_header (j_header j2)).
Proof.
  intros [HR Hsz Hzero Hroom _ _ _] Hbound j1 j2.
  pose proof (Hroom b ltac:(by rewrite last_snoc)) as Hu.
  pose proof (Repr_end_block k 0 j bs b HR Hu Hbound) as HC. cbn zeta in HC.
  split; [exact (Closed_write_header _ _ _ _ _ HC)|].
  pose proof HR as [[Hk _ Hs Hf Hh Hc Hl Ht Hb] Htail _].
  rewrite last_snoc, zlen_app in Htail. rewrite zlen_app in Hl. change (zlen [b]) with 1 in *.
  pose proof (used_nonneg b). pose proof header_size_nonneg. pose proof (zlen_nonneg bs).
  pose proof (pos_bounds k (zlen bs) Hk).
  unfold j2, j1, ended. jsimpl. rewrite !Z.add_0_l in *. split_and!; [..|apply at_bytes_write_same].
  - destruct (4 <=? BLOCK_SIZE - used b) eqn:E4; jsimpl;
      rewrite !ring_size_write; rewrite ?f_len_write; rewrite ?zlen_header;
      try change (zlen [0; 0; 0; 0]) with 4; try done; unfold BLOCK_SIZE in *; lia.
  - eapply zero_from_write with (off := HEADER_SIZE + (zlen bs + 1) * BLOCK_SIZE);
      [|lia|rewrite zlen_header; unfold BLOCK_SIZE in *; lia].
    destruct (4 <=? BLOCK_SIZE - used b) eqn:E4; jsimpl.
    + eapply zero_from_write; [exact Hzero|unfold BLOCK_SIZE in *; lia|].
      change (zlen [0; 0; 0; 0]) with 4. rewrite pos_first_lap by lia.
      unfold BLOCK_SIZE in *; lia.
    + intros i Hi. apply Hzero. unfold BLOCK_SIZE in *; lia.
Qed.

Lemma write_inner_Durable k j bs r :
  fst r = h_trans_ctr (j_header j) -> Durable k j bs -> rec_ok r -> stays_on_lap k bs r ->
  h_tail (j_header j) + 2 * BLOCK_SIZE < 2 ^ 63 ->
  exists j', write_inner (mk_StoreEntry 0 (fst r) (snd r) 0) j = (Ok tt, j') /\
    Durable k j' (spec_write k bs r) /\ h_tail (j_header j') <= h_tail (j_header j) + 2 * BLOCK_SIZE /\
    h_trans_ctr (j_header j') = u32 (h_trans_ctr (j_header j) + 1) /\ j_last_time j' = j_last_time j.
Proof.
  intros Hid HD Hr Hlap Hbound. pose proof HD as [HR Hsz Hzero Hroom Hids Hdisk Hblank].
  assert (exactly_full k bs = false) as Hnf.
  { unfold exactly_full. destruct (last bs) as [b|]; [|done]. specialize (Hroom b eq_refl). lia. }
  destruct (write_inner_refines k 0 j bs (fst r) (snd r) HR)
    as (q' & j' & Heq & _ & Hc & Hb & Hl); [by destruct r|done|done|].
  exists j'. split; [done|]. split; [|done]. clear Hc Hb Hl.
  rewrite write_inner_unfold in Heq by (by destruct r). cbn zeta in Heq.
  replace (fst r, snd r) with r in Heq by (by destruct r). destruct (Hr) as (_ & _ & Hrs).
  unfold spec_write. unfold stays_on_lap in Hlap. pose proof HR as [[Hk _ Hs Hf Hh Hc Hl Ht Hb] Htail _].
  destruct (last bs) as [b|] eqn:Elast.
  - apply last_Some in Elast as [bs0 ->]. pose proof (used_nonneg b). pose proof (zlen_nonneg bs0).
    specialize (Hroom b eq_refl). rewrite removelast_last. rewrite zlen_app in *.
    change (zlen [b]) with 1 in *. replace (0 + (zlen bs0 + 1) - 1) with (zlen bs0) in Htail by lia.
    rewrite (tail_space _ _ _ Htail) in Heq by (unfold BLOCK_SIZE in *; lia).
    destruct (used b + esize r <=? BLOCK_SIZE) eqn:Efit.
    + replace (BLOCK_SIZE - used b <? esize r) with false in Heq by lia.
      eapply Durable_append_open; try done; lia.
    + replace (BLOCK_SIZE - used b <? esize r) with true in Heq by lia.
      replace (zlen bs0 + 1 =? k) with false by lia.
      unfold mbind, M_bind in Heq. pose proof (switch_block_eq k 0 j bs0 b HR Hroom) as Hsw.
      rewrite Hsw in Heq by lia. cbn zeta in Heq. rewrite zlen_app in Heq.
      change (zlen [b]) with 1 in Heq. replace (zlen bs0 + 1 =? k) with false in Heq by lia.
      destruct (Durable_ended k j bs0 b HD) as (HC & Hz & Hzf & Hh'); [lia|].
      eapply (Durable_append_closed k _ (bs0 ++ [b]) r j'); try exact Heq; try done.
      * rewrite zlen_app. change (zlen [b]) with 1. lia.
      * destruct bs0; exact Hh'.
      * unfold ended. jsimpl. unfold BLOCK_SIZE in *; lia.
  - apply last_None in Elast as ->. rewrite <- (Z.add_0_r (_ * _)) in Htail.
    rewrite (tail_space _ _ _ Htail) in Heq by (unfold BLOCK_SIZE in *; lia).
    replace (BLOCK_SIZE - 0 <? esize r) with false in Heq by lia.
    eapply (Durable_append_closed k j [] r j');
      try (by apply Repr_Closed); try done; [by apply Hblank|]. unfold BLOCK_SIZE in *; lia.
Qed.

(** A new journal on an empty file is durable. *)
Lemma Journal_new_Durable f c now st k :
  0 < k -> HEADER_SIZE + k * BLOCK_SIZE <= f_len f < HEADER_SIZE + (k + 1) * BLOCK_SIZE ->
  f_len f < 2 ^ 63 -> zero_from f HEADER_SIZE -> at_bytes f 0 (ser_header blank_header) ->
  exists j, Journal_new f c now (Ok st) = Ok j /\ Durable k j [] /\ j_last_time j = now /\
    j_header j = mk_JournalHeader 0 0 0 (c_journal_type c).
Proof.
  intros Hk Hf Hb Hz Hblank. destruct (Journal_new_Repr f c now st k Hk Hf Hb)
    as (j & Hnew & HR & Hl & Hh).
  exists j. split; [done|]. split; [|done]. pose proof Hnew as Hn. unfold Journal_new in Hn.
  munfold. inv Hn. constructor; try done.
  jsimpl. by rewrite Z.add_0_r.
Qed.

(** ** A run of writes on the first lap *)
Fixpoint first_lap (k : Z) (bs : list (list rec)) (rs : list rec) : Prop :=
  match rs with
  | [] => True
  | r :: rs => stays_on_lap k bs r /\ first_lap k (spec_write k bs r) rs
  end.

Lemma write_entry_Durable k j bs now t :
  let ctr := h_trans_ctr (j_header j) in
  let rs := entry_records (j_last_time j) ctr now t in
  Durable k j bs -> j_last_time j <= now -> Forall rec_ok rs -> first_lap k bs rs ->
  h_tail (j_header j) + 2 * BLOCK_SIZE * (zlen rs + 1) < 2 ^ 63 ->
  exists j', write_entry now t j = (Ok tt, j') /\
    Durable k j' (foldl (spec_write k) bs rs) /\
    j_last_time j' = next_last (j_last_time j) now /\
    h_trans_ctr (j_header j') = u32 (ctr + zlen rs) /\
    h_tail (j_header j') <= h_tail (j_header j) + 2 * BLOCK_SIZE * zlen rs.
Proof.
  intros ctr rs HD Hnow Hok Hlap Hbound. subst ctr rs. unfold entry_records, next_last in *.
  unfold write_entry. munfold. replace (now <? j_last_time j) with false by lia.
  destruct (1000000000 <? now - j_last_time j).
  - apply Forall_cons_1 in Hok as [Hr1 Hok]. apply Forall_cons_1 in Hok as [Hr2 _].
    destruct Hlap as (Hl1 & Hl2 & _).
    change (zlen [_; _]) with 2 in *.
    edestruct (write_inner_Durable k j bs (_, Time now) eq_refl HD Hr1 Hl1) as (j1 & Hw1 & HD1 & Ht1 & Hc1 & _);
      [unfold BLOCK_SIZE in *; lia|].
    cbn [fst snd] in Hw1. rewrite Hw1.
    assert (Durable k (set_last_time j1 now)
      (spec_write k bs (h_trans_ctr (j_header j), Time now))) as HD1'.
    { destruct HD1 as [[[] ? ?] ? ? ? ? ? ?].
      constructor; [constructor; [constructor|..]|..]; done. }
    rewrite <- Hc1 in Hr2; rewrite <- Hc1 in Hl2.
    edestruct (write_inner_Durable k (set_last_time j1 now) _ (_, Payload t) eq_refl HD1' Hr2 Hl2)
      as (j2 & Hw2 & HD2 & Ht2 & Hc2 & Hlt2); [jsimpl; unfold BLOCK_SIZE in *; lia|].
    cbn [fst snd] in Hw2. jsimpl. rewrite Hw2. exists j2.
    split_and!; try done; [|rewrite Hc2, Hc1|unfold BLOCK_SIZE in *; lia].
    + cbn [foldl]. rewrite <- Hc1. done.
    + rewrite (Z.add_comm _ 2), (u32_succ _ (h_trans_ctr (j_header j) + 1)) by apply u32_u32.
      f_equal. lia.
  - apply Forall_cons_1 in Hok as [Hr _]. destruct Hlap as [Hl1 _].
    change (zlen [_]) with 1 in *.
    edestruct (write_inner_Durable k j bs (_, Payload t) eq_refl HD Hr Hl1) as (j1 & Hw1 & HD1 & Ht1 & Hc1 & Hlt1);
      [unfold BLOCK_SIZE in *; lia|].
    cbn [fst snd] in Hw1. rewrite Hw1. exists j1. split_and!; try done.
Qed.

Lemma first_lap_app k bs rs rs' :
  first_lap k bs (rs ++ rs') <-> first_lap k bs rs /\ first_lap k (foldl (spec_write k) bs rs) rs'.
Proof. revert bs. induction rs as [|r rs IH]; intros bs; simpl; [tauto|]. rewrite IH. tauto. Qed.

(** Nothing is dropped on the first lap. *)
Lemma first_lap_kept k rs : forall bs, first_lap k bs rs -> mjoin (foldl (spec_write k) bs rs) = mjoin bs ++ rs.
Proof.
  induction rs as [|r rs IH]; intros bs; [by rewrite app_nil_r|]. intros [Hs Hl]. cbn [foldl]. rewrite IH by done.
  unfold spec_write, stays_on_lap in *. destruct (last bs) as [b|] eqn:E.
  - apply last_Some in E as [bs' ->]. rewrite removelast_last. case_match.
    + rewrite !join_app. cbn. by rewrite !app_nil_r, <- !app_assoc.
    + replace (zlen (bs' ++ [b]) =? k) with false by lia. rewrite join_app. cbn. by rewrite <- app_assoc.
  - apply last_None in E as ->. done.
Qed.

Lemma write_entries_Durable k l j bs :
  let rs := history (j_last_time j) (h_trans_ctr (j_header j)) l in
  Durable k j bs -> clock_ok (j_last_time j) l -> Forall rec_ok rs -> first_lap k bs rs ->
  h_tail (j_header j) + 2 * BLOCK_SIZE * (zlen rs + 1) < 2 ^ 63 ->
  exists j', write_entries l j = (Ok tt, j') /\ Durable k j' (foldl (spec_write k) bs rs).
Proof.
  cbn zeta. revert j bs. induction l as [|[now t] l IH]; intros j bs HD Hclk Hok Hlap Hb;
    [by exists j|].
  cbn [history clock_ok] in *. destruct Hclk as [Hnow Hclk].
  apply Forall_app in Hok as [Hok1 Hok2]. apply first_lap_app in Hlap as [Hl1 Hl2].
  rewrite zlen_app in Hb.
  match type of Hb with context [zlen ?x + zlen ?y] =>
    pose proof (zlen_nonneg x); pose proof (zlen_nonneg y) end.
  destruct (write_entry_Durable k j bs now t HD Hnow Hok1 Hl1)
    as (j1 & Hw & HD1 & Hlt & Hct & Htl); [unfold BLOCK_SIZE in *; lia|].
  rewrite <- Hlt, <- Hct in *.
  destruct (IH j1 _ HD1 Hclk Hok2 Hl2) as (j2 & Hw2 & HD2); [unfold BLOCK_SIZE in *; lia|].
  exists j2. cbn [write_entries]. unfold mbind, M_bind. rewrite Hw, foldl_app. done.
Qed.

(** No write changes the type of a journal. *)
Lemma write_at_type buf off j o j' :
  write_at buf off j = (o, j') -> h_ty (j_header j') = h_ty (j_header j).
Proof. unfold write_at. munfold. intros H. repeat case_match; by simplify_eq. Qed.

Lemma switch_block_type s j o j' :
  switch_block s j = (o, j') -> h_ty (j_header j') = h_ty (j_header j).
Proof.
  unfold switch_block, write_header. munfold. intros H.
  repeat case_match; simplify_eq; jsimpl; try done;
    by match goal with Hw : write_at _ _ _ = _ |- _ => apply write_at_type in Hw end.
Qed.

Lemma write_inner_type e j o j' :
  write_inner e j = (o, j') -> h_ty (j_header j') = h_ty (j_header j).
Proof.
  unfold write_inner, append_buf, flush. munfold. intros H.
  destruct (negb _); [by simplify_eq|].
  destruct (_ <? _) in H.
  - destruct (switch_block _ j) as [o1 j1] eqn:Esw. apply switch_block_type in Esw as <-.
    repeat case_match; simplify_eq; jsimpl; try done;
      by match goal with Hw : write_at _ _ _ = _ |- _ => apply write_at_type in Hw end.
  - repeat case_match; simplify_eq; jsimpl; try done;
      by match goal with Hw : write_at _ _ _ = _ |- _ => apply write_at_type in Hw end.
Qed.

Lemma write_entries_type (l : list (Z * T)) j o j' :
  write_entries l j = (o, j') -> h_ty (j_header j') = h_ty (j_header j).
Proof.
  revert j. induction l as [|[now t] l IH]; intros j H; [by inv H|].
  cbn [write_entries] in H. unfold mbind, M_bind in H.
  assert (forall o1 j1, write_entry now t j = (o1, j1) ->
    h_ty (j_header j1) = h_ty (j_header j)) as Hw.
  { intros o1 j1. unfold write_entry. munfold. intros Hw.
    repeat case_match; simplify_eq; jsimpl;
      repeat match goal with Hw : write_inner _ _ = _ |- _ => apply write_inner_type in Hw end;
      jsimpl; congruence. }
  destruct (write_entry now t j) as [o1 j1]. rewrite <- (Hw o1 j1) by done.
  destruct o1; simplify_eq; [by apply IH|done..].
Qed.

(** A journal that was written on its first lap and is taken from its file has
    its type and its records. *)
Lemma journal_reopened f c c' now0 now st st' k (l : list (Z * T)) :
  0 < k -> HEADER_SIZE + k * BLOCK_SIZE <= f_len f < HEADER_SIZE + (k + 1) * BLOCK_SIZE ->
  let rs := history now0 0 l in
  clock_ok now0 l -> Forall rec_ok rs -> first_lap k [] rs ->
  f_len f < 2 ^ 63 -> 2 * BLOCK_SIZE * (zlen rs + 1) < 2 ^ 63 ->
  zero_from f HEADER_SIZE -> at_bytes f 0 (ser_header blank_header) ->
  1 < zlen (spec_history k rs) -> c_journal_type c' = JT_Invalid ->
  exists j j' j'' it, Journal_new f c now0 (Ok st) = Ok j /\ write_entries l j = (Ok tt, j') /\
    Journal_open (j_file j') c' now (Ok st') = Ok j'' /\ h_ty (j_header j'') = c_journal_type c /\
    collect next_forward (S (length rs)) (read_forward j'') = (Ok (stored <$> rs), it).
Proof.
  intros Hk Hf rs Hclk Hok Hlap Hlen Hb Hz Hblank Hmany Hty.
  destruct (Journal_new_Durable f c now0 st k Hk Hf Hlen Hz Hblank) as (j & Hnew & HD & Hl & Hh).
  destruct (write_entries_Durable k l j []) as (j' & Hw & HD'); rewrite ?Hl, ?Hh; try done.
  rewrite Hl, Hh in HD'. cbn [h_trans_ctr] in HD'. fold rs in HD'.
  destruct (Journal_open_Durable k j' _ c' now st' HD' Hmany) as (j'' & Ho & Hh' & HR); [by left|].
  assert (exists it, collect next_forward (S (length rs)) (read_forward j'') = (Ok (stored <$> mjoin (spec_history k rs)), it)) as [it Hit].
  { assert (mjoin (spec_history k rs) = rs) as Hkept by (unfold spec_history; by rewrite first_lap_kept).
    eapply collect_forward_at; [exact HR|done|by apply at_forward_start|rewrite Hkept; lia]. }
  unfold spec_history in Hit. rewrite first_lap_kept in Hit by done.
  exists j, j', j'', it. split_and!; try done.
  rewrite Hh', (write_entries_type _ _ _ _ Hw), Hh. done.
Qed.

End Recovery.
