(* ===== verification/StoreDamage.v ===== *)
(** * A damaged record and the reverse iterator

    [damaged] is a journal in whose file the bytes of one record, all but its
    length word, have become anything. The blocks after the one with the record
    are read backwards as they were written ([fetch_later]); decoding the block
    itself stops at the damage ([next_reverse_damaged]).

    The iterator looks at the head only to see where the journal ends, so the
    later blocks are read as those of a journal with a later head ([rehead]). *)

From stdpp Require Import base list numbers option strings.
From Stdlib Require Import ZArith Lia.
From S2P Require Import Prelude Common Filestore Store StoreSpec.

Local Open Scope Z_scope.

Section Damage.
Context {T : Type} {F : StoreFormat T} {L : StoreFormatLaws T}.

(** [n] entries, one after the other. *)
Fixpoint fetch (next : M (JournalIterator T) (option (StoreEntry T))) (n : nat)
  : M (JournalIterator T) (list (StoreEntry T)) :=
  match n with
  | O => mret []
  | S n => o ← next; match o with None => mret [] | Some e => es ← fetch next n; mret (e :: es) end
  end.

(** The record after [b1] in block [i] overwritten. *)
Definition damaged (k q : Z) (j : Journal) (i : nat) (b1 : list (Z * EntryContent T)) (bad : list Z) : Journal :=
  set_file j (write_all_at (j_file j) bad (pos k (q + Z.of_nat i) + used b1)).

(** What no checksum of its own bytes would be. *)
Definition crc_fails (buf : list Z) : Prop :=
  le_val (drop (length buf - 4) buf) <> checksum_ieee (take (length buf - 4) buf).

(** ** The head only ends the journal *)
Definition moved (j j' : Journal) : Prop := exists p, j' = set_file j (seek_start (j_file j) p).

Lemma moved_refl j : moved j j.
Proof. exists (f_pos (j_file j)). by destruct j as [? ? [] ? ? ? ?]. Qed.

Lemma moved_seek j j' p : moved j j' -> moved j (set_file j' (seek_start (j_file j') p)).
Proof. intros [p' ->]. by exists p. Qed.

Lemma moved_trans j1 j2 j3 : moved j1 j2 -> moved j2 j3 -> moved j1 j3.
Proof. intros [p ->] [p' ->]. by exists p'. Qed.

Definition rehead (h : Z) (it : JournalIterator T) : JournalIterator T :=
  mk_JournalIterator (set_head (it_header it) h)
    (set_header (it_journal it) (set_head (j_header (it_journal it)) h)) (it_block_buffer it).

Lemma decode_block_rehead h fuel : forall off it,
  decode_block fuel off (rehead h it) = (fst (decode_block fuel off it), rehead h (snd (decode_block fuel off it))).
Proof.
  induction fuel as [|fuel IH]; intros off it; [done|]. cbn [decode_block]. munfold. cbn [rehead it_header it_journal h_tail set_head].
  destruct (_ <? 4); [done|]. change (read_at (set_header ?j _)) with (read_at j).
  destruct (read_at (it_journal it) off 4) as [buf| | |]; try done. destruct (bool_decide _); [done|]. destruct (_ <? _); [done|].
  unfold seek. munfold. change (file_off (it_journal (rehead h it)) off) with (file_off (it_journal it) off).
  destruct (file_off (it_journal it) off) as [o| | |]; try done. cbn [it_journal rehead].
  change (read_at (set_file (set_header ?j _) _)) with (read_at j). change (read_at (set_file ?j _)) with (read_at j).
  destruct (read_at (it_journal it) off _) as [buf'| | |]; try done. destruct (_ <? 4); [done|]. destruct (negb _); [done|].
  unfold ok_or_other. destruct (de_entry buf') as [e|]; [|done]. cbn [it_header it_journal it_block_buffer].
  apply (IH _ (mk_JournalIterator (it_header it) (set_file (it_journal it) (seek_start (j_file (it_journal it)) o)) (it_block_buffer it ++ [e]))).
Qed.

Lemma decode_block_moves fuel : forall off it,
  it_header (snd (decode_block fuel off it)) = it_header it /\
  moved (it_journal it) (it_journal (snd (decode_block fuel off it))).
Proof.
  induction fuel as [|fuel IH]; intros off it; [split; [done|apply moved_refl]|]. cbn [decode_block]. munfold.
  pose proof (moved_refl (it_journal it)) as Hr.
  destruct (_ <? 4); [done|]. destruct (read_at (it_journal it) off 4) as [buf| | |]; try done.
  destruct (bool_decide _); [done|]. destruct (_ <? _); [done|]. unfold seek. munfold.
  destruct (file_off (it_journal it) off) as [o| | |]; try done. cbn [it_journal].
  pose proof (moved_seek _ _ o Hr) as Hm. change (read_at (set_file ?j _)) with (read_at j).
  destruct (read_at (it_journal it) off _) as [buf'| | |]; try by split. destruct (_ <? 4); [by split|]. destruct (negb _); [by split|].
  unfold ok_or_other. destruct (de_entry buf') as [e|]; [|done]. cbn [it_header it_journal it_block_buffer].
  destruct (IH (u64 (off + le_val buf)) (mk_JournalIterator (it_header it)
    (set_file (it_journal it) (seek_start (j_file (it_journal it)) o)) (it_block_buffer it ++ [e]))) as [-> Hm'].
  split; [by split|]. exact (moved_trans _ _ _ Hm Hm').
Qed.

Lemma next_reverse_rehead h it :
  it_block_buffer it <> [] \/ (h_tail (it_header it) <> h /\ h_tail (it_header it) <> h_head (it_header it)) ->
  next_reverse (rehead h it) = (fst (next_reverse it), rehead h (snd (next_reverse it))).
Proof.
  intros Hne. unfold next_reverse. munfold. cbn [rehead it_block_buffer it_header it_journal h_tail h_head set_head].
  destruct (it_block_buffer it) as [|e es] eqn:Eb.
  2: { change (it_block_buffer (rehead h it)) with (it_block_buffer it). rewrite Eb. by destruct (last (e :: es)). }
  destruct Hne as [|[H1 H2]]; [done|]. replace (h =? _) with false by lia. replace (h_head _ =? _) with false by lia. cbn [orb].
  destruct (h_tail (it_header it) =? 0) eqn:E0; [done|].
  set (off := if negb _ then _ else _). change (mk_JournalIterator _ _ []) with (rehead h (mk_JournalIterator (it_header it) (it_journal it) [])).
  replace (mk_JournalIterator (it_header it) (it_journal it) []) with it by (destruct it; simpl in *; by subst).
  rewrite (decode_block_rehead h). destruct (decode_block_moves (Z.to_nat BLOCK_SIZE) off it) as [Hh _].
  destruct (decode_block _ off it) as [[[]| | |] it1]; try done. cbn [fst snd] in *.
  unfold retreat_tail, it_set_tail. munfold. cbn [rehead it_header it_block_buffer h_tail h_head set_head]. rewrite Hh.
  replace (_ =? h) with false by lia. replace (_ =? h_head _) with false by lia.
  destruct (negb (_ mod _ =? 0)); [|rewrite E0]; cbn; by destruct (last (it_block_buffer it1)).
Qed.

Lemma next_reverse_moves it :
  h_head (it_header (snd (next_reverse it))) = h_head (it_header it) /\
  moved (it_journal it) (it_journal (snd (next_reverse it))).
Proof.
  unfold next_reverse. munfold. pose proof (moved_refl (it_journal it)) as Hr.
  destruct (it_block_buffer it) as [|e es] eqn:Eb; [|rewrite Eb; destruct (last (e :: es)); by split].
  destruct (_ || _); [by split|]. generalize (if negb (h_tail (it_header it) mod BLOCK_SIZE =? 0) then align_down (h_tail (it_header it)) BLOCK_SIZE else u64 (h_tail (it_header it) - BLOCK_SIZE)).
  intros off.
  destruct (decode_block_moves (Z.to_nat BLOCK_SIZE) off it) as [Hh Hm].
  destruct (decode_block _ off it) as [[[]| | |] it1]; cbn [snd] in *; rewrite <- Hh; try by split.
  unfold retreat_tail, it_set_tail. munfold.
  destruct (negb _); [|destruct (negb _ && _)]; cbn; destruct (last (it_block_buffer it1)); by split.
Qed.

(** ** The blocks after the damaged one *)
Abbreviation rec := (Z * EntryContent T)%type.

Section Record.
Context (k q : Z) (j : Journal) (bs : list (list rec)) (i : nat) (b1 b2 : list rec) (r : rec) (bad : list Z).
Hypothesis HR : Repr k q j bs.
Hypothesis Hi : bs !! i = Some (b1 ++ r :: b2).
Hypothesis Hbad : zlen bad = esize r.

Abbreviation later := (drop (S i) bs).
Abbreviation later_head := ((q + Z.of_nat (S i)) * BLOCK_SIZE).
Abbreviation jd := (damaged k q j i b1 bad).

Lemma damage_within : 0 <= used b1 /\ used b1 + zlen bad <= BLOCK_SIZE /\ 0 <= Z.of_nat i < k /\
  pos k (q + Z.of_nat i) + used b1 + zlen bad <= f_len (j_file j).
Proof using HR Hi Hbad.
  destruct HR as [[Hk Hq Hs Hf Hh Hc Hl Ht Hb] _ _]. destruct (Hb _ _ Hi) as (_ & _ & Hu & _).
  pose proof (lookup_lt_Some _ _ _ Hi). rewrite used_app in Hu. simpl in Hu. pose proof (used_nonneg b1). pose proof (used_nonneg b2).
  pose proof (pos_bounds k (q + Z.of_nat i) Hk). unfold zlen in *. split_and!; lia.
Qed.

(** A ring read from the damaged file, of any blocks that are still there. *)
Lemma Ring_damaged q' h bs' : 0 <= q' -> h = q' * BLOCK_SIZE -> zlen bs' <= k ->
  (forall n b, bs' !! n = Some b -> block_ok (j_file jd) (pos k (q' + Z.of_nat n)) b) ->
  Ring k q' (set_header jd (set_head (j_header j) h)) bs'.
Proof using HR Hi Hbad.
  intros Hq' -> Hl' Hb'. destruct damage_within as (_ & _ & _ & Hin). destruct HR as [[Hk Hq Hs Hf Hh Hc Hl Ht Hb] _ _].
  constructor; try done. unfold jd, damaged. jsimpl. by rewrite f_len_write.
Qed.

Lemma later_pos n b : later !! n = Some b ->
  bs !! (S i + n)%nat = Some b /\ q + Z.of_nat (S i) + Z.of_nat n = q + Z.of_nat (S i + n) /\
  (pos k (q + Z.of_nat (S i + n)) + BLOCK_SIZE <= pos k (q + Z.of_nat i) + used b1 \/
   pos k (q + Z.of_nat i) + used b1 + zlen bad <= pos k (q + Z.of_nat (S i + n))).
Proof using HR Hi Hbad.
  rewrite lookup_drop. intros E. pose proof (lookup_lt_Some _ _ _ E) as Hlt. destruct damage_within as (Hu & Hfit & Hik & _).
  destruct HR as [[Hk Hq Hs Hf Hh Hc Hl Ht Hb] _ _]. split_and!; [done|lia|].
  unfold zlen in Hl. destruct (pos_disjoint k q (Z.of_nat i) (Z.of_nat (S i + n)) Hk); lia.
Qed.

Lemma Repr_later : later <> [] -> Repr k (q + Z.of_nat (S i)) (set_header jd (set_head (j_header j) later_head)) later.
Proof using HR Hi Hbad.
  intros Hne. pose proof HR as HR'. destruct HR' as [[Hk Hq Hs Hf Hh Hc Hl Ht Hb] Htail Hterm].
  assert (last later = last bs) as Elast.
  { transitivity (last (take (S i) bs ++ later)); [|by rewrite take_drop]. rewrite last_app.
    destruct (last later) eqn:E; [done|]. by apply last_None in E. }
  assert (zlen later = zlen bs - Z.of_nat (S i)) as Ezlen.
  { unfold zlen in *. rewrite length_drop. destruct (decide (length bs <= S i)%nat); [|lia]. by rewrite drop_ge in Hne. }
  constructor.
  - apply Ring_damaged; [lia|done|lia|]. intros n b E. destruct (later_pos n b E) as (E' & -> & Hd).
    apply block_ok_write; [by apply Hb|]. destruct (Hb _ _ E') as (_ & _ & Hu & _). lia.
  - rewrite Elast. jsimpl. rewrite Htail. destruct (last bs) eqn:E; [|apply last_None in E; by rewrite E, drop_nil in Hne].
    rewrite Ezlen. f_equal. lia.
  - intros n b E Hn. destruct (later_pos n b E) as (E' & -> & Hd). apply terminated_write; [|lia].
    apply Hterm; [done|]. rewrite length_drop in Hn. lia.
Qed.

(** Reading backwards down to the damaged block. *)
Lemma fetch_later rest : forall it, at_reverse k (q + Z.of_nat (S i)) later (rehead later_head it) rest ->
  h_head (it_header it) < later_head ->
  exists it1, fetch next_reverse (length rest) it = (Ok (stored <$> rest), it1) /\
    at_reverse k (q + Z.of_nat (S i)) later (rehead later_head it1) [] /\
    moved (it_journal it) (it_journal it1) /\ h_head (it_header it1) = h_head (it_header it).
Proof using Type.
  induction rest as [|x rest IH]; intros it Hat Hhead; cbn [length fetch].
  { exists it. split_and!; try done. apply moved_refl. }
  pose proof (next_reverse_step _ _ _ _ _ Hat) as (it' & Hn & Hat').
  assert (it_block_buffer it <> [] \/ (h_tail (it_header it) <> later_head /\ h_tail (it_header it) <> h_head (it_header it))) as Hne.
  { destruct Hat as (n & c & HRl & _ & Hbuf & Htl & E). destruct c as [|y c].
    2: { left. change (it_block_buffer it = stored <$> y :: c) in Hbuf. rewrite Hbuf. done. }
    right. destruct n as [|n]; [done|].
    assert (is_Some (later !! n)) as [b Hb] by (apply lookup_lt_is_Some; destruct Htl as [[? _]|[? _]]; lia).
    destruct (tail_ends_block_spec _ _ _ _ _ _ HRl Hb Htl) as (_ & _ & u & Hu & Et). cbn in Et. unfold BLOCK_SIZE in *. lia. }
  rewrite (next_reverse_rehead _ _ Hne) in Hn. destruct (next_reverse it) as [o it2] eqn:En. cbn [fst snd] in Hn. injection Hn as -> <-.
  destruct (next_reverse_moves it) as [Hh Hm]. rewrite En in Hh, Hm. cbn [snd] in *.
  destruct (IH it2 Hat' ltac:(lia)) as (it1 & E1 & Hat1 & Hm1 & Hh1). exists it1. unfold mbind, M_bind. rewrite En, E1.
  split; [done|]. split; [done|]. split; [exact (moved_trans _ _ _ Hm Hm1)|congruence].
Qed.

(** ** The damaged block *)
Hypothesis Hword : take 4 bad = le32 (esize r).
Hypothesis Hcrc : crc_fails bad.

Abbreviation head_i := ((q + Z.of_nat i) * BLOCK_SIZE).
Abbreviation jr := (set_header jd (set_head (j_header j) head_i)).

Lemma Ring_moved k' q' j1 j2 bs' : moved j1 j2 -> Ring k' q' j1 bs' -> Ring k' q' j2 bs'.
Proof using Type. intros [p ->] [Hk Hq Hs Hf Hh Hc Hl Ht Hb]. by constructor. Qed.

Lemma damaged_bytes : at_bytes (j_file jd) (pos k (q + Z.of_nat i) + used b1) bad.
Proof using Type. apply at_bytes_write_same. Qed.

Lemma Ring_before : b1 <> [] -> Ring k (q + Z.of_nat i) jr [b1].
Proof using HR Hi Hbad.
  intros Hne. destruct damage_within as (Hu1 & Hfit & Hik & _). pose proof HR as [[Hk Hq Hs Hf Hh Hc Hl Ht Hb] _ _].
  apply Ring_damaged; [lia|done|change (1 <= k); lia|]. intros [|n] b E; [|done]. injection E as <-. rewrite Z.add_0_r.
  destruct (Hb _ _ Hi) as (_ & Hok & _ & Ha). apply Forall_app in Hok as [Hok _]. rewrite block_bytes_app in Ha.
  pose proof (zlen_block_bytes b1). pose proof (zlen_nonneg bad).
  apply at_bytes_app in Ha as [Ha _]. apply block_ok_write; [|lia]. split_and!; [done|done|lia|done].
Qed.

Lemma decode_damaged c2 : forall c1 it fuel, b1 = c1 ++ c2 -> (length c2 < fuel)%nat -> moved jr (it_journal it) ->
  12 <= h_tail (it_header it) - (head_i + used b1) -> h_tail (it_header it) - head_i <= BLOCK_SIZE ->
  (q + Z.of_nat i + 1) * BLOCK_SIZE < 2 ^ 64 ->
  fst (decode_block fuel (head_i + used c1) it) = Err OtherError /\
  it_block_buffer (snd (decode_block fuel (head_i + used c1) it)) = it_block_buffer it ++ (stored <$> c2).
Proof using HR Hi Hbad Hword Hcrc.
  induction c2 as [|x c2 IH]; intros c1 it fuel E Hfuel Hm Hlo Hhi H64; (destruct fuel as [|fuel]; [simpl in Hfuel; lia|]).
  - rewrite app_nil_r in E. subst c1. destruct damage_within as (Hu1 & Hfit & Hik & _). pose proof HR as [[Hk Hq Hs Hf _ _ _ _ _] _ _].
    assert (Ring k (q + Z.of_nat i) (it_journal it) []) as HRing.
    { apply (Ring_moved _ _ jr); [done|]. apply Ring_damaged; [lia|done|unfold zlen; simpl; lia|]. intros n b E. by rewrite lookup_nil in E. }
    assert (at_bytes (j_file (it_journal it)) (pos k (q + Z.of_nat i) + used b1) bad) as Ha
      by (destruct Hm as [p ->]; apply damaged_bytes).
    pose proof (esize_pos r). pose proof Ha as Ha4. rewrite <- (take_drop 4 bad), Hword in Ha4. apply at_bytes_app in Ha4 as [Ha4 _].
    assert (read_at (it_journal it) (head_i + used b1) 4 = Ok (le32 (esize r))) as H4
      by (rewrite <- (zlen_le32 (esize r)); eapply read_at_ring; rewrite ?zlen_le32; try done; lia).
    assert (read_at (it_journal it) (head_i + used b1) (esize r) = Ok bad) as Hall
      by (rewrite <- Hbad; eapply read_at_ring; try done; lia).
    destruct HRing as [_ _ Hs' Hf' _ _ _ _ _].
    assert (0 <= q + Z.of_nat i) as Hn by lia. assert (used b1 + esize r <= BLOCK_SIZE) as Hfit' by lia.
    assert (4 <= esize r) as Hsz by lia.
    assert (4 <= h_tail (it_header it) - (head_i + used b1) < 2 ^ 64) as Hroom by (unfold BLOCK_SIZE in *; lia).
    assert (0 <= used b1 < BLOCK_SIZE) as Hu by lia.
    rewrite (decode_entry fuel _ _ (esize r) bad _ it Hn Hu1 Hfit' Hsz H64 Hroom (file_off_ring k _ _ _ Hk Hs' Hf' Hu) H4 Hall Hbad).
    unfold crc_fails in Hcrc. replace (negb _) with true by (symmetry; apply negb_true_iff, Z.eqb_neq, Hcrc).
    split; [done|]. cbn. by rewrite app_nil_r.
  - assert (b1 <> []) as Hne by (rewrite E; by destruct c1). pose proof (Ring_moved _ _ _ _ _ Hm (Ring_before Hne)) as HRing.
    rewrite E in HRing. pose proof (f_equal used E) as Eu. rewrite used_app in Eu. simpl in Eu.
    pose proof (used_nonneg c2). pose proof (used_nonneg c1). pose proof (esize_pos x).
    destruct (decode_record k (q + Z.of_nat i) [c1 ++ x :: c2] 0 c1 x c2 it fuel HRing eq_refl) as [p Hd];
      [lia|unfold BLOCK_SIZE in *; lia|].
    rewrite Z.add_0_r in Hd. rewrite Hd.
    destruct (IH (c1 ++ [x]) (mk_JournalIterator (it_header it) (set_file (it_journal it) (seek_start (j_file (it_journal it)) p))
      (it_block_buffer it ++ [stored x])) fuel) as [Hd1 Hd2]; try done;
      [by rewrite <- app_assoc|simpl in Hfuel; lia|by apply moved_seek|].
    split; [done|]. rewrite Hd2. cbn. by rewrite <- app_assoc.
Qed.

Lemma decode_from_start fuel it : moved jd (it_journal it) -> it_block_buffer it = [] -> (length b1 < fuel)%nat ->
  decode_limit q bs i (b1 ++ r :: b2) (h_tail (it_header it)) ->
  exists it2, decode_block fuel head_i it = (Err OtherError, it2) /\ it_header it2 = it_header it /\ it_block_buffer it2 = stored <$> b1.
Proof using HR Hi Hbad Hword Hcrc.
  intros Hm Hbuf Hfuel Hlim. pose proof (repr_ring _ _ _ _ HR) as HRing. pose proof (decode_room _ _ _ _ _ _ _ _ _ HRing Hi Hlim) as Hroom.
  destruct damage_within as (Hu1 & Hfit & Hik & _). destruct (offset_below_tail _ _ _ _ _ _ _ HR Hi) as [Hle _].
  destruct (ring_blocks _ _ _ _ HRing _ _ Hi) as (_ & Hok & Hu & _). pose proof (ring_q _ _ _ _ HRing). pose proof (ring_tail _ _ _ _ HRing).
  assert (h_tail (it_header it) - head_i <= BLOCK_SIZE) as Hhi by (destruct Hlim as [[_ ->]|[_ ->]]; lia).
  destruct (decode_damaged b1 [] (rehead head_i it) fuel) as [H1 H2]; try done.
  { destruct Hm as [p Ep]. exists p. cbn [rehead it_journal]. by rewrite Ep. }
  { cbn [rehead it_header h_tail set_head]. lia. }
  { unfold BLOCK_SIZE in *. lia. }
  cbn [used] in H1, H2. rewrite Z.add_0_r, decode_block_rehead in H1, H2. cbn [fst snd rehead it_block_buffer] in H1, H2.
  destruct (decode_block_moves fuel head_i it) as [Hh _]. exists (snd (decode_block fuel head_i it)). rewrite H2, Hbuf. split_and!; [|done|done].
  destruct (decode_block fuel head_i it) as [x it2]. cbn [fst] in H1. by rewrite H1.
Qed.

(** The iterator that has read all later blocks, asked once more. *)
Lemma next_reverse_damaged it : moved jd (it_journal it) -> it_block_buffer it = [] ->
  h_head (it_header it) = q * BLOCK_SIZE -> decode_limit q bs i (b1 ++ r :: b2) (h_tail (it_header it)) ->
  exists it2, next_reverse it = (Err OtherError, it2) /\ it_header it2 = it_header it /\ it_block_buffer it2 = stored <$> b1.
Proof using HR Hi Hbad Hword Hcrc.
  intros Hm Hbuf Hhead Hlim. pose proof (repr_ring _ _ _ _ HR) as HRing. pose proof (decode_room _ _ _ _ _ _ _ _ _ HRing Hi Hlim) as Hroom.
  destruct damage_within as (Hu1 & Hfit & Hik & _). destruct (offset_below_tail _ _ _ _ _ _ _ HR Hi) as [Hle _].
  destruct (ring_blocks _ _ _ _ HRing _ _ Hi) as (_ & Hok & Hu & _). pose proof (ring_q _ _ _ _ HRing). pose proof (ring_tail _ _ _ _ HRing).
  assert (h_tail (it_header it) - head_i <= BLOCK_SIZE) as Hhi by (destruct Hlim as [[_ ->]|[_ ->]]; lia).
  assert (length b1 < Z.to_nat BLOCK_SIZE)%nat as Hfuel by (pose proof (length_used b1); unfold zlen, BLOCK_SIZE in *; lia).
  assert ((if negb (h_tail (it_header it) mod BLOCK_SIZE =? 0) then align_down (h_tail (it_header it)) BLOCK_SIZE
     else u64 (h_tail (it_header it) - BLOCK_SIZE)) = head_i) as Eoff
    by (apply (block_start_of_tail _ _ (h_tail (it_header it) - head_i)); unfold BLOCK_SIZE in *; lia).
  unfold next_reverse. revert Hfuel. generalize (Z.to_nat BLOCK_SIZE). intros fuel Hfuel.
  destruct (decode_from_start fuel it Hm Hbuf Hfuel Hlim) as (it2 & E2 & H2). exists it2. split; [|done].
  munfold. rewrite Hbuf. replace (_ || _) with false by (unfold BLOCK_SIZE in *; lia). by rewrite Eoff, E2.
Qed.

(** The whole run: all that was written after the damaged block, then an error. *)
Lemma reverse_reads_down_to_damage :
  exists it1 it2, fetch next_reverse (length (mjoin later)) (read_reverse jd) = (Ok (stored <$> rev (mjoin later)), it1) /\
    next_reverse it1 = (Err OtherError, it2) /\ it_header it2 = it_header it1 /\ it_block_buffer it2 = stored <$> b1.
Proof using HR Hi Hbad Hword Hcrc.
  pose proof (repr_ring _ _ _ _ HR) as HRing. pose proof (ring_head _ _ _ _ HRing) as Hhead.
  pose proof (lookup_lt_Some _ _ _ Hi) as Hlt.
  destruct (decide (later = [])) as [Enil|Hne].
  - exists (read_reverse jd). rewrite Enil. cbn [mjoin list_join length fetch]. destruct (next_reverse_damaged (read_reverse jd))
      as (it2 & E2 & H2); [apply moved_refl|done|done|..].
    + apply (f_equal length) in Enil. rewrite length_drop in Enil. simpl in Enil. left. split; [lia|].
      change (h_tail (j_header j) = head_i + used (b1 ++ r :: b2)). rewrite (repr_tail _ _ _ _ HR), last_lookup.
      replace (pred (length bs)) with i by lia. rewrite Hi.
      replace (q + zlen bs - 1) with (q + Z.of_nat i) by (unfold zlen; lia). done.
    + exists it2. by split.
  - pose proof (at_reverse_start _ _ _ _ (Repr_later Hne)) as Hat.
    destruct (fetch_later (rev (mjoin later)) (read_reverse jd) Hat) as (it1 & E1 & Hat1 & Hm1 & Hh1).
    { change (h_head (j_header j) < later_head). unfold BLOCK_SIZE in *. lia. }
    rewrite length_rev in E1. exists it1. destruct (next_reverse_damaged it1) as (it2 & E2 & H2); [done|..].
    + destruct Hat1 as (n & c & _ & _ & Hbuf & _ & E). symmetry in E. apply app_nil in E as [Ec _].
      destruct c as [|y c]; [exact Hbuf|]. simpl in Ec. by apply app_nil in Ec as [_ ?].
    + rewrite Hh1. exact Hhead.
    + destruct Hat1 as (n & c & HRl & _ & _ & Htl & E). symmetry in E. apply app_nil in E as [_ E].
      assert (n = 0%nat) as ->.
      { destruct n as [|n]; [done|]. destruct later as [|b l] eqn:El; [done|].
        assert (bs !! S i = Some b) as Hb by (rewrite <- (Nat.add_0_r (S i)), <- lookup_drop, El; done).
        destruct (ring_blocks _ _ _ _ HRing _ _ Hb) as (Hb0 & _). simpl in E. rewrite rev_app_distr in E.
        apply app_nil in E as [_ E]. destruct b as [|y b]; [done|]. simpl in E. by apply app_nil in E as [_ ?]. }
      destruct Htl as [[H0 _]|[H0 Ht]]; [by destruct later|]. right. split; [rewrite length_drop in H0; lia|].
      change (h_tail (it_header it1) = (q + Z.of_nat (S i) + Z.of_nat 0) * BLOCK_SIZE) in Ht. rewrite Ht. lia.
    + exists it2. by split.
Qed.

(** [collect] stops there. *)
Lemma collect_fetch (next : M (JournalIterator T) (option (StoreEntry T))) n es it it1 it2 e m :
  fetch next n it = (Ok es, it1) -> length es = n -> next it1 = (Err e, it2) -> (n < m)%nat -> collect next m it = (Err e, it2).
Proof using Type.
  revert es it m. induction n as [|n IH]; intros es it m Ef El En Hm; (destruct m as [|m]; [lia|]); cbn [collect fetch] in *; munfold.
  { injection Ef as <- <-. by rewrite En. }
  destruct (next it) as [[[x|]| | |] it']; try done; [|injection Ef as <- <-; done].
  destruct (fetch next n it') as [[es'| | |] it''] eqn:E; try done. injection Ef as <- <-. injection El as El.
  by rewrite (IH es' it' m E El En ltac:(lia)).
Qed.
End Record.
End Damage.
