(* ===== verification/JournalProps.v ===== *)
(** * The journal's theorems

    Writing refines the abstract journal of [StoreSpec], both iterators return
    what was written, a journal can be reopened, and the two states in which
    the ring file does not do what it means to. Each theorem is run once on the
    two-block journal [demo_file] with the format of [StoreInst]. *)

From stdpp Require Import base list numbers option strings.
From Stdlib Require Import ZArith Lia.
From S2P Require Import Prelude Common Filestore Store StoreSpec StoreInst StoreRecovery StoreDamage.

Local Open Scope Z_scope.

(** ** A small journal *)
Definition demo_file : file := mk_file (24 + 2 * BLOCK_SIZE) (fun _ => 0) 0.
Definition demo_config : JournalConfig :=
  mk_JournalConfig false (24 + 2 * BLOCK_SIZE) 0 (mk_path true []) JT_Forward.
Definition demo_store : FileStore := mk_FileStore 0 0 0 0 (mk_path true []) FilestoreEntry.
Definition demo_journal : Journal :=
  mk_Journal (mk_JournalHeader 0 0 0 JT_Forward) (2 * BLOCK_SIZE) demo_file false [] 0 demo_store.

(** [n] bytes, more than half a block, so that every entry takes a block. *)
Definition big (x : Z) : list Z := replicate (Z.to_nat 70000) x.
Definition demo_entries : list (Z * list Z) := [(10, big 1); (20, big 2); (30, big 3)].

Section Props.
Context {T : Type} {F : StoreFormat T} {L : StoreFormatLaws T}.

(** C6. A new journal accepts a run of entries, each of less than a block, under
    a monotonic clock, provided that no write meets a full ring whose last block
    is filled to the byte ([never_full]; C26 is what happens then), and both
    iterators return exactly the retained records: the forward one in the order
    they were written, the reverse one backwards. The retained records are a
    suffix of all that was written. *)
Theorem journal_write_then_read f c now st k (l : list (Z * T)) :
  0 < k -> HEADER_SIZE + k * BLOCK_SIZE <= f_len f < HEADER_SIZE + (k + 1) * BLOCK_SIZE ->
  let rs := history now 0 l in
  clock_ok now l -> Forall rec_ok rs -> never_full k [] rs ->
  f_len f < 2 ^ 63 -> 2 * BLOCK_SIZE * (zlen rs + 1) < 2 ^ 63 ->
  exists j j' kept, Journal_new f c now (Ok st) = Ok j /\
    write_entries l j = (Ok tt, j') /\ kept `suffix_of` rs /\
    kept = mjoin (spec_history k rs) /\
    (exists it, collect next_forward (S (length kept)) (read_forward j')
       = (Ok (stored <$> kept), it)) /\
    (exists it, collect next_reverse (S (length kept)) (read_reverse j')
       = (Ok (stored <$> rev kept), it)).
Proof.
  intros Hk Hf rs Hclk Hok Hnf Hlen Hb.
  destruct (Journal_new_Repr f c now st k Hk Hf Hlen) as (j & Hnew & HR & Hl & Hh).
  destruct (write_entries_refines k l 0 j []) as (q & j' & Hw & HR' & _); rewrite ?Hl, ?Hh; try done.
  rewrite Hl, Hh in HR'. cbn [h_trans_ctr] in HR'. fold rs in HR'.
  exists j, j', (mjoin (spec_history k rs)).
  split_and!; try done; [apply spec_history_suffix|..].
  - eapply collect_forward_at; [exact HR'|done|by apply at_forward_start|lia].
  - eapply collect_reverse_at; [by apply at_reverse_start|]. rewrite length_rev. lia.
Qed.

(** C9. One write of a record of less than a block, on a well-formed journal that is
    not at once full and with its last block filled to the byte (C26), is the
    abstract write: it succeeds, the record joins the last block or opens a
    new one, and the oldest block goes when the ring is full. *)
Theorem journal_write_refines k q j bs tid c :
  Repr k q j bs -> rec_ok (tid, c) -> exactly_full k bs = false ->
  h_tail (j_header j) + 2 * BLOCK_SIZE < 2 ^ 63 ->
  exists q' j', write_inner (mk_StoreEntry 0 tid c 0) j = (Ok tt, j') /\
    Repr k q' j' (spec_write k bs (tid, c)) /\ advanced j j' (2 * BLOCK_SIZE).
Proof. apply write_inner_refines. Qed.

(** C24. A journal that was made on a file of zeros, has not gone round its ring
    ([first_lap]) and holds records in more than one block, taken from its file
    alone, is reopened with the same head, tail, transaction counter and type,
    and still holds the same records. Nothing is said of a journal past its
    first lap; one of a single block is refused
    ([journal_reopen_first_block_fails]). *)
Theorem journal_reopen_recovers f c c' now now' st st' k (l : list (Z * T)) :
  0 < k -> HEADER_SIZE + k * BLOCK_SIZE <= f_len f < HEADER_SIZE + (k + 1) * BLOCK_SIZE ->
  let rs := history now 0 l in
  clock_ok now l -> Forall rec_ok rs -> first_lap k [] rs ->
  f_len f < 2 ^ 63 -> 2 * BLOCK_SIZE * (zlen rs + 1) < 2 ^ 63 ->
  zero_from f HEADER_SIZE -> at_bytes f 0 (ser_header blank_header) ->
  1 < zlen (spec_history k rs) ->
  c_journal_type c' = c_journal_type c ->
  exists j j' j'', Journal_new f c now (Ok st) = Ok j /\ write_entries l j = (Ok tt, j') /\
    Journal_open (j_file j') c' now' (Ok st') = Ok j'' /\
    j_header j'' = j_header j' /\ Repr k 0 j'' (spec_history k rs).
Proof.
  intros Hk Hf rs Hclk Hok Hlap Hlen Hb Hz Hblank Hmany Hty.
  destruct (Journal_new_Durable f c now st k Hk Hf Hlen Hz Hblank) as (j & Hnew & HD & Hl & Hh).
  destruct (write_entries_Durable k l j []) as (j' & Hw & HD'); rewrite ?Hl, ?Hh; try done.
  rewrite Hl, Hh in HD'. cbn [h_trans_ctr] in HD'. fold rs in HD'.
  destruct (Journal_open_Durable k j' _ c' now' st' HD' Hmany) as (j'' & Ho & Hh' & HR).
  - right. rewrite Hty. symmetry. change (c_journal_type c)
      with (h_ty (mk_JournalHeader 0 0 0 (c_journal_type c))). rewrite <- Hh.
    by apply (write_entries_type l j (Ok tt)).
  - by exists j, j', j''.
Qed.

(** C26. Known defect: when the last block is filled exactly and every block of the ring
    is in use, the next write opens a block without moving [head]: the live
    range is longer than the ring and the oldest block's first record has been
    overwritten, although [head] still points at it. *)
Theorem journal_write_overruns_full_ring k q j bs tid c :
  Repr k q j bs -> rec_ok (tid, c) -> exactly_full k bs = true ->
  h_tail (j_header j) + BLOCK_SIZE < 2 ^ 63 ->
  exists j', write_inner (mk_StoreEntry 0 tid c 0) j = (Ok tt, j') /\
    h_head (j_header j') = h_head (j_header j) /\
    j_size j' < h_tail (j_header j') - h_head (j_header j') /\
    at_bytes (j_file j') (pos k q) (enc (tid, c)).
Proof.
  intros HR Hr Hfull Hbound. rewrite write_inner_unfold by done. cbn zeta.
  unfold exactly_full in Hfull. destruct (last bs) as [b|] eqn:Elast; [|done].
  apply andb_prop in Hfull as [Hu Hz].
  assert (Closed k q j bs) as HC.
  { apply Repr_Closed; [done|]. intros b' Hb'. rewrite Elast in Hb'. inv Hb'. lia. }
  destruct HC as [[Hk Hq Hs Hf Hh Hc Hl Ht Hb] Htail _].
  pose proof (esize_pos (tid, c)). destruct (Hr) as (_ & _ & Hsz).
  rewrite <- (Z.add_0_r (_ * _)) in Htail.
  rewrite (tail_space _ _ _ Htail) by (unfold BLOCK_SIZE in *; lia).
  replace (BLOCK_SIZE - 0 <? esize (tid, c)) with false by lia.
  pose proof (file_off_ring k j (q + zlen bs) 0 Hk Hs Hf ltac:(done)) as Ho.
  rewrite <- Htail in Ho. unfold mbind, M_bind, mret, M_ret. rewrite (append_buf_eq _ _ _ _ Ho).
  eexists. split; [done|]. unfold appended. jsimpl. split_and!; [done|..].
  - rewrite u64_small by lia. unfold BLOCK_SIZE in *; lia.
  - replace (zlen bs) with k by lia. unfold pos.
    replace (q + k) with (q + 1 * k) by lia. rewrite Z_mod_plus_full, Z.add_0_r.
    apply at_bytes_write_same.
Qed.

(** Known defect: the header reaches the file only when a block is full.
    A journal closed within its first block cannot be opened with the type it
    was created with: the type on disk is still [Invalid]. *)
Theorem journal_reopen_first_block_fails f c c' now now' st st' k (l : list (Z * T)) :
  0 < k -> HEADER_SIZE + k * BLOCK_SIZE <= f_len f < HEADER_SIZE + (k + 1) * BLOCK_SIZE ->
  let rs := history now 0 l in
  clock_ok now l -> Forall rec_ok rs -> first_lap k [] rs ->
  f_len f < 2 ^ 63 -> 2 * BLOCK_SIZE * (zlen rs + 1) < 2 ^ 63 ->
  zero_from f HEADER_SIZE -> at_bytes f 0 (ser_header blank_header) ->
  zlen (spec_history k rs) <= 1 -> c_journal_type c' = c_journal_type c ->
  ~ c_journal_type c = JT_Invalid ->
  exists j j', Journal_new f c now (Ok st) = Ok j /\ write_entries l j = (Ok tt, j') /\
    Journal_open (j_file j') c' now' (Ok st') = Err OtherError.
Proof.
  intros Hk Hf rs Hclk Hok Hlap Hlen Hb Hz Hblank Hone Hty Hinv.
  destruct (Journal_new_Durable f c now st k Hk Hf Hlen Hz Hblank) as (j & Hnew & HD & Hl & Hh).
  destruct (write_entries_Durable k l j []) as (j' & Hw & HD'); rewrite ?Hl, ?Hh; try done.
  rewrite Hl, Hh in HD'. cbn [h_trans_ctr] in HD'. fold rs in HD'.
  exists j, j'. split_and!; [done..|]. pose proof (du_blank _ _ _ HD' Hone) as Hb'.
  destruct HD' as [[[_ _ Hs Hfl _ _ _ _ _] _ _] _ _ _ _ _ _].
  unfold Journal_open, read_exact. cbn [f_pos seek_start].
  pose proof (read_exact_at_ok (seek_start (j_file j') 0) 0 _ Hb') as Hread.
  rewrite zlen_header in Hread. cbn [f_len seek_start] in Hread.
  rewrite Hread by (unfold BLOCK_SIZE in *; lia). unfold mbind, outcome_bind.
  rewrite law_header_de by (unfold header_ok, blank_header; cbn; lia).
  rewrite Hty. rewrite !bool_decide_false; [done|done|]. cbn. congruence.
Qed.

(** C27. The bytes of a record of a journal, all but its length word, are
    overwritten in the file by anything whose checksum does not match. Reading
    backwards returns exactly the records of the later blocks, and then an error:
    nothing of the damaged block comes before it, and a reader that stops at
    the first error, as [collect] does, ends with it. A reader that goes on is
    handed the records written before the damage in that block, which are left
    in the buffer, as if none was missing. *)
Theorem journal_reverse_detects_corruption k q j bs i b1 r b2 bad :
  Repr k q j bs -> bs !! i = Some (b1 ++ r :: b2) ->
  zlen bad = esize r -> take 4 bad = le32 (esize r) -> crc_fails bad ->
  let later := mjoin (drop (S i) bs) in
  let it := read_reverse (set_file j (write_all_at (j_file j) bad (pos k (q + Z.of_nat i) + used b1))) in
  exists it1 it2, fetch next_reverse (length later) it = (Ok (stored <$> rev later), it1) /\
    next_reverse it1 = (Err OtherError, it2) /\
    (forall n, (length later < n)%nat -> collect next_reverse n it = (Err OtherError, it2)) /\
    it_header it2 = it_header it1 /\ it_block_buffer it2 = stored <$> b1 /\
    (forall c x, b1 = c ++ [x] -> exists it3, next_reverse it2 = (Ok (Some (stored x)), it3)).
Proof.
  intros HR Hi Hlen Hword Hcrc later it.
  destruct (reverse_reads_down_to_damage k q j bs i b1 b2 r bad HR Hi Hlen Hword Hcrc) as (it1 & it2 & E1 & E2 & Hh & Hb).
  exists it1, it2. split; [exact E1|]. split; [exact E2|]. split; [|split; [done|split; [done|]]].
  - intros n Hn. eapply collect_fetch; [exact E1| |exact E2|exact Hn]. by rewrite length_fmap, length_rev.
  - intros c x ->. eexists. by apply next_reverse_buffered.
Qed.

End Props.

(** ** The theorems on the small journal *)
Lemma demo_records_ok : Forall rec_ok (history 0 0 demo_entries).
Proof. repeat constructor; ground. Qed.

Lemma demo_blank : zero_from demo_file HEADER_SIZE /\ at_bytes demo_file 0 (ser_header blank_header).
Proof.
  split; [done|]. intros i b. do 24 (destruct i as [|i]; [intros [= <-]; reflexivity|]). done.
Qed.

Lemma demo_kept : mjoin (spec_history 2 (history 0 0 demo_entries))
  = [(1, Payload (big 2)); (2, Payload (big 3))].
Proof.
  vm_cast_no_check (@eq_refl _ [(1, Payload (big 2)); (2, Payload (big 3))]).
Qed.

(** Three entries of a block each on two blocks: the first one is gone. *)
Lemma journal_write_then_read_witness :
  exists j j' it, Journal_new demo_file demo_config 0 (Ok demo_store) = Ok j /\
    write_entries demo_entries j = (Ok tt, j') /\
    collect next_reverse 3 (read_reverse j') =
      (Ok (stored <$> [(2, Payload (big 3)); (1, Payload (big 2))]), it).
Proof.
  destruct (journal_write_then_read demo_file demo_config 0 demo_store 2 demo_entries)
    as (j & j' & kept & Hnew & Hw & _ & -> & _ & it & Hit);
    [ground|ground|ground|apply demo_records_ok|ground|ground|ground|].
  exists j, j', it. split_and!; [done..|].
  rewrite demo_kept in Hit. exact Hit.
Defined.

Lemma demo_journal_Repr : Repr 2 0 demo_journal [].
Proof.
  constructor; [constructor|..]; try (intros i b Hi; by rewrite lookup_nil in Hi);
    first [reflexivity | ground].
Qed.

Lemma journal_write_refines_witness :
  exists q' j', write_inner (mk_StoreEntry 0 0 (Payload [7]) 0) demo_journal = (Ok tt, j') /\
    Repr 2 q' j' [[(0, Payload [7])]].
Proof.
  destruct (journal_write_refines 2 0 demo_journal [] 0 (Payload [7]))
    as (q' & j' & Hw & HR & _); [apply demo_journal_Repr|ground|ground|ground|].
  by exists q', j'.
Defined.

Lemma journal_reopen_recovers_witness :
  exists j j' j'', Journal_new demo_file demo_config 0 (Ok demo_store) = Ok j /\
    write_entries (take 2 demo_entries) j = (Ok tt, j') /\
    Journal_open (j_file j') demo_config 99 (Ok demo_store) = Ok j'' /\
    j_header j'' = j_header j'.
Proof.
  destruct (journal_reopen_recovers demo_file demo_config demo_config 0 99 demo_store demo_store
    2 (take 2 demo_entries)) as (j & j' & j'' & Hn & Hw & Ho & Hh & _);
    [ground|ground|ground| | |ground|ground|apply demo_blank|apply demo_blank|ground|done|].
  - repeat constructor; ground.
  - split; [exact I|]. split; [right; ground|exact I].
  - by exists j, j', j''.
Defined.

(** A ring of one block, filled exactly by two records. *)
Definition full_file : file := mk_file (24 + BLOCK_SIZE) (fun _ => 0) 0.
Definition half_block : list Z := replicate (Z.to_nat 65512) 1.
Definition full_journal : outcome Journal :=
  j ← Journal_new full_file demo_config 0 (Ok demo_store);
  fst (write_entries [(1, half_block); (2, half_block)] j) ≫= fun _ =>
  Ok (snd (write_entries [(1, half_block); (2, half_block)] j)).

Lemma full_ring_Repr : exists q j, full_journal = Ok j /\
  Repr 1 q j [[(0, Payload half_block); (1, Payload half_block)]] /\
  h_tail (j_header j) <= 4 * BLOCK_SIZE.
Proof.
  destruct (Journal_new_Repr full_file demo_config 0 demo_store 1) as (j & Hn & HR & Hl & Hh);
    [ground..|].
  destruct (write_entries_refines 1 [(1, half_block); (2, half_block)] 0 j [])
    as (q & j' & Hw & HR' & Ht); rewrite ?Hl, ?Hh; [done|ground| |ground|ground|].
  { repeat constructor; ground. }
  exists q, j'. unfold full_journal, mbind, outcome_bind. rewrite Hn, Hw. split; [done|].
  rewrite Hl, Hh in HR', Ht. split; [vm_cast_no_check HR'|].
  etransitivity; [exact Ht|]. ground.
Qed.

Lemma journal_write_overruns_full_ring_witness :
  exists j j', full_journal = Ok j /\
    write_inner (mk_StoreEntry 0 2 (Payload [7]) 0) j = (Ok tt, j') /\
    h_head (j_header j') = h_head (j_header j) /\
    j_size j' < h_tail (j_header j') - h_head (j_header j').
Proof.
  destruct full_ring_Repr as (q & j & Hj & HR & Ht).
  destruct (journal_write_overruns_full_ring 1 q j _ 2 (Payload [7]) HR)
    as (j' & Hw & Hh & Hs & _); [ground|ground|unfold BLOCK_SIZE in *; lia|].
  exists j, j'. exact (conj Hj (conj Hw (conj Hh Hs))).
Defined.

Lemma journal_reopen_first_block_fails_witness :
  exists j j', Journal_new demo_file demo_config 0 (Ok demo_store) = Ok j /\
    write_entries (take 1 demo_entries) j = (Ok tt, j') /\
    Journal_open (j_file j') demo_config 99 (Ok demo_store) = Err OtherError.
Proof.
  apply (journal_reopen_first_block_fails demo_file demo_config demo_config 0 99
    demo_store demo_store 2 (take 1 demo_entries));
    [ground|ground|ground| | |ground|ground|apply demo_blank|apply demo_blank|ground|done|done].
  - repeat constructor; ground.
  - by split.
Defined.

(** Three records in a block and one in the next; the second of the first block
    is damaged. *)
Definition small_entries : list (Z * list Z) := [(10, [5]); (20, [6]); (30, big 1); (40, big 2)].
Definition bad_bytes : list Z := le32 (esize (1, Payload [6])) ++ replicate (Z.to_nat (esize (1, Payload [6]) - 4)) 9.

Lemma small_Repr : exists q j, Repr 2 q j [[(0, Payload [5]); (1, Payload [6]); (2, Payload (big 1))]; [(3, Payload (big 2))]].
Proof.
  destruct (Journal_new_Repr demo_file demo_config 0 demo_store 2) as (j & Hn & HR & Hl & Hh); [ground..|].
  destruct (write_entries_refines 2 small_entries 0 j []) as (q & j' & Hw & HR' & Ht); rewrite ?Hl, ?Hh; [done|ground| |ground|ground|].
  { repeat constructor; ground. }
  exists q, j'. rewrite Hl, Hh in HR'. vm_cast_no_check HR'.
Qed.

Lemma journal_reverse_detects_corruption_witness : exists q j it2,
  let it := read_reverse (set_file j (write_all_at (j_file j) bad_bytes
              (pos 2 (q + Z.of_nat 0) + used [(0, Payload [5])]))) in
  fst (fetch next_reverse 1 it) = Ok [stored (3, Payload (big 2))] /\
  collect next_reverse 2 it = (Err OtherError, it2) /\
  (exists it3, next_reverse it2 = (Ok (Some (stored (0, Payload [5]))), it3)).
Proof.
  destruct small_Repr as (q & j & HR).
  destruct (journal_reverse_detects_corruption 2 q j _ 0 [(0, Payload [5])] (1, Payload [6]) [(2, Payload (big 1))] bad_bytes HR)
    as (it1 & it2 & E1 & E2 & Hc & _ & _ & Hg); [reflexivity|reflexivity|reflexivity|ground|].
  exists q, j, it2. split; [exact (f_equal fst E1)|]. split; [exact (Hc 2%nat (le_n 2))|exact (Hg [] _ eq_refl)].
Defined.
