(* ===== verification/Entries.v ===== *)
(** * Journal entries: [fsyncd/src/journal/mod.rs], [forward.rs], [mdata.rs]

    What an entry is to the journal ([JournalEntry]), the file-system queries
    the entries make ([fsview]), and the two entry types without an inverse:
    the forward journal's entry, which is the call itself, and the metadata
    entry. *)

From stdpp Require Import base list numbers option strings.
From Stdlib Require Import ZArith Lia.
From S2P Require Import Prelude Common Filestore Store.

Local Open Scope Z_scope.

(** ** The file system as the entries see it *)
Record stat := mk_stat {
  st_mode : Z; st_uid : Z; st_gid : Z; st_size : Z; st_rdev : Z; st_nlink : Z; st_ino : Z;
  st_atime : Z; st_atime_nsec : Z; st_mtime : Z; st_mtime_nsec : Z }.

#[export] Instance stat_eq_dec : EqDecision stat.
Proof. solve_decision. Defined.

(** The operating system's answers, by absolute path: [lstat], [readlink] and
    [lgetxattr] give a value or an [errno]; [fv_open] is [File::open];
    [fv_walk] is the sequence [WalkDir] yields, an entry or an error each. *)
Record fsview := mk_fsview {
  fv_lstat : path -> Z + stat;
  fv_readlink : path -> Z + path;
  fv_getxattr : path -> list Z -> Z + list Z;
  fv_open : path -> outcome file;
  fv_walk : path -> list (Z + (path * Z)) }.

Definition ENOENT : Z := 2.
Definition ERANGE : Z := 34.
Definition ENODATA : Z := 61.

(** [io::Error::kind() == ErrorKind::NotFound]. *)
Definition kind_not_found (e : io_error) : bool :=
  match e with
  | NotFound => true
  | OsError code => code =? ENOENT
  | _ => false
  end.

Definition translate_and_stat (fv : fsview) (p fspath : path) : outcome stat :=
  match fv_lstat fv (translate_path p fspath) with
  | inl code => Err (OsError code)
  | inr st => Ok st
  end.

Fixpoint find_inode (ino : Z) (entries : list (Z + (path * Z))) : outcome (option path) :=
  match entries with
  | [] => Ok None
  | inl _ :: _ => Err OtherError
  | inr (p, i) :: rest => if i =? ino then Ok (Some p) else find_inode ino rest
  end.

Definition find_hardlink (fv : fsview) (ino : Z) (intree : path) : outcome (option path) :=
  find_inode ino (fv_walk fv intree).

(** ** The entry interface

    [je_journal] is what [journal] does to the journal and to the directory
    that holds its deleted files; [now] is the clock. *)
Class JournalEntry (T : Type) := {
  je_try_from : fsview -> VFSCall -> path -> outcome T;
  je_journal : T -> Z -> M (Journal * host) unit;
  je_apply : fsview -> T -> path -> outcome VFSCall;
  je_affected_paths : T -> list path }.

(** The default method: [j.write_entry(self)]. *)
Definition default_journal {T} `{StoreFormat T} (e : T) (now : Z) : M (Journal * host) unit :=
  fun '(j, h) => let '(r, j) := write_entry now e j in (r, (j, h)).

(** ** The forward journal's entry *)
Definition forward_try_from (fv : fsview) (call : VFSCall) (fspath : path) : outcome VFSCall :=
  Panic.

Definition forward_apply (fv : fsview) (call : VFSCall) (fspath : path) : outcome VFSCall :=
  Ok call.

Definition forward_affected_paths (call : VFSCall) : list path :=
  match call with
  | chmod p _ => [p]
  | security p _ => [p]
  | utimens p _ => [p]
  | rename from to _ => [from; to]
  | mkdir p _ _ => [p]
  | rmdir p => [p]
  | symlink _ to _ => [to]
  | link _ to _ => [to]
  | mknod p _ _ _ => [p]
  | unlink p => [p]
  | create p _ _ _ => [p]
  | truncate p _ => [p]
  | write p _ _ => [p]
  | diff_write p _ _ => [p]
  | fallocate p _ _ _ => [p]
  | setxattr p _ _ _ => [p]
  | removexattr p _ => [p]
  | fsync p _ => [p]
  | truncating_write p _ _ _ => [p]
  end.

#[export] Instance forward_entry `{StoreFormat VFSCall} : JournalEntry VFSCall := {|
  je_try_from := forward_try_from;
  je_journal := default_journal;
  je_apply := forward_apply;
  je_affected_paths := forward_affected_paths |}.

(** ** The metadata entry *)

(** [str::from_utf8]: well-formed sequences of one to four bytes. *)
Definition utf8_tail (b : Z) : bool := (128 <=? b) && (b <=? 191).

Fixpoint utf8_valid (l : list Z) : bool :=
  match l with
  | [] => true
  | a :: l1 =>
    if a <? 128 then utf8_valid l1
    else match l1 with
    | [] => false
    | b :: l2 =>
      if (194 <=? a) && (a <=? 223) then utf8_tail b && utf8_valid l2
      else match l2 with
      | [] => false
      | c :: l3 =>
        if (224 <=? a) && (a <=? 239) then
          utf8_tail b && utf8_tail c &&
          negb ((a =? 224) && (b <? 160)) && negb ((a =? 237) && (159 <? b)) && utf8_valid l3
        else match l3 with
        | [] => false
        | d :: l4 =>
          (240 <=? a) && (a <=? 244) && utf8_tail b && utf8_tail c && utf8_tail d &&
          negb ((a =? 240) && (b <? 144)) && negb ((a =? 244) && (143 <? b)) && utf8_valid l4
        end
      end
    end
  end.

Definition StatChange_MODE : Z := 1.
Definition StatChange_UID_GID : Z := 2.
Definition StatChange_TIME : Z := 4.
Definition StatChange_SIZE : Z := 8.

Inductive MDataEntry :=
| MD_New (p : path)
| MD_Unlink (p : path)
| MD_Rename (from to : path)
| MD_Link (from to : path)
| MD_Stat (p : path) (fields : Z)
| MD_Xattr (p : path) (name : list Z)
| MD_Write (p : path) (offset len : Z).

Definition mdata_xattr (p : path) (name : list Z) : outcome MDataEntry :=
  if utf8_valid name then Ok (MD_Xattr p name) else Panic.

Definition mdata_try_from (call : VFSCall) : outcome MDataEntry :=
  match call with
  | mkdir p _ _ | mknod p _ _ _ | create p _ _ _ => Ok (MD_New p)
  | unlink p | rmdir p => Ok (MD_Unlink p)
  | setxattr p name _ _ | removexattr p name => mdata_xattr p name
  | chmod p _ => Ok (MD_Stat p StatChange_MODE)
  | symlink from to _ | link from to _ => Ok (MD_Link from to)
  | rename from to _ => Ok (MD_Rename from to)
  | security p _ => Ok (MD_Stat p StatChange_UID_GID)
  | truncate p _ => Ok (MD_Stat p StatChange_SIZE)
  | utimens p _ => Ok (MD_Stat p StatChange_TIME)
  | write p offset buf | diff_write p offset buf => Ok (MD_Write p (u64 offset) (zlen buf))
  | fallocate p _ _ _ => Ok (MD_Stat p StatChange_SIZE)
  | fsync _ _ => Panic
  | truncating_write _ _ _ _ => Panic
  end.
