(* ===== verification/Bilog.v ===== *)
(** * The two-way journal entry: [fsyncd/src/journal/bilog.rs]

    A bilog entry stores the XOR of the state before and after a call, so that
    applied to either state it produces the call that leads to the other one.
    The source's typestates [New], [Old] and [Xor] share one record each here.
    The checksums are CRCs of the bytes [std::hash::Hash] feeds to the digest;
    the digest itself, from the [crc] crate, is a parameter. *)

From stdpp Require Import base list numbers option strings.
From Stdlib Require Import ZArith Lia.
From S2P Require Import Prelude Common Filestore Store Entries.

Local Open Scope Z_scope.

(** ** Checksums *)
Class Digest := digest_ieee : list Z -> Z.

Definition hash_u32 (z : Z) : list Z := le32 z.
Definition hash_i64 (z : Z) : list Z := le64 (u64 z).
Definition hash_bytes (l : list Z) : list Z := le64 (zlen l) ++ l.
Definition hash_timespec (t : Timespec) : list Z := hash_i64 (ts_high t) ++ hash_i64 (ts_low t).
Definition hash_timespecs (t : Timespec * Timespec * Timespec) : list Z :=
  let '(a, b, c) := t in le64 3 ++ hash_timespec a ++ hash_timespec b ++ hash_timespec c.
Definition hash_option_bytes (o : option (list Z)) : list Z :=
  match o with None => le64 0 | Some l => le64 1 ++ hash_bytes l end.

Definition hash_crc32 {D : Digest} (l : list Z) : Z := u32 (digest_ieee l).

(** ** The trait

    [b_apply] returns [Err] where the source returns an error string. *)
Class Bilog (X : Type) := {
  b_new : VFSCall -> outcome X;
  b_xor : X -> X -> outcome X;
  b_apply : X -> X -> outcome VFSCall;
  b_old : X + X -> fsview -> path -> outcome X }.

(** [Either::either] with the same projection on both sides. *)
Definition either {X A} (f : X -> A) (r : X + X) : A :=
  match r with inl n => f n | inr x => f x end.

Definition Timespec3_xor (s t : Timespec * Timespec * Timespec) :=
  let '(a, b, c) := s in let '(a', b', c') := t in
  (Timespec_bitxor a a', Timespec_bitxor b b', Timespec_bitxor c c').

Record bilog_chmod := mk_bilog_chmod { chm_path : path; chm_mode : Z; chm_checksum : Z }.
Record bilog_chown := mk_bilog_chown {
  cho_path : path; cho_uid : Z; cho_gid : Z; cho_checksum : Z }.
Record bilog_utimens := mk_bilog_utimens {
  uti_path : path; uti_timespec : Timespec * Timespec * Timespec; uti_checksum : Z }.
Record bilog_rename := mk_bilog_rename {
  ren_from : path; ren_to : path; ren_from_exists : bool }.
Record bilog_dir := mk_bilog_dir {
  dir_path : path; dir_mode : Z; dir_dir_exists : bool; dir_uid : Z; dir_gid : Z }.
Record bilog_symlink := mk_bilog_symlink {
  sym_from : path; sym_to : path; sym_to_exists : bool; sym_uid : Z; sym_gid : Z }.
Record bilog_link := mk_bilog_link {
  lnk_from : path; lnk_to : path; lnk_to_exists : bool; lnk_uid : Z; lnk_gid : Z }.
Record bilog_node := mk_bilog_node {
  nod_path : path; nod_mode : Z; nod_rdev : Z; nod_exists : bool; nod_uid : Z; nod_gid : Z }.
Record bilog_file := mk_bilog_file {
  fil_path : path; fil_mode : Z; fil_exists : bool; fil_uid : Z; fil_gid : Z }.
Record bilog_truncate := mk_bilog_truncate {
  tru_path : path; tru_size : Z; tru_buf : list Z; tru_checksum : Z }.
Record bilog_write := mk_bilog_write {
  wri_path : path; wri_offset : Z; wri_buf : list Z; wri_length : Z; wri_checksum : Z }.
Record bilog_xattr := mk_bilog_xattr {
  xat_path : path; xat_name : list Z; xat_value : option (list Z); xat_remove : bool;
  xat_checksum : Z }.

(** [PathBuf::new()]. *)
Definition empty_path : path := mk_path false [].

Section Entries.
Context {D : Digest}.

(** ** chmod *)
Definition chmod_crc32 (s : bilog_chmod) : Z := hash_crc32 (hash_u32 (chm_mode s)).
Definition chmod_set_csum (s : bilog_chmod) : bilog_chmod :=
  mk_bilog_chmod (chm_path s) (chm_mode s) (chmod_crc32 s).

Definition chmod_new (call : VFSCall) : outcome bilog_chmod :=
  match call with
  | chmod p mode => Ok (chmod_set_csum (mk_bilog_chmod p mode 0))
  | _ => Panic
  end.

Definition chmod_xor (o n : bilog_chmod) : outcome bilog_chmod :=
  Ok (mk_bilog_chmod (chm_path n) (Z.lxor (chm_mode n) (chm_mode o))
        (Z.lxor (chm_checksum n) (chm_checksum o))).

Definition chmod_apply (x o : bilog_chmod) : outcome VFSCall :=
  let mode := Z.lxor (chm_mode x) (chm_mode o) in
  if negb (Z.lxor (hash_crc32 (hash_u32 mode)) (chm_checksum o) =? chm_checksum x)
  then Err OtherError
  else Ok (chmod (chm_path x) mode).

Definition chmod_old (r : bilog_chmod + bilog_chmod) (fv : fsview) (fspath : path)
  : outcome bilog_chmod :=
  let p := either chm_path r in
  st ← translate_and_stat fv p fspath;
  Ok (chmod_set_csum (mk_bilog_chmod p (st_mode st) 0)).

(** ** chown *)
Definition chown_crc32 (s : bilog_chown) : Z :=
  hash_crc32 (hash_u32 (cho_uid s) ++ hash_u32 (cho_gid s)).
Definition chown_set_csum (s : bilog_chown) : bilog_chown :=
  mk_bilog_chown (cho_path s) (cho_uid s) (cho_gid s) (chown_crc32 s).

Definition chown_new (call : VFSCall) : outcome bilog_chown :=
  match call with
  | security p (Unix uid gid) => Ok (chown_set_csum (mk_bilog_chown p uid gid 0))
  | _ => Panic
  end.

Definition chown_xor (o n : bilog_chown) : outcome bilog_chown :=
  Ok (mk_bilog_chown (cho_path n) (Z.lxor (cho_uid n) (cho_uid o))
        (Z.lxor (cho_gid n) (cho_gid o)) (Z.lxor (cho_checksum n) (cho_checksum o))).

Definition chown_apply (x o : bilog_chown) : outcome VFSCall :=
  let uid := Z.lxor (cho_uid x) (cho_uid o) in
  let gid := Z.lxor (cho_gid x) (cho_gid o) in
  if negb (Z.lxor (hash_crc32 (hash_u32 uid ++ hash_u32 gid)) (cho_checksum o) =? cho_checksum x)
  then Err OtherError
  else Ok (security (cho_path x) (Unix uid gid)).

Definition chown_old (r : bilog_chown + bilog_chown) (fv : fsview) (fspath : path)
  : outcome bilog_chown :=
  let p := either cho_path r in
  st ← translate_and_stat fv p fspath;
  Ok (chown_set_csum (mk_bilog_chown p (st_uid st) (st_gid st) 0)).

(** ** utimens *)
Definition utimens_crc32 (s : bilog_utimens) : Z := hash_crc32 (hash_timespecs (uti_timespec s)).
Definition utimens_set_csum (s : bilog_utimens) : bilog_utimens :=
  mk_bilog_utimens (uti_path s) (uti_timespec s) (utimens_crc32 s).

Definition utimens_new (call : VFSCall) : outcome bilog_utimens :=
  match call with
  | utimens p timespec => Ok (utimens_set_csum (mk_bilog_utimens p timespec 0))
  | _ => Panic
  end.

Definition utimens_xor (o n : bilog_utimens) : outcome bilog_utimens :=
  Ok (mk_bilog_utimens (uti_path n) (Timespec3_xor (uti_timespec n) (uti_timespec o))
        (Z.lxor (uti_checksum n) (uti_checksum o))).

Definition utimens_apply (x o : bilog_utimens) : outcome VFSCall :=
  let timespec := Timespec3_xor (uti_timespec x) (uti_timespec o) in
  if negb (Z.lxor (hash_crc32 (hash_timespecs timespec)) (uti_checksum o) =? uti_checksum x)
  then Err OtherError
  else Ok (utimens (uti_path x) timespec).

Definition stat_times (st : stat) : Timespec * Timespec * Timespec :=
  (mk_Timespec (st_atime st) (st_atime_nsec st), mk_Timespec (st_mtime st) (st_mtime_nsec st),
   mk_Timespec 0 0).

Definition utimens_old (r : bilog_utimens + bilog_utimens) (fv : fsview) (fspath : path)
  : outcome bilog_utimens :=
  let p := either uti_path r in
  st ← translate_and_stat fv p fspath;
  Ok (utimens_set_csum (mk_bilog_utimens p (stat_times st) 0)).

(** ** rename: [new] and [xor] are stubs that panic *)
Definition rename_new (call : VFSCall) : outcome bilog_rename := Panic.
Definition rename_xor (o n : bilog_rename) : outcome bilog_rename := Panic.

Definition rename_apply (x o : bilog_rename) : outcome VFSCall :=
  Ok (if ren_from_exists o then rename (ren_from x) (ren_to x) 0
      else rename (ren_to x) (ren_from x) 0).

Definition rename_old (r : bilog_rename + bilog_rename) (fv : fsview) (fspath : path)
  : outcome bilog_rename :=
  Ok (mk_bilog_rename (either ren_from r) (either ren_to r) true).

(** ** mkdir and rmdir *)
Definition dir_new (call : VFSCall) : outcome bilog_dir :=
  match call with
  | rmdir p => Ok (mk_bilog_dir p 0 true 0 0)
  | _ => Panic
  end.

Definition dir_xor (o n : bilog_dir) : outcome bilog_dir :=
  Ok (mk_bilog_dir (dir_path o) (Z.lxor (dir_mode o) (dir_mode n)) true
        (Z.lxor (dir_uid o) (dir_uid n)) (Z.lxor (dir_gid o) (dir_gid n))).

Definition dir_apply (x o : bilog_dir) : outcome VFSCall :=
  Ok (if dir_dir_exists o then rmdir (dir_path x)
      else mkdir (dir_path x) (Unix (dir_uid x) (dir_gid x)) (dir_mode x)).

Definition dir_old (r : bilog_dir + bilog_dir) (fv : fsview) (fspath : path)
  : outcome bilog_dir :=
  let p := either dir_path r in
  match translate_and_stat fv p fspath with
  | Err e => if kind_not_found e then Ok (mk_bilog_dir p 0 false 0 0) else Err e
  | Ok st => Ok (mk_bilog_dir p (st_mode st) true (st_uid st) (st_gid st))
  | Panic => Panic
  | NoFuel => NoFuel
  end.

(** ** symlink *)
Definition symlink_new (call : VFSCall) : outcome bilog_symlink :=
  match call with
  | unlink p => Ok (mk_bilog_symlink empty_path p true 0 0)
  | _ => Panic
  end.

Definition symlink_xor (o n : bilog_symlink) : outcome bilog_symlink :=
  Ok (mk_bilog_symlink (if sym_to_exists o then sym_from o else sym_from n) (sym_to o) true
        (Z.lxor (sym_uid o) (sym_uid n)) (Z.lxor (sym_gid o) (sym_gid n))).

Definition symlink_apply (x o : bilog_symlink) : outcome VFSCall :=
  Ok (if sym_to_exists o then unlink (sym_to x)
      else symlink (sym_from x) (sym_to x) (Unix (sym_uid x) (sym_gid x))).

Definition symlink_old (r : bilog_symlink + bilog_symlink) (fv : fsview) (fspath : path)
  : outcome bilog_symlink :=
  let to := either sym_to r in
  match translate_and_stat fv to fspath with
  | Err e =>
    if kind_not_found e then Ok (mk_bilog_symlink empty_path to false 0 0) else Err e
  | Ok st =>
    match fv_readlink fv (translate_path to fspath) with
    | inl code => Err (OsError code)
    | inr from => Ok (mk_bilog_symlink from to true (st_uid st) (st_gid st))
    end
  | Panic => Panic
  | NoFuel => NoFuel
  end.

(** ** link *)
Definition link_new (call : VFSCall) : outcome bilog_link :=
  match call with
  | unlink p => Ok (mk_bilog_link empty_path p true 0 0)
  | _ => Panic
  end.

Definition link_xor (o n : bilog_link) : outcome bilog_link :=
  Ok (mk_bilog_link (if lnk_to_exists o then lnk_from o else lnk_from n) (lnk_to o) true
        (Z.lxor (lnk_uid o) (lnk_uid n)) (Z.lxor (lnk_gid o) (lnk_gid n))).

Definition link_apply (x o : bilog_link) : outcome VFSCall :=
  Ok (if lnk_to_exists o then unlink (lnk_to x)
      else link (lnk_from x) (lnk_to x) (Unix (lnk_uid x) (lnk_gid x))).

Definition link_old (r : bilog_link + bilog_link) (fv : fsview) (fspath : path)
  : outcome bilog_link :=
  let to := either lnk_to r in
  match translate_and_stat fv to fspath with
  | Err e =>
    if kind_not_found e then Ok (mk_bilog_link empty_path to false 0 0) else Err e
  | Ok st =>
    from ← find_hardlink fv (st_ino st) fspath;
    match from with
    | None => Err OtherError
    | Some from => Ok (mk_bilog_link from to true (st_uid st) (st_gid st))
    end
  | Panic => Panic
  | NoFuel => NoFuel
  end.

(** ** mknod *)
Definition node_new (call : VFSCall) : outcome bilog_node :=
  match call with
  | unlink p => Ok (mk_bilog_node p 0 0 true 0 0)
  | _ => Panic
  end.

Definition node_xor (o n : bilog_node) : outcome bilog_node :=
  Ok (mk_bilog_node (nod_path o) (Z.lxor (nod_mode n) (nod_mode o))
        (Z.lxor (nod_rdev n) (nod_rdev o)) true
        (Z.lxor (nod_uid o) (nod_uid n)) (Z.lxor (nod_gid o) (nod_gid n))).

Definition node_apply (x o : bilog_node) : outcome VFSCall :=
  Ok (if nod_exists o then unlink (nod_path x)
      else mknod (nod_path x) (nod_mode x) (nod_rdev x) (Unix (nod_uid x) (nod_gid x))).

Definition node_old (r : bilog_node + bilog_node) (fv : fsview) (fspath : path)
  : outcome bilog_node :=
  let p := either nod_path r in
  match translate_and_stat fv p fspath with
  | Err e => if kind_not_found e then Ok (mk_bilog_node p 0 0 false 0 0) else Err e
  | Ok st => Ok (mk_bilog_node p (st_mode st) (st_rdev st) true (st_uid st) (st_gid st))
  | Panic => Panic
  | NoFuel => NoFuel
  end.

(** ** create and unlink of an empty file *)
Definition O_CREAT : Z := 64.
Definition O_RDONLY : Z := 0.

Definition file_new (call : VFSCall) : outcome bilog_file :=
  match call with
  | unlink p => Ok (mk_bilog_file p 0 true 0 0)
  | _ => Panic
  end.

Definition file_xor (o n : bilog_file) : outcome bilog_file :=
  Ok (mk_bilog_file (fil_path o) (Z.lxor (fil_mode n) (fil_mode o)) true
        (Z.lxor (fil_uid o) (fil_uid n)) (Z.lxor (fil_gid o) (fil_gid n))).

Definition file_apply (x o : bilog_file) : outcome VFSCall :=
  Ok (if fil_exists o then unlink (fil_path x)
      else create (fil_path x) (Z.lor O_CREAT O_RDONLY) (Unix (fil_uid x) (fil_gid x)) (fil_mode x)).

Definition file_old (r : bilog_file + bilog_file) (fv : fsview) (fspath : path)
  : outcome bilog_file :=
  let p := either fil_path r in
  match translate_and_stat fv p fspath with
  | Err e => if kind_not_found e then Ok (mk_bilog_file p 0 false 0 0) else Err e
  | Ok st => Ok (mk_bilog_file p (st_mode st) true (st_uid st) (st_gid st))
  | Panic => Panic
  | NoFuel => NoFuel
  end.

(** ** truncate *)
Definition truncate_crc32 (s : bilog_truncate) : Z :=
  hash_crc32 (hash_bytes (tru_buf s) ++ hash_i64 (tru_size s)).
Definition truncate_set_csum (s : bilog_truncate) : bilog_truncate :=
  mk_bilog_truncate (tru_path s) (tru_size s) (tru_buf s) (truncate_crc32 s).

Definition truncate_new (call : VFSCall) : outcome bilog_truncate :=
  match call with
  | truncate p size => Ok (truncate_set_csum (mk_bilog_truncate p size [] 0))
  | _ => Panic
  end.

Definition truncate_xor (o n : bilog_truncate) : outcome bilog_truncate :=
  Ok (mk_bilog_truncate (tru_path n) (Z.lxor (tru_size o) (tru_size n)) (tru_buf o)
        (Z.lxor (tru_checksum n) (tru_checksum o))).

Definition truncate_apply (x o : bilog_truncate) : outcome VFSCall :=
  let nsize := Z.lxor (tru_size x) (tru_size o) in
  if negb (Z.lxor (hash_crc32 (hash_bytes (tru_buf x) ++ hash_i64 nsize)) (tru_checksum o)
           =? tru_checksum x)
  then Err OtherError
  else Ok (if (tru_size o <? nsize) && bool_decide (tru_buf x = [])
           then write (tru_path x) (tru_size o) (tru_buf x)
           else truncate (tru_path x) (Z.lxor (tru_size x) (tru_size o))).

Definition truncate_old (r : bilog_truncate + bilog_truncate) (fv : fsview) (fspath : path)
  : outcome bilog_truncate :=
  let p := either tru_path r in
  st ← translate_and_stat fv p fspath;
  let osize := st_size st in
  let nsize := match r with inl n => tru_size n | inr x => Z.lxor (tru_size x) osize end in
  buf ← (if osize <? nsize then
           f ← fv_open fv (translate_path p fspath);
           read_exact_at f (u64 osize) (u64 (nsize - osize))
         else Ok []);
  Ok (truncate_set_csum (mk_bilog_truncate p (st_size st) buf 0)).

(** ** write *)
Definition write_crc32 (s : bilog_write) : Z :=
  hash_crc32 (hash_bytes (wri_buf s) ++ hash_i64 (wri_length s)).
Definition write_set_csum (s : bilog_write) : bilog_write :=
  mk_bilog_write (wri_path s) (wri_offset s) (wri_buf s) (wri_length s) (write_crc32 s).

Definition write_new (call : VFSCall) : outcome bilog_write :=
  match call with
  | write p offset buf => Ok (write_set_csum (mk_bilog_write p offset buf 0 0))
  | _ => Panic
  end.

Definition write_xor (o n : bilog_write) : outcome bilog_write :=
  buf ← xor_buf (wri_buf n) (wri_buf o);
  let nsize := i64 (wri_offset n + zlen (wri_buf n)) in
  let nsize := if nsize <? wri_length o then wri_length o else nsize in
  Ok (mk_bilog_write (wri_path n) (wri_offset n) buf (Z.lxor nsize (wri_length o))
        (Z.lxor (wri_checksum n) (wri_checksum o))).

Definition write_apply (x o : bilog_write) : outcome VFSCall :=
  buf ← (match wri_buf o with
         | [] => Ok (wri_buf x)
         | _ => xor_buf (wri_buf x) (wri_buf o)
         end);
  let nlength := Z.lxor (wri_length x) (wri_length o) in
  if negb (Z.lxor (hash_crc32 (hash_bytes buf ++ hash_i64 nlength)) (wri_checksum o)
           =? wri_checksum x)
  then Err OtherError
  else Ok (if wri_length o <=? nlength then write (wri_path x) (wri_offset x) buf
           else truncating_write (wri_path x) (wri_offset x) buf
                  (Z.lxor (wri_length o) (wri_length x))).

Definition write_old (r : bilog_write + bilog_write) (fv : fsview) (fspath : path)
  : outcome bilog_write :=
  let p := either wri_path r in
  let offset := either wri_offset r in
  let write_len := either (fun s => zlen (wri_buf s)) r in
  f ← fv_open fv (translate_path p fspath);
  let osize := f_len f in
  buf ← (if u64 offset <? osize then
           let overlap := Z.min (u64 (osize - u64 offset)) write_len in
           read_exact_at f (u64 offset) overlap
         else Ok []);
  Ok (write_set_csum (mk_bilog_write p offset buf (i64 osize) 0)).

(** ** setxattr and removexattr *)
Definition xattr_crc32 (s : bilog_xattr) : Z := hash_crc32 (hash_option_bytes (xat_value s)).
Definition xattr_set_csum (s : bilog_xattr) : bilog_xattr :=
  mk_bilog_xattr (xat_path s) (xat_name s) (xat_value s) (xat_remove s) (xattr_crc32 s).

Definition xattr_new (call : VFSCall) : outcome bilog_xattr :=
  match call with
  | setxattr p name value _ => Ok (xattr_set_csum (mk_bilog_xattr p name (Some value) false 0))
  | removexattr p name => Ok (xattr_set_csum (mk_bilog_xattr p name None true 0))
  | _ => Panic
  end.

Definition xattr_xor (o n : bilog_xattr) : outcome bilog_xattr :=
  '(value, remove) ←
    (match xat_value n, xat_value o with
     | None, None => Panic
     | None, Some ovalue => Ok (ovalue, true)
     | Some nvalue, None => Ok (nvalue, true)
     | Some nvalue, Some ovalue =>
       buf ← (if zlen nvalue <? zlen ovalue then xor_buf ovalue nvalue else xor_buf nvalue ovalue);
       Ok (buf, false)
     end);
  Ok (mk_bilog_xattr (xat_path n) (xat_name n) (Some value) remove
        (Z.lxor (xat_checksum n) (xat_checksum o))).

(** [for v in 0..value.len() { value[v] ^= ovalue[v] }]. *)
Definition xor_all (value ovalue : list Z) : outcome (list Z) :=
  if zlen value <=? zlen ovalue then Ok (zip_with Z.lxor value ovalue) else Panic.

Definition xattr_apply (x o : bilog_xattr) : outcome VFSCall :=
  match xat_value o with
  | Some ovalue =>
    if xat_remove x then Ok (removexattr (xat_path x) (xat_name x))
    else
      match xat_value x with
      | None => Panic
      | Some value =>
        value ← xor_all value ovalue;
        if negb (Z.lxor (hash_crc32 (hash_option_bytes (Some value))) (xat_checksum o)
                 =? xat_checksum x)
        then Err OtherError
        else Ok (setxattr (xat_path x) (xat_name x) value 0)
      end
  | None =>
    match xat_value x with
    | None => Panic
    | Some value => Ok (setxattr (xat_path x) (xat_name x) value 0)
    end
  end.

(** [lgetxattr] into a buffer of 4096 bytes: a longer value is [ERANGE]. *)
Definition lgetxattr (fv : fsview) (p : path) (name : list Z) (size : Z) : Z + list Z :=
  match fv_getxattr fv p name with
  | inl code => inl code
  | inr value => if zlen value <=? size then inr value else inl ERANGE
  end.

Definition xattr_old (r : bilog_xattr + bilog_xattr) (fv : fsview) (fspath : path)
  : outcome bilog_xattr :=
  let p := either xat_path r in
  let name := either xat_name r in
  match lgetxattr fv (translate_path p fspath) name 4096 with
  | inl code =>
    if code =? ENODATA then Ok (xattr_set_csum (mk_bilog_xattr p name None true 0))
    else Err (OsError code)
  | inr value => Ok (xattr_set_csum (mk_bilog_xattr p name (Some value) false 0))
  end.

End Entries.

#[export] Instance bilog_chmod_bilog {D : Digest} : Bilog bilog_chmod :=
  {| b_new := chmod_new; b_xor := chmod_xor; b_apply := chmod_apply; b_old := chmod_old |}.
#[export] Instance bilog_chown_bilog {D : Digest} : Bilog bilog_chown :=
  {| b_new := chown_new; b_xor := chown_xor; b_apply := chown_apply; b_old := chown_old |}.
#[export] Instance bilog_utimens_bilog {D : Digest} : Bilog bilog_utimens :=
  {| b_new := utimens_new; b_xor := utimens_xor; b_apply := utimens_apply; b_old := utimens_old |}.
#[export] Instance bilog_rename_bilog : Bilog bilog_rename :=
  {| b_new := rename_new; b_xor := rename_xor; b_apply := rename_apply; b_old := rename_old |}.
#[export] Instance bilog_dir_bilog : Bilog bilog_dir :=
  {| b_new := dir_new; b_xor := dir_xor; b_apply := dir_apply; b_old := dir_old |}.
#[export] Instance bilog_symlink_bilog : Bilog bilog_symlink :=
  {| b_new := symlink_new; b_xor := symlink_xor; b_apply := symlink_apply; b_old := symlink_old |}.
#[export] Instance bilog_link_bilog : Bilog bilog_link :=
  {| b_new := link_new; b_xor := link_xor; b_apply := link_apply; b_old := link_old |}.
#[export] Instance bilog_node_bilog : Bilog bilog_node :=
  {| b_new := node_new; b_xor := node_xor; b_apply := node_apply; b_old := node_old |}.
#[export] Instance bilog_file_bilog : Bilog bilog_file :=
  {| b_new := file_new; b_xor := file_xor; b_apply := file_apply; b_old := file_old |}.
#[export] Instance bilog_truncate_bilog {D : Digest} : Bilog bilog_truncate :=
  {| b_new := truncate_new; b_xor := truncate_xor; b_apply := truncate_apply; b_old := truncate_old |}.
#[export] Instance bilog_write_bilog {D : Digest} : Bilog bilog_write :=
  {| b_new := write_new; b_xor := write_xor; b_apply := write_apply; b_old := write_old |}.
#[export] Instance bilog_xattr_bilog {D : Digest} : Bilog bilog_xattr :=
  {| b_new := xattr_new; b_xor := xattr_xor; b_apply := xattr_apply; b_old := xattr_old |}.

(** ** The entry of the two-way journal *)
Inductive BilogEntry :=
| BE_chmod (x : bilog_chmod)
| BE_chown (x : bilog_chown)
| BE_utimens (x : bilog_utimens)
| BE_rename (x : bilog_rename)
| BE_dir (x : bilog_dir)
| BE_symlink (x : bilog_symlink)
| BE_link (x : bilog_link)
| BE_node (x : bilog_node)
| BE_file (x : bilog_file)
| BE_filestore (p : path) (token : Z)
| BE_truncate (x : bilog_truncate)
| BE_write (x : bilog_write)
| BE_xattr (x : bilog_xattr).

Definition S_IFMT : Z := 61440.
Definition S_IFSOCK : Z := 49152.
Definition S_IFLNK : Z := 40960.
Definition S_IFREG : Z := 32768.
Definition S_IFBLK : Z := 24576.
Definition S_IFCHR : Z := 8192.
Definition S_IFIFO : Z := 4096.

Definition is_type (mode ftype : Z) : bool := Z.land mode S_IFMT =? ftype.

Section BilogEntry.
Context {D : Digest}.

(** The three lines [new], [old], [xor] of the arms of [try_from]. *)
Definition log_call {X} `{Bilog X} (fv : fsview) (call : VFSCall) (fspath : path) : outcome X :=
  new ← b_new call;
  old ← b_old (inl new) fv fspath;
  b_xor old new.

(** The arm of [try_from] for [unlink]: the entry depends on the file's type. *)
Definition log_unlink (fv : fsview) (call : VFSCall) (p fspath : path) : outcome BilogEntry :=
  st ← translate_and_stat fv p fspath;
  let m := st_mode st in
  if is_type m S_IFLNK then BE_symlink <$> log_call fv call fspath
  else if is_type m S_IFREG then
    if 1 <? st_nlink st then BE_link <$> log_call fv call fspath
    else if st_size st =? 0 then BE_file <$> log_call fv call fspath
    else Ok (BE_filestore p 0)
  else if is_type m S_IFBLK || is_type m S_IFCHR || is_type m S_IFIFO || is_type m S_IFSOCK
  then BE_node <$> log_call fv call fspath
  else Panic.

Definition bilog_try_from (fv : fsview) (call : VFSCall) (fspath : path) : outcome BilogEntry :=
  match call with
  | mknod p mode rdev (Unix uid gid) => Ok (BE_node (mk_bilog_node p mode rdev true uid gid))
  | mkdir p (Unix uid gid) mode => Ok (BE_dir (mk_bilog_dir p mode true uid gid))
  | rmdir _ => BE_dir <$> log_call fv call fspath
  | unlink p => log_unlink fv call p fspath
  | symlink from to (Unix uid gid) => Ok (BE_symlink (mk_bilog_symlink from to true uid gid))
  | rename from to _ => Ok (BE_rename (mk_bilog_rename from to true))
  | link from to (Unix uid gid) => Ok (BE_link (mk_bilog_link from to true uid gid))
  | chmod _ _ => BE_chmod <$> log_call fv call fspath
  | security _ _ => BE_chown <$> log_call fv call fspath
  | truncate _ _ => BE_truncate <$> log_call fv call fspath
  | write _ _ _ => BE_write <$> log_call fv call fspath
  | setxattr _ _ _ _ | removexattr _ _ => BE_xattr <$> log_call fv call fspath
  | create p _ (Unix uid gid) mode => Ok (BE_file (mk_bilog_file p mode false uid gid))
  | utimens _ _ => BE_utimens <$> log_call fv call fspath
  | truncating_write _ _ _ _ => Panic
  | fallocate _ _ _ _ => Panic
  | fsync _ _ => Panic
  | _ => Panic
  end.

(** The macro [bilog_apply!]. *)
Definition apply_entry {X} `{Bilog X} (fv : fsview) (x : X) (fspath : path) : outcome VFSCall :=
  current ← b_old (inr x) fv fspath;
  b_apply x current.

(** [BilogEntry::apply]; [recover] is [FileStore::recover] on the backing store. *)
Definition bilog_apply (recover : Z -> path -> outcome VFSCall)
  (fv : fsview) (e : BilogEntry) (fspath : path) : outcome VFSCall :=
  match e with
  | BE_chmod x => apply_entry fv x fspath
  | BE_chown x => apply_entry fv x fspath
  | BE_utimens x => apply_entry fv x fspath
  | BE_rename x => apply_entry fv x fspath
  | BE_dir x => apply_entry fv x fspath
  | BE_symlink x => apply_entry fv x fspath
  | BE_link x => apply_entry fv x fspath
  | BE_node x => apply_entry fv x fspath
  | BE_file x => apply_entry fv x fspath
  | BE_truncate x => apply_entry fv x fspath
  | BE_write x => apply_entry fv x fspath
  | BE_xattr x => apply_entry fv x fspath
  | BE_filestore p token =>
    match translate_and_stat fv p fspath with
    | Err e => if kind_not_found e then recover token p else Err e
    | Ok _ => Ok (unlink p)
    | Panic => Panic
    | NoFuel => NoFuel
    end
  end.

Definition bilog_affected_paths (e : BilogEntry) : list path :=
  match e with
  | BE_chmod c => [chm_path c]
  | BE_chown c => [cho_path c]
  | BE_utimens c => [uti_path c]
  | BE_rename c => [ren_from c; ren_to c]
  | BE_dir c => [dir_path c]
  | BE_symlink c => [sym_to c]
  | BE_link c => [lnk_to c]
  | BE_node c => [nod_path c]
  | BE_file c => [fil_path c]
  | BE_filestore p _ => [p]
  | BE_truncate c => [tru_path c]
  | BE_write c => [wri_path c]
  | BE_xattr c => [xat_path c]
  end.

(** [FileStore::store(j, path)] acts on the store inside the journal. *)
Definition set_fstore (j : Journal) (st : FileStore) : Journal :=
  mk_Journal (j_header j) (j_size j) (j_file j) (j_sync j) (j_sbuf j) (j_last_time j) st.

Definition store_in_journal (p : path) : M (Journal * host) Z := fun '(j, h) =>
  let '(r, (st, h)) := FileStore_store p (j_fstore j, h) in (r, (set_fstore j st, h)).

(** [BilogEntry::journal]: a deleted file is stored before its entry is written. *)
Definition bilog_journal {F : StoreFormat BilogEntry} (e : BilogEntry) (now : Z)
  : M (Journal * host) unit :=
  e ← (match e with
       | BE_filestore p _ => token ← store_in_journal p; mret (BE_filestore p token)
       | e => mret e
       end);
  default_journal e now.

End BilogEntry.

Definition bilog_entry {D : Digest} {F : StoreFormat BilogEntry}
  (recover : Z -> path -> outcome VFSCall) : JournalEntry BilogEntry := {|
  je_try_from := bilog_try_from;
  je_journal := bilog_journal;
  je_apply := bilog_apply recover;
  je_affected_paths := bilog_affected_paths |}.
