(* ===== verification/BilogProps.v ===== *)
(** * What a two-way journal entry does

    An entry logged before a call gives the call back when it is applied to the
    state before it (redo) and the inverse call when it is applied to the state
    after it (undo). This holds for ownership, permissions and times through
    the interface [Reversible], and for creation and removal; for file contents,
    sizes, names and extended attributes the theorems say what happens instead. *)

From stdpp Require Import base list numbers option strings.
From Stdlib Require Import ZArith Lia.
From S2P Require Import Prelude Common Filestore Store StoreSpec StoreInst Entries Bilog.

Local Open Scope Z_scope.

Ltac ounfold := unfold mbind, outcome_bind, fmap, outcome_fmap, mret, outcome_ret in *.

(** ** XOR of three time stamps *)
Lemma Timespec3_xor_cancel s t : Timespec3_xor (Timespec3_xor s t) t = s.
Proof.
  destruct s as [[a b] c], t as [[a' b'] c']. cbn. by rewrite !Timespec_xor_cancel_r.
Qed.

Lemma Timespec3_xor_comm s t : Timespec3_xor s t = Timespec3_xor t s.
Proof.
  destruct s as [[a b] c], t as [[a' b'] c']. cbn.
  by rewrite (Timespec_xor_comm a), (Timespec_xor_comm b), (Timespec_xor_comm c).
Qed.

(** The checksum test of [apply] on the two states an entry was made from. *)
Lemma csum_redo a b : negb (Z.lxor a b =? Z.lxor a b) = false.
Proof. by rewrite Z.eqb_refl. Qed.

Lemma csum_undo a b : negb (Z.lxor a b =? Z.lxor b a) = false.
Proof. by rewrite Z.lxor_comm, Z.eqb_refl. Qed.

Lemma csum_mismatch a b c : a <> b -> negb (Z.lxor a c =? Z.lxor b c) = true.
Proof.
  intros H. apply negb_true_iff, Z.eqb_neq. intros E. apply H.
  by rewrite <- (lxor_cancel_r a c), E, lxor_cancel_r.
Qed.

(** ** Reversible entries

    [rv_ok] states carry the checksum of their own contents; the XOR of two of
    them leads from either to the other. *)
Class Reversible (X : Type) `{Bilog X} := {
  rv_ok : X -> Prop;
  rv_path : X -> path;
  rv_call : X -> VFSCall;
  rv_new : forall call n, b_new call = Ok n -> rv_ok n /\ rv_call n = call;
  rv_old : forall r fv fspath o, b_old r fv fspath = Ok o -> rv_ok o /\ rv_path o = either rv_path r;
  rv_old_path : forall x n fv fspath,
    rv_path x = rv_path n -> b_old (inr x) fv fspath = b_old (inl n) fv fspath;
  rv_xor : forall o n, rv_ok o -> rv_ok n -> rv_path o = rv_path n ->
    exists x, b_xor o n = Ok x /\ rv_path x = rv_path n /\
      b_apply x o = Ok (rv_call n) /\ b_apply x n = Ok (rv_call o) }.

(** Redo in the state before the call, undo in a state that shows the call. *)
Lemma reversible_undo_redo {X} `{Reversible X} fv call fspath n o :
  b_new call = Ok n -> b_old (inl n) fv fspath = Ok o ->
  exists x, log_call fv call fspath = Ok x /\ apply_entry fv x fspath = Ok call /\
    forall fv', b_old (inl n) fv' fspath = Ok n -> apply_entry fv' x fspath = Ok (rv_call o).
Proof.
  intros Hn Ho. destruct (rv_new _ _ Hn) as [Hokn Hcall].
  destruct (rv_old _ _ _ _ Ho) as [Hoko Hpo].
  destruct (rv_xor o n Hoko Hokn Hpo) as (x & Hx & Hp & Ha & Hb).
  exists x. unfold log_call, apply_entry. ounfold. rewrite Hn, Ho, Hx.
  split; [done|]. split.
  - by rewrite (rv_old_path _ _ _ _ Hp), Ho, Ha, Hcall.
  - intros fv' Hn'. by rewrite (rv_old_path _ _ _ _ Hp), Hn', Hb.
Qed.

Section Reversibles.
Context {D : Digest}.

#[export] Instance bilog_chmod_reversible : Reversible bilog_chmod.
Proof.
  refine {| rv_ok := fun s => chm_checksum s = chmod_crc32 s; rv_path := chm_path;
            rv_call := fun s => chmod (chm_path s) (chm_mode s) |}.
  - intros [] n H; inv H. done.
  - cbn. unfold chmod_old. ounfold. intros r fv fspath o H. case_match; inv H. done.
  - intros x n fv fspath E. cbn. unfold chmod_old. cbn. by rewrite E.
  - intros o n Ho Hn Hp. eexists. split; [done|]. cbn. unfold chmod_apply. cbn.
    rewrite lxor_cancel_r, (Z.lxor_comm (chm_mode n) (chm_mode o)), lxor_cancel_r.
    rewrite Ho, Hn, Hp. unfold chmod_crc32. by rewrite csum_redo, csum_undo.
Defined.

#[export] Instance bilog_chown_reversible : Reversible bilog_chown.
Proof.
  refine {| rv_ok := fun s => cho_checksum s = chown_crc32 s; rv_path := cho_path;
            rv_call := fun s => security (cho_path s) (Unix (cho_uid s) (cho_gid s)) |}.
  - intros [] n H; try done. cbn in H. unfold chown_new in H. repeat case_match; by inv H.
  - cbn. unfold chown_old. ounfold. intros r fv fspath o H. case_match; inv H. done.
  - intros x n fv fspath E. cbn. unfold chown_old. cbn. by rewrite E.
  - intros o n Ho Hn Hp. eexists. split; [done|]. cbn. unfold chown_apply. cbn.
    rewrite !lxor_cancel_r, (Z.lxor_comm (cho_uid n) (cho_uid o)),
      (Z.lxor_comm (cho_gid n) (cho_gid o)), !lxor_cancel_r.
    rewrite Ho, Hn, Hp. unfold chown_crc32. by rewrite csum_redo, csum_undo.
Defined.

#[export] Instance bilog_utimens_reversible : Reversible bilog_utimens.
Proof.
  refine {| rv_ok := fun s => uti_checksum s = utimens_crc32 s; rv_path := uti_path;
            rv_call := fun s => utimens (uti_path s) (uti_timespec s) |}.
  - intros [] n H; inv H. done.
  - cbn. unfold utimens_old. ounfold. intros r fv fspath o H. case_match; inv H. done.
  - intros x n fv fspath E. cbn. unfold utimens_old. cbn. by rewrite E.
  - intros o n Ho Hn Hp. eexists. split; [done|]. cbn. unfold utimens_apply. cbn.
    rewrite Timespec3_xor_cancel, (Timespec3_xor_comm (uti_timespec n)), Timespec3_xor_cancel.
    rewrite Ho, Hn, Hp. unfold utimens_crc32. by rewrite csum_redo, csum_undo.
Defined.

(** ** Permissions, ownership and times *)

(** The path a metadata call changes, when it is one [utimens] on POSIX sends:
    its third time stamp is 0. *)
Definition meta_path (c : VFSCall) : option path :=
  match c with
  | chmod p _ => Some p
  | security p (Unix _ _) => Some p
  | utimens p (_, _, t) => if bool_decide (t = mk_Timespec 0 0) then Some p else None
  | _ => None
  end.

(** What [lstat] returns after the call. *)
Definition stat_after (c : VFSCall) (st : stat) : stat :=
  match c with
  | chmod _ mode => mk_stat mode (st_uid st) (st_gid st) (st_size st) (st_rdev st) (st_nlink st)
      (st_ino st) (st_atime st) (st_atime_nsec st) (st_mtime st) (st_mtime_nsec st)
  | security _ (Unix uid gid) => mk_stat (st_mode st) uid gid (st_size st) (st_rdev st)
      (st_nlink st) (st_ino st) (st_atime st) (st_atime_nsec st) (st_mtime st) (st_mtime_nsec st)
  | utimens _ (a, m, _) => mk_stat (st_mode st) (st_uid st) (st_gid st) (st_size st) (st_rdev st)
      (st_nlink st) (st_ino st) (ts_high a) (ts_low a) (ts_high m) (ts_low m)
  | _ => st
  end.

(** The call of the same kind that restores [st]. *)
Definition restore_call (c : VFSCall) (st : stat) : VFSCall :=
  match c with
  | chmod p _ => chmod p (st_mode st)
  | security p _ => security p (Unix (st_uid st) (st_gid st))
  | utimens p _ => utimens p (stat_times st)
  | c => c
  end.

Lemma metadata_undo_redo recover fv fv' c p fspath st :
  meta_path c = Some p ->
  fv_lstat fv (translate_path p fspath) = inr st ->
  fv_lstat fv' (translate_path p fspath) = inr (stat_after c st) ->
  exists e, bilog_try_from fv c fspath = Ok e /\
    bilog_apply recover fv e fspath = Ok c /\
    bilog_apply recover fv' e fspath = Ok (restore_call c st).
Proof.
  intros Hp Hst Hst'.
  assert (forall X (B : Bilog X) (R : Reversible X) (mk : X -> BilogEntry) n o,
    b_new c = Ok n -> b_old (inl n) fv fspath = Ok o -> b_old (inl n) fv' fspath = Ok n ->
    rv_call o = restore_call c st -> bilog_try_from fv c fspath = mk <$> log_call fv c fspath ->
    (forall fv x, bilog_apply recover fv (mk x) fspath = apply_entry fv x fspath) ->
    exists e, bilog_try_from fv c fspath = Ok e /\ bilog_apply recover fv e fspath = Ok c /\
      bilog_apply recover fv' e fspath = Ok (restore_call c st)) as Hgen.
  { intros X B R mk n o Hn Ho Hn' Hc Htry Hap.
    destruct (reversible_undo_redo fv c fspath n o Hn Ho) as (x & Hx & Hredo & Hundo).
    exists (mk x). rewrite Htry, Hx, !Hap, <- Hc. split_and!; [done..|by apply Hundo]. }
  destruct c as [| | | | | | |p' mode| | | | | | | |p' [[a m] z]| | |p' [| uid gid|]]; try done.
  - inv Hp. eapply (Hgen bilog_chmod _ _ BE_chmod); try done; cbn; unfold chmod_old,
      translate_and_stat; cbn; rewrite ?Hst, ?Hst'; done.
  - cbn in Hp. case_bool_decide; [|done]. inv Hp.
    eapply (Hgen bilog_utimens _ _ BE_utimens); try done; cbn; unfold utimens_old,
      translate_and_stat; cbn; rewrite ?Hst, ?Hst'; try done.
    destruct a, m. done.
  - inv Hp. eapply (Hgen bilog_chown _ _ BE_chown); try done; cbn; unfold chown_old,
      translate_and_stat; cbn; rewrite ?Hst, ?Hst'; done.
Qed.

Lemma bilog_undo_call recover fv fv' c p fspath st :
  meta_path c = Some p ->
  fv_lstat fv (translate_path p fspath) = inr st ->
  fv_lstat fv' (translate_path p fspath) = inr (stat_after c st) ->
  exists e, bilog_try_from fv c fspath = Ok e /\ bilog_apply recover fv' e fspath = Ok (restore_call c st).
Proof.
  intros Hp Hst Hst'. destruct (metadata_undo_redo recover fv fv' c p fspath st Hp Hst Hst') as (e & ? & _ & ?).
  by exists e.
Qed.

(** C17. For a change of permissions, ownership or times, the logged entry gives
    the call itself in the state before it and the call that restores the old
    attributes in the state after it. *)
Theorem bilog_metadata_undo_redo recover fv fv' c p fspath st :
  meta_path c = Some p ->
  fv_lstat fv (translate_path p fspath) = inr st ->
  fv_lstat fv' (translate_path p fspath) = inr (stat_after c st) ->
  exists e, bilog_try_from fv c fspath = Ok e /\
    bilog_apply recover fv e fspath = Ok c /\
    bilog_apply recover fv' e fspath = Ok (restore_call c st).
Proof. apply metadata_undo_redo. Qed.

(** ** Creation and removal *)

(** The name a creating call makes, the call that removes it again, and the
    call an entry replays: [create] always with the flags of a plain create. *)
Definition created (c : VFSCall) : option path :=
  match c with
  | mknod p _ _ (Unix _ _) | mkdir p (Unix _ _) _ | create p _ (Unix _ _) _ => Some p
  | symlink _ to (Unix _ _) | link _ to (Unix _ _) => Some to
  | _ => None
  end.

Definition removal (c : VFSCall) : VFSCall :=
  match c with
  | mkdir p _ _ => rmdir p
  | mknod p _ _ _ | create p _ _ _ => unlink p
  | symlink _ to _ | link _ to _ => unlink to
  | c => c
  end.

Definition replayed (c : VFSCall) : VFSCall :=
  match c with
  | create p _ sec mode => create p (Z.lor O_CREAT O_RDONLY) sec mode
  | c => c
  end.

Definition absent (fv : fsview) (p : path) : Prop := fv_lstat fv p = inl ENOENT.

(** What exists under [p] is what the call made: a link can be read, and some
    name of a hard link's file is found by the walk of the tree. *)
Definition present (fv : fsview) (c : VFSCall) (p fspath : path) : Prop :=
  exists st, fv_lstat fv (translate_path p fspath) = inr st /\
    match c with
    | symlink from _ _ => exists from', fv_readlink fv (translate_path p fspath) = inr from'
    | link _ _ _ => exists from', find_hardlink fv (st_ino st) fspath = Ok (Some from')
    | _ => True
    end.

(** An entry for the creation of a name gives the removal of that name
    while it exists, and the creation again while it does not. *)
Theorem bilog_create_undo_redo recover c p fspath fv fv' fv'' :
  created c = Some p -> present fv' c p fspath -> absent fv'' (translate_path p fspath) ->
  exists e, bilog_try_from fv c fspath = Ok e /\
    bilog_apply recover fv' e fspath = Ok (removal c) /\
    bilog_apply recover fv'' e fspath = Ok (replayed c).
Proof.
  intros Hc (st & Hst & Hmore) Habs. unfold absent in Habs.
  destruct c; cbn in Hc; repeat case_match; try done; inv Hc; (eexists; split; [reflexivity|]);
    cbn; unfold apply_entry, b_old, b_apply; cbn;
    unfold node_old, dir_old, symlink_old, link_old, file_old, translate_and_stat; ounfold; cbn;
    rewrite ?Hst, ?Habs; try done.
  - destruct Hmore as [from' ->]. done.
  - destruct Hmore as [from' ->]. done.
Qed.

(** The call that makes again what a removing call removes. *)
Definition recreated (fv : fsview) (c : VFSCall) (fspath : path) (st : stat) : option VFSCall :=
  let sec := Unix (st_uid st) (st_gid st) in
  match c with
  | rmdir p => Some (mkdir p sec (st_mode st))
  | unlink p =>
    if is_type (st_mode st) S_IFLNK then
      match fv_readlink fv (translate_path p fspath) with
      | inr from => Some (symlink from p sec)
      | inl _ => None
      end
    else if is_type (st_mode st) S_IFREG then
      if 1 <? st_nlink st then None
      else if st_size st =? 0
      then Some (create p (Z.lor O_CREAT O_RDONLY) sec (st_mode st)) else None
    else if is_type (st_mode st) S_IFBLK || is_type (st_mode st) S_IFCHR ||
            is_type (st_mode st) S_IFIFO || is_type (st_mode st) S_IFSOCK
    then Some (mknod p (st_mode st) (st_rdev st) sec) else None
  | _ => None
  end.

Definition removed (c : VFSCall) : option path :=
  match c with rmdir p | unlink p => Some p | _ => None end.

(** An entry for the removal of a directory, a symbolic link, an empty file
    or a special file gives the removal while the name exists and, once it is
    gone, the call that makes it again with the mode, owner, device and target
    it had. *)
Theorem bilog_remove_undo_redo recover c c' p fspath fv fv' st :
  removed c = Some p -> fv_lstat fv (translate_path p fspath) = inr st ->
  recreated fv c fspath st = Some c' -> absent fv' (translate_path p fspath) ->
  exists e, bilog_try_from fv c fspath = Ok e /\
    bilog_apply recover fv e fspath = Ok c /\ bilog_apply recover fv' e fspath = Ok c'.
Proof.
  intros Hc Hst Hre Habs. unfold absent in Habs.
  destruct c; cbn in Hc; try done; inv Hc; cbn in Hre; cbn [bilog_try_from];
    unfold log_unlink, log_call, translate_and_stat, b_new, b_old, b_xor; ounfold; cbn;
    rewrite ?Hst; cbn.
  - destruct (is_type (st_mode st) S_IFLNK).
    + destruct (fv_readlink fv _) as [|from] eqn:Hrl; [done|]. inv Hre.
      unfold symlink_old, translate_and_stat; cbn. rewrite Hst, Hrl.
      eexists. split; [done|]. cbn. unfold apply_entry, b_old, b_apply; cbn.
      unfold symlink_old, translate_and_stat; ounfold; cbn.
      rewrite Hst, Hrl, Habs. cbn. unfold symlink_apply. cbn. by rewrite !Z.lxor_0_r.
    + destruct (is_type (st_mode st) S_IFREG).
      * destruct (1 <? st_nlink st); [done|]. destruct (st_size st =? 0); [|done]. inv Hre.
        unfold file_old, translate_and_stat; cbn. rewrite Hst. eexists. split; [done|].
        cbn. unfold apply_entry, b_old, b_apply; cbn.
        unfold file_old, translate_and_stat; ounfold; cbn. rewrite Hst, Habs.
        unfold file_apply. cbn. by rewrite !Z.lxor_0_r.
      * destruct (_ || _); [|done]. inv Hre. unfold node_old, translate_and_stat; cbn.
        rewrite Hst. eexists. split; [done|]. cbn. unfold apply_entry, b_old, b_apply; cbn.
        unfold node_old, translate_and_stat; ounfold; cbn. rewrite Hst, Habs.
        unfold node_apply. cbn. by rewrite !Z.lxor_0_r.
  - inv Hre. unfold dir_old, translate_and_stat; cbn. rewrite Hst. eexists. split; [done|].
    cbn. unfold apply_entry, b_old, b_apply; cbn.
    unfold dir_old, translate_and_stat; ounfold; cbn. rewrite Hst, Habs.
    unfold dir_apply. cbn. by rewrite !Z.lxor_0_r.
Qed.

(** Known defect: an entry for a rename gives the same rename whatever the
    state of the file system, so applying it never undoes the rename. *)
Theorem bilog_rename_never_reversed recover from to flags fspath fv :
  exists e, bilog_try_from fv (rename from to flags) fspath = Ok e /\
    forall fv', bilog_apply recover fv' e fspath = Ok (rename from to 0).
Proof. eexists. split; [reflexivity|]. done. Qed.

(** ** File contents *)

Lemma xor_buf_ok new old : zlen old <= zlen new -> xor_buf new old = Ok (xor_prefix new old).
Proof. intros H. unfold xor_buf. by replace (zlen old <=? zlen new) with true by lia. Qed.

Lemma zlen_xor_prefix new old : zlen (xor_prefix new old) = zlen new.
Proof. unfold zlen. by rewrite length_xor_prefix. Qed.

(** XOR of equally long buffers gives either from the other. *)
Lemma xor_prefix_swap a b : length a = length b -> xor_prefix (xor_prefix a b) a = b.
Proof.
  revert b. induction a as [|x a IH]; intros [|y b]; simpl; try done.
  intros H. rewrite (Z.lxor_comm (Z.lxor x y)), lxor_cancel_l, IH; [done|lia].
Qed.

Lemma match_nonempty {A B} (l : list A) (a b : B) :
  0 < zlen l -> match l with [] => a | _ :: _ => b end = b.
Proof. by destruct l. Qed.

(** The state [old] sees of a write that stays within the file. *)
Lemma write_old_in_place r fv p offset fspath f n :
  either wri_path r = p -> either wri_offset r = offset ->
  either (fun s => zlen (wri_buf s)) r = n -> 0 < n ->
  fv_open fv (translate_path p fspath) = Ok f ->
  0 <= offset -> offset + n <= f_len f < 2 ^ 63 ->
  write_old r fv fspath = Ok (write_set_csum
    (mk_bilog_write p offset (file_bytes f offset (Z.to_nat n)) (f_len f) 0)).
Proof.
  intros Hp Ho Hn Hpos Hf H0 Hlen. unfold write_old. rewrite Hp, Ho, Hn. ounfold. rewrite Hf.
  rewrite (u64_small offset) by lia. replace (offset <? f_len f) with true by lia.
  rewrite u64_small by lia. rewrite Z.min_r by lia. unfold read_exact_at.
  replace (offset + n <=? f_len f) with true by lia. rewrite orb_true_r.
  by rewrite i64_small by lia.
Qed.

(** C28. Known defect: [new] takes the checksum of a write with length 0 while
    [apply] checks it with the file's length. An entry for a write within the
    file can be undone and redone exactly when the digest does not tell those
    two apart; otherwise both fail with a checksum mismatch. *)
Theorem bilog_write_in_place recover fv fv' p offset buf fspath f :
  fv_open fv (translate_path p fspath) = Ok f ->
  fv_open fv' (translate_path p fspath) = Ok (write_all_at f buf offset) ->
  0 <= offset -> 0 < zlen buf -> offset + zlen buf <= f_len f < 2 ^ 63 ->
  let old := file_bytes f offset (length buf) in
  exists e, bilog_try_from fv (write p offset buf) fspath = Ok e /\
    if hash_crc32 (hash_bytes buf ++ hash_i64 (f_len f)) =?
       hash_crc32 (hash_bytes buf ++ hash_i64 0)
    then bilog_apply recover fv e fspath = Ok (write p offset buf) /\
         bilog_apply recover fv' e fspath = Ok (write p offset old)
    else bilog_apply recover fv e fspath = Err OtherError /\
         bilog_apply recover fv' e fspath = Err OtherError.
Proof.
  intros Hf Hf' H0 Hpos Hlen old.
  assert (length old = length buf) as Hl by apply length_file_bytes.
  assert (zlen old = zlen buf) as Hz by (unfold zlen; lia).
  set (f' := write_all_at f buf offset) in *.
  assert (f_len f' = f_len f) as Hlf by (apply f_len_write; lia).
  assert (file_bytes f' offset (length buf) = buf) as Hb'
    by (apply at_bytes_read, at_bytes_write_same).
  assert (forall r, either wri_path r = p -> either wri_offset r = offset ->
    either (fun s => zlen (wri_buf s)) r = zlen buf ->
    write_old r fv fspath = Ok (write_set_csum (mk_bilog_write p offset old (f_len f) 0)) /\
    write_old r fv' fspath = Ok (write_set_csum (mk_bilog_write p offset buf (f_len f) 0))) as Hold.
  { intros r Hp Ho Hn.
    rewrite (write_old_in_place r fv p offset fspath f (zlen buf)) by (done || lia).
    rewrite (write_old_in_place r fv' p offset fspath f' (zlen buf)) by (done || lia).
    unfold zlen. by rewrite Nat2Z.id, Hb', Hlf. }
  set (n := write_set_csum (mk_bilog_write p offset buf 0 0)).
  set (o := write_set_csum (mk_bilog_write p offset old (f_len f) 0)) in *.
  assert (write_xor o n = Ok (mk_bilog_write p offset (xor_prefix buf old) 0
    (Z.lxor (wri_checksum n) (wri_checksum o)))) as Hxor.
  { unfold write_xor. cbn [n o write_set_csum wri_buf wri_offset wri_length wri_path].
    rewrite xor_buf_ok by lia. ounfold. rewrite i64_small by lia.
    destruct (_ <? f_len f) eqn:E; rewrite ?Z.lxor_nilpotent; [done|].
    replace (offset + zlen buf) with (f_len f) by lia. by rewrite Z.lxor_nilpotent. }
  exists (BE_write (mk_bilog_write p offset (xor_prefix buf old) 0
    (Z.lxor (wri_checksum n) (wri_checksum o)))).
  cbn [bilog_try_from bilog_apply]. unfold log_call, apply_entry. ounfold.
  cbn [b_new b_old b_xor b_apply bilog_write_bilog write_new]. fold n.
  destruct (Hold (inl n)) as [-> _]; [done..|]. rewrite Hxor. split; [done|].
  destruct (Hold (inr (mk_bilog_write p offset (xor_prefix buf old) 0
    (Z.lxor (wri_checksum n) (wri_checksum o))))) as [-> ->]; [done|done|apply zlen_xor_prefix|].
  unfold write_apply. cbn [write_set_csum o n wri_buf wri_length wri_path wri_offset wri_checksum].
  rewrite !xor_buf_ok by (rewrite zlen_xor_prefix; lia).
  rewrite xor_prefix_cancel, (xor_prefix_swap buf old) by done.
  rewrite !Z.lxor_0_l, Z.leb_refl. unfold write_crc32. cbn [wri_buf wri_length].
  rewrite !match_nonempty by lia. ounfold. destruct (_ =? _) eqn:E.
  - apply Z.eqb_eq in E. rewrite E, csum_redo, csum_undo. done.
  - apply Z.eqb_neq in E. rewrite (csum_mismatch _ _ _ E).
    rewrite (Z.lxor_comm (hash_crc32 (hash_bytes old ++ _))), (csum_mismatch _ _ _ E). done.
Qed.

(** ** File sizes *)
Lemma read_past_end f off n : 0 < n -> f_len f < off + n -> read_exact_at f off n = Err UnexpectedEof.
Proof.
  intros Hn Hl. unfold read_exact_at. replace (n =? 0) with false by lia.
  by replace (off + n <=? f_len f) with false by lia.
Qed.

(** Known defect: the bytes a truncation changes are read when the file
    grows, not when it shrinks. Extending a file cannot be logged, since the
    bytes past its end are read, and shrinking it is logged without its data
    and cannot be undone, for the same reason. *)
Theorem bilog_truncate_not_reversible recover fv fv' p size fspath st st' f f' :
  fv_lstat fv (translate_path p fspath) = inr st ->
  fv_open fv (translate_path p fspath) = Ok f -> f_len f = st_size st ->
  fv_lstat fv' (translate_path p fspath) = inr st' ->
  fv_open fv' (translate_path p fspath) = Ok f' -> f_len f' = st_size st' ->
  st_size st' = size -> 0 <= size < 2 ^ 63 -> 0 <= st_size st < 2 ^ 63 ->
  (st_size st < size -> bilog_try_from fv (truncate p size) fspath = Err UnexpectedEof) /\
  (size < st_size st -> exists x, bilog_try_from fv (truncate p size) fspath = Ok (BE_truncate x) /\
     tru_buf x = [] /\ bilog_apply recover fv' (BE_truncate x) fspath = Err UnexpectedEof).
Proof.
  intros Hst Hf Hfl Hst' Hf' Hfl' Hsz Hr Hr'. cbn [bilog_try_from bilog_apply].
  unfold log_call, apply_entry, b_new, b_old, b_xor. ounfold.
  cbn [bilog_truncate_bilog truncate_new]. unfold truncate_old, translate_and_stat. ounfold.
  cbn [either truncate_set_csum tru_path tru_size]. rewrite Hst. split; intros Hlt.
  - replace (st_size st <? size) with true by lia. rewrite Hf.
    rewrite !u64_small by lia. by rewrite read_past_end by lia.
  - replace (st_size st <? size) with false by lia. eexists. split; [reflexivity|].
    cbn [truncate_xor tru_buf tru_path tru_size tru_checksum]. split; [done|].
    cbn [truncate_set_csum either tru_path tru_size]. rewrite Hst'.
    rewrite Hsz, lxor_cancel_r. replace (size <? st_size st) with true by lia. rewrite Hf'.
    rewrite !u64_small by lia. by rewrite read_past_end by lia.
Qed.

(** ** Extended attributes *)
Lemma zip_xor_prefix a b : length a = length b -> zip_with Z.lxor a b = xor_prefix a b.
Proof.
  revert b. induction a as [|x a IH]; intros [|y b]; simpl; try done.
  intros H. f_equal. apply IH. lia.
Qed.

Lemma xattr_old_value r fv fspath value :
  fv_getxattr fv (translate_path (either xat_path r) fspath) (either xat_name r) = inr value ->
  zlen value <= 4096 ->
  xattr_old r fv fspath = Ok (xattr_set_csum
    (mk_bilog_xattr (either xat_path r) (either xat_name r) (Some value) false 0)).
Proof.
  intros Hg Hl. unfold xattr_old, lgetxattr. rewrite Hg.
  by replace (zlen value <=? 4096) with true by lia.
Qed.

Lemma xattr_old_none r fv fspath :
  fv_getxattr fv (translate_path (either xat_path r) fspath) (either xat_name r) = inl ENODATA ->
  xattr_old r fv fspath = Ok (xattr_set_csum
    (mk_bilog_xattr (either xat_path r) (either xat_name r) None true 0)).
Proof. intros Hg. unfold xattr_old, lgetxattr. by rewrite Hg. Qed.

(** Replacing an attribute's value by one of the same length can be redone
    and undone. Known defect: a value of another length makes [apply] index past
    the shorter one, so the redo of a longer value and the undo of a shorter one
    panic. *)
Theorem bilog_xattr_replace recover fv fv' p name flags ov nv fspath :
  fv_getxattr fv (translate_path p fspath) name = inr ov -> zlen ov <= 4096 ->
  fv_getxattr fv' (translate_path p fspath) name = inr nv -> zlen nv <= 4096 ->
  exists e, bilog_try_from fv (setxattr p name nv flags) fspath = Ok e /\
    (zlen ov = zlen nv -> bilog_apply recover fv e fspath = Ok (setxattr p name nv 0) /\
                          bilog_apply recover fv' e fspath = Ok (setxattr p name ov 0)) /\
    (zlen ov < zlen nv -> bilog_apply recover fv e fspath = Panic) /\
    (zlen nv < zlen ov -> bilog_apply recover fv' e fspath = Panic).
Proof.
  intros Ho Hlo Hn Hln.
  set (n := xattr_set_csum (mk_bilog_xattr p name (Some nv) false 0)).
  set (o := xattr_set_csum (mk_bilog_xattr p name (Some ov) false 0)).
  set (v := if zlen nv <? zlen ov then xor_prefix ov nv else xor_prefix nv ov).
  set (x := mk_bilog_xattr p name (Some v) false (Z.lxor (xat_checksum n) (xat_checksum o))).
  exists (BE_xattr x). cbn [bilog_try_from bilog_apply]. unfold log_call, apply_entry. ounfold.
  cbn [b_new b_old b_xor b_apply bilog_xattr_bilog xattr_new]. fold n.
  rewrite (xattr_old_value (inl n) fv fspath ov), (xattr_old_value (inr x) fv fspath ov),
    (xattr_old_value (inr x) fv' fspath nv) by done.
  change (either xat_path (inl n)) with p. change (either xat_name (inl n)) with name.
  change (either xat_path (inr x)) with p. change (either xat_name (inr x)) with name.
  fold n o. split.
  { unfold xattr_xor. cbn [xat_value n o xattr_set_csum]. ounfold.
    unfold x, v. destruct (zlen nv <? zlen ov) eqn:E; by rewrite xor_buf_ok by lia. }
  unfold xattr_apply. cbn [x o n xattr_set_csum xat_value xat_remove xat_path xat_name xat_checksum].
  unfold xor_all, v. ounfold. split_and!.
  - intros Hz. assert (length ov = length nv) as Hl by (unfold zlen in Hz; lia).
    replace (zlen nv <? zlen ov) with false by lia. rewrite zlen_xor_prefix.
    replace (zlen nv <=? zlen ov) with true by lia. rewrite Z.leb_refl.
    rewrite !zip_xor_prefix by (rewrite length_xor_prefix; lia).
    rewrite xor_prefix_cancel, xor_prefix_swap by done.
    unfold xattr_crc32. cbn [xat_value]. by rewrite csum_redo, csum_undo.
  - intros Hlt. replace (zlen nv <? zlen ov) with false by lia. rewrite zlen_xor_prefix.
    by replace (zlen nv <=? zlen ov) with false by lia.
  - intros Hlt. replace (zlen nv <? zlen ov) with true by lia. rewrite zlen_xor_prefix.
    by replace (zlen ov <=? zlen nv) with false by lia.
Qed.

(** Setting an attribute that was not there is undone by its removal, and
    removing one is undone by setting its old value. *)
Theorem bilog_xattr_set_remove recover fv fv' p name value flags fspath :
  fv_getxattr fv (translate_path p fspath) name = inl ENODATA ->
  fv_getxattr fv' (translate_path p fspath) name = inr value -> zlen value <= 4096 ->
  (exists e, bilog_try_from fv (setxattr p name value flags) fspath = Ok e /\
     bilog_apply recover fv e fspath = Ok (setxattr p name value 0) /\
     bilog_apply recover fv' e fspath = Ok (removexattr p name)) /\
  (exists e, bilog_try_from fv' (removexattr p name) fspath = Ok e /\
     bilog_apply recover fv' e fspath = Ok (removexattr p name) /\
     bilog_apply recover fv e fspath = Ok (setxattr p name value 0)).
Proof.
  intros Hnone Hsome Hl. cbn [bilog_try_from]. unfold log_call. ounfold.
  cbn [b_new b_old b_xor bilog_xattr_bilog xattr_new].
  rewrite (xattr_old_none (inl _) fv), (xattr_old_value (inl _) fv' _ value) by done.
  split; (eexists; split; [reflexivity|]); cbn [bilog_apply]; unfold apply_entry; ounfold;
    cbn [b_old b_apply bilog_xattr_bilog];
    rewrite (xattr_old_none (inr _) fv), (xattr_old_value (inr _) fv' _ value) by done; done.
Qed.

(** ** Deleted files *)

(** C23. Journalling the removal of a file with contents moves the file into the
    store under a fresh token and appends an entry that carries this token, so
    that [FileStore::recover] finds it. If the file cannot be moved, the error
    is returned, nothing is appended and the file is left in place. *)
Theorem bilog_journal_stores_file {F : StoreFormat BilogEntry} {L : StoreFormatLaws BilogEntry}
  k q j bs h p m now token0 :
  let token := current_token (j_fstore j) in
  let rs := entry_records (j_last_time j) (h_trans_ctr (j_header j)) now (BE_filestore p token) in
  store_inv (j_fstore j) h -> h_outside h p = Some m -> 0 <= m_len m <= max_size (j_fstore j) ->
  token + 1 < 2 ^ 63 -> Repr k q j bs -> j_last_time j <= now -> Forall rec_ok rs ->
  never_full k bs rs -> h_tail (j_header j) + 2 * BLOCK_SIZE * (zlen rs + 1) < 2 ^ 63 ->
  exists q' j' h',
    match h_rename h p token with
    | None => bilog_journal (BE_filestore p token0) now (j, h) = (Ok tt, (j', h')) /\
        Repr k q' j' (foldl (spec_write k) bs rs) /\
        store_entry h' token = Some m /\ h_outside h' p = None /\
        forall name, FileStore_recover name h' token p =
          Ok (link (mk_path true [FILESTORE_PATH; name token]) p (Unix (m_uid m) (m_gid m)))
    | Some e => bilog_journal (BE_filestore p token0) now (j, h) = (Err e, (j', h')) /\
        Repr k q' j' bs /\ h_outside h' p = Some m
    end.
Proof.
  intros token rs Hinv Hp Hm Ht HR Hnow Hok Hnf Hb.
  destruct (store_spec (j_fstore j) h p m Hinv Hp Hm Ht) as (st' & h' & _ & _ & Hs). fold token in Hs.
  assert (Repr k q (set_fstore j st') bs) as HR'.
  { destruct HR as [[] ? ?]. constructor; [constructor|..]; done. }
  destruct (write_entry_refines k q (set_fstore j st') bs now (BE_filestore p token) HR')
    as (q' & j' & Hw & HR2 & _); try done.
  unfold bilog_journal, store_in_journal, default_journal. munfold. destruct (h_rename h p token) as [e|].
  { destruct Hs as (Hs & _ & _ & _ & Ho). exists q, (set_fstore j st'), h'. rewrite Hs. split_and!; [done..|by rewrite Ho]. }
  destruct Hs as (Hs & _ & He & Ho). exists q', j', h'. rewrite Hs, Hw. split_and!; try done.
  intros name. unfold FileStore_recover. by rewrite He.
Qed.

End Reversibles.

(** ** The theorems on small file systems *)
Definition demo_digest : Digest := fun l => foldr (fun b acc => 31 * acc + b + 1) 7 l.
Definition demo_path : path := mk_path true ["f"%string].
Definition demo_root : path := mk_path true ["srv"%string].
Definition demo_recover : Z -> path -> outcome VFSCall := fun _ _ => Err NotFound.
Definition demo_stat (mode size : Z) : stat := mk_stat mode 1000 1000 size 0 1 42 5 6 7 8.

(** A file system in which every path answers the same. *)
Definition demo_fs (st : Z + stat) (xattr : Z + list Z) (f : file) : fsview :=
  mk_fsview (fun _ => st) (fun _ => inr (mk_path false ["t"%string])) (fun _ _ => xattr)
    (fun _ => Ok f) (fun _ => [inr (demo_path, 42)]).
Definition empty_file : file := mk_file 0 (fun _ => 0) 0.
Definition stat_fs (st : stat) : fsview := demo_fs (inr st) (inl ENODATA) empty_file.
Definition absent_fs : fsview := demo_fs (inl ENOENT) (inl ENODATA) empty_file.
Definition text_file : file := mk_file 10 (fun i => 65 + i) 0.

#[local] Existing Instance demo_digest.

Lemma bilog_metadata_undo_redo_witness :
  exists e, bilog_try_from (stat_fs (demo_stat 33188 3)) (chmod demo_path 33060) demo_root = Ok e /\
    bilog_apply demo_recover (stat_fs (demo_stat 33188 3)) e demo_root = Ok (chmod demo_path 33060) /\
    bilog_apply demo_recover (stat_fs (demo_stat 33060 3)) e demo_root = Ok (chmod demo_path 33188).
Proof.
  apply (bilog_metadata_undo_redo demo_recover (stat_fs (demo_stat 33188 3))
    (stat_fs (demo_stat 33060 3)) (chmod demo_path 33060) demo_path demo_root (demo_stat 33188 3));
    reflexivity.
Defined.

Lemma bilog_create_undo_redo_witness :
  let c := symlink (mk_path false ["t"%string]) demo_path (Unix 0 0) in
  exists e, bilog_try_from absent_fs c demo_root = Ok e /\
    bilog_apply demo_recover (stat_fs (demo_stat 41471 1)) e demo_root = Ok (unlink demo_path) /\
    bilog_apply demo_recover absent_fs e demo_root = Ok c.
Proof.
  intros c. apply (bilog_create_undo_redo demo_recover c demo_path demo_root absent_fs
    (stat_fs (demo_stat 41471 1)) absent_fs); [reflexivity| |reflexivity].
  exists (demo_stat 41471 1). split; [reflexivity|]. eexists. reflexivity.
Defined.

Lemma bilog_remove_undo_redo_witness :
  exists e, bilog_try_from (stat_fs (demo_stat 16877 0)) (rmdir demo_path) demo_root = Ok e /\
    bilog_apply demo_recover (stat_fs (demo_stat 16877 0)) e demo_root = Ok (rmdir demo_path) /\
    bilog_apply demo_recover absent_fs e demo_root = Ok (mkdir demo_path (Unix 1000 1000) 16877).
Proof.
  apply (bilog_remove_undo_redo demo_recover (rmdir demo_path) _ demo_path demo_root
    (stat_fs (demo_stat 16877 0)) absent_fs (demo_stat 16877 0)); reflexivity.
Defined.

Lemma bilog_write_in_place_witness :
  exists e, bilog_try_from (demo_fs (inl 0) (inl 0) text_file) (write demo_path 2 [1; 2]) demo_root
      = Ok e /\
    bilog_apply demo_recover (demo_fs (inl 0) (inl 0) text_file) e demo_root = Err OtherError /\
    bilog_apply demo_recover (demo_fs (inl 0) (inl 0) (write_all_at text_file [1; 2] 2)) e demo_root
      = Err OtherError.
Proof.
  destruct (bilog_write_in_place demo_recover (demo_fs (inl 0) (inl 0) text_file)
    (demo_fs (inl 0) (inl 0) (write_all_at text_file [1; 2] 2)) demo_path 2 [1; 2] demo_root
    text_file) as (e & He & Hif); [reflexivity|reflexivity|lia|by vm_compute|by vm_compute|].
  exists e. split; [exact He|]. exact Hif.
Defined.

Lemma bilog_truncate_not_reversible_witness :
  exists x, bilog_try_from (demo_fs (inr (demo_stat 33188 10)) (inl 0) text_file)
      (truncate demo_path 4) demo_root = Ok (BE_truncate x) /\
    bilog_apply demo_recover (demo_fs (inr (demo_stat 33188 4)) (inl 0) (set_len text_file 4))
      (BE_truncate x) demo_root = Err UnexpectedEof.
Proof.
  destruct (bilog_truncate_not_reversible demo_recover
    (demo_fs (inr (demo_stat 33188 10)) (inl 0) text_file)
    (demo_fs (inr (demo_stat 33188 4)) (inl 0) (set_len text_file 4)) demo_path 4 demo_root
    (demo_stat 33188 10) (demo_stat 33188 4) text_file (set_len text_file 4))
    as [_ Hs]; try reflexivity; [cbn; lia|cbn; lia|].
  destruct (Hs ltac:(cbn; lia)) as (x & Hx & _ & Hu). by exists x.
Defined.

Lemma bilog_xattr_replace_witness :
  exists e, bilog_try_from (demo_fs (inl 0) (inr [1; 2]) empty_file)
      (setxattr demo_path [120] [3; 4] 0) demo_root = Ok e /\
    bilog_apply demo_recover (demo_fs (inl 0) (inr [3; 4]) empty_file) e demo_root
      = Ok (setxattr demo_path [120] [1; 2] 0).
Proof.
  destruct (bilog_xattr_replace demo_recover (demo_fs (inl 0) (inr [1; 2]) empty_file)
    (demo_fs (inl 0) (inr [3; 4]) empty_file) demo_path [120] 0 [1; 2] [3; 4] demo_root)
    as (e & He & Heq & _); [reflexivity|by vm_compute|reflexivity|by vm_compute|].
  exists e. split; [exact He|]. apply Heq. reflexivity.
Defined.

Lemma bilog_xattr_set_remove_witness :
  exists e, bilog_try_from (demo_fs (inl 0) (inl ENODATA) empty_file)
      (setxattr demo_path [120] [3; 4] 0) demo_root = Ok e /\
    bilog_apply demo_recover (demo_fs (inl 0) (inr [3; 4]) empty_file) e demo_root
      = Ok (removexattr demo_path [120]).
Proof.
  destruct (bilog_xattr_set_remove demo_recover (demo_fs (inl 0) (inl ENODATA) empty_file)
    (demo_fs (inl 0) (inr [3; 4]) empty_file) demo_path [120] [3; 4] 0 demo_root)
    as [(e & He & _ & Hu) _]; [reflexivity|reflexivity|by vm_compute|].
  exists e. split; [exact He|exact Hu].
Defined.

(** A journal whose entries are removals of [demo_path]: the payload's bytes are
    the token. *)
Definition token_bytes (e : BilogEntry) : list Z :=
  match e with BE_filestore _ token => le64 token | _ => [] end.
Definition bytes_token (l : list Z) : BilogEntry := BE_filestore demo_path (le_val l).
#[local] Instance token_format : StoreFormat BilogEntry := mapped_format token_bytes bytes_token.
#[local] Instance token_laws : StoreFormatLaws BilogEntry := mapped_format_laws token_bytes bytes_token.

Definition token_journal : Journal :=
  mk_Journal (mk_JournalHeader 0 0 0 JT_Bilog) BLOCK_SIZE (mk_file (24 + BLOCK_SIZE) (fun _ => 0) 0)
    false [] 0 demo_filestore.

Lemma token_journal_Repr : Repr 1 0 token_journal [].
Proof.
  constructor; [constructor|..]; try (intros i b Hi; by rewrite lookup_nil in Hi);
    first [reflexivity | vm_compute; repeat split; discriminate].
Qed.

Lemma bilog_journal_stores_file_witness :
  exists j' h', bilog_journal (BE_filestore demo_path 0) 7 (token_journal, demo_host)
      = (Ok tt, (j', h')) /\ store_entry h' 5 = Some (mk_meta 30 7 8).
Proof.
  destruct (bilog_journal_stores_file 1 0 token_journal [] demo_host demo_path (mk_meta 30 7 8) 7 0)
    as (q' & j' & h' & Hj & _ & He & _);
    [apply demo_store_inv|reflexivity|cbn; lia|cbn; lia|apply token_journal_Repr|cbn; lia| | | |].
  - repeat constructor; vm_compute; done.
  - by split.
  - vm_compute. reflexivity.
  - by exists j', h'.
Defined.
