(* ===== verification/Texts.v ===== *)
(** * Errors with traces, C strings and the texts of entries

    [fsyncd/src/error.rs], [fsyncd/src/common/ffi.rs] with the conversions of
    times of [common/mod.rs], and what [journal view] prints of an entry:
    [describe] of [journal/mod.rs] and [journal/bilog.rs]. How the standard library formats a path, a byte string
    or a whole entry for debugging is a class. *)

From stdpp Require Import base list numbers option strings pretty.
From Stdlib Require Import ZArith Lia Ascii String.
From S2P Require Import Prelude Common Filestore Store Entries Bilog.

Local Open Scope string_scope.
Local Open Scope list_scope.
Local Open Scope Z_scope.

(** ** [Error]: an error and the places it went through *)
Module Trace.
Section Error.
Context {E : Type}.

Definition place : Type := string * Z.

Record Error := mk_Error { error : E; trace : list place }.

(** The two [FromError]: of a traced error and of one that is not. *)
Definition from_traced (e : Error) : Error := e.
Definition from_error (e : E) : Error := mk_Error e [].

Definition push (e : Error) (p : place) : Error := mk_Error (error e) (trace e ++ [p]).

(** [trace!] at a place, around a call that fails with a plain or a traced
    error. *)
Definition traced {A} (p : place) (r : E + A) : Error + A :=
  match r with inr a => inr a | inl e => inl (push (from_error e) p) end.
Definition retraced {A} (p : place) (r : Error + A) : Error + A :=
  match r with inr a => inr a | inl e => inl (push (from_traced e) p) end.

(** [Display], with [f] for the error itself; [Debug] has one colon. *)
Definition show (sep : string) (f : E -> string) (e : Error) : string :=
  f (error e) +:+ " from: " +:+ String.concat EmptyString ((fun p => fst p +:+ sep +:+ pretty (snd p) +:+ " ") <$> trace e).
Definition display := show "::".
Definition debug := show ":".

(** The error of the innermost call survives, with the places from the inside
    out. *)
Lemma traces_inside_out {A} p ps (e : E) :
  foldl (fun r p => retraced p r) (@traced A p (inl e)) ps = inl (mk_Error e (p :: ps)).
Proof.
  assert (forall l, foldl (fun r p => @retraced A p r) (inl (mk_Error e l)) ps = inl (mk_Error e (l ++ ps))) as H.
  { induction ps as [|q ps IH]; intros l; [cbn; by rewrite app_nil_r|].
    cbn [foldl]. change (retraced q (inl (mk_Error e l))) with (@inl Error A (mk_Error e (l ++ [q]))).
    by rewrite IH, <- app_assoc. }
  apply (H [p]).
Qed.

Lemma traces_keep_value {A} p ps (a : A) : foldl (fun r p => retraced p r) (traced p (inr a)) ps = inr a.
Proof. cbn. by induction ps as [|q ps IH]. Qed.

End Error.
End Trace.

(** ** C strings

    A C string is its bytes before the zero; a path is any bytes. *)
Module Ffi.

(** [into_cstring], which panics on a path with a zero byte, [into_pathbuf] and
    [to_path]. *)
Definition into_cstring (p : list Z) : outcome (list Z) := if existsb (Z.eqb 0) p then Panic else Ok p.
Definition into_pathbuf (s : list Z) : list Z := s.
Definition to_path (s : list Z) : list Z := s.

(** What a pointer to a C string points to. *)
Definition as_ptr (s rest : list Z) : list Z := s ++ 0 :: rest.

(** [CStr::from_ptr]; [None] if there is no zero. *)
Fixpoint from_ptr (buf : list Z) : option (list Z) :=
  match buf with
  | [] => None
  | b :: buf => if b =? 0 then Some [] else cons b <$> from_ptr buf
  end.

(** A path given to C and taken back is the same path. *)
Lemma cstring_roundtrip p s rest : into_cstring p = Ok s -> to_path <$> from_ptr (as_ptr s rest) = Some p.
Proof.
  unfold into_cstring. case_match eqn:E; [done|]. intros [= <-]. unfold as_ptr, to_path.
  enough (from_ptr (p ++ 0 :: rest) = Some p) as -> by done.
  induction p as [|b p IH]; [done|]. cbn [existsb] in E. apply orb_false_iff in E as [Hb E].
  cbn [app from_ptr]. rewrite Z.eqb_sym, Hb. by rewrite IH.
Qed.

Lemma into_cstring_panics p : into_cstring p = Panic <-> 0 ∈ p.
Proof.
  unfold into_cstring. split.
  - case_match eqn:E; [|done]. intros _. apply existsb_exists in E as (x & Hx & Hz). apply Z.eqb_eq in Hz as <-. by apply list_elem_of_In.
  - intros Hin. apply list_elem_of_In in Hin. assert (existsb (Z.eqb 0) p = true) as -> by (apply existsb_exists; by exists 0). done.
Qed.

(** [libc::timespec] and the two conversions of [common/mod.rs]. *)
Record timespec := mk_timespec { tv_sec : Z; tv_nsec : Z }.

Definition Timespec_from (spec : timespec) : Timespec := mk_Timespec (tv_sec spec) (tv_nsec spec).
Definition Timespec_into (t : Timespec) : timespec := mk_timespec (ts_high t) (ts_low t).

Lemma timespec_roundtrip spec t :
  Timespec_into (Timespec_from spec) = spec /\ Timespec_from (Timespec_into t) = t.
Proof. split; [by destruct spec|by destruct t]. Qed.

End Ffi.

(** ** [describe] *)
Class DebugFormat := {
  dbg_path : path -> string;
  dbg_bytes : list Z -> string;
  dbg_call : VFSCall -> string;
  dbg_entry : BilogEntry -> string }.

Section Describe.
Context {DF : DebugFormat}.

(** The default method, which forward journals have. *)
Definition forward_describe (call : VFSCall) (detail : bool) : string := dbg_call call.

Definition bilog_describe (e : BilogEntry) (detail : bool) : string :=
  if detail then dbg_entry e
  else
    match e with
    | BE_chmod c => dbg_path (chm_path c) +:+ " changed permissions"
    | BE_chown c => dbg_path (cho_path c) +:+ " changed onwership"
    | BE_utimens c => dbg_path (uti_path c) +:+ " changed mtime/ctime"
    | BE_rename c => dbg_path (ren_from c) +:+ " and " +:+ dbg_path (ren_to c) +:+ " exchanged names"
    | BE_dir c => dbg_path (dir_path c) +:+ " created or removed directory"
    | BE_symlink c => dbg_path (sym_to c) +:+ " created or removed symlink"
    | BE_link c => dbg_path (lnk_to c) +:+ " created or removed link"
    | BE_node c => dbg_path (nod_path c) +:+ " created or removed special file"
    | BE_file c => dbg_path (fil_path c) +:+ " created or removed normal file"
    | BE_filestore p _ => dbg_path p +:+ " recovered or deleted filestore file"
    | BE_truncate c => dbg_path (tru_path c) +:+ " truncated or extended file"
    | BE_write c => dbg_path (wri_path c) +:+ " changed contents at offset " +:+ pretty (wri_offset c)
    | BE_xattr c => dbg_path (xat_path c) +:+ " set, changed or removed extended attribute " +:+ dbg_bytes (xat_name c)
    end.

(** The line of [view] for an entry; [time] formats a time stamp. *)
Definition view_line {T} (describe : T -> bool -> string) (time : Z -> string) (verbose : bool) (e : StoreEntry T) : string :=
  match e_inner e with
  | Payload t => pretty (e_trans_id e) +:+ String "009" EmptyString +:+ describe t verbose
  | Time t => time t
  end.

(** The text of an entry begins with the first of the paths that a filter looks
    at, and has them all in it. *)
Definition mentions (s : string) (p : path) : Prop := exists a b, s = a +:+ dbg_path p +:+ b.

Lemma mentions_first s p : mentions (dbg_path p +:+ s) p.
Proof. exists EmptyString, s. reflexivity. Qed.

Theorem describe_names_paths e : Forall (mentions (bilog_describe e false)) (bilog_affected_paths e).
Proof.
  destruct e; cbn [bilog_describe bilog_affected_paths]; repeat apply Forall_cons_2; try apply Forall_nil_2;
    try apply mentions_first.
  match goal with |- mentions (_ +:+ ?m +:+ _ +:+ ?r) _ => exists (dbg_path (ren_from x) +:+ m), r end.
  generalize (dbg_path (ren_from x)). intros s. induction s as [|c s IH]; [reflexivity|].
  change (String c (s +:+ " and " +:+ dbg_path (ren_to x) +:+ " exchanged names") =
    String c ((s +:+ " and ") +:+ dbg_path (ren_to x) +:+ " exchanged names")). by rewrite IH.
Qed.

End Describe.
