(* ===== verification/BTree.v ===== *)
(** * Ordered maps: what the sources use of [BTreeMap]

    A [BTreeMap] is the list of its bindings in increasing key order. The
    lemmas describe every operation by the bindings of its result. *)

From stdpp Require Import base list numbers option strings.
From Stdlib Require Import ZArith Lia Sorted.
From S2P Require Import Prelude Common.

Local Open Scope Z_scope.

(** ** Keys *)
Class KeyOrd (K : Type) := {
  key_ltb : K -> K -> bool;
  key_ltb_irrefl : forall a, key_ltb a a = false;
  key_ltb_trans : forall a b c, key_ltb a b = true -> key_ltb b c = true -> key_ltb a c = true;
  key_ltb_total : forall a b, key_ltb a b = false -> key_ltb b a = false -> a = b }.

Definition key_lt {K} `{KeyOrd K} (a b : K) : Prop := key_ltb a b = true.

#[export] Instance Z_key : KeyOrd Z.
Proof. refine {| key_ltb := Z.ltb |}; intros; lia. Defined.

(** ** Operations *)
Section Ops.
Context {K V : Type} {O : KeyOrd K}.

Abbreviation btree := (list (K * V)).

Fixpoint bt_get (k : K) (m : btree) : option V :=
  match m with
  | [] => None
  | (k', v) :: m =>
    if key_ltb k k' then None else if key_ltb k' k then bt_get k m else Some v
  end.

Fixpoint bt_insert (k : K) (v : V) (m : btree) : btree :=
  match m with
  | [] => [(k, v)]
  | (k', v') :: m' =>
    if key_ltb k k' then (k, v) :: m
    else if key_ltb k' k then (k', v') :: bt_insert k v m' else (k, v) :: m'
  end.

Fixpoint bt_remove (k : K) (m : btree) : btree :=
  match m with
  | [] => []
  | (k', v') :: m' =>
    if key_ltb k k' then m
    else if key_ltb k' k then (k', v') :: bt_remove k m' else m'
  end.

(** The bindings below a key, and the first and last bindings. *)
Definition bt_below (k : K) (m : btree) : btree := List.filter (fun e => key_ltb (fst e) k) m.

(** ** Bindings *)
Definition bt_sorted (m : btree) : Prop := StronglySorted (fun a b => key_lt (fst a) (fst b)) m.

Lemma key_lt_irrefl a : ~ key_lt a a.
Proof. unfold key_lt. by rewrite key_ltb_irrefl. Qed.

Lemma key_lt_asym a b : key_lt a b -> key_ltb b a = false.
Proof.
  intros H. destruct (key_ltb b a) eqn:E; [|done].
  destruct (key_lt_irrefl a). by apply (key_ltb_trans a b a).
Qed.

Lemma sorted_cons_inv k v m :
  bt_sorted ((k, v) :: m) -> bt_sorted m /\ forall k' v', (k', v') ∈ m -> key_lt k k'.
Proof.
  intros H. inv H. split; [done|]. intros k' v' Hin.
  match goal with Hf : Forall _ _ |- _ => rewrite Forall_forall in Hf; by apply (Hf (k', v')) end.
Qed.

Lemma sorted_cons k v m :
  bt_sorted m -> (forall k' v', (k', v') ∈ m -> key_lt k k') -> bt_sorted ((k, v) :: m).
Proof.
  intros Hs Hk. constructor; [done|]. apply Forall_forall. intros [k' v'] Hin. by eapply Hk.
Qed.

Lemma bt_get_elem k v m : bt_sorted m -> bt_get k m = Some v <-> (k, v) ∈ m.
Proof.
  induction m as [|[k' v'] m IH]; intros Hs; [cbn; split; [done|intros H; by inv H]|].
  apply sorted_cons_inv in Hs as [Hs Hk]. cbn [bt_get]. rewrite elem_of_cons.
  destruct (key_ltb k k') eqn:E1.
  - split; [done|]. intros [[= -> ->]|Hin]; [by destruct (key_lt_irrefl _ E1)|].
    specialize (Hk _ _ Hin). destruct (key_lt_irrefl k). by apply (key_ltb_trans _ k').
  - destruct (key_ltb k' k) eqn:E2.
    + rewrite IH by done. split; [by right|]. intros [[= -> ->]|Hin]; [|done].
      by destruct (key_lt_irrefl _ E2).
    + pose proof (key_ltb_total _ _ E1 E2) as ->. split.
      * intros [= ->]. by left.
      * intros [[= <-]|Hin]; [done|]. specialize (Hk _ _ Hin). by destruct (key_lt_irrefl k').
Qed.

Lemma bt_elem_unique k v v' m : bt_sorted m -> (k, v) ∈ m -> (k, v') ∈ m -> v = v'.
Proof.
  intros Hs H1 H2. apply (bt_get_elem _ _ _ Hs) in H1. apply (bt_get_elem _ _ _ Hs) in H2.
  congruence.
Qed.

Lemma bt_get_None k m : bt_sorted m -> bt_get k m = None <-> forall v, (k, v) ∉ m.
Proof.
  intros Hs. split.
  - intros H v Hin. apply (bt_get_elem _ _ _ Hs) in Hin. congruence.
  - intros H. destruct (bt_get k m) as [v|] eqn:E; [|done].
    apply (bt_get_elem _ _ _ Hs) in E. by destruct (H v).
Qed.

Lemma bt_insert_elem k v m k' v' :
  bt_sorted m ->
  (k', v') ∈ bt_insert k v m <-> (k' = k /\ v' = v) \/ (k' <> k /\ (k', v') ∈ m).
Proof.
  induction m as [|[k0 v0] m IH]; intros Hs; cbn [bt_insert].
  - rewrite list_elem_of_singleton. split.
    + intros [= -> ->]. by left.
    + intros [[-> ->]|[_ H]]; [done|by inv H].
  - apply sorted_cons_inv in Hs as [Hs Hk]. destruct (key_ltb k k0) eqn:E1.
    + rewrite !elem_of_cons. split.
      * intros [[= -> ->]|Hin]; [by left|]. right. split; [|done]. intros ->.
        destruct Hin as [[= -> ->]|Hin]; [by destruct (key_lt_irrefl _ E1)|].
        specialize (Hk _ _ Hin). by destruct (key_lt_irrefl k); apply (key_ltb_trans _ k0).
      * intros [[-> ->]|[_ Hin]]; [by left|by right].
    + destruct (key_ltb k0 k) eqn:E2.
      * rewrite !elem_of_cons, IH by done. split.
        -- intros [[= -> ->]|[[-> ->]|[Hne Hin]]]; [|by left|by right; eauto].
           right. split; [|by left]. intros ->. by destruct (key_lt_irrefl _ E2).
        -- intros [[-> ->]|[Hne [[= -> ->]|Hin]]]; [|by left|by right; right].
           by right; left.
      * pose proof (key_ltb_total _ _ E1 E2) as ->. rewrite !elem_of_cons. split.
        -- intros [[= -> ->]|Hin]; [by left|]. right. split; [|by right]. intros ->.
           specialize (Hk _ _ Hin). by destruct (key_lt_irrefl k0).
        -- intros [[-> ->]|[Hne [[= -> ->]|Hin]]]; [by left|done|by right].
Qed.

Lemma bt_insert_sorted k v m : bt_sorted m -> bt_sorted (bt_insert k v m).
Proof.
  induction m as [|[k0 v0] m IH]; intros Hs; cbn [bt_insert].
  - repeat constructor.
  - pose proof Hs as Hs0. apply sorted_cons_inv in Hs as [Hs Hk]. destruct (key_ltb k k0) eqn:E1.
    + apply sorted_cons; [done|]. intros k' v' Hin. apply elem_of_cons in Hin as [[= -> ->]|Hin];
        [done|]. apply (key_ltb_trans _ k0); [done|by apply (Hk _ v')].
    + destruct (key_ltb k0 k) eqn:E2.
      * apply sorted_cons; [by apply IH|]. intros k' v' Hin.
        apply bt_insert_elem in Hin as [[-> ->]|[_ Hin]]; [done|by apply (Hk _ v')|done].
      * pose proof (key_ltb_total _ _ E1 E2) as ->. by apply sorted_cons.
Qed.

Lemma bt_remove_elem k m k' v' :
  bt_sorted m -> (k', v') ∈ bt_remove k m <-> k' <> k /\ (k', v') ∈ m.
Proof.
  induction m as [|[k0 v0] m IH]; intros Hs; cbn [bt_remove].
  - split; [intros H; by inv H|intros [_ H]; by inv H].
  - apply sorted_cons_inv in Hs as [Hs Hk]. destruct (key_ltb k k0) eqn:E1.
    + split; [|by intros [_ H]]. intros Hin. split; [|done]. intros ->.
      apply elem_of_cons in Hin as [[= -> ->]|Hin]; [by destruct (key_lt_irrefl _ E1)|].
      specialize (Hk _ _ Hin). by destruct (key_lt_irrefl k); apply (key_ltb_trans _ k0).
    + destruct (key_ltb k0 k) eqn:E2.
      * rewrite !elem_of_cons, IH by done. split.
        -- intros [[= -> ->]|[Hne Hin]]; [|by eauto]. split; [|by left].
           intros ->. by destruct (key_lt_irrefl _ E2).
        -- intros [Hne [[= -> ->]|Hin]]; [by left|by right].
      * pose proof (key_ltb_total _ _ E1 E2) as ->. rewrite elem_of_cons. split.
        -- intros Hin. split; [|by right]. intros ->. specialize (Hk _ _ Hin).
           by destruct (key_lt_irrefl k0).
        -- intros [Hne [[= -> ->]|Hin]]; done.
Qed.

Lemma bt_remove_sorted k m : bt_sorted m -> bt_sorted (bt_remove k m).
Proof.
  induction m as [|[k0 v0] m IH]; intros Hs; cbn [bt_remove]; [done|].
  pose proof Hs as Hs0. apply sorted_cons_inv in Hs as [Hs Hk]. destruct (key_ltb k k0); [done|].
  destruct (key_ltb k0 k); [|done]. apply sorted_cons; [by apply IH|].
  intros k' v' Hin. apply bt_remove_elem in Hin as [_ Hin]; [by apply (Hk _ v')|done].
Qed.

Lemma bt_get_remove_ne k k' m : bt_sorted m -> k <> k' -> bt_get k (bt_remove k' m) = bt_get k m.
Proof.
  intros Hs Hne. apply option_eq. intros v.
  rewrite (bt_get_elem k v _ (bt_remove_sorted k' m Hs)), (bt_get_elem k v m Hs), bt_remove_elem by done.
  tauto.
Qed.

Lemma bt_sorted_filter (P : K * V -> bool) m : bt_sorted m -> bt_sorted (List.filter P m).
Proof.
  induction m as [|[k v] m IH]; intros Hs; cbn; [done|].
  apply sorted_cons_inv in Hs as [Hs Hk]. destruct (P (k, v)); [|by apply IH].
  apply sorted_cons; [by apply IH|]. intros k' v' Hin.
  apply list_elem_of_In, filter_In in Hin as [Hin _]. apply list_elem_of_In in Hin.
  by apply (Hk _ v').
Qed.

Lemma bt_below_elem k m k' v' : (k', v') ∈ bt_below k m <-> key_lt k' k /\ (k', v') ∈ m.
Proof.
  unfold bt_below. rewrite list_elem_of_In, filter_In, <- list_elem_of_In. cbn. tauto.
Qed.

(** The last binding has the greatest key. *)
Lemma bt_last_max m k v :
  bt_sorted m -> last m = Some (k, v) ->
  (k, v) ∈ m /\ forall k' v', (k', v') ∈ m -> k' = k \/ key_lt k' k.
Proof.
  intros Hs Hl. apply last_Some in Hl as [l ->].
  split; [apply elem_of_app; right; by apply list_elem_of_singleton|].
  intros k' v' Hin. apply elem_of_app in Hin as [Hin|Hin].
  - right. induction l as [|[k0 v0] l IH]; [by inv Hin|].
    apply sorted_cons_inv in Hs as [Hs Hk]. apply elem_of_cons in Hin as [[= -> ->]|Hin].
    + apply (Hk _ v). apply elem_of_app. right. by apply list_elem_of_singleton.
    + by apply IH.
  - apply list_elem_of_singleton in Hin as [= -> ->]. by left.
Qed.

End Ops.

(** ** Lexicographic order and the order of paths *)
Section Lex.
Context {A : Type} {O : KeyOrd A}.

Fixpoint lex_ltb (a b : list A) : bool :=
  match a, b with
  | _, [] => false
  | [], _ :: _ => true
  | x :: a, y :: b => if key_ltb x y then true else if key_ltb y x then false else lex_ltb a b
  end.

#[export] Instance list_key : KeyOrd (list A).
Proof.
  refine {| key_ltb := lex_ltb |}.
  - induction a as [|x a IH]; cbn; [done|]. by rewrite key_ltb_irrefl.
  - induction a as [|x a IH]; intros [|y b] [|z c] H1 H2; cbn in *; try done.
    destruct (key_ltb x y) eqn:E1.
    + destruct (key_ltb y z) eqn:E2; [by rewrite (key_ltb_trans x y z)|].
      destruct (key_ltb z y) eqn:E3; [done|]. pose proof (key_ltb_total _ _ E2 E3) as ->.
      by rewrite E1.
    + destruct (key_ltb y x) eqn:E1'; [done|]. pose proof (key_ltb_total _ _ E1 E1') as ->.
      destruct (key_ltb y z) eqn:E2; [done|]. destruct (key_ltb z y); [done|]. by apply (IH b).
  - induction a as [|x a IH]; intros [|y b] H1 H2; cbn in *; try done.
    destruct (key_ltb x y) eqn:E1; [done|]. destruct (key_ltb y x) eqn:E2; [done|].
    rewrite (key_ltb_total _ _ E1 E2). f_equal. by apply IH.
Defined.
End Lex.

(** An order through an injective image. *)
Definition key_via {A B} {O : KeyOrd B} (f : A -> B) (Hf : forall a b, f a = f b -> a = b) : KeyOrd A.
Proof.
  refine {| key_ltb := fun a b => key_ltb (f a) (f b) |}.
  - intros a. apply key_ltb_irrefl.
  - intros a b c. apply key_ltb_trans.
  - intros a b H1 H2. apply Hf. by apply key_ltb_total.
Defined.

(** Paths compare component by component, the root before any name, and names
    byte by byte. *)
Definition name_key (s : string) : list Z :=
  (fun c => Z.of_nat (Ascii.nat_of_ascii c)) <$> String.list_ascii_of_string s.

Definition path_key (p : path) : list (list Z) :=
  (if p_abs p then [[-1]] else []) ++ (name_key <$> p_comps p).

Lemma nat_of_ascii_inj a b : Ascii.nat_of_ascii a = Ascii.nat_of_ascii b -> a = b.
Proof.
  intros H. by rewrite <- (Ascii.ascii_nat_embedding a), H, Ascii.ascii_nat_embedding.
Qed.

Lemma name_key_inj a b : name_key a = name_key b -> a = b.
Proof.
  intros H. unfold name_key in H. apply list_fmap_eq_inj in H.
  - rewrite <- (String.string_of_list_ascii_of_string a), H.
    apply String.string_of_list_ascii_of_string.
  - intros x y E. apply nat_of_ascii_inj. lia.
Qed.

Lemma name_key_no_root s : name_key s <> [-1].
Proof.
  unfold name_key. destruct (String.list_ascii_of_string s) as [|a l]; [done|].
  cbn. intros [= H _]. lia.
Qed.

Lemma path_key_inj a b : path_key a = path_key b -> a = b.
Proof.
  destruct a as [[] ca], b as [[] cb]; unfold path_key; cbn.
  - intros [= H]. f_equal. by apply (list_fmap_eq_inj _ name_key_inj).
  - destruct cb as [|s cb]; [done|]. cbn. intros [= H _]. by destruct (name_key_no_root s).
  - destruct ca as [|s ca]; [done|]. cbn. intros [= H _]. by destruct (name_key_no_root s).
  - intros H. f_equal. by apply (list_fmap_eq_inj _ name_key_inj).
Qed.

#[export] Instance path_ord : KeyOrd path := key_via path_key path_key_inj.
