(* ===== verification/Snapshot.v ===== *)
(** * Snapshots: [fsyncd/src/snapshot/forward.rs] and [mod.rs]

    A snapshot folds a run of journalled calls into the net effect on every file
    they touch. File contents live in blocks of one serialised file; a free list
    manages its space. [write_data] is the body of [encode_write]: it places a
    write among the blocks of one file, merging it with its neighbours.

    [bincode] is a parameter ([SnapFormat]), and so is the CRC update. *)

From stdpp Require Import base list numbers option strings.
From Stdlib Require Import ZArith Lia.
From S2P Require Import Prelude Common BTree Filestore Store.

Local Open Scope Z_scope.

(** ** Data *)
Record Block := mk_Block { location : Z; size : Z }.

#[export] Instance Block_eq_dec : EqDecision Block.
Proof. solve_decision. Defined.

Definition DataList : Type := list (Z * Block).
Definition FreeList : Type := list (Z * Z).

Definition DataList_new : DataList := [].
Definition DataList_shared (other : DataList) : DataList := other.

Inductive FileType :=
| FT_Invalid
| FT_Opened
| FT_Directory
| FT_New (flags : Z)
| FT_Special (rdev : Z)
| FT_Symlink (from : path)
| FT_Hardlink (from : path)
| FT_Moved (from : path).

Inductive FileSize := SizeUnknown | SizeMoreThan (n : Z) | SizeExactly (n : Z).

(** [HashMap] of attributes: its iteration order is not specified; here it is
    the order of first insertion. *)
Definition xattr_map : Type := list (list Z * option (list Z)).

Fixpoint xattr_insert (k : list Z) (v : option (list Z)) (m : xattr_map) : xattr_map :=
  match m with
  | [] => [(k, v)]
  | (k', v') :: m => if bool_decide (k' = k) then (k, v) :: m else (k', v') :: xattr_insert k v m
  end.

Record File := mk_File {
  f_uid : option Z; f_gid : option Z; f_mode : option Z; f_size : FileSize;
  f_xattrs : option xattr_map; f_time : option (Timespec * Timespec * Timespec);
  f_ty : FileType; f_blocks : option DataList }.

Definition File_default : File := mk_File None None None SizeUnknown None None FT_Invalid None.

Inductive SnapshotType := ST_Forward | ST_Bidirectional | ST_Undo.

Record Header := mk_Header {
  hd_ty : SnapshotType; hd_ft_offset : Z; hd_from : Z; hd_to : Z; hd_checksum : Z }.

Definition Files : Type := list (path * File).

Record Snapshot := mk_Snapshot {
  sn_header : Header; sn_files : Files; sn_serialised : file; sn_free_list : FreeList }.

Definition set_uid_gid (f : File) (uid gid : Z) : File :=
  mk_File (Some uid) (Some gid) (f_mode f) (f_size f) (f_xattrs f) (f_time f) (f_ty f) (f_blocks f).
Definition set_mode (f : File) (mode : Z) : File :=
  mk_File (f_uid f) (f_gid f) (Some mode) (f_size f) (f_xattrs f) (f_time f) (f_ty f) (f_blocks f).
Definition set_size (f : File) (s : FileSize) : File :=
  mk_File (f_uid f) (f_gid f) (f_mode f) s (f_xattrs f) (f_time f) (f_ty f) (f_blocks f).
Definition set_xattrs (f : File) (x : option xattr_map) : File :=
  mk_File (f_uid f) (f_gid f) (f_mode f) (f_size f) x (f_time f) (f_ty f) (f_blocks f).
Definition set_time (f : File) (t : Timespec * Timespec * Timespec) : File :=
  mk_File (f_uid f) (f_gid f) (f_mode f) (f_size f) (f_xattrs f) (Some t) (f_ty f) (f_blocks f).
Definition set_blocks (f : File) (d : option DataList) : File :=
  mk_File (f_uid f) (f_gid f) (f_mode f) (f_size f) (f_xattrs f) (f_time f) (f_ty f) d.

Definition USIZE_MAX : Z := 2 ^ 64 - 1.

(** ** The free list *)

(** [Snapshot::allocate]: the hinted place if it is free and large enough, else
    the first free range that is; [unwrap] panics when there is none. *)
Definition find_free (fl : FreeList) (sz : Z) (hint : option Z) : option (Z * Z) :=
  let first := List.find (fun e => sz <=? snd e) fl in
  match hint with
  | Some h =>
    match bt_get h fl with
    | Some v => if sz <=? v then Some (h, v) else first
    | None => first
    end
  | None => first
  end.

Definition allocate (sz : Z) (hint : option Z) : M FreeList Block := fun fl =>
  match find_free fl sz hint with
  | None => (Panic, fl)
  | Some (loc, entry_size) =>
    let fl := bt_remove loc fl in
    let fl := if sz <? entry_size then bt_insert (u64 (loc + sz)) (entry_size - sz) fl else fl in
    (Ok (mk_Block loc sz), fl)
  end.

(** [Snapshot::deallocate]: joins the range with the free ranges around it. *)
Definition join_prev (fl : FreeList) (offset sz : Z) : FreeList * Z * Z :=
  match last (bt_below offset fl) with
  | Some (pk, pv) =>
    if u64 (pk + pv) =? offset then (bt_remove pk fl, pk, u64 (sz + pv)) else (fl, offset, sz)
  | None => (fl, offset, sz)
  end.

Definition join_next (fl : FreeList) (offset sz : Z) : FreeList * Z :=
  match bt_get (u64 (offset + sz)) fl with
  | Some next_size => (bt_remove (u64 (offset + sz)) fl, u64 (sz + next_size))
  | None => (fl, sz)
  end.

Definition deallocate (block : Block) (fl : FreeList) : FreeList :=
  let '(fl, offset, sz) := join_prev fl (location block) (size block) in
  let '(fl, sz) := join_next fl offset sz in
  bt_insert offset sz fl.

Definition deallocate_all (blocks : list Block) (fl : FreeList) : FreeList :=
  foldl (fun fl b => deallocate b fl) fl blocks.

(** ** Copying inside the serialised file *)
Definition MOVE_BUF_SIZE : Z := 16 * 1024.

(** The [for] loop of [move_file_range], from [offset] on. *)
Fixpoint move_chunks (fuel : nat) (from to sz offset : Z) : M file unit :=
  match fuel with
  | O => lift NoFuel
  | S fuel =>
    if offset <? sz then
      let len := Z.min (sz - offset) MOVE_BUF_SIZE in
      f ← get;
      buf ← lift (read_exact_at f (u64 (from + offset)) len);
      _ ← put (write_all_at f buf (u64 (to + offset)));
      move_chunks fuel from to sz (offset + MOVE_BUF_SIZE)
    else mret tt
  end.

Definition move_file_range (from to sz : Z) : M file unit :=
  move_chunks (S (Z.to_nat (sz / MOVE_BUF_SIZE + 1))) from to sz 0.

(** ** Placing a write *)
Definition MERGE_LIMIT : Z := 1024 * 1024.

(** What [encode_write] changes: the free list, the blocks of one file and the
    serialised file. *)
Record wstate := mk_wstate { w_free : FreeList; w_data : DataList; w_file : file }.

Definition w_alloc (sz : Z) (hint : option Z) : M wstate Block := fun s =>
  let '(r, fl) := allocate sz hint (w_free s) in (r, mk_wstate fl (w_data s) (w_file s)).
Definition w_dealloc (b : Block) : M wstate unit :=
  modify (fun s => mk_wstate (deallocate b (w_free s)) (w_data s) (w_file s)).
Definition w_insert (off : Z) (b : Block) : M wstate unit :=
  modify (fun s => mk_wstate (w_free s) (bt_insert off b (w_data s)) (w_file s)).
Definition w_write (buf : list Z) (loc : Z) : M wstate unit :=
  modify (fun s => mk_wstate (w_free s) (w_data s) (write_all_at (w_file s) buf loc)).
Definition w_move (from to sz : Z) : M wstate unit := fun s =>
  let '(r, f) := move_file_range from to sz (w_file s) in (r, mk_wstate (w_free s) (w_data s) f).

Fixpoint take_while {A} (P : A -> bool) (l : list A) : list A :=
  match l with
  | [] => []
  | x :: l => if P x then x :: take_while P l else []
  end.

(** The blocks that overlap or touch the write, in file order. *)
Definition overlapping (d : DataList) (offset len : Z) : list (Z * Block) :=
  rev (take_while (fun e => offset <=? u64 (fst e + size (snd e)))
         (rev (List.filter (fun e => fst e <=? u64 (offset + len)) d))).

(** Large blocks that only touch the write are left alone. *)
Definition trim_first (overlaps : list (Z * Block)) (offset : Z) : list (Z * Block) :=
  match overlaps with
  | (k, b) :: rest =>
    if (MERGE_LIMIT <? size b) && (u64 (k + size b) =? offset) then rest else overlaps
  | [] => overlaps
  end.

Definition trim_last (overlaps : list (Z * Block)) (fin : Z) : list (Z * Block) :=
  match last overlaps with
  | Some (k, b) =>
    if (MERGE_LIMIT <? size b) && (k =? fin) then removelast overlaps else overlaps
  | None => overlaps
  end.

(** The case of exactly one overlapping block: write into it, or extend it in
    place; [false] when neither is possible. *)
Definition write_single (k : Z) (b : Block) (offset : Z) (buff : list Z) : M wstate bool :=
  let fin := u64 (offset + zlen buff) in
  if (k <=? offset) && (fin <=? u64 (k + size b)) then
    _ ← w_write buff (u64 (location b + (offset - k)));
    mret true
  else if k <? offset then
    let overlap_size := u64 (u64 (k + size b) - offset) in
    block ← w_alloc (u64 (zlen buff - overlap_size)) (Some (u64 (location b + size b)));
    if location block =? u64 (location b + size b) then
      _ ← w_write buff (u64 (location block - overlap_size));
      _ ← w_insert k (mk_Block (location b) (u64 (size b + size block)));
      mret true
    else
      _ ← w_dealloc block;
      mret false
  else mret false.

Definition drop_overlap (off : Z) : M wstate unit := fun s =>
  match bt_get off (w_data s) with
  | Some b => (Ok tt, mk_wstate (deallocate b (w_free s)) (bt_remove off (w_data s)) (w_file s))
  | None => (Panic, s)
  end.

Fixpoint drop_overlaps (overlaps : list (Z * Block)) : M wstate unit :=
  match overlaps with
  | [] => mret tt
  | (k, _) :: overlaps => _ ← drop_overlap k; drop_overlaps overlaps
  end.

(** Copies the overlapped blocks and the write into a new block. *)
Definition write_merged (overlaps : list (Z * Block)) (first last : Z * Block)
  (offset : Z) (buff : list Z) : M wstate unit :=
  let '(fk, fb) := first in
  let '(lk, lb) := last in
  let fin := u64 (offset + zlen buff) in
  let first_exclusive := if fk <? offset then offset - fk else 0 in
  let last_exclusive := if fin <? u64 (lk + size lb) then u64 (lk + size lb) - fin else 0 in
  let need_space := u64 (first_exclusive + zlen buff + last_exclusive) in
  block ← w_alloc need_space None;
  _ ← (if first_exclusive =? 0 then mret tt
       else w_move (location fb) (location block) first_exclusive);
  _ ← w_write buff (u64 (location block + first_exclusive));
  _ ← (if last_exclusive =? 0 then mret tt
       else w_move (u64 (location lb + u64 (size lb - last_exclusive)))
              (u64 (location block + u64 (first_exclusive + zlen buff))) last_exclusive);
  _ ← drop_overlaps overlaps;
  w_insert (Z.min fk offset) block.

(** The body of [Snapshot::encode_write], on the blocks of its file. *)
Definition write_data (offset : Z) (buff : list Z) : M wstate unit :=
  s ← get;
  let overlaps := overlapping (w_data s) offset (zlen buff) in
  done ← (match overlaps with
          | [(k, b)] => write_single k b offset buff
          | _ => mret false
          end);
  if (done : bool) then mret tt
  else
    let overlaps := trim_first overlaps offset in
    let overlaps := trim_last overlaps (u64 (offset + zlen buff)) in
    match head overlaps, last overlaps with
    | Some first, Some last => write_merged overlaps first last offset buff
    | _, _ =>
      block ← w_alloc (zlen buff) None;
      _ ← w_write buff (location block);
      w_insert offset block
    end.

(** ** Operations on the snapshot *)

(** [Snapshot::get_or_open]: the file, which the caller puts back. *)
Definition opened_file : File := set_blocks
  (mk_File None None None SizeUnknown None None FT_Opened None) (Some DataList_new).

Definition get_or_open (files : Files) (p : path) : File :=
  match bt_get p files with Some f => f | None => opened_file end.

Definition sn_set_file (p : path) (f : File) (s : Snapshot) : Snapshot :=
  mk_Snapshot (sn_header s) (bt_insert p f (sn_files s)) (sn_serialised s) (sn_free_list s).

(** [get_or_open] followed by an update of the file. *)
Definition update_file (p : path) (g : File -> File) : M Snapshot unit :=
  modify (fun s => sn_set_file p (g (get_or_open (sn_files s) p)) s).

Definition encode_write (p : path) (offset : Z) (buff : list Z) : M Snapshot unit := fun s =>
  let f := get_or_open (sn_files s) p in
  match f_blocks f with
  | None => (Panic, sn_set_file p f s)
  | Some d =>
    let '(r, w) := write_data offset buff (mk_wstate (sn_free_list s) d (sn_serialised s)) in
    (r, mk_Snapshot (sn_header s) (bt_insert p (set_blocks f (Some (w_data w))) (sn_files s))
          (w_file w) (w_free w))
  end.

(** [files.insert(..)] inside [assert!(.. .is_none())]. *)
Definition insert_new (p : path) (f : File) : M Snapshot unit := fun s =>
  match bt_get p (sn_files s) with
  | Some _ => (Panic, sn_set_file p f s)
  | None => (Ok tt, sn_set_file p f s)
  end.

(** Frees the blocks of a file that left the map. *)
Definition free_blocks (o : option File) (s : Snapshot) : Snapshot :=
  match o with
  | Some f =>
    match f_blocks f with
    | Some d => mk_Snapshot (sn_header s) (sn_files s) (sn_serialised s)
                  (deallocate_all (snd <$> d) (sn_free_list s))
    | None => s
    end
  | None => s
  end.

Definition remove_file (p : path) (s : Snapshot) : Snapshot :=
  mk_Snapshot (sn_header s) (bt_remove p (sn_files s)) (sn_serialised s) (sn_free_list s).

Definition merge_rename (from to : path) : M Snapshot unit := modify (fun s =>
  let from_file := match bt_get from (sn_files s) with
                   | Some f => f
                   | None => set_blocks (mk_File None None None SizeUnknown None None
                               (FT_Moved from) None) (Some DataList_new)
                   end in
  let s := remove_file from s in
  let old := bt_get to (sn_files s) in
  free_blocks old (sn_set_file to from_file s)).

Definition merge_unlink (p : path) : M Snapshot unit := modify (fun s =>
  let old := bt_get p (sn_files s) in free_blocks old (remove_file p s)).

Definition merge_link (from to : path) (uid gid : Z) : M Snapshot unit := fun s =>
  match bt_get from (sn_files s) with
  | Some f =>
    match f_blocks f with
    | None => (Panic, s)
    | Some d => insert_new to (mk_File (Some uid) (Some gid) None SizeUnknown None None
                  (FT_Hardlink from) (Some (DataList_shared d))) s
    end
  | None => insert_new to (mk_File (Some uid) (Some gid) None SizeUnknown None None
              (FT_Hardlink from) (Some DataList_new)) s
  end.

(** The blocks past the new size go; the last one left is cut. *)
Definition truncate_blocks (d : DataList) (sz : Z) (fl : FreeList) : DataList * FreeList :=
  let gone := List.filter (fun e => negb (fst e <? sz)) d in
  let kept := List.filter (fun e => fst e <? sz) d in
  let fl := deallocate_all (snd <$> gone) fl in
  match last kept with
  | Some (off, b) =>
    if sz <? u64 (off + size b) then
      let dealloc_size := u64 (off + size b) - sz in
      (bt_insert off (mk_Block (location b) (u64 (size b - dealloc_size))) kept,
       deallocate (mk_Block (u64 (location b + u64 (size b - dealloc_size))) dealloc_size) fl)
    else (kept, fl)
  | None => (kept, fl)
  end.

Definition merge_truncate (p : path) (sz : Z) : M Snapshot unit := modify (fun s =>
  let f := set_size (get_or_open (sn_files s) p) (SizeExactly (u64 sz)) in
  match f_blocks f with
  | None => sn_set_file p f s
  | Some d =>
    let '(d, fl) := truncate_blocks d (u64 sz) (sn_free_list s) in
    mk_Snapshot (sn_header s) (bt_insert p (set_blocks f (Some d)) (sn_files s))
      (sn_serialised s) fl
  end).

Definition grow_size (s : FileSize) (nsize : Z) : FileSize :=
  match s with
  | SizeExactly n => if n <? nsize then SizeExactly nsize else s
  | SizeMoreThan n => if n <? nsize then SizeMoreThan nsize else s
  | SizeUnknown => SizeMoreThan nsize
  end.

Definition put_xattr (name : list Z) (v : option (list Z)) (f : File) : File :=
  set_xattrs f (Some (xattr_insert name v (default [] (f_xattrs f)))).

(** One round of [Snapshot::merge_from]. *)
Definition merge_call (call : VFSCall) : M Snapshot unit :=
  match call with
  | rename from to _ => merge_rename from to
  | mknod p mode rdev (Unix uid gid) => insert_new p
      (mk_File (Some uid) (Some gid) (Some mode) SizeUnknown None None (FT_Special rdev)
         (Some DataList_new))
  | mkdir p (Unix uid gid) mode => insert_new p
      (mk_File (Some uid) (Some gid) (Some mode) SizeUnknown None None FT_Directory None)
  | symlink from to (Unix uid gid) => insert_new to
      (mk_File (Some uid) (Some gid) None SizeUnknown None None (FT_Symlink from) None)
  | link from to (Unix uid gid) => merge_link from to uid gid
  | create p flags (Unix uid gid) mode => modify (sn_set_file p
      (mk_File (Some uid) (Some gid) (Some mode) SizeUnknown None None (FT_New flags)
         (Some DataList_new)))
  | unlink p | rmdir p => merge_unlink p
  | security p (Unix uid gid) => update_file p (fun f => set_uid_gid f uid gid)
  | chmod p mode => update_file p (fun f => set_mode f mode)
  | truncate p sz => merge_truncate p sz
  | fallocate p _ offset length =>
      update_file p (fun f => set_size f (grow_size (f_size f) (u64 (i64 (offset + length)))))
  | write p offset buf | diff_write p offset buf => encode_write p (u64 offset) buf
  | setxattr p name value _ => update_file p (put_xattr name (Some value))
  | removexattr p name => update_file p (put_xattr name None)
  | utimens p timespec => update_file p (fun f => set_time f timespec)
  | fsync _ _ => mret tt
  | truncating_write _ _ _ _ => panic
  | _ => panic
  end.

Fixpoint merge_from (calls : list VFSCall) : M Snapshot unit :=
  match calls with
  | [] => mret tt
  | c :: calls => _ ← merge_call c; merge_from calls
  end.

(** ** Compaction *)

(** All free space but the last range, and where the last range starts. *)
Definition wasted_space (fl : FreeList) : Z :=
  foldl (fun acc e => u64 (acc + snd e)) 0 (tail (rev fl)).

Definition end_of_data (fl : FreeList) : outcome Z :=
  match last fl with Some (k, _) => Ok k | None => Panic end.

(** [(wasted as f64 / end as f64) < 0.05]. The quotient of integers below 2^50
    is at least a rounding step away from 1/20 unless it is 1/20, so the
    comparison of the doubles is the comparison of the fractions. *)
Definition below_threshold (wasted fin : Z) : bool := 20 * wasted <? fin.

(** What the loop over one file's blocks carries: the blocks placed so far and
    the run that is being built. *)
Record cstate := mk_cstate { c_merged : DataList; c_run : Z * Block }.

Definition empty_run : Z * Block := (0, mk_Block 0 0).

Definition is_empty_run (run : Z * Block) : bool :=
  (fst run =? 0) && (location (snd run) =? 0) && (size (snd run) =? 0).

Definition extend_run (c : cstate) (offset : Z) (block new_block : Block) : cstate :=
  let '(rk, rb) := c_run c in
  if is_empty_run (c_run c) then mk_cstate (c_merged c) (offset, new_block)
  else if (u64 (rk + size rb) =? offset) && (u64 (location rb + size rb) =? location new_block)
  then mk_cstate (c_merged c) (rk, mk_Block (location rb) (u64 (size rb + size block)))
  else mk_cstate (bt_insert rk rb (c_merged c)) (offset, new_block).

(** One block of the inner loop of [compact]. *)
Definition compact_block (wasted fin offset : Z) (block : Block) (c : cstate)
  : M (FreeList * file) cstate := fun '(fl, f) =>
  if u64 (fin - wasted) <? location block then
    let run := snd (c_run c) in
    match allocate (size block) (Some (u64 (location run + size run))) fl with
    | (Ok new_block, fl) =>
      if location block <? location new_block then
        (Ok (mk_cstate (bt_insert offset block (c_merged c)) (c_run c)),
         (deallocate new_block fl, f))
      else
        match move_file_range (location block) (location new_block) (size block) f with
        | (Ok _, f) => (Ok (extend_run c offset block new_block), (deallocate block fl, f))
        | (Err e, f) => (Err e, (fl, f))
        | (Panic, f) => (Panic, (fl, f))
        | (NoFuel, f) => (NoFuel, (fl, f))
        end
    | (Err e, fl) => (Err e, (fl, f))
    | (Panic, fl) => (Panic, (fl, f))
    | (NoFuel, fl) => (NoFuel, (fl, f))
    end
  else (Ok (mk_cstate (bt_insert offset block (c_merged c)) (c_run c)), (fl, f)).

Fixpoint compact_blocks (wasted fin : Z) (d : DataList) (c : cstate)
  : M (FreeList * file) cstate :=
  match d with
  | [] => mret c
  | (offset, block) :: d =>
    c ← compact_block wasted fin offset block c;
    compact_blocks wasted fin d c
  end.

(** The end of the loop: the last run joins the blocks, [if run.0 != 0]. *)
Definition finish_run (c : cstate) : DataList :=
  let '(rk, rb) := c_run c in
  if rk =? 0 then c_merged c else bt_insert rk rb (c_merged c).

(** The outer loop of [compact], over the paths of the map; [false] is [break]. *)
Definition compact_file (p : path) : M Snapshot bool := fun s =>
  match bt_get p (sn_files s) with
  | None => (Ok true, s)
  | Some f =>
    match f_blocks f with
    | None => (Ok true, s)
    | Some d =>
      match end_of_data (sn_free_list s) with
      | Ok fin =>
        let wasted := wasted_space (sn_free_list s) in
        if below_threshold wasted fin then (Ok false, s)
        else
          let '(r, (fl, ser)) := compact_blocks wasted fin d (mk_cstate [] empty_run)
                                   (sn_free_list s, sn_serialised s) in
          let s' d := mk_Snapshot (sn_header s) (bt_insert p (set_blocks f d) (sn_files s)) ser fl in
          match r with
          | Ok c => (Ok true, s' (Some (finish_run c)))
          | Err e => (Err e, s' None)
          | Panic => (Panic, s' None)
          | NoFuel => (NoFuel, s' None)
          end
      | _ => (Panic, s)
      end
    end
  end.

Fixpoint compact_files (paths : list path) : M Snapshot unit :=
  match paths with
  | [] => mret tt
  | p :: paths =>
    more ← compact_file p;
    if (more : bool) then compact_files paths else mret tt
  end.

Definition compact : M Snapshot unit :=
  s ← get; compact_files (fst <$> sn_files s).

(** ** The file format *)
Class SnapFormat := {
  ser_snap_header : Header -> list Z;
  de_snap_header : list Z -> option Header;
  ser_files : Files -> list Z;
  de_files : list Z -> option Files;
  crc_update : Z -> list Z -> Z }.

(** The values a header's fields can hold; times are nanoseconds since the
    epoch, kept as 64-bit seconds and 32-bit nanoseconds. *)
Definition header_ok (h : Header) : Prop :=
  0 <= hd_ft_offset h < 2 ^ 64 /\ 0 <= hd_checksum h < 2 ^ 32 /\
  0 <= hd_from h < 2 ^ 64 * 10 ^ 9 /\ 0 <= hd_to h < 2 ^ 64 * 10 ^ 9.

(** Documented behaviour of [bincode]: decoding reads back what was encoded and
    leaves the rest of the input alone; a header has only fixed-width fields. *)
Class SnapFormatLaws {F : SnapFormat} := {
  files_ok : Files -> Prop;
  law_snap_header_length : forall h1 h2, length (ser_snap_header h1) = length (ser_snap_header h2);
  law_snap_header : forall h rest, header_ok h ->
    de_snap_header (ser_snap_header h ++ rest) = Some h;
  law_files : forall fs rest, files_ok fs -> de_files (ser_files fs ++ rest) = Some fs }.

(** What a reader at the cursor still has before it. *)
Definition file_rest (f : file) : list Z :=
  file_bytes f (f_pos f) (Z.to_nat (f_len f - f_pos f)).

(** [hash_reader]: [read] fills up to 4096 bytes and returns 0 at the end. *)
Fixpoint hash_reader {F : SnapFormat} (fuel : nat) (digest : Z) : M file Z :=
  match fuel with
  | O => lift NoFuel
  | S fuel =>
    f ← get;
    let buf := take (Z.to_nat 4096) (file_rest f) in
    match buf with
    | [] => mret digest
    | _ =>
      _ ← put (seek_start f (f_pos f + zlen buf));
      hash_reader fuel (u32 (crc_update digest buf))
    end
  end.

Section IO.
Context {F : SnapFormat}.

Definition snap_header_size : Z := zlen (ser_snap_header (mk_Header ST_Forward 0 0 0 0)).

(** [Snapshot::new]; [now] is read twice. *)
Definition Snapshot_new (to_file : file) (now now' : Z) : Snapshot :=
  mk_Snapshot (mk_Header ST_Forward 0 now now' 0) [] to_file [(snap_header_size, USIZE_MAX)].

(** [Snapshot::open]. *)
Definition Snapshot_open (from_file : file) : outcome Snapshot :=
  let f := seek_start from_file 0 in
  match de_snap_header (file_rest f) with
  | None => Err OtherError
  | Some header =>
    let f := seek_start f (hd_ft_offset header) in
    match de_files (file_rest f) with
    | None => Err OtherError
    | Some files =>
      Ok (mk_Snapshot header files (seek_start f (f_pos f + zlen (ser_files files)))
            [(hd_ft_offset header, USIZE_MAX)])
    end
  end.

(** A sequential write at the cursor. *)
Definition write_cursor (buf : list Z) (f : file) : file :=
  seek_start (write_all_at f buf (f_pos f)) (f_pos f + zlen buf).

(** [Snapshot::finalize]. *)
Definition finalize : M Snapshot unit :=
  _ ← compact;
  s ← get;
  fin ← lift (end_of_data (sn_free_list s));
  let f := seek_start (set_len (sn_serialised s) fin) fin in
  let f := write_cursor (ser_files (sn_files s)) f in
  let f := seek_start f snap_header_size in
  let '(r, f) := hash_reader (S (Z.to_nat (f_len f))) 0 f in
  checksum ← lift r;
  let h := mk_Header (hd_ty (sn_header s)) fin (hd_from (sn_header s)) (hd_to (sn_header s)) checksum in
  let f := write_cursor (ser_snap_header h) (seek_start f 0) in
  put (mk_Snapshot h (sn_files s) f (sn_free_list s)).
End IO.

(** ** Replaying a snapshot *)
Record SnapshotApply := mk_SnapshotApply {
  ap_serialised : file; ap_file_iter : Files; ap_current_file : option (path * File);
  ap_data_iter : option DataList; ap_xattr_iter : option xattr_map }.

Definition Snapshot_apply (s : Snapshot) : SnapshotApply :=
  mk_SnapshotApply (sn_serialised s) (sn_files s) None None None.

(** [CStr::from_bytes_with_nul]: one NUL, at the end. *)
Definition from_bytes_with_nul (k : list Z) : option (list Z) :=
  match last k with
  | Some b => if (b =? 0) && negb (existsb (Z.eqb 0) (removelast k)) then Some (removelast k) else None
  | None => None
  end.

(** The call that makes the file, with the fields it takes out of the record;
    [None] inside [Ok] is the arm without a call. *)
Definition creation_call (p : path) (f : File) : outcome (option VFSCall * File) :=
  let untake_ids := mk_File None None (f_mode f) (f_size f) (f_xattrs f) (f_time f) (f_ty f) (f_blocks f) in
  let untake_all := mk_File None None None (f_size f) (f_xattrs f) (f_time f) (f_ty f) (f_blocks f) in
  match f_ty f with
  | FT_Invalid => Panic
  | FT_Opened => Ok (None, f)
  | FT_Directory =>
    match f_mode f, f_uid f, f_gid f with
    | Some mode, Some uid, Some gid => Ok (Some (mkdir p (Unix uid gid) mode), untake_all)
    | _, _, _ => Panic
    end
  | FT_New flags =>
    match f_mode f, f_uid f, f_gid f with
    | Some mode, Some uid, Some gid => Ok (Some (create p flags (Unix uid gid) mode), untake_all)
    | _, _, _ => Panic
    end
  | FT_Special rdev =>
    match f_mode f, f_uid f, f_gid f with
    | Some mode, Some uid, Some gid => Ok (Some (mknod p mode rdev (Unix uid gid)), untake_all)
    | _, _, _ => Panic
    end
  | FT_Symlink from =>
    match f_uid f, f_gid f with
    | Some uid, Some gid => Ok (Some (symlink from p (Unix uid gid)), untake_ids)
    | _, _ => Panic
    end
  | FT_Hardlink from =>
    match f_uid f, f_gid f with
    | Some uid, Some gid => Ok (Some (link from p (Unix uid gid)), untake_ids)
    | _, _ => Panic
    end
  | FT_Moved from => Ok (Some (rename from p 0), f)
  end.

(** The next call of the record's metadata, taken out of it. *)
Definition metadata_call (p : path) (f : File) : option VFSCall * File :=
  let ids := mk_File None None (f_mode f) (f_size f) (f_xattrs f) (f_time f) (f_ty f) (f_blocks f) in
  match f_uid f, f_gid f with
  | Some uid, Some gid => (Some (security p (Unix uid gid)), ids)
  | _, _ =>
    match f_mode f with
    | Some mode => (Some (chmod p mode),
        mk_File None None None (f_size f) (f_xattrs f) (f_time f) (f_ty f) (f_blocks f))
    | None =>
      match f_size f with
      | SizeExactly tsize => (Some (truncate p (i64 tsize)), set_size ids SizeUnknown)
      | SizeMoreThan fsize => (Some (fallocate p 0 0 (i64 fsize)), set_size ids SizeUnknown)
      | SizeUnknown =>
        match f_time f with
        | Some timespec => (Some (utimens p timespec),
            mk_File None None None SizeUnknown (f_xattrs f) None (f_ty f) (f_blocks f))
        | None => (None, ids)
        end
      end
    end
  end.

Definition ap_set (a : SnapshotApply) (files : Files) (cur : option (path * File))
  (d : option DataList) (x : option xattr_map) : SnapshotApply :=
  mk_SnapshotApply (ap_serialised a) files cur d x.

(** The rest of [next] once there is a current file: metadata, then attributes;
    [None] when the file is finished. *)
Definition next_metadata : M SnapshotApply (option VFSCall) := fun a =>
  match ap_current_file a with
  | None => (Panic, a)
  | Some (p, f) =>
    let '(c, f) := metadata_call p f in
    let a := ap_set a (ap_file_iter a) (Some (p, f)) (ap_data_iter a) (ap_xattr_iter a) in
    match c with
    | Some c => (Ok (Some c), a)
    | None =>
      match ap_xattr_iter a with
      | Some ((k, v) :: rest) =>
        let a := ap_set a (ap_file_iter a) (ap_current_file a) (ap_data_iter a) (Some rest) in
        match from_bytes_with_nul k with
        | None => (Panic, a)
        | Some name =>
          match v with
          | Some value => (Ok (Some (setxattr p name value 0)), a)
          | None => (Ok (Some (removexattr p name)), a)
          end
        end
      | _ => (Ok None, ap_set a (ap_file_iter a) None (ap_data_iter a) None)
      end
    end
  end.

(** The block part of [next]: [Some] call, or [None] when there is no block. *)
Definition next_block : M SnapshotApply (option VFSCall) := fun a =>
  match ap_data_iter a with
  | Some ((off, b) :: rest) =>
    let a := ap_set a (ap_file_iter a) (ap_current_file a) (Some rest) (ap_xattr_iter a) in
    match ap_current_file a with
    | None => (Panic, a)
    | Some (p, _) =>
      match read_exact_at (ap_serialised a) (location b) (size b) with
      | Ok buf => (Ok (Some (write p (i64 off) buf)), a)
      | _ => (Panic, a)
      end
    end
  | _ => (Ok None, ap_set a (ap_file_iter a) (ap_current_file a) None (ap_xattr_iter a))
  end.

(** Starts the next file: [inl] ends the iteration, [inr (Some c)] is a call. *)
Definition next_file : M SnapshotApply (unit + option VFSCall) := fun a =>
  match ap_current_file a with
  | Some _ => (Ok (inr None), a)
  | None =>
    match ap_file_iter a with
    | [] => (Ok (inl tt), a)
    | (p, file) :: rest =>
      let cf := set_blocks (set_xattrs file None) None in
      match creation_call p cf with
      | Ok (c, cf) => (Ok (inr c), ap_set a rest (Some (p, cf)) (f_blocks file) (f_xattrs file))
      | _ => (Panic, ap_set a rest (Some (p, cf)) (f_blocks file) (f_xattrs file))
      end
    end
  end.

(** [SnapshotApply::next]. Every recursive call starts another file. *)
Fixpoint apply_next (fuel : nat) : M SnapshotApply (option VFSCall) :=
  match fuel with
  | O => lift NoFuel
  | S fuel =>
    c ← next_block;
    match c with
    | Some c => mret (Some c)
    | None =>
      r ← next_file;
      match r with
      | inl _ => mret None
      | inr (Some c) => mret (Some c)
      | inr None =>
        c ← next_metadata;
        match c with
        | Some c => mret (Some c)
        | None => apply_next fuel
        end
      end
    end
  end.

(** Runs the iterator to its end: [for call in snapshot.apply()]. *)
Fixpoint apply_all (fuel : nat) : M SnapshotApply (list VFSCall) :=
  match fuel with
  | O => lift NoFuel
  | S fuel =>
    a ← get;
    c ← apply_next (S (S (length (ap_file_iter a))));
    match c with
    | None => mret []
    | Some c => cs ← apply_all fuel; mret (c :: cs)
    end
  end.
