(* ===== verification/SnapshotAlloc.v ===== *)
(** * The snapshot's free list

    [wf_free H t fl]: the free ranges of [fl] are sorted, apart from each other,
    not before [H], and the last one starts at [t] and runs to the end of the
    address space. [allocate] takes a range out of the free bytes and
    [deallocate] gives one back. *)

From stdpp Require Import base list numbers option strings.
From Stdlib Require Import ZArith Lia.
From S2P Require Import Prelude Common BTree Filestore Store Snapshot.

Local Open Scope Z_scope.

(** Locations and sizes that occur in practice; sums of four stay below 2^64. *)
Definition ADDR_LIMIT : Z := 2 ^ 62.

Definition in_block (b : Block) (x : Z) : Prop := location b <= x < location b + size b.
Definition free (fl : FreeList) (x : Z) : Prop := exists k v, (k, v) ∈ fl /\ k <= x < k + v.

Record wf_free (H t : Z) (fl : FreeList) : Prop := mk_wf_free {
  wf_sorted : bt_sorted fl;
  wf_H : 0 <= H;
  wf_entry : forall k v, (k, v) ∈ fl -> H <= k /\ 0 < v /\ k + v <= H + USIZE_MAX;
  wf_sep : forall k v k' v', (k, v) ∈ fl -> (k', v') ∈ fl -> k < k' -> k + v < k';
  wf_tail : exists v, (t, v) ∈ fl /\ t + v = H + USIZE_MAX }.

Lemma key_lt_Z (a b : Z) : key_lt a b <-> a < b.
Proof. unfold key_lt. cbn. lia. Qed.

Lemma wf_tail_max H t fl k v : wf_free H t fl -> (k, v) ∈ fl -> k < t -> k + v < t.
Proof. intros [Hs HH He Hsep (vt & Ht & Et)] Hin Hlt. by apply (Hsep k v t vt). Qed.

Lemma wf_key_le_tail H t fl k v : wf_free H t fl -> (k, v) ∈ fl -> k <= t.
Proof.
  intros [Hs HH He Hsep (vt & Ht & Et)] Hin. destruct (decide (k <= t)); [done|].
  pose proof (Hsep t vt k v Ht Hin ltac:(lia)). pose proof (He _ _ Hin). lia.
Qed.

(** Bytes from the tail on are free. *)
Lemma free_above_tail H t fl x : wf_free H t fl -> t <= x < H + USIZE_MAX -> free fl x.
Proof. intros [Hs HH He Hsep (vt & Ht & Et)] Hx. exists t, vt. split; [done|lia]. Qed.

(** A range without free bytes lies below the tail. *)
Lemma used_below_tail H t fl b :
  wf_free H t fl -> 0 < size b -> location b + size b <= H + USIZE_MAX ->
  (forall x, in_block b x -> ~ free fl x) -> location b + size b <= t.
Proof.
  intros Hwf Hsz Hend Hnf. destruct (decide (location b + size b <= t)); [done|].
  destruct (Hnf (location b + size b - 1)); [unfold in_block; lia|].
  eapply free_above_tail; [done|]. lia.
Qed.

(** ** Allocation *)
Lemma find_free_spec H t fl sz hint :
  wf_free H t fl -> 0 < sz -> t + sz < ADDR_LIMIT ->
  exists loc v, find_free fl sz hint = Some (loc, v) /\ (loc, v) ∈ fl /\ sz <= v.
Proof.
  intros Hwf Hsz Hlim. pose proof Hwf as [Hs HH He Hsep (vt & Ht & Et)].
  assert (sz <= vt) as Hvt by (unfold ADDR_LIMIT, USIZE_MAX in *; lia).
  assert (exists loc v, List.find (fun e => sz <=? snd e) fl = Some (loc, v) /\
    (loc, v) ∈ fl /\ sz <= v) as Hfirst.
  { destruct (List.find _ fl) as [[loc v]|] eqn:E.
    - apply find_some in E as [Hin Hle]. exists loc, v. cbn in Hle.
      split; [done|]. split; [by apply list_elem_of_In|lia].
    - apply list_elem_of_In in Ht. pose proof (find_none _ _ E _ Ht) as Hn. cbn in Hn. lia. }
  unfold find_free. destruct hint as [h|]; [|done].
  destruct (bt_get h fl) as [v|] eqn:E; [|done]. destruct (sz <=? v) eqn:E2; [|done].
  apply bt_get_elem in E; [|done]. exists h, v. split; [done|]. split; [done|lia].
Qed.

Lemma allocate_spec H t fl sz hint :
  wf_free H t fl -> 0 < sz -> t + sz < ADDR_LIMIT ->
  exists loc t' fl', allocate sz hint fl = (Ok (mk_Block loc sz), fl') /\
    wf_free H t' fl' /\ t <= t' <= t + sz /\ H <= loc /\ loc + sz <= t' /\
    (forall x, free fl x <-> free fl' x \/ loc <= x < loc + sz) /\
    (forall x, loc <= x < loc + sz -> ~ free fl' x).
Proof.
  intros Hwf Hsz Hlim. destruct (find_free_spec H t fl sz hint Hwf Hsz Hlim)
    as (loc & v & Hfind & Hin & Hle).
  unfold allocate. rewrite Hfind. pose proof Hwf as [Hs HH He Hsep (vt & Ht & Et)].
  pose proof (wf_key_le_tail _ _ _ _ _ Hwf Hin) as Hlt. pose proof (He _ _ Hin) as Hloc.
  rewrite u64_small by (unfold ADDR_LIMIT in *; lia).
  set (fl' := if sz <? v then bt_insert (loc + sz) (v - sz) (bt_remove loc fl)
              else bt_remove loc fl).
  assert (bt_sorted (bt_remove loc fl)) as Hsr by by apply bt_remove_sorted.
  assert (forall k w, (k, w) ∈ fl' <->
    (sz < v /\ k = loc + sz /\ w = v - sz) \/ (k <> loc /\ (k, w) ∈ fl)) as Hmem.
  { intros k w. unfold fl'. destruct (sz <? v) eqn:E.
    - rewrite bt_insert_elem, bt_remove_elem by done. split.
      + intros [[-> ->]|(_ & Hr)]; [left; lia|by right].
      + intros [(_ & -> & ->)|[Hne Hk]]; [by left|]. right. split; [|done]. intros ->.
        pose proof (Hsep loc v (loc + sz) w Hin Hk ltac:(lia)). lia.
    - rewrite bt_remove_elem by done. split; [by right|]. intros [(? & _)|Hr]; [lia|done]. }
  assert (forall k w, k <> loc -> (k, w) ∈ fl -> k + w <= loc \/ loc + v <= k) as Hother.
  { intros k w Hne Hk. destruct (Z.lt_total k loc) as [Hl|[->|Hg]]; [|done|].
    - pose proof (Hsep _ _ _ _ Hk Hin Hl). lia.
    - pose proof (Hsep _ _ _ _ Hin Hk Hg). lia. }
  exists loc, (if decide (loc = t) then t + sz else t), fl'. split; [done|].
  assert (loc = t -> v = vt) as Hvt by (intros ->; exact (bt_elem_unique _ _ _ _ Hs Hin Ht)).
  split; [constructor|].
  - unfold fl'. destruct (sz <? v); [by apply bt_insert_sorted|done].
  - done.
  - intros k w Hk. apply Hmem in Hk as [(Hlt' & -> & ->)|[_ Hk]]; [lia|by apply He].
  - intros k w k' w' Hk Hk' Hkk. apply Hmem in Hk, Hk'.
    destruct Hk as [(? & -> & ->)|[Hn1 Hk]], Hk' as [(? & -> & ->)|[Hn2 Hk']]; [lia|..].
    + assert (loc < k') as Hg by lia. pose proof (Hsep _ _ _ _ Hin Hk' Hg). lia.
    + destruct (Z.lt_total k loc) as [Hl|[->|Hg]]; [|done|].
      * pose proof (Hsep _ _ _ _ Hk Hin Hl). lia.
      * pose proof (Hsep _ _ _ _ Hin Hk Hg). lia.
    + by apply (Hsep k w k' w').
  - destruct (decide (loc = t)) as [->|Hne].
    + rewrite (Hvt eq_refl) in *. exists (vt - sz). split; [|lia]. apply Hmem. left.
      unfold ADDR_LIMIT, USIZE_MAX in *. lia.
    + exists vt. split; [|lia]. apply Hmem. by right.
  - split; [destruct (decide (loc = t)); lia|]. split; [lia|].
    split; [destruct (decide (loc = t)) as [->|Hne]; [lia|];
      pose proof (wf_tail_max _ _ _ _ _ Hwf Hin ltac:(lia)); lia|].
    split.
    + intros x. split.
      * intros (k & w & Hk & Hx). destruct (decide (k = loc)) as [->|Hne].
        -- rewrite (bt_elem_unique _ _ _ _ Hs Hk Hin) in Hx.
           destruct (decide (x < loc + sz)); [by right; lia|]. left.
           exists (loc + sz), (v - sz). split; [apply Hmem; left; lia|lia].
        -- left. exists k, w. split; [apply Hmem; by right|done].
      * intros [(k & w & Hk & Hx)|Hx]; [|by exists loc, v; split; [done|lia]].
        apply Hmem in Hk as [(? & -> & ->)|[_ Hk]]; [exists loc, v; split; [done|lia]|].
        by exists k, w.
    + intros x Hx (k & w & Hk & Hxk). apply Hmem in Hk as [(? & -> & ->)|[Hne Hk]]; [lia|].
      destruct (Hother _ _ Hne Hk); lia.
Qed.

(** ** Deallocation *)

(** The free ranges on the two sides of a used range. *)
Lemma free_around H t fl b k v :
  wf_free H t fl -> 0 < size b -> (forall x, in_block b x -> ~ free fl x) -> (k, v) ∈ fl ->
  (k < location b /\ k + v <= location b) \/ location b + size b <= k.
Proof.
  intros Hwf Hsz Hnf Hin. pose proof (wf_entry _ _ _ Hwf _ _ Hin) as (_ & Hv & _).
  destruct (decide (k < location b)) as [Hlt|Hge].
  - left. split; [done|]. destruct (decide (k + v <= location b)); [done|].
    destruct (Hnf (location b)); [unfold in_block; lia|]. exists k, v. split; [done|lia].
  - right. destruct (decide (location b + size b <= k)); [done|].
    destruct (Hnf k); [unfold in_block; lia|]. exists k, v. split; [done|lia].
Qed.

(** Joining with the free range before the block. *)
Lemma join_prev_spec H t fl b :
  wf_free H t fl -> t < ADDR_LIMIT -> 0 < size b -> H <= location b -> location b + size b <= t ->
  (forall x, in_block b x -> ~ free fl x) ->
  exists lo fl1, join_prev fl (location b) (size b) = (fl1, lo, location b + size b - lo) /\
    bt_sorted fl1 /\ H <= lo <= location b /\ (forall x, lo <= x < location b -> free fl x) /\
    (forall k v, (k, v) ∈ fl1 <-> (k, v) ∈ fl /\ (k + v < lo \/ location b + size b <= k)) /\
    (forall k v, (k, v) ∈ fl -> k < location b -> (k, v) ∉ fl1 -> lo <= k).
Proof.
  intros Hwf Hlim Hsz HH Ht Hnf. pose proof Hwf as [Hs H0 He Hsep _].
  pose proof (fun k v => free_around H t fl b k v Hwf Hsz Hnf) as Hside.
  set (off := location b) in *. set (sz := size b) in *.
  unfold join_prev. destruct (last (bt_below off fl)) as [[pk pv]|] eqn:El.
  - apply bt_last_max in El as [Hp Hmax]; [|by apply bt_sorted_filter].
    apply bt_below_elem in Hp as [Hpo Hp]. apply key_lt_Z in Hpo.
    assert (forall k v, (k, v) ∈ fl -> k < off -> k = pk \/ k + v < pk) as Hm.
    { intros k v Hk Hko. destruct (Hmax k v) as [->|Hlt].
      - apply bt_below_elem. by rewrite key_lt_Z.
      - by left.
      - apply key_lt_Z in Hlt. right. by apply (Hsep k v pk pv). }
    destruct (Hside pk pv Hp) as [[_ Hpe]|]; [|lia]. pose proof (He _ _ Hp) as Hpb.
    rewrite u64_small by (unfold ADDR_LIMIT in *; lia).
    destruct (pk + pv =? off) eqn:Eadj.
    + exists pk, (bt_remove pk fl). split.
      { rewrite u64_small by (unfold ADDR_LIMIT in *; lia). do 2 f_equal. lia. }
      split; [by apply bt_remove_sorted|]. split; [lia|]. split_and!.
      * intros x Hx. exists pk, pv. split; [done|lia].
      * intros k v. rewrite bt_remove_elem by done. split.
        -- intros [Hne Hk]. split; [done|]. destruct (Hside k v Hk) as [[Hl _]|]; [|by right].
           left. destruct (Hm k v Hk Hl); [done|lia].
        -- intros [Hk Hor]. split; [|done]. intros ->.
           rewrite (bt_elem_unique _ _ _ _ Hs Hk Hp) in Hor. lia.
      * intros k v Hk Hko Hnr. destruct (decide (k = pk)); [lia|].
        destruct Hnr. apply bt_remove_elem; done.
    + exists off, fl. split; [do 2 f_equal; lia|]. split; [done|]. split; [lia|]. split_and!.
      * lia.
      * intros k v. split; [|by intros [? _]]. intros Hk. split; [done|].
        destruct (Hside k v Hk) as [[Hl Hle]|]; [|by right]. left.
        destruct (Hm k v Hk Hl) as [->|]; [|lia].
        rewrite (bt_elem_unique _ _ _ _ Hs Hk Hp) in *. lia.
      * intros k v Hk _ Hn. done.
  - exists off, fl. split; [do 2 f_equal; lia|]. split; [done|]. split; [lia|]. split_and!.
    + lia.
    + intros k v. split; [|by intros [? _]]. intros Hk. split; [done|].
      destruct (Hside k v Hk) as [[Hl _]|]; [|by right]. apply last_None in El.
      assert ((k, v) ∈ bt_below off fl) as Hb by (apply bt_below_elem; by rewrite key_lt_Z).
      rewrite El in Hb. by inv Hb.
    + intros k v Hk _ Hn. done.
Qed.

(** What [deallocate] inserts: a range [lo, hi) around the block, in place of
    the neighbours it absorbs. *)
Lemma deallocate_eq H t fl b :
  wf_free H t fl -> t < ADDR_LIMIT -> 0 < size b -> H <= location b -> location b + size b <= t ->
  (forall x, in_block b x -> ~ free fl x) ->
  exists lo hi rest, deallocate b fl = bt_insert lo (hi - lo) rest /\ bt_sorted rest /\
    H <= lo <= location b /\ location b + size b <= hi <= H + USIZE_MAX /\
    (forall x, lo <= x < hi -> in_block b x \/ free fl x) /\
    (forall k v, (k, v) ∈ rest <-> (k, v) ∈ fl /\ (k + v < lo \/ hi < k)) /\
    (forall k v, (k, v) ∈ fl -> (k, v) ∉ rest -> lo <= k /\ k + v <= hi) /\
    (hi = H + USIZE_MAX \/ hi < t).
Proof.
  intros Hwf Hlim Hsz HH Ht Hnf. pose proof Hwf as [Hs H0 He Hsep (vt & Htl & Et)].
  pose proof (fun k v => free_around H t fl b k v Hwf Hsz Hnf) as Hside.
  destruct (join_prev_spec H t fl b Hwf Hlim Hsz HH Ht Hnf)
    as (lo & fl1 & Hj & Hs1 & Hlo & Hfree & Hmem & Hgone).
  set (off := location b) in *. set (sz := size b) in *.
  unfold deallocate. fold off sz. rewrite Hj. unfold join_next.
  replace (lo + (off + sz - lo)) with (off + sz) by lia.
  rewrite u64_small by (unfold ADDR_LIMIT in *; lia).
  destruct (bt_get (off + sz) fl1) as [nv|] eqn:En.
  - apply bt_get_elem in En; [|done]. pose proof (proj1 (Hmem _ _) En) as [Hn _].
    pose proof (He _ _ Hn) as Hnb.
    rewrite u64_small by (unfold USIZE_MAX in *; lia).
    exists lo, (off + sz + nv), (bt_remove (off + sz) fl1). split; [f_equal; lia|].
    split; [by apply bt_remove_sorted|]. split; [lia|]. split; [lia|]. split_and!.
    + intros x Hx. destruct (decide (x < off)); [right; apply Hfree; lia|].
      destruct (decide (x < off + sz)); [left; unfold in_block; lia|].
      right. exists (off + sz), nv. split; [done|lia].
    + intros k v. rewrite bt_remove_elem, Hmem by done. split.
      * intros (Hne & Hk & Hor). split; [done|]. destruct Hor; [by left|]. right.
        apply (Hsep (off + sz) nv k v); [done|done|lia].
      * intros [Hk Hor]. split; [|split; [done|lia]]. intros ->.
        rewrite (bt_elem_unique _ _ _ _ Hs Hk Hn) in Hor. lia.
    + intros k v Hk Hnr. destruct (decide (k = off + sz)) as [->|Hne].
      { rewrite (bt_elem_unique _ _ _ _ Hs Hk Hn). lia. }
      assert ((k, v) ∉ fl1) as Hn1 by (intros Hx; apply Hnr, bt_remove_elem; done).
      destruct (Hside k v Hk) as [[Hl Hle]|Hge]; [split; [by eapply Hgone|lia]|].
      destruct Hn1. apply Hmem. split; [done|by right].
    + destruct (decide (off + sz = t)) as [Heq|Hne].
      * left. rewrite Heq in *. rewrite (bt_elem_unique _ _ _ _ Hs Hn Htl). lia.
      * right. by apply (Hsep (off + sz) nv t vt); [done|done|lia].
  - exists lo, (off + sz), fl1. split; [done|]. split; [done|]. split; [lia|].
    split; [unfold ADDR_LIMIT, USIZE_MAX in *; lia|].
    assert (forall v, (off + sz, v) ∉ fl) as Hno.
    { intros v Hv. apply (proj1 (bt_get_None _ _ Hs1) En v). apply Hmem. split; [done|right; lia]. }
    split_and!.
    + intros x Hx. destruct (decide (x < off)); [right; apply Hfree; lia|].
      left; unfold in_block; lia.
    + intros k v. rewrite Hmem. split; intros [Hk Hor]; (split; [done|]); [|lia].
      destruct Hor; [by left|]. right.
      assert (k <> off + sz) by (intros ->; by apply (Hno v)). lia.
    + intros k v Hk Hnr. destruct (Hside k v Hk) as [[Hl Hle]|Hge]; [split; [by eapply Hgone|lia]|].
      destruct Hnr. apply Hmem. split; [done|by right].
    + right. assert (off + sz <> t) by (intros E; apply (Hno vt); by rewrite E). lia.
Qed.

Lemma deallocate_spec H t fl b :
  wf_free H t fl -> t < ADDR_LIMIT -> 0 < size b -> H <= location b -> location b + size b <= t ->
  (forall x, in_block b x -> ~ free fl x) ->
  exists t', wf_free H t' (deallocate b fl) /\ t' <= t /\
    (forall x, free (deallocate b fl) x <-> free fl x \/ in_block b x).
Proof.
  intros Hwf Hlim Hsz HH Ht Hnf.
  destruct (deallocate_eq H t fl b Hwf Hlim Hsz HH Ht Hnf)
    as (lo & hi & rest & -> & Hs & Hlo & Hhi & Hcov & Hrest & Habs & Htail).
  pose proof Hwf as [Hs0 H0 He Hsep (vt & Htl & Et)].
  assert (forall k v, (k, v) ∈ bt_insert lo (hi - lo) rest <->
    (k = lo /\ v = hi - lo) \/ ((k, v) ∈ fl /\ (k + v < lo \/ hi < k))) as Hmem.
  { intros k v. rewrite bt_insert_elem, Hrest by done. split; [tauto|].
    intros [?|[Hk Hor]]; [by left|]. right. split; [|done]. pose proof (He _ _ Hk). lia. }
  exists (if decide (hi = H + USIZE_MAX) then lo else t). split; [constructor|].
  - by apply bt_insert_sorted.
  - done.
  - intros k v Hk. apply Hmem in Hk as [[-> ->]|[Hk _]]; [lia|by apply He].
  - intros k v k' v' Hk Hk' Hlt. apply Hmem in Hk, Hk'.
    destruct Hk as [[-> ->]|[Hk Hor]], Hk' as [[-> ->]|[Hk' Hor']]; [lia|..|by apply (Hsep k v k' v')].
    + pose proof (He _ _ Hk'). lia.
    + pose proof (He _ _ Hk). lia.
  - destruct (decide (hi = H + USIZE_MAX)) as [->|Hne].
    + exists (H + USIZE_MAX - lo). split; [apply Hmem; by left|lia].
    + exists vt. split; [|lia]. apply Hmem. right. split; [done|lia].
  - split; [destruct (decide _); lia|]. intros x. split.
    + intros (k & v & Hk & Hx). apply Hmem in Hk as [[-> ->]|[Hk _]]; [|by left; exists k, v].
      destruct (Hcov x); [lia|by right|by left].
    + intros [(k & v & Hk & Hx)|Hx]; [|exists lo, (hi - lo); split; [apply Hmem; by left|];
        unfold in_block in Hx; lia].
      destruct (decide (k + v < lo \/ hi < k)) as [Hor|Hor].
      * exists k, v. split; [apply Hmem; by right|done].
      * exists lo, (hi - lo). split; [apply Hmem; by left|].
        assert ((k, v) ∉ rest) as Hn by (rewrite Hrest; tauto).
        destruct (Habs k v Hk Hn). lia.
Qed.
