(* ===== verification/SnapshotWrite.v ===== *)
(** * Writes into a snapshot

    [winv] is the invariant of one file's blocks within the serialised file:
    they do not overlap as file ranges nor as stored ranges, and hold no free
    byte. [write_data] keeps it, and what the blocks hold afterwards is what
    they held before, overlaid with the write. Bytes that belong to other files
    ([others]) are not touched. *)

From stdpp Require Import base list numbers option strings.
From Stdlib Require Import ZArith Lia.
From S2P Require Import Prelude Common BTree Filestore Store Snapshot SnapshotAlloc.

Local Open Scope Z_scope.

(** ** Files *)
Lemma f_data_write f l off x :
  f_data (write_all_at f l off) x =
  if decide (off <= x < off + zlen l) then default 0 (l !! Z.to_nat (x - off)) else f_data f x.
Proof.
  destruct (decide _) as [Hin|Hout]; [|apply write_all_at_other; lia].
  destruct l as [|b l]; [rewrite zlen_nil in Hin; lia|]. unfold write_all_at. cbn [f_data].
  by replace ((off <=? x) && (x <? off + zlen (b :: l))) with true by lia.
Qed.

Lemma f_len_write_le f l off : f_len f <= f_len (write_all_at f l off).
Proof. destruct l; [done|]. cbn [write_all_at f_len]. lia. Qed.

Lemma f_len_write_end f l off : 0 < zlen l -> off + zlen l <= f_len (write_all_at f l off).
Proof. intros Hz. destruct l; [unfold zlen in Hz; cbn in Hz; lia|]. cbn [write_all_at f_len]. lia. Qed.

Lemma file_bytes_lookup f off n i :
  (i < n)%nat -> file_bytes f off n !! i = Some (f_data f (off + Z.of_nat i)).
Proof.
  intros H. unfold file_bytes. rewrite list_lookup_fmap, lookup_seq_lt by done. done.
Qed.

(** [n] bytes at [from] have been copied to [to]. *)
Definition copied (f f' : file) (from to n : Z) : Prop :=
  (forall x, f_data f' x =
     if decide (to <= x < to + n) then f_data f (from + (x - to)) else f_data f x) /\
  f_len f <= f_len f' /\ (0 < n -> to + n <= f_len f').

Lemma move_chunks_spec fuel from to sz offset f0 f :
  0 <= from -> 0 <= to -> from + sz < 2 ^ 63 -> to + sz < 2 ^ 63 ->
  from + sz <= to \/ to + sz <= from -> from + sz <= f_len f0 ->
  0 <= offset -> (0 < fuel)%nat -> sz <= offset + (Z.of_nat fuel - 1) * MOVE_BUF_SIZE ->
  copied f0 f from to (Z.min offset sz) ->
  exists f', move_chunks fuel from to sz offset f = (Ok tt, f') /\ copied f0 f' from to sz.
Proof.
  intros Hf0 Ht0 Hf Ht Hdis Hlen. revert offset f. induction fuel as [|fuel IH];
    intros offset f Hoff Hpos Hfuel Hc; [lia|cbn [move_chunks]; munfold].
  destruct (offset <? sz) eqn:E.
  2: { exists f. split; [done|]. by rewrite Z.min_r in Hc by lia. }
  set (len := Z.min (sz - offset) MOVE_BUF_SIZE). rewrite Z.min_l in Hc by lia.
  assert (0 < len <= sz - offset) as Hlen' by (unfold len, MOVE_BUF_SIZE; lia).
  destruct Hc as (Hd & Hl & He). rewrite !u64_small by lia.
  unfold read_exact_at. replace (from + offset + len <=? f_len f) with true by lia.
  rewrite orb_true_r. apply IH; [unfold MOVE_BUF_SIZE; lia|unfold MOVE_BUF_SIZE in *; lia|lia|].
  replace (Z.min (offset + MOVE_BUF_SIZE) sz) with (offset + len) by (unfold len, MOVE_BUF_SIZE; lia).
  assert (zlen (file_bytes f (from + offset) (Z.to_nat len)) = len) as Hz
    by (unfold zlen; rewrite length_file_bytes; lia).
  split_and!.
  - intros x. rewrite f_data_write, Hz. destruct (decide (to + offset <= x < _)) as [Hin|Hout].
    + rewrite file_bytes_lookup by lia. cbn [default]. rewrite decide_True by lia.
      rewrite Z2Nat.id by lia. unfold id. rewrite Hd, decide_False; [f_equal; lia|].
      clearbody len. lia.
    + rewrite Hd. destruct (decide (to <= x < to + offset)).
      * by rewrite decide_True by lia.
      * by rewrite decide_False by lia.
  - etransitivity; [exact Hl|apply f_len_write_le].
  - intros _. pose proof (f_len_write_end f (file_bytes f (from + offset) (Z.to_nat len))
      (to + offset)). lia.
Qed.

Lemma move_file_range_spec from to sz f :
  0 <= from -> 0 <= to -> 0 < sz -> from + sz < 2 ^ 63 -> to + sz < 2 ^ 63 ->
  from + sz <= to \/ to + sz <= from -> from + sz <= f_len f ->
  exists f', move_file_range from to sz f = (Ok tt, f') /\ copied f f' from to sz.
Proof.
  intros Hf0 Ht0 Hsz Hf Ht Hdis Hlen. apply move_chunks_spec; try done; [lia|..].
  - rewrite Nat2Z.inj_succ, Z2Nat.id by (pose proof (Z.div_pos sz MOVE_BUF_SIZE); unfold MOVE_BUF_SIZE in *; lia).
    pose proof (Z.mul_succ_div_gt sz MOVE_BUF_SIZE). unfold MOVE_BUF_SIZE in *. lia.
  - rewrite Z.min_l by lia. split_and!; [|lia|lia]. intros x. by rewrite decide_False by lia.
Qed.

(** ** The invariant *)
Section Write.
(** [ext] bounds where writes end. *)
Context (H ext : Z) (others : Z -> Prop).

Record winv (t : Z) (s : wstate) : Prop := mk_winv {
  wi_free : wf_free H t (w_free s);
  wi_sorted : bt_sorted (w_data s);
  wi_block : forall k b, (k, b) ∈ w_data s ->
    0 <= k /\ 0 < size b /\ k + size b <= ext < ADDR_LIMIT /\ H <= location b /\
    location b + size b <= t /\ location b + size b <= f_len (w_file s);
  wi_logical : forall k b k' b', (k, b) ∈ w_data s -> (k', b') ∈ w_data s -> k < k' ->
    k + size b <= k';
  wi_physical : forall k b k' b' x, (k, b) ∈ w_data s -> (k', b') ∈ w_data s -> k <> k' ->
    in_block b x -> ~ in_block b' x;
  wi_used : forall k b x, (k, b) ∈ w_data s -> in_block b x -> ~ free (w_free s) x;
  wi_others : forall x, others x -> H <= x < t /\ ~ free (w_free s) x /\
    forall k b, (k, b) ∈ w_data s -> ~ in_block b x }.

(** The blocks hold byte [v] at offset [x] of the file. *)
Definition holds (s : wstate) (x v : Z) : Prop :=
  exists k b, (k, b) ∈ w_data s /\ k <= x < k + size b /\
    f_data (w_file s) (location b + (x - k)) = v.

(** The contents after the write: the old ones overlaid with it. *)
Definition overlaid (s s' : wstate) (offset : Z) (buff : list Z) : Prop :=
  forall x v, holds s' x v <->
    if decide (offset <= x < offset + zlen buff) then buff !! Z.to_nat (x - offset) = Some v
    else holds s x v.

Definition others_kept (s s' : wstate) : Prop :=
  forall x, others x -> f_data (w_file s') x = f_data (w_file s) x.

(** Two blocks that share a file offset are the same. *)
Lemma winv_same t s k b k' b' x :
  winv t s -> (k, b) ∈ w_data s -> (k', b') ∈ w_data s ->
  k <= x < k + size b -> k' <= x < k' + size b' -> k = k' /\ b = b'.
Proof.
  intros Hw Hb Hb' Hx Hx'. destruct (Z.lt_total k k') as [Hl|[->|Hg]].
  - pose proof (wi_logical _ _ Hw _ _ _ _ Hb Hb' Hl). lia.
  - split; [done|]. exact (bt_elem_unique _ _ _ _ (wi_sorted _ _ Hw) Hb Hb').
  - pose proof (wi_logical _ _ Hw _ _ _ _ Hb' Hb Hg). lia.
Qed.

(** ** The blocks a write meets *)
Lemma take_while_filter {A} (P : A -> bool) (l : list A) :
  (forall l1 x l2, l = l1 ++ x :: l2 -> P x = false -> Forall (fun y => P y = false) l2) ->
  take_while P l = List.filter P l.
Proof.
  induction l as [|x l IH]; intros Hl; [done|]. cbn. destruct (P x) eqn:E.
  - f_equal. apply IH. intros l1 y l2 ->. by apply (Hl (x :: l1)).
  - symmetry. specialize (Hl [] x l eq_refl E). clear IH E.
    induction Hl as [|y l Hy _ IH]; [done|]. cbn. by rewrite Hy.
Qed.

Lemma filter_and {A} (P Q : A -> bool) (l : list A) :
  List.filter P (List.filter Q l) = List.filter (fun x => Q x && P x) l.
Proof.
  induction l as [|x l IH]; [done|]. cbn. destruct (Q x); cbn; [|done].
  destruct (P x); by rewrite IH.
Qed.

Lemma overlapping_eq t s offset len :
  winv t s -> 0 <= offset -> 0 < len -> offset + len <= ext < ADDR_LIMIT ->
  overlapping (w_data s) offset len =
  List.filter (fun e => (fst e <=? offset + len) && (offset <=? fst e + size (snd e))) (w_data s).
Proof.
  intros Hw Ho Hl Hlim. unfold overlapping.
  set (d := List.filter (fun e => fst e <=? u64 (offset + len)) (w_data s)).
  assert (bt_sorted d) as Hsd by (apply bt_sorted_filter, (wi_sorted _ _ Hw)).
  assert (forall k b, (k, b) ∈ d -> (k, b) ∈ w_data s) as Hsub.
  { intros k b Hin. apply list_elem_of_In, filter_In in Hin as [Hin _]. by apply list_elem_of_In. }
  rewrite take_while_filter.
  - rewrite List.filter_rev, rev_involutive. unfold d. rewrite u64_small by (unfold ADDR_LIMIT in *; lia).
    rewrite filter_and. apply filter_ext_in. intros [k b] Hin. cbn.
    apply list_elem_of_In in Hin. destruct (wi_block _ _ Hw _ _ Hin) as (? & ? & ? & _).
    by rewrite u64_small by (unfold ADDR_LIMIT in *; lia).
  - intros l1 [k b] l2 Hrev Hf. apply Forall_forall. intros [k' b'] Hin. cbn in *.
    assert (d = rev l2 ++ (k, b) :: rev l1) as Hd.
    { rewrite <- (rev_involutive d), Hrev, rev_app_distr. cbn. by rewrite <- app_assoc. }
    assert ((k', b') ∈ d /\ (k, b) ∈ d) as [Hd' Hdk].
    { rewrite Hd. split; apply elem_of_app; [left|right; left].
      apply list_elem_of_In, in_rev. by rewrite rev_involutive; apply list_elem_of_In. }
    assert (k' < k) as Hlt.
    { assert ((k', b') ∈ rev l2) as Hr
        by (apply list_elem_of_In; rewrite <- in_rev; by apply list_elem_of_In).
      apply list_elem_of_split in Hr as (r1 & r2 & Hr). rewrite Hd, Hr, <- app_assoc in Hsd.
      clear - Hsd. induction r1 as [|e r1 IH]; cbn in Hsd.
      - apply sorted_cons_inv in Hsd as [_ Hk]. apply key_lt_Z, (Hk k b).
        apply elem_of_app. right. by left.
      - inv Hsd. by apply IH. }
    pose proof (wi_logical _ _ Hw _ _ _ _ (Hsub _ _ Hd') (Hsub _ _ Hdk) Hlt).
    destruct (wi_block _ _ Hw _ _ (Hsub _ _ Hd')) as (? & ? & ? & _).
    destruct (wi_block _ _ Hw _ _ (Hsub _ _ Hdk)) as (? & ? & ? & _).
    rewrite u64_small in * by (unfold ADDR_LIMIT in *; lia). lia.
Qed.

(** ** Replacing blocks

    A step that takes the blocks [ov] away and puts one block at [lo] in their
    place, made of free bytes and of bytes of [ov]. *)
Definition in_blocks (ov : list (Z * Block)) (x : Z) : Prop :=
  exists k b, (k, b) ∈ ov /\ in_block b x.

Record replaces (s s' : wstate) (ov : list (Z * Block)) (lo : Z) (nb : Block) : Prop := mk_replaces {
  re_sub : forall k b, (k, b) ∈ ov -> (k, b) ∈ w_data s;
  re_sorted : bt_sorted (w_data s');
  re_data : forall k b, (k, b) ∈ w_data s' <->
    (k = lo /\ b = nb) \/ ((k, b) ∈ w_data s /\ (k, b) ∉ ov);
  re_apart : forall k b, (k, b) ∈ w_data s -> (k, b) ∉ ov ->
    k + size b <= lo \/ lo + size nb <= k;
  re_bytes : forall x, in_block nb x -> free (w_free s) x \/ in_blocks ov x;
  re_free : forall x, free (w_free s') x <->
    (free (w_free s) x \/ in_blocks ov x) /\ ~ in_block nb x;
  re_file : forall x, ~ in_block nb x -> f_data (w_file s') x = f_data (w_file s) x;
  re_len : f_len (w_file s) <= f_len (w_file s') }.

Lemma replaces_winv t t' s s' ov lo nb :
  winv t s -> t < ADDR_LIMIT -> replaces s s' ov lo nb -> wf_free H t' (w_free s') ->
  0 <= lo -> 0 < size nb -> lo + size nb <= ext < ADDR_LIMIT -> H <= location nb ->
  location nb + size nb <= t' -> location nb + size nb <= f_len (w_file s') ->
  winv t' s'.
Proof.
  intros Hw Hlim [Hsub Hsort Hdata Hapart Hbytes Hfree Hfile Hlen] Hwf Hlo Hsz Hhi HH Ht Hl.
  assert (forall k b x, (k, b) ∈ w_data s -> (k, b) ∉ ov -> in_block b x ->
    ~ free (w_free s) x /\ ~ in_blocks ov x) as Hout.
  { intros k b x Hb Hn Hx. split; [by eapply wi_used|]. intros (k' & b' & Hb' & Hx').
    destruct (decide (k = k')) as [->|Hne].
    - pose proof (Hsub _ _ Hb') as Hb''.
      pose proof (bt_elem_unique _ _ _ _ (wi_sorted _ _ Hw) Hb Hb'') as ->. done.
    - by apply (wi_physical _ _ Hw k b k' b' x Hb (Hsub _ _ Hb') Hne Hx). }
  assert (forall k b x, (k, b) ∈ w_data s -> (k, b) ∉ ov -> in_block b x -> ~ in_block nb x) as Hnb.
  { intros k b x Hb Hn Hx Hx'. destruct (Hout _ _ _ Hb Hn Hx).
    by destruct (Hbytes _ Hx'). }
  assert (forall k b x, (k, b) ∈ w_data s' -> in_block b x -> ~ free (w_free s') x) as Hused.
  { intros k b x Hb Hx. apply Hdata in Hb as [[-> ->]|[Hb Hn]]; rewrite Hfree; [tauto|].
    destruct (Hout _ _ _ Hb Hn Hx). tauto. }
  constructor; try done.
  - intros k b Hb. pose proof Hb as Hb'. apply Hdata in Hb as [[-> ->]|[Hb Hn]]; [lia|].
    destruct (wi_block _ _ Hw _ _ Hb) as (? & ? & ? & ? & ? & ?). split_and!; try lia.
    eapply used_below_tail; [exact Hwf|done|unfold ADDR_LIMIT, USIZE_MAX in *; pose proof (wf_H _ _ _ Hwf); lia|].
    intros x Hx. by eapply Hused.
  - intros k b k' b' Hb Hb' Hlt. apply Hdata in Hb, Hb'.
    destruct Hb as [[-> ->]|[Hb Hn]], Hb' as [[-> ->]|[Hb' Hn']]; [lia|..].
    + destruct (Hapart _ _ Hb' Hn'); [|lia]. destruct (wi_block _ _ Hw _ _ Hb') as (? & ? & _). lia.
    + destruct (Hapart _ _ Hb Hn); [done|]. lia.
    + by apply (wi_logical _ _ Hw _ _ _ _ Hb Hb').
  - intros k b k' b' x Hb Hb' Hne Hx Hx'. apply Hdata in Hb, Hb'.
    destruct Hb as [[-> ->]|[Hb Hn]], Hb' as [[-> ->]|[Hb' Hn']]; [done|..].
    + by apply (Hnb _ _ _ Hb' Hn' Hx').
    + by apply (Hnb _ _ _ Hb Hn Hx).
    + by apply (wi_physical _ _ Hw _ _ _ _ _ Hb Hb' Hne Hx).
  - intros x Hx. destruct (wi_others _ _ Hw x Hx) as (Hr & Hnf & Hno).
    assert (~ in_blocks ov x) as Hnov by (intros (k & b & Hb & Hxb); by apply (Hno k b (Hsub _ _ Hb))).
    assert (~ in_block nb x) as Hnnb by (intros Hxn; destruct (Hbytes _ Hxn); done).
    assert (~ free (w_free s') x) as Hnf' by (rewrite Hfree; tauto).
    split_and!; [lia| |done|].
    + destruct (decide (x < t')); [done|]. destruct Hnf'. eapply free_above_tail; [exact Hwf|].
      unfold ADDR_LIMIT, USIZE_MAX in *. pose proof (wf_H _ _ _ Hwf). lia.
    + intros k b Hb. apply Hdata in Hb as [[-> ->]|[Hb _]]; [done|by eapply Hno].
Qed.

Lemma replaces_others t s s' ov lo nb : winv t s -> replaces s s' ov lo nb -> others_kept s s'.
Proof.
  intros Hw Hr x Hx. apply (re_file _ _ _ _ _ Hr). intros Hxn.
  destruct (wi_others _ _ Hw x Hx) as (_ & Hnf & Hno).
  destruct (re_bytes _ _ _ _ _ Hr x Hxn) as [|(k & b & Hb & Hxb)]; [done|].
  by apply (Hno k b (re_sub _ _ _ _ _ Hr _ _ Hb)).
Qed.

Lemma holds_unique t s x v w : winv t s -> holds s x v -> holds s x w -> v = w.
Proof.
  intros Hw (k & b & Hb & Hx & Hv) (k' & b' & Hb' & Hx' & Hv').
  destruct (winv_same _ _ _ _ _ _ _ Hw Hb Hb' Hx Hx') as [-> ->]. congruence.
Qed.

(** The new block holds the write and, around it, what was there before. *)
Lemma replaces_overlaid t s s' ov lo nb offset buff :
  winv t s -> replaces s s' ov lo nb ->
  (forall k b, (k, b) ∈ ov -> lo <= k /\ k + size b <= lo + size nb) ->
  lo <= offset -> offset + zlen buff <= lo + size nb ->
  (forall x, lo <= x < lo + size nb ->
    let v := f_data (w_file s') (location nb + (x - lo)) in
    if decide (offset <= x < offset + zlen buff) then buff !! Z.to_nat (x - offset) = Some v
    else holds s x v) ->
  overlaid s s' offset buff.
Proof.
  intros Hw Hr Hhull Hlo Hhi Hnew x v. cbn zeta in Hnew.
  assert (forall k b, (k, b) ∈ w_data s -> (k, b) ∉ ov -> k <= x < k + size b ->
    f_data (w_file s') (location b + (x - k)) = f_data (w_file s) (location b + (x - k))) as Hkeep.
  { intros k b Hb Hn Hx. apply (re_file _ _ _ _ _ Hr). intros Hxn.
    assert (in_block b (location b + (x - k))) as Hxb by (unfold in_block; lia).
    destruct (re_bytes _ _ _ _ _ Hr _ Hxn) as [Hf|(k' & b' & Hb' & Hx')].
    - by apply (wi_used _ _ Hw _ _ _ Hb Hxb).
    - pose proof (re_sub _ _ _ _ _ Hr _ _ Hb') as Hb''. destruct (decide (k = k')) as [->|Hne].
      + by rewrite (bt_elem_unique _ _ _ _ (wi_sorted _ _ Hw) Hb Hb'') in Hn.
      + by apply (wi_physical _ _ Hw _ _ _ _ _ Hb Hb'' Hne Hxb). }
  split.
  - intros (k & b & Hb & Hx & Hv). apply (re_data _ _ _ _ _ Hr) in Hb as [[-> ->]|[Hb Hn]].
    + specialize (Hnew x Hx). by rewrite Hv in Hnew.
    + destruct (re_apart _ _ _ _ _ Hr _ _ Hb Hn); rewrite decide_False by lia;
        exists k, b; (split; [done|]); (split; [done|]); by rewrite <- (Hkeep _ _ Hb Hn Hx).
  - destruct (decide _) as [Hin|Hout].
    + intros Hv. exists lo, nb. split; [apply (re_data _ _ _ _ _ Hr); by left|]. split; [lia|].
      specialize (Hnew x ltac:(lia)). rewrite decide_True in Hnew by lia. congruence.
    + intros Hv. pose proof Hv as (k & b & Hb & Hx & Hvb).
      destruct (decide (lo <= x < lo + size nb)) as [Hinh|Houth].
      * exists lo, nb. split; [apply (re_data _ _ _ _ _ Hr); by left|]. split; [lia|].
        specialize (Hnew x Hinh). rewrite decide_False in Hnew by lia.
        by eapply holds_unique.
      * assert ((k, b) ∉ ov) as Hn by (intros Hov; pose proof (Hhull _ _ Hov); lia).
        exists k, b. split; [apply (re_data _ _ _ _ _ Hr); by right|]. split; [done|].
        by rewrite (Hkeep _ _ Hb Hn Hx).
Qed.

(** ** The blocks around a write

    [ov] are blocks that overlap or touch the write; no other block overlaps it. *)
Record meets (s : wstate) (offset fin : Z) (ov : list (Z * Block)) : Prop := mk_meets {
  me_sorted : bt_sorted ov;
  me_sub : forall k b, (k, b) ∈ ov -> (k, b) ∈ w_data s /\ k <= fin /\ offset <= k + size b;
  me_rest : forall k b, (k, b) ∈ w_data s -> (k, b) ∉ ov -> k + size b <= offset \/ fin <= k }.

Lemma overlapping_meets t s offset len :
  winv t s -> 0 <= offset -> 0 < len -> offset + len <= ext < ADDR_LIMIT ->
  meets s offset (offset + len) (overlapping (w_data s) offset len).
Proof.
  intros Hw Ho Hl Hlim. rewrite (overlapping_eq t) by done. constructor.
  - apply bt_sorted_filter, (wi_sorted _ _ Hw).
  - intros k b Hin. apply list_elem_of_In, filter_In in Hin as [Hin Hc]. cbn in Hc.
    split; [by apply list_elem_of_In|lia].
  - intros k b Hin Hn. destruct (decide (k + size b <= offset \/ offset + len <= k)); [done|].
    destruct Hn. apply list_elem_of_In, filter_In. split; [by apply list_elem_of_In|]. cbn. lia.
Qed.

Lemma trim_first_meets s t offset fin ov :
  winv t s -> meets s offset fin ov -> meets s offset fin (trim_first ov offset).
Proof.
  intros Hw [Hs Hsub Hrest]. destruct ov as [|[k b] ov]; [done|]. cbn.
  destruct (_ && _) eqn:E; [|done].
  destruct (Hsub k b ltac:(by left)) as (Hin & _).
  destruct (wi_block _ _ Hw _ _ Hin) as (? & ? & ? & _).
  rewrite u64_small in E by (unfold ADDR_LIMIT in *; lia). constructor.
  - by apply sorted_cons_inv in Hs as [? _].
  - intros k' b' Hin'. apply Hsub. by right.
  - intros k' b' Hin' Hn. destruct (decide ((k', b') = (k, b))) as [[= -> ->]|Hne]; [lia|].
    apply Hrest; [done|]. intros [?|?]%elem_of_cons; done.
Qed.

Lemma trim_last_meets s offset fin ov :
  meets s offset fin ov -> meets s offset fin (trim_last ov fin).
Proof.
  intros [Hs Hsub Hrest]. unfold trim_last. destruct (last ov) as [[k b]|] eqn:El; [|done].
  destruct (_ && _) eqn:E; [|done]. apply last_Some in El as [ov' ->].
  rewrite removelast_last. constructor.
  - clear - Hs. induction ov' as [|[k0 b0] ov' IH]; [constructor|].
    apply sorted_cons_inv in Hs as [Hs Hk]. apply sorted_cons; [by apply IH|].
    intros k' b' Hin. apply (Hk k' b'). apply elem_of_app. by left.
  - intros k' b' Hin'. apply Hsub. apply elem_of_app. by left.
  - intros k' b' Hin' Hn. destruct (decide ((k', b') = (k, b))) as [[= -> ->]|Hne]; [lia|].
    apply Hrest; [done|]. intros [?|?%list_elem_of_singleton]%elem_of_app; done.
Qed.

(** What a write has to establish. *)
Definition wrote (s s' : wstate) (offset : Z) (buff : list Z) (tmax : Z) : Prop :=
  exists t', winv t' s' /\ t' <= tmax /\ overlaid s s' offset buff /\ others_kept s s' /\
    f_len (w_file s) <= f_len (w_file s').

Lemma buff_lookup (buff : list Z) i :
  0 <= i < zlen buff -> buff !! Z.to_nat i = Some (default 0 (buff !! Z.to_nat i)).
Proof.
  intros Hi. destruct (lookup_lt_is_Some_2 buff (Z.to_nat i)) as [v Hv]; [unfold zlen in *; lia|].
  by rewrite Hv.
Qed.

(** ** A write that meets no block *)
Lemma write_fresh_spec t s offset buff :
  winv t s -> 0 <= offset -> 0 < zlen buff -> offset + zlen buff <= ext < ADDR_LIMIT ->
  t + zlen buff < ADDR_LIMIT -> meets s offset (offset + zlen buff) [] ->
  exists s', (block ← w_alloc (zlen buff) None; _ ← w_write buff (location block);
              w_insert offset block) s = (Ok tt, s') /\ wrote s s' offset buff (t + zlen buff).
Proof.
  intros Hw Ho Hl Hlim Ht [_ _ Hrest].
  destruct (allocate_spec H t (w_free s) (zlen buff) None (wi_free _ _ Hw) Hl Ht)
    as (loc & t' & fl' & Ha & Hwf & Htt & HH & Hle & Hfree & Hnf).
  unfold w_alloc, w_write, w_insert. munfold. rewrite Ha. eexists. split; [reflexivity|].
  cbn [w_free w_data w_file location]. set (nb := mk_Block loc (zlen buff)).
  assert (forall k b, (k, b) ∈ w_data s -> k <> offset) as Hne.
  { intros k b Hb ->. destruct (wi_block _ _ Hw _ _ Hb) as (? & ? & _).
    destruct (Hrest _ _ Hb ltac:(apply not_elem_of_nil)); lia. }
  set (s' := mk_wstate fl' _ _).
  assert (replaces s s' [] offset nb) as Hr.
  { constructor; cbn [s' w_free w_data w_file].
    - intros k b Hin. by inv Hin.
    - apply bt_insert_sorted, (wi_sorted _ _ Hw).
    - intros k b. rewrite bt_insert_elem by apply (wi_sorted _ _ Hw). split.
      + intros [?|[? ?]]; [by left|]. right. split; [done|apply not_elem_of_nil].
      + intros [?|[Hb _]]; [by left|]. right. split; [by eapply Hne|done].
    - intros k b Hb Hn. cbn. destruct (Hrest _ _ Hb Hn); lia.
    - intros x Hx. left. apply Hfree. right. unfold in_block in Hx. cbn in Hx. done.
    - intros x. rewrite Hfree. unfold in_block. cbn. split.
      + intros Hf. split; [by left; left|]. intros Hx. by apply (Hnf x).
      + intros [[[?|?]|(k & b & Hb & _)] Hn]; [done|done|by inv Hb].
    - intros x Hx. unfold in_block in Hx. cbn in Hx. apply write_all_at_other. lia.
    - apply f_len_write_le. }
  pose proof (f_len_write_end (w_file s) buff loc Hl) as Hlen.
  exists t'. split_and!; [|lia| |by eapply replaces_others|by eapply re_len].
  - eapply (replaces_winv t t' s s'); try done; cbn [nb s' location size w_file]; lia.
  - eapply (replaces_overlaid t s s'); try done; [intros k b Hin; by inv Hin|].
    cbn [nb s' location size w_file]. intros x Hx. rewrite decide_True by lia. rewrite f_data_write, decide_True by lia.
    replace (loc + (x - offset) - loc) with (x - offset) by lia.
    apply buff_lookup. lia.
Qed.

(** ** A write that meets one block *)

(** A free list with the same free bytes is as good. *)
Lemma winv_free_list t t' s fl :
  winv t s -> t < ADDR_LIMIT -> wf_free H t' fl -> (forall x, free fl x <-> free (w_free s) x) ->
  winv t' (mk_wstate fl (w_data s) (w_file s)).
Proof.
  intros Hw Hlim Hwf Hfree. pose proof (wf_H _ _ _ Hwf).
  constructor; cbn [w_free w_data w_file]; try done; [apply Hw| |apply Hw|apply Hw|..].
  - intros k b Hb. destruct (wi_block _ _ Hw _ _ Hb) as (? & ? & ? & ? & ? & ?).
    split_and!; try lia. eapply used_below_tail; [exact Hwf|done|unfold ADDR_LIMIT, USIZE_MAX in *; lia|].
    intros x Hx. rewrite Hfree. by eapply wi_used.
  - intros k b x Hb Hx. rewrite Hfree. by eapply wi_used.
  - intros x Hx. destruct (wi_others _ _ Hw x Hx) as (Hr & Hnf & Hno). rewrite <- Hfree in Hnf.
    split_and!; try done; [lia|]. destruct (decide (x < t')); [done|]. destruct Hnf.
    eapply free_above_tail; [exact Hwf|]. unfold ADDR_LIMIT, USIZE_MAX in *. lia.
Qed.

Lemma in_blocks_one k b x : in_blocks [(k, b)] x <-> in_block b x.
Proof.
  split; [|intros Hx; exists k, b; split; [by left|done]].
  intros (k' & b' & Hin & Hx). apply list_elem_of_singleton in Hin as [= -> ->]. done.
Qed.

Lemma write_inside_spec t s k b offset buff :
  winv t s -> t < ADDR_LIMIT -> (k, b) ∈ w_data s -> 0 < zlen buff ->
  k <= offset -> offset + zlen buff <= k + size b ->
  wrote s (mk_wstate (w_free s) (w_data s) (write_all_at (w_file s) buff (location b + (offset - k))))
    offset buff t.
Proof.
  intros Hw Hlim Hb Hl Hlo Hhi. set (s' := mk_wstate _ _ _).
  destruct (wi_block _ _ Hw _ _ Hb) as (? & ? & ? & ? & ? & ?).
  assert (replaces s s' [(k, b)] k b) as Hr.
  { constructor; cbn [s' w_free w_data w_file].
    - intros k' b' Hin. apply list_elem_of_singleton in Hin as [= -> ->]. done.
    - apply Hw.
    - intros k' b'. rewrite list_elem_of_singleton. split.
      + intros Hb'. destruct (decide ((k', b') = (k, b))) as [[= -> ->]|]; [by left|by right].
      + intros [[-> ->]|[? _]]; done.
    - intros k' b' Hb' Hn. rewrite list_elem_of_singleton in Hn.
      destruct (Z.lt_total k' k) as [Hl'|[->|Hg]].
      + left. by apply (wi_logical _ _ Hw _ _ _ _ Hb' Hb).
      + by rewrite (bt_elem_unique _ _ _ _ (wi_sorted _ _ Hw) Hb' Hb) in Hn.
      + right. by apply (wi_logical _ _ Hw _ _ _ _ Hb Hb').
    - intros x Hx. right. by apply in_blocks_one.
    - intros x. rewrite in_blocks_one. pose proof (fun Hx => wi_used _ _ Hw k b x Hb Hx). tauto.
    - intros x Hx. unfold in_block in Hx. apply write_all_at_other. lia.
    - apply f_len_write_le. }
  exists t. split_and!; [|lia| |by eapply replaces_others|by eapply re_len].
  - eapply (replaces_winv t t s s'); try done; cbn [s' w_free w_file]; [by apply Hw|].
    pose proof (f_len_write_le (w_file s) buff (location b + (offset - k))). lia.
  - eapply (replaces_overlaid t s s'); try done.
    { intros k' b' Hin. apply list_elem_of_singleton in Hin as [= -> ->]. lia. }
    cbn [s' w_file]. intros x Hx. rewrite f_data_write. destruct (decide (offset <= x < _)).
    + rewrite decide_True by lia.
      replace (location b + (x - k) - (location b + (offset - k))) with (x - offset) by lia.
      apply buff_lookup. lia.
    + rewrite decide_False by lia. exists k, b. done.
Qed.

(** The block is extended in place: the bytes after it were free. *)
Lemma write_extend_spec t t' s fl' k b offset buff :
  let n := offset + zlen buff - (k + size b) in
  winv t s -> t < ADDR_LIMIT -> (k, b) ∈ w_data s -> 0 < zlen buff ->
  meets s offset (offset + zlen buff) [(k, b)] -> offset + zlen buff <= ext < ADDR_LIMIT ->
  k < offset <= k + size b -> 0 < n -> wf_free H t' fl' ->
  location b + size b + n <= t' -> t' <= t + zlen buff ->
  (forall x, free (w_free s) x <-> free fl' x \/ location b + size b <= x < location b + size b + n) ->
  (forall x, location b + size b <= x < location b + size b + n -> ~ free fl' x) ->
  wrote s (mk_wstate fl' (bt_insert k (mk_Block (location b) (size b + n)) (w_data s))
             (write_all_at (w_file s) buff (location b + (offset - k)))) offset buff (t + zlen buff).
Proof.
  intros n Hw Hlim Hb Hl [_ _ Hrest] Hol Hk Hn Hwf Hle Htt Hfree Hnf. set (s' := mk_wstate _ _ _).
  destruct (wi_block _ _ Hw _ _ Hb) as (? & ? & ? & ? & ? & ?).
  set (nb := mk_Block (location b) (size b + n)).
  assert (replaces s s' [(k, b)] k nb) as Hr.
  { constructor; cbn [s' w_free w_data w_file].
    - intros k' b' Hin. apply list_elem_of_singleton in Hin as [= -> ->]. done.
    - apply bt_insert_sorted, Hw.
    - intros k' b'. rewrite bt_insert_elem by apply Hw. rewrite list_elem_of_singleton. split.
      + intros [?|[Hne Hb']]; [by left|]. right. split; [done|]. by intros [= -> ->].
      + intros [?|[Hb' Hne]]; [by left|]. right. split; [|done]. intros ->.
        by rewrite (bt_elem_unique _ _ _ _ (wi_sorted _ _ Hw) Hb' Hb) in Hne.
    - intros k' b' Hb' Hne. destruct (wi_block _ _ Hw _ _ Hb') as (? & ? & _).
      pose proof (Hrest _ _ Hb' Hne) as Hor. rewrite list_elem_of_singleton in Hne.
      unfold nb, n. cbn. destruct (Z.lt_total k' k) as [Hl'|[->|Hg]].
      + left. by apply (wi_logical _ _ Hw _ _ _ _ Hb' Hb).
      + by rewrite (bt_elem_unique _ _ _ _ (wi_sorted _ _ Hw) Hb' Hb) in Hne.
      + right. pose proof (wi_logical _ _ Hw _ _ _ _ Hb Hb' Hg). lia.
    - intros x Hx. rewrite in_blocks_one, Hfree. unfold in_block in *. cbn in Hx. lia.
    - intros x. rewrite in_blocks_one, Hfree. unfold in_block. cbn [nb location size].
      pose proof (fun Hx => wi_used _ _ Hw k b x Hb Hx) as Hu. rewrite Hfree in Hu.
      unfold in_block in Hu. split.
      + intros Hf. split; [tauto|]. intros Hx.
        destruct (decide (x < location b + size b)); [apply Hu; [lia|tauto]|apply (Hnf x); [lia|done]].
      + intros [[[?|?]|?] Hx]; [done|lia|lia].
    - intros x Hx. unfold in_block in Hx. cbn in Hx. unfold n in Hx. apply write_all_at_other. lia.
    - apply f_len_write_le. }
  pose proof (f_len_write_end (w_file s) buff (location b + (offset - k)) Hl).
  exists t'. split_and!; [|lia| |by eapply replaces_others|by eapply re_len].
  - eapply (replaces_winv t t' s s'); try done; cbn [s' nb w_file location size]; unfold n; lia.
  - eapply (replaces_overlaid t s s'); try done; [|lia|cbn; unfold n; lia|].
    { intros k' b' Hin. apply list_elem_of_singleton in Hin as [= -> ->]. cbn. lia. }
    cbn [s' nb w_file location size]. intros x Hx. rewrite f_data_write.
    destruct (decide (offset <= x < _)).
    + rewrite decide_True by lia.
      replace (location b + (x - k) - (location b + (offset - k))) with (x - offset) by lia.
      apply buff_lookup. lia.
    + rewrite decide_False by lia. exists k, b. split; [done|]. split; [unfold n in Hx; lia|done].
Qed.

Lemma write_single_spec t s k b offset buff :
  winv t s -> (k, b) ∈ w_data s -> 0 <= offset -> 0 < zlen buff ->
  meets s offset (offset + zlen buff) [(k, b)] -> offset + zlen buff <= ext < ADDR_LIMIT ->
  t + zlen buff < ADDR_LIMIT ->
  exists r s', write_single k b offset buff s = (Ok r, s') /\
    if r then wrote s s' offset buff (t + zlen buff)
    else exists t', winv t' s' /\ t' <= t + zlen buff /\ w_data s' = w_data s /\
      w_file s' = w_file s.
Proof.
  intros Hw Hb Ho Hl Hm Hol Hlim. destruct (wi_block _ _ Hw _ _ Hb) as (? & ? & ? & ? & ? & ?).
  destruct (me_sub _ _ _ _ Hm k b ltac:(by left)) as (_ & Hk1 & Hk2).
  unfold write_single. pose proof (wf_H _ _ _ (wi_free _ _ Hw)).
  rewrite !(u64_small (offset + _)), !(u64_small (k + _)) by (unfold ADDR_LIMIT in *; lia).
  destruct ((k <=? offset) && _) eqn:Ein.
  { rewrite u64_small by (unfold ADDR_LIMIT in *; lia).
    eexists true, _. split; [reflexivity|]. destruct (write_inside_spec t s k b offset buff)
      as (t' & ? & ? & ? & ? & ?); try done; [lia|lia|lia|]. exists t'. split_and!; try done. lia. }
  destruct (k <? offset) eqn:Ek.
  2: { exists false, s. split; [done|]. exists t. split_and!; try done. lia. }
  rewrite (u64_small (k + size b - offset)) by (unfold ADDR_LIMIT in *; lia).
  rewrite !(u64_small (location b + size b)) by (unfold ADDR_LIMIT in *; lia).
  rewrite (u64_small (zlen buff - _)) by (unfold ADDR_LIMIT in *; lia).
  set (n := zlen buff - (k + size b - offset)).
  destruct (allocate_spec H t (w_free s) n (Some (location b + size b)) (wi_free _ _ Hw))
    as (loc & t' & fl' & Ha & Hwf & Htt & HH & Hle & Hfree & Hnf); [unfold n; lia|unfold n; lia|].
  unfold w_alloc. munfold. rewrite Ha. cbn [location size].
  destruct (loc =? location b + size b) eqn:Eloc.
  - apply Z.eqb_eq in Eloc. subst loc. unfold w_write, w_insert. munfold.
    cbn [w_free w_data w_file location size].
    rewrite !u64_small by (unfold n, ADDR_LIMIT in *; lia).
    eexists true, _. split; [reflexivity|].
    replace (location b + size b - (k + size b - offset)) with (location b + (offset - k)) by lia.
    replace n with (offset + zlen buff - (k + size b)) in * by (unfold n; lia).
    apply (write_extend_spec t t'); try done; unfold n in *; lia.
  - destruct (deallocate_spec H t' fl' (mk_Block loc n) Hwf) as (t2 & Hwf2 & Ht2 & Hf2);
      cbn [location size]; [unfold n in *; lia|unfold n; lia|done|done|..].
    { intros x Hx. apply Hnf. done. }
    unfold w_dealloc. munfold. eexists false, _. split; [reflexivity|]. exists t2.
    cbn [w_free w_data w_file]. split_and!; try done; [|unfold n in *; lia].
    apply (winv_free_list t); try done; [lia|]. intros x. rewrite Hf2, Hfree.
    unfold in_block. cbn. tauto.
Qed.

(** ** A write that is merged with the blocks it meets *)
Lemma drop_overlaps_spec ov : forall t s,
  wf_free H t (w_free s) -> t < ADDR_LIMIT -> bt_sorted (w_data s) -> bt_sorted ov ->
  (forall k b, (k, b) ∈ ov -> (k, b) ∈ w_data s /\ 0 < size b /\ H <= location b /\
     location b + size b <= t /\ (forall x, in_block b x -> ~ free (w_free s) x)) ->
  (forall k b k' b' x, (k, b) ∈ ov -> (k', b') ∈ ov -> k <> k' -> in_block b x -> ~ in_block b' x) ->
  exists t' s', drop_overlaps ov s = (Ok tt, s') /\ wf_free H t' (w_free s') /\ t' <= t /\
    w_file s' = w_file s /\ bt_sorted (w_data s') /\
    (forall k b, (k, b) ∈ w_data s' <-> (k, b) ∈ w_data s /\ (k, b) ∉ ov) /\
    (forall x, free (w_free s') x <-> free (w_free s) x \/ in_blocks ov x).
Proof.
  induction ov as [|[k b] ov IH]; intros t s Hwf Hlim Hs Hov Hin Hdis.
  { exists t, s. split_and!; try done.
    - intros k b. split; [|by intros [? _]]. intros ?. split; [done|apply not_elem_of_nil].
    - intros x. split; [by left|]. intros [?|(? & ? & Hb & _)]; [done|by inv Hb]. }
  destruct (Hin k b ltac:(by left)) as (Hb & Hsz & HH & Hle & Hnf).
  apply sorted_cons_inv in Hov as [Hov Hkey].
  assert (forall k' b', (k', b') ∈ ov -> k' <> k) as Hne.
  { intros k' b' Hin' ->. by destruct (key_lt_irrefl k); apply (Hkey k b'). }
  destruct (deallocate_spec H t (w_free s) b Hwf Hlim Hsz HH Hle Hnf) as (t1 & Hwf1 & Ht1 & Hf1).
  cbn [drop_overlaps]. unfold drop_overlap at 1. munfold.
  rewrite (proj2 (bt_get_elem k b (w_data s) Hs) Hb).
  destruct (IH t1 (mk_wstate (deallocate b (w_free s)) (bt_remove k (w_data s)) (w_file s)))
    as (t' & s' & Hd & Hwf' & Ht' & Hfile & Hsort & Hdata & Hfree); cbn [w_free w_data w_file] in *;
    [done|lia|by apply bt_remove_sorted|done|..].
  - intros k' b' Hin'. destruct (Hin k' b' ltac:(by right)) as (Hb' & Hsz' & HH' & Hle' & Hnf').
    assert (forall x, in_block b' x -> ~ free (deallocate b (w_free s)) x) as Hnf1.
    { intros x Hx. rewrite Hf1. intros [?|Hxb]; [by eapply Hnf'|].
      apply (Hdis k' b' k b x); [by right|by left|by eapply Hne|done|done]. }
    split_and!; try done; [apply bt_remove_elem; [done|]; split; [by eapply Hne|done]|].
    eapply used_below_tail; [exact Hwf1|done| |done].
    unfold ADDR_LIMIT, USIZE_MAX in *. pose proof (wf_H _ _ _ Hwf). lia.
  - intros k1 b1 k2 b2 x H1 H2. apply Hdis; by right.
  - exists t', s'. split_and!; try done; [lia|..].
    + intros k' b'. rewrite Hdata, bt_remove_elem, not_elem_of_cons by done. split.
      * intros [[Hk' ?] ?]. split_and!; try done. by intros [= -> ->].
      * intros (Hb' & Hneq & ?). split_and!; try done. intros ->.
        by rewrite (bt_elem_unique _ _ _ _ Hs Hb' Hb) in Hneq.
    + intros x. rewrite Hfree, Hf1. split.
      * intros [[?|?]|(k' & b' & Hb' & Hx)]; [by left|right; exists k, b; by split; [left|]|].
        right. exists k', b'. split; [by right|done].
      * intros [?|(k' & b' & Hb' & Hx)]; [by left; left|].
        apply elem_of_cons in Hb' as [[= -> ->]|Hb']; [by left; right|]. right. by exists k', b'.
Qed.

(** Filling the new block: [fe] bytes of the first block, the write, [le] bytes
    of the last block. *)
Lemma fill_block_spec fl d f src1 src2 loc fe le buff :
  let n := zlen buff in
  0 <= fe -> 0 <= le -> 0 < n -> 0 <= loc -> 0 <= src1 -> 0 <= src2 ->
  loc + fe + n + le < ADDR_LIMIT -> src1 + fe < ADDR_LIMIT -> src2 + le < ADDR_LIMIT ->
  src1 + fe <= f_len f -> src2 + le <= f_len f ->
  (0 < fe -> src1 + fe <= loc \/ loc + fe + n + le <= src1) ->
  (0 < le -> src2 + le <= loc \/ loc + fe + n + le <= src2) ->
  exists f1 f3,
    (if fe =? 0 then mret tt else w_move src1 loc fe) (mk_wstate fl d f)
      = (Ok tt, mk_wstate fl d f1) /\
    (if le =? 0 then mret tt else w_move src2 (loc + (fe + n)) le)
      (mk_wstate fl d (write_all_at f1 buff (loc + fe))) = (Ok tt, mk_wstate fl d f3) /\
    (forall x, ~ (loc <= x < loc + (fe + n + le)) -> f_data f3 x = f_data f x) /\
    f_len f <= f_len f3 /\ loc + (fe + n + le) <= f_len f3 /\
    (forall i, 0 <= i < fe -> f_data f3 (loc + i) = f_data f (src1 + i)) /\
    (forall i, 0 <= i < n -> f_data f3 (loc + fe + i) = default 0 (buff !! Z.to_nat i)) /\
    (forall i, 0 <= i < le -> f_data f3 (loc + fe + n + i) = f_data f (src2 + i)).
Proof.
  intros n Hfe Hle Hn Hloc Hs1 Hs2 Hlim Hl1 Hl2 He1 He2 Hd1 Hd2.
  assert (exists f1, (if fe =? 0 then mret tt else w_move src1 loc fe) (mk_wstate fl d f)
    = (Ok tt, mk_wstate fl d f1) /\ copied f f1 src1 loc fe) as (f1 & H1 & Hc1 & Hlen1 & _).
  { destruct (fe =? 0) eqn:E.
    - exists f. split; [done|]. split_and!; [|lia|lia]. intros x. by rewrite decide_False by lia.
    - destruct (move_file_range_spec src1 loc fe f) as (f1 & Hm & Hc);
        [unfold ADDR_LIMIT in *; lia..|]. exists f1. unfold w_move. cbn [w_file]. by rewrite Hm. }
  set (f2 := write_all_at f1 buff (loc + fe)).
  pose proof (f_len_write_le f1 buff (loc + fe)) as Hlen2. fold f2 in Hlen2.
  pose proof (f_len_write_end f1 buff (loc + fe) Hn) as Hend2. fold f2 n in Hend2.
  assert (forall x, f_data f2 x = if decide (loc + fe <= x < loc + fe + n)
    then default 0 (buff !! Z.to_nat (x - (loc + fe))) else f_data f1 x) as Hf2
    by (intros x; apply f_data_write).
  assert (exists f3, (if le =? 0 then mret tt else w_move src2 (loc + (fe + n)) le)
    (mk_wstate fl d f2) = (Ok tt, mk_wstate fl d f3) /\ copied f2 f3 src2 (loc + (fe + n)) le)
    as (f3 & H3 & Hc3 & Hlen3 & Hend3).
  { destruct (le =? 0) eqn:E.
    - exists f2. split; [done|]. split_and!; [|lia|lia]. intros x. by rewrite decide_False by lia.
    - destruct (move_file_range_spec src2 (loc + (fe + n)) le f2) as (f3 & Hm & Hc);
        [unfold ADDR_LIMIT in *; lia..|]. exists f3. unfold w_move. cbn [w_file]. by rewrite Hm. }
  exists f1, f3. split; [done|]. split; [exact H3|]. split_and!.
  - intros x Hx. rewrite Hc3, decide_False, Hf2, decide_False, Hc1, decide_False by lia. done.
  - lia.
  - destruct (decide (0 < le)); [specialize (Hend3 ltac:(lia)); lia|lia].
  - intros i Hi. rewrite Hc3, decide_False, Hf2, decide_False, Hc1, decide_True by lia.
    f_equal. lia.
  - intros i Hi. rewrite Hc3, decide_False, Hf2, decide_True by lia. do 3 f_equal. lia.
  - intros i Hi. rewrite Hc3, decide_True by lia. specialize (Hd2 ltac:(lia)).
    rewrite Hf2, decide_False, Hc1, decide_False by lia. f_equal. lia.
Qed.

(** Everything met lies between the first and the last block. *)
Lemma sorted_bounds (ov : list (Z * Block)) fk fb lk lb k b :
  bt_sorted ov -> head ov = Some (fk, fb) -> last ov = Some (lk, lb) -> (k, b) ∈ ov -> fk <= k <= lk.
Proof.
  intros Hs Hh Hl Hin. destruct (bt_last_max _ _ _ Hs Hl) as [_ Hmax].
  destruct (Hmax _ _ Hin) as [->|Hlt%key_lt_Z]; (split; [|lia]);
    (destruct ov as [|e ov]; [done|]; inv Hh; apply sorted_cons_inv in Hs as [_ Hk];
     apply elem_of_cons in Hin as [[= -> ->]|Hin]; [lia|]; pose proof (Hk _ _ Hin) as Hlt';
     apply key_lt_Z in Hlt'; lia).
Qed.

(** The new block replaces the blocks that were met. *)
Lemma merged_replaces t s s' ov fk fb lk lb offset (buff : list Z) fl1 loc sz :
  let fin := offset + zlen buff in
  let lo := Z.min fk offset in
  let nb := mk_Block loc sz in
  lo + sz = Z.max fin (lk + size lb) -> winv t s -> meets s offset fin ov -> head ov = Some (fk, fb) -> last ov = Some (lk, lb) ->
  (forall x, free (w_free s) x <-> free fl1 x \/ in_block nb x) ->
  (forall x, in_block nb x -> ~ free fl1 x) ->
  (forall x, free (w_free s') x <-> free fl1 x \/ in_blocks ov x) ->
  bt_sorted (w_data s') ->
  (forall k b, (k, b) ∈ w_data s' <-> (k = lo /\ b = nb) \/
     (k <> lo /\ (k, b) ∈ w_data s /\ (k, b) ∉ ov)) ->
  (forall x, ~ in_block nb x -> f_data (w_file s') x = f_data (w_file s) x) ->
  f_len (w_file s) <= f_len (w_file s') ->
  replaces s s' ov lo nb /\
  (forall k b, (k, b) ∈ ov -> lo <= k /\ k + size b <= lo + size nb).
Proof.
  intros fin lo nb Hszeq Hw [Hs Hsub Hrest] Hh Hl Hf1 Hnf1 Hf' Hsort Hdata Hfile Hlen.
  assert ((fk, fb) ∈ ov) as Hfin by (destruct ov as [|e ov]; [done|]; inv Hh; by left).
  destruct (bt_last_max _ _ _ Hs Hl) as [Hlin _].
  destruct (Hsub _ _ Hfin) as (Hfd & Hf2 & Hf3). destruct (Hsub _ _ Hlin) as (Hld & Hl2 & Hl3).
  assert (forall k b, (k, b) ∈ ov -> lo <= k /\ k + size b <= lo + size nb) as Hhull.
  { intros k b Hin. pose proof (sorted_bounds ov fk fb lk lb k b Hs Hh Hl Hin).
    unfold lo, nb. cbn. split; [lia|]. destruct (decide (k = lk)) as [->|Hne].
    - destruct (Hsub _ _ Hin) as [Hin' _].
      rewrite (bt_elem_unique _ _ _ _ (wi_sorted _ _ Hw) Hin' Hld). lia.
    - destruct (Hsub _ _ Hin) as [Hin' _].
      pose proof (wi_logical _ _ Hw _ _ _ _ Hin' Hld ltac:(lia)).
      destruct (wi_block _ _ Hw _ _ Hld) as (? & ? & _). lia. }
  assert (forall k b, (k, b) ∈ w_data s -> (k, b) ∉ ov ->
    k + size b <= lo \/ lo + size nb <= k) as Hapart.
  { intros k b Hb Hn. destruct (wi_block _ _ Hw _ _ Hb) as (? & ? & _). unfold lo, nb. cbn.
    assert (k <> fk) as Hnf by (intros ->; by rewrite (bt_elem_unique _ _ _ _ (wi_sorted _ _ Hw) Hb Hfd) in Hn).
    assert (k <> lk) as Hnl by (intros ->; by rewrite (bt_elem_unique _ _ _ _ (wi_sorted _ _ Hw) Hb Hld) in Hn).
    destruct (Hrest _ _ Hb Hn).
    - left. destruct (decide (k < fk)) as [Hlt|Hge].
      + pose proof (wi_logical _ _ Hw _ _ _ _ Hb Hfd Hlt). lia.
      + pose proof (wi_logical _ _ Hw _ _ _ _ Hfd Hb ltac:(lia)). lia.
    - right. destruct (decide (lk < k)) as [Hlt|Hge].
      + pose proof (wi_logical _ _ Hw _ _ _ _ Hld Hb Hlt). lia.
      + lia. }
  split; [|done]. constructor; try done.
  - intros k b Hin. by apply Hsub.
  - intros k b. rewrite Hdata. split; [intros [?|(_ & ? & ?)]; tauto|].
    intros [?|[Hb Hn]]; [by left|]. right. split; [|done]. intros ->.
    destruct (wi_block _ _ Hw _ _ Hb) as (? & ? & _). destruct (Hapart _ _ Hb Hn); [lia|].
    pose proof (sorted_bounds ov fk fb lk lb lk lb Hs Hh Hl Hlin).
    unfold nb, lo in *. cbn in *. destruct (wi_block _ _ Hw _ _ Hld) as (? & ? & _). lia.
  - intros x Hx. left. rewrite Hf1. by right.
  - intros x. rewrite Hf', Hf1. split.
    + intros [Hf|(k & b & Hb & Hx)].
      * split; [by left; left|]. intros Hx. by apply (Hnf1 x).
      * split; [right; by exists k, b|]. intros Hxn. destruct (Hsub _ _ Hb) as [Hb' _].
        apply (wi_used _ _ Hw _ _ _ Hb' Hx). rewrite Hf1. by right.
    + tauto.
Qed.

Lemma write_merged_spec t s ov fk fb lk lb offset buff :
  winv t s -> 0 <= offset -> 0 < zlen buff -> offset + zlen buff <= ext < ADDR_LIMIT ->
  t + ext < ADDR_LIMIT -> meets s offset (offset + zlen buff) ov ->
  head ov = Some (fk, fb) -> last ov = Some (lk, lb) ->
  exists s', write_merged ov (fk, fb) (lk, lb) offset buff s = (Ok tt, s') /\
    wrote s s' offset buff (t + ext).
Proof.
  intros Hw Ho Hn Hol Hlim Hm Hh Hl. pose proof Hm as [Hs Hsub Hrest].
  assert ((fk, fb) ∈ ov) as Hfin by (destruct ov as [|e ov']; [done|]; inv Hh; by left).
  destruct (bt_last_max _ _ _ Hs Hl) as [Hlin _].
  destruct (Hsub _ _ Hfin) as (Hfd & Hf2 & Hf3). destruct (Hsub _ _ Hlin) as (Hld & Hl2 & Hl3).
  destruct (wi_block _ _ Hw _ _ Hfd) as (? & ? & ? & ? & ? & ?).
  destruct (wi_block _ _ Hw _ _ Hld) as (? & ? & ? & ? & ? & ?).
  pose proof (wf_H _ _ _ (wi_free _ _ Hw)) as HH0.
  unfold write_merged. set (n := zlen buff) in *. set (fin := offset + n) in *.
  rewrite !(u64_small fin), !(u64_small (lk + size lb)) by (unfold ADDR_LIMIT in *; lia).
  set (fe := if fk <? offset then offset - fk else 0).
  set (le := if fin <? lk + size lb then lk + size lb - fin else 0).
  assert (0 <= fe <= size fb /\ fe = offset - Z.min fk offset) as [Hfe Hfe']
    by (unfold fe; destruct (fk <? offset) eqn:?; lia).
  assert (0 <= le <= size lb /\ le = Z.max fin (lk + size lb) - fin) as [Hle Hle']
    by (unfold le; destruct (fin <? lk + size lb) eqn:?; lia).
  rewrite (u64_small (fe + n + le)) by (unfold ADDR_LIMIT in *; lia).
  destruct (allocate_spec H t (w_free s) (fe + n + le) None (wi_free _ _ Hw))
    as (loc & t1 & fl1 & Ha & Hwf1 & Ht1 & HH & Hle1 & Hfree1 & Hnf1); [lia|lia|].
  set (nb := mk_Block loc (fe + n + le)).
  assert (forall k b, (k, b) ∈ w_data s ->
    location b + size b <= loc \/ loc + (fe + n + le) <= location b) as Hdis.
  { intros k b Hb. destruct (wi_block _ _ Hw _ _ Hb) as (? & Hsz & _).
    destruct (decide (location b + size b <= loc \/ loc + (fe + n + le) <= location b)); [done|].
    destruct (wi_used _ _ Hw k b (Z.max loc (location b)) Hb); [unfold in_block; lia|].
    apply Hfree1. right. lia. }
  pose proof (Hdis _ _ Hfd) as Hdf. pose proof (Hdis _ _ Hld) as Hdl.
  destruct (fill_block_spec fl1 (w_data s) (w_file s) (location fb)
    (location lb + (size lb - le)) loc fe le buff) as (f1 & f3 & E1 & E3 & Hout & Hlen & Hend & Hc1 & Hc2 & Hc3);
    [unfold ADDR_LIMIT in *; fold n; lia..|]. fold n in Hout, Hend, Hc2, Hc3, E3.
  destruct (drop_overlaps_spec ov t1 (mk_wstate fl1 (w_data s) f3))
    as (t' & s2 & Ed & Hwf2 & Ht2 & Hfile2 & Hsort2 & Hdata2 & Hfree2); cbn [w_free w_data w_file];
    [done|lia|by apply Hw|done|..].
  { intros k b Hin. destruct (Hsub _ _ Hin) as [Hb _].
    destruct (wi_block _ _ Hw _ _ Hb) as (? & ? & ? & ? & ? & ?). split_and!; try done; [lia|].
    intros x Hx Hf. apply (wi_used _ _ Hw _ _ _ Hb Hx). apply Hfree1. by left. }
  { intros k b k' b' x Hin Hin'. destruct (Hsub _ _ Hin) as [Hb _], (Hsub _ _ Hin') as [Hb' _].
    by apply (wi_physical _ _ Hw). }
  cbn [w_free w_data w_file] in *.
  unfold w_alloc, w_write, w_insert. munfold. rewrite Ha. cbn [location]. rewrite E1.
  cbn [w_free w_data w_file].
  rewrite (u64_small (loc + fe)), (u64_small (size lb - le)), (u64_small (fe + n)) by (unfold ADDR_LIMIT in *; lia).
  rewrite (u64_small (location lb + _)), (u64_small (loc + (fe + n))) by (unfold ADDR_LIMIT in *; lia).
  rewrite E3, Ed. eexists. split; [reflexivity|].
  set (s' := mk_wstate _ _ _).
  assert (replaces s s' ov (Z.min fk offset) nb /\
    forall k b, (k, b) ∈ ov -> Z.min fk offset <= k /\ k + size b <= Z.min fk offset + size nb)
    as [Hr Hhull].
  { apply (merged_replaces t s s' ov fk fb lk lb offset buff fl1 loc (fe + n + le)); fold n; fold fin;
      try done; cbn [s' w_free w_data w_file]; rewrite ?Hfile2; try done.
    - lia.
    - by apply bt_insert_sorted.
    - intros k b. by rewrite bt_insert_elem, Hdata2 by done. }
  exists t'. split_and!; [|lia| |by eapply replaces_others|by eapply re_len].
    + eapply (replaces_winv t t' s s'); try done; cbn [s' nb w_file w_free location size];
        [lia|lia|lia|unfold fin in *; lia| |rewrite Hfile2; lia].
      eapply (used_below_tail H t' (w_free s2) nb); [done|cbn; lia|cbn; unfold ADDR_LIMIT, USIZE_MAX in *; lia|].
      intros x Hx. rewrite Hfree2. intros [Hf|(k & b & Hb & Hxb)]; [by apply (Hnf1 x)|].
      destruct (Hsub _ _ Hb) as [Hb' _]. apply (wi_used _ _ Hw _ _ _ Hb' Hxb). apply Hfree1. by right.
    + eapply (replaces_overlaid t s s'); try done; [lia|cbn; unfold fin in *; fold n; lia|].
      fold n. fold fin. cbn [s' nb w_file location size]. rewrite Hfile2. intros x Hx.
      destruct (decide (offset <= x < fin)) as [Hin|Hnin].
      * replace (loc + (x - Z.min fk offset)) with (loc + fe + (x - offset)) by lia.
        rewrite Hc2 by (unfold fin in *; lia). apply buff_lookup. fold n. unfold fin in *. lia.
      * destruct (decide (x < offset)).
        -- rewrite Hc1 by lia. exists fk, fb. split; [done|]. split; [lia|]. f_equal. lia.
        -- replace (loc + (x - Z.min fk offset)) with (loc + fe + n + (x - fin)) by (unfold fin; lia).
           rewrite Hc3 by (unfold fin in *; lia). exists lk, lb. split; [done|].
           split; [unfold fin in *; lia|]. f_equal. lia.
Qed.

(** ** All of [encode_write] *)
Lemma write_data_spec t s offset buff :
  winv t s -> 0 <= offset -> 0 < zlen buff -> offset + zlen buff <= ext < ADDR_LIMIT ->
  t + 2 * ext < ADDR_LIMIT ->
  exists s', write_data offset buff s = (Ok tt, s') /\
    wrote s s' offset buff (t + 2 * ext).
Proof.
  intros Hw Ho Hn Hol Hlim.
  pose proof (overlapping_meets t s offset (zlen buff) Hw Ho Hn Hol) as Hm.
  assert (0 <= t) as Ht0.
  { pose proof (wi_free _ _ Hw) as Hf. pose proof (wf_H _ _ _ Hf).
    destruct (wf_tail _ _ _ Hf) as (v & Hin & _). pose proof (wf_entry _ _ _ Hf _ _ Hin). lia. }
  assert (forall t' s1, winv t' s1 -> t' <= t + zlen buff -> w_data s1 = w_data s ->
    w_file s1 = w_file s ->
    let ov := trim_last (trim_first (overlapping (w_data s) offset (zlen buff)) offset)
                (offset + zlen buff) in
    exists s', (match head ov, last ov with
      | Some first, Some last => write_merged ov first last offset buff
      | _, _ => block ← w_alloc (zlen buff) None; _ ← w_write buff (location block);
                w_insert offset block
      end) s1 = (Ok tt, s') /\ wrote s s' offset buff (t + 2 * ext)) as Hgen.
  { intros t' s1 Hw1 Ht' Hd1 Hf1 ov.
    assert (meets s1 offset (offset + zlen buff) ov) as Hm1.
    { apply trim_last_meets, (trim_first_meets s1 t'); [done|].
      destruct Hm as [? ? ?]. constructor; rewrite ?Hd1; done. }
    assert (forall s' m, m <= t + 2 * ext -> wrote s1 s' offset buff m ->
      wrote s s' offset buff (t + 2 * ext)) as Hweak.
    { intros s' m Hmm (t2 & ? & ? & Hov & Hoth & Hlen). exists t2.
      split_and!; [done|lia|..|by rewrite <- Hf1].
      - intros x v. rewrite (Hov x v). unfold holds. by rewrite Hd1, Hf1.
      - intros x Hx. rewrite (Hoth x Hx). by rewrite Hf1. }
    destruct (head ov) as [[fk fb]|] eqn:Eh, (last ov) as [[lk lb]|] eqn:El.
    - destruct (write_merged_spec t' s1 ov fk fb lk lb offset buff) as (s' & He & Hwr); try done; [lia|].
      exists s'. split; [done|]. eapply Hweak; [|exact Hwr]. lia.
    - apply last_None in El. by rewrite El in Eh.
    - by destruct ov.
    - apply last_None in El. rewrite El in Hm1.
      destruct (write_fresh_spec t' s1 offset buff) as (s' & He & Hwr); try done; [lia|].
      exists s'. split; [done|]. eapply Hweak; [|exact Hwr]. lia. }
  unfold write_data. munfold. rewrite u64_small by (unfold ADDR_LIMIT in *; lia).
  destruct (overlapping (w_data s) offset (zlen buff)) as [|[k b] [|e ov]] eqn:Eov.
  1, 3: by apply (Hgen t s); [done|lia|..].
  destruct (me_sub _ _ _ _ Hm k b ltac:(by left)) as [Hb _].
  destruct (write_single_spec t s k b offset buff Hw Hb Ho Hn Hm Hol) as (r & s1 & Hs1 & Hr); [lia|].
  rewrite Hs1. destruct r.
  - exists s1. split; [done|]. destruct Hr as (t' & ? & ? & ? & ? & ?). exists t'. split_and!; try done. lia.
  - destruct Hr as (t' & Hw1 & Ht' & Hd1 & Hf1). by apply (Hgen t' s1).
Qed.

End Write.
