(* ===== verification/SnapshotInv.v ===== *)
(** * The snapshot's invariant

    [sinv t s]: the blocks of all files of the snapshot [s] are disjoint and
    hold no free byte; the free list is well formed. Every merged call but
    [link] keeps it. *)

From stdpp Require Import base list numbers option strings.
From Stdlib Require Import ZArith Lia.
From S2P Require Import Prelude Common BTree Filestore Store Snapshot SnapshotAlloc SnapshotWrite.

Local Open Scope Z_scope.

(** ** Definitions *)
Section Invariant.
(** [H] is where the blocks start, [ext] bounds where writes end. *)
Context (H ext : Z).

Definition file_blocks (s : Snapshot) (p : path) (d : DataList) : Prop :=
  exists f, (p, f) ∈ sn_files s /\ f_blocks f = Some d.

Definition used_by (s : Snapshot) (p : path) (x : Z) : Prop :=
  exists d, file_blocks s p d /\ in_blocks d x.

Definition others_of (s : Snapshot) (p : path) (x : Z) : Prop :=
  exists p', p' <> p /\ used_by s p' x.

Definition blocks_of (s : Snapshot) (d : DataList) : wstate :=
  mk_wstate (sn_free_list s) d (sn_serialised s).

Record sinv (t : Z) (s : Snapshot) : Prop := mk_sinv {
  si_sorted : bt_sorted (sn_files s);
  si_free : wf_free H t (sn_free_list s);
  si_file : forall p d, file_blocks s p d -> winv H ext (others_of s p) t (blocks_of s d) }.

(** Byte [v] at offset [x] of file [p]. *)
Definition sn_holds (s : Snapshot) (p : path) (x v : Z) : Prop :=
  exists d, file_blocks s p d /\ holds (blocks_of s d) x v.

(** ** Weakening the invariant of one file *)

(** Blocks may go or be cut at their end, bytes that nobody uses may be freed,
    and other files may lose bytes. *)
Lemma winv_release (oth oth' : Z -> Prop) t t' s fl' d' :
  winv H ext oth t s -> t < ADDR_LIMIT -> wf_free H t' fl' -> bt_sorted d' ->
  (forall k b, (k, b) ∈ d' -> exists b0, (k, b0) ∈ w_data s /\
     location b = location b0 /\ 0 < size b <= size b0) ->
  (forall x, oth' x -> oth x) ->
  (forall x, free fl' x -> oth' x \/ in_blocks d' x -> free (w_free s) x) ->
  winv H ext oth' t' (mk_wstate fl' d' (w_file s)).
Proof.
  intros Hw Hlim Hwf Hs Hsub Hoth Hfree. pose proof (wf_H _ _ _ Hwf).
  assert (forall k b b0 x, location b = location b0 -> 0 < size b <= size b0 ->
    in_block b x -> (k, b0) ∈ w_data s -> in_block b0 x) as Hin
    by (unfold in_block; intros; lia).
  assert (forall k b x, (k, b) ∈ d' -> in_block b x -> ~ free fl' x) as Hused.
  { intros k b x Hb Hx Hf. destruct (Hsub _ _ Hb) as (b0 & Hb0 & Hl & Hsz).
    apply (wi_used _ _ _ _ _ Hw k b0 x Hb0 (Hin _ _ _ _ Hl Hsz Hx Hb0)).
    apply Hfree; [done|]. right. by exists k, b. }
  constructor; cbn [w_free w_data w_file]; try done.
  - intros k b Hb. destruct (Hsub _ _ Hb) as (b0 & Hb0 & Hl & Hsz).
    destruct (wi_block _ _ _ _ _ Hw _ _ Hb0) as (? & ? & ? & ? & ? & ?). split_and!; try lia.
    eapply used_below_tail; [exact Hwf|lia|unfold ADDR_LIMIT, USIZE_MAX in *; lia|].
    intros x Hx. by eapply Hused.
  - intros k b k' b' Hb Hb' Hlt. destruct (Hsub _ _ Hb) as (b0 & Hb0 & Hl & Hsz).
    destruct (Hsub _ _ Hb') as (b1 & Hb1 & _). pose proof (wi_logical _ _ _ _ _ Hw _ _ _ _ Hb0 Hb1 Hlt). lia.
  - intros k b k' b' x Hb Hb' Hne Hx Hx'. destruct (Hsub _ _ Hb) as (b0 & Hb0 & Hl & Hsz).
    destruct (Hsub _ _ Hb') as (b1 & Hb1 & Hl1 & Hsz1).
    by apply (wi_physical _ _ _ _ _ Hw k b0 k' b1 x Hb0 Hb1 Hne); eauto.
  - intros x Hx. destruct (wi_others _ _ _ _ _ Hw x (Hoth _ Hx)) as (Hr & Hnf & Hno).
    assert (~ free fl' x) as Hnf' by (intros Hf; apply Hnf, Hfree; [done|by left]).
    split_and!; [lia| |done|].
    + destruct (decide (x < t')); [done|]. destruct Hnf'. eapply free_above_tail; [exact Hwf|].
      unfold ADDR_LIMIT, USIZE_MAX in *. lia.
    + intros k b Hb Hx'. destruct (Hsub _ _ Hb) as (b0 & Hb0 & Hl & Hsz).
      by apply (Hno k b0 Hb0); eauto.
Qed.

(** A file without blocks. *)
Lemma winv_nil oth t fl f :
  wf_free H t fl -> (forall x, oth x -> H <= x < t /\ ~ free fl x) -> winv H ext oth t (mk_wstate fl [] f).
Proof.
  intros Hwf Ho. constructor; cbn [w_free w_data w_file]; try done;
    try (intros; match goal with Hb : _ ∈ [] |- _ => by inv Hb end).
  - constructor.
  - intros x Hx. destruct (Ho x Hx) as [[? ?] ?]. split_and!; try done. intros k b Hb. by inv Hb.
Qed.

Lemma winv_others_ext (oth oth' : Z -> Prop) t s :
  winv H ext oth t s -> (forall x, oth' x -> oth x) -> winv H ext oth' t s.
Proof. intros [] Ho. constructor; auto. Qed.

(** The bytes of the other files are used. *)
Lemma others_used t s p x :
  sinv t s -> others_of s p x -> H <= x < t /\ ~ free (sn_free_list s) x.
Proof.
  intros Hs (p' & Hne & d & Hd & k & b & Hb & Hx). pose proof (si_file _ _ Hs _ _ Hd) as Hw.
  destruct (wi_block _ _ _ _ _ Hw _ _ Hb) as (? & ? & ? & ? & ? & ?).
  split; [unfold in_block in Hx; lia|]. by apply (wi_used _ _ _ _ _ Hw k b x).
Qed.

(** The blocks of a file, or of the empty file that [get_or_open] makes. *)
Lemma get_or_open_winv t s p d :
  sinv t s -> f_blocks (get_or_open (sn_files s) p) = Some d ->
  winv H ext (others_of s p) t (blocks_of s d).
Proof.
  intros Hs Hd. unfold get_or_open in Hd. destruct (bt_get p (sn_files s)) as [f|] eqn:E.
  - apply (si_file _ _ Hs). exists f. split; [|done]. by apply bt_get_elem; [apply Hs|].
  - inv Hd. apply winv_nil; [apply Hs|]. intros x Hx. by eapply others_used.
Qed.

Lemma get_or_open_holds t s p d x v :
  sinv t s -> f_blocks (get_or_open (sn_files s) p) = Some d ->
  sn_holds s p x v <-> holds (blocks_of s d) x v.
Proof.
  intros Hs Hd. pose proof (si_sorted _ _ Hs) as Hsort. unfold get_or_open in Hd.
  destruct (bt_get p (sn_files s)) as [f|] eqn:E.
  - apply bt_get_elem in E; [|done]. split; [|intros Hh; exists d; split; [by exists f|done]].
    intros (d' & (f' & Hf' & Hd') & Hh). rewrite (bt_elem_unique _ _ _ _ Hsort Hf' E) in Hd'. congruence.
  - inv Hd. split; [|intros (k & b & Hb & _); by inv Hb].
    intros (d' & (f' & Hf' & _) & _). by apply (proj1 (bt_get_None _ _ Hsort) E) in Hf'.
Qed.

(** ** Changing one file *)
Definition new_blocks_ok (oth : Z -> Prop) (t : Z) (fl : FreeList) (f : file)
  (od : option DataList) : Prop :=
  match od with
  | Some d => winv H ext oth t (mk_wstate fl d f)
  | None => wf_free H t fl /\ forall x, oth x -> H <= x < t /\ ~ free fl x
  end.

Lemma new_blocks_free oth t fl f od :
  new_blocks_ok oth t fl f od ->
  wf_free H t fl /\ forall x, oth x -> H <= x < t /\ ~ free fl x.
Proof.
  destruct od as [d|]; [|done]. intros Hw. split; [apply Hw|].
  intros x Hx. by destruct (wi_others _ _ _ _ _ Hw x Hx) as (? & ? & _).
Qed.

Lemma sinv_update t t' s s' p od :
  sinv t s -> bt_sorted (sn_files s') ->
  (forall p' d, p' <> p -> file_blocks s' p' d <-> file_blocks s p' d) ->
  (forall d, file_blocks s' p d -> od = Some d) ->
  f_len (sn_serialised s) <= f_len (sn_serialised s') ->
  new_blocks_ok (others_of s p) t' (sn_free_list s') (sn_serialised s') od ->
  sinv t' s'.
Proof.
  intros Hs Hsort Hother Hp Hlen Hnew.
  destruct (new_blocks_free _ _ _ _ _ Hnew) as [Hwf Hoth].
  constructor; [done|done|]. intros p' d Hd. destruct (decide (p' = p)) as [->|Hne].
  - pose proof (Hp d Hd) as ->. eapply winv_others_ext; [exact Hnew|].
    intros x (p' & Hne & d' & Hd' & Hx). exists p'. split; [done|]. exists d'.
    split; [by apply Hother|done].
  - apply Hother in Hd; [|done]. pose proof (si_file _ _ Hs _ _ Hd) as Hw.
    assert (forall k b x, (k, b) ∈ d -> in_block b x -> others_of s p x) as Hin.
    { intros k b x Hb Hx. exists p'. split; [done|]. exists d. split; [done|]. by exists k, b. }
    constructor; cbn [blocks_of w_free w_data w_file]; [done|apply Hw| |apply Hw|apply Hw|..].
    + intros k b Hb. destruct (wi_block _ _ _ _ _ Hw _ _ Hb) as (? & ? & ? & ? & ? & ?).
      cbn in *. split_and!; try lia.
      destruct (Hoth (location b + size b - 1)); [apply (Hin k b); [done|unfold in_block; lia]|]. lia.
    + intros k b x Hb Hx. by destruct (Hoth x (Hin _ _ _ Hb Hx)).
    + intros x (p'' & Hne' & d' & Hd' & Hx). destruct (decide (p'' = p)) as [->|Hne''].
      * pose proof (Hp d' Hd') as ->. cbn in Hnew. destruct Hx as (k & b & Hb & Hx).
        destruct (wi_block _ _ _ _ _ Hnew _ _ Hb) as (? & ? & ? & ? & ? & ?).
        split_and!; [unfold in_block in Hx; lia..|by apply (wi_used _ _ _ _ _ Hnew k b x)|].
        intros k' b' Hb' Hx'. destruct (wi_others _ _ _ _ _ Hnew x (Hin _ _ _ Hb' Hx')) as (_ & _ & Hno).
        by apply (Hno k b).
      * apply Hother in Hd'; [|done].
        assert (others_of s p x) as Ho by (exists p''; split; [done|]; by exists d').
        destruct (Hoth x Ho) as [[? ?] ?]. split_and!; try done.
        assert (others_of s p' x) as Ho' by (exists p''; split; [done|]; by exists d').
        by destruct (wi_others _ _ _ _ _ Hw x Ho') as (_ & _ & Hno).
Qed.

(** Replacing the record of one path. *)
Lemma file_blocks_insert s p f p' d h ser fl :
  bt_sorted (sn_files s) ->
  file_blocks (mk_Snapshot h (bt_insert p f (sn_files s)) ser fl) p' d <->
  (p' = p /\ f_blocks f = Some d) \/ (p' <> p /\ file_blocks s p' d).
Proof.
  intros Hs. unfold file_blocks. cbn [sn_files]. split.
  - intros (f' & Hin & Hd). apply bt_insert_elem in Hin as [[-> ->]|[Hne Hin]]; [by left| |done].
    right. split; [done|]. by exists f'.
  - intros [[-> Hd]|[Hne (f' & Hin & Hd)]]; [exists f|exists f'];
      (split; [apply bt_insert_elem; [done|]|done]); [by left|by right].
Qed.

Lemma file_blocks_remove s p p' d h ser fl :
  bt_sorted (sn_files s) ->
  file_blocks (mk_Snapshot h (bt_remove p (sn_files s)) ser fl) p' d <->
  p' <> p /\ file_blocks s p' d.
Proof.
  intros Hs. unfold file_blocks. cbn [sn_files]. split.
  - intros (f' & Hin & Hd). apply bt_remove_elem in Hin as [Hne Hin]; [|done].
    split; [done|]. by exists f'.
  - intros [Hne (f' & Hin & Hd)]. exists f'. split; [by apply bt_remove_elem|done].
Qed.

Lemma sinv_insert t t' s p f h ser fl :
  sinv t s -> f_len (sn_serialised s) <= f_len ser ->
  new_blocks_ok (others_of s p) t' fl ser (f_blocks f) ->
  sinv t' (mk_Snapshot h (bt_insert p f (sn_files s)) ser fl).
Proof.
  intros Hs Hlen Hnew. eapply (sinv_update t t' s _ p (f_blocks f)); try done.
  - apply bt_insert_sorted, Hs.
  - intros p' d Hne. rewrite file_blocks_insert by apply Hs. split; [|by right].
    intros [[? _]|[_ ?]]; done.
  - intros d Hd. apply file_blocks_insert in Hd as [[_ ?]|[? _]]; [done|done|apply Hs].
Qed.

Lemma sinv_remove t t' s p h fl :
  sinv t s -> new_blocks_ok (others_of s p) t' fl (sn_serialised s) None ->
  sinv t' (mk_Snapshot h (bt_remove p (sn_files s)) (sn_serialised s) fl).
Proof.
  intros Hs Hnew. eapply (sinv_update t t' s _ p None); try done.
  - apply bt_remove_sorted, Hs.
  - intros p' d Hne. rewrite file_blocks_remove by apply Hs. split; [by intros [_ ?]|done].
  - intros d Hd. by apply file_blocks_remove in Hd as [? _]; [|apply Hs].
Qed.

(** ** Writes *)

(** A write keeps the invariant, changes the contents of its file as a write
    does and leaves every other file's contents alone. *)
Lemma encode_write_sinv t s p offset buff d :
  sinv t s -> f_blocks (get_or_open (sn_files s) p) = Some d ->
  0 <= offset -> 0 < zlen buff -> offset + zlen buff <= ext < ADDR_LIMIT ->
  t + 2 * ext < ADDR_LIMIT ->
  exists t' s', encode_write p offset buff s = (Ok tt, s') /\
    sinv t' s' /\ t' <= t + 2 * ext /\
    (forall x v, sn_holds s' p x v <->
       if decide (offset <= x < offset + zlen buff) then buff !! Z.to_nat (x - offset) = Some v
       else sn_holds s p x v) /\
    (forall p' x v, p' <> p -> sn_holds s' p' x v <-> sn_holds s p' x v).
Proof.
  intros Hs Hd Ho Hn Hol Hlim. pose proof (get_or_open_winv t s p d Hs Hd) as Hw.
  destruct (write_data_spec H ext (others_of s p) t (blocks_of s d) offset buff Hw Ho Hn Hol Hlim)
    as (w & Hwd & t' & Hw' & Ht' & Hov & Hoth & Hlen).
  unfold encode_write. rewrite Hd. change (mk_wstate _ d _) with (blocks_of s d). rewrite Hwd.
  exists t'. eexists. split; [reflexivity|]. split.
  { apply (sinv_insert t); [done|done|]. cbn. by destruct w. }
  split; [done|].
  assert (forall p' x v, p' <> p -> forall d', file_blocks s p' d' ->
    holds (mk_wstate (w_free w) d' (w_file w)) x v <-> holds (blocks_of s d') x v) as Hkeep.
  { intros p' x v Hne d' Hd'. unfold holds. cbn [w_data w_file blocks_of].
    split; intros (k & b & Hb & Hx & Hv); exists k, b; (split; [done|]); (split; [done|]);
      rewrite <- Hv; [symmetry|]; apply Hoth; exists p'; (split; [done|]); exists d';
      (split; [done|]); exists k, b; (split; [done|]); unfold in_block; lia. }
  split.
  - intros x v. transitivity (holds w x v).
    2: { pose proof (get_or_open_holds t s p d x v Hs Hd). specialize (Hov x v).
         destruct (decide _); tauto. }
    unfold sn_holds. split.
    + intros (d' & Hd' & Hh). apply file_blocks_insert in Hd' as [[_ [= <-]]|[? _]]; [|done|apply Hs].
      by destruct w.
    + intros Hh. exists (w_data w). split; [|by destruct w].
      apply file_blocks_insert; [apply Hs|]. by left.
  - intros p' x v Hne. unfold sn_holds. split.
    + intros (d' & Hd' & Hh). apply file_blocks_insert in Hd' as [[? _]|[_ Hd']]; [done| |apply Hs].
      exists d'. split; [done|]. by apply (Hkeep p').
    + intros (d' & Hd' & Hh). exists d'. split; [apply file_blocks_insert; [apply Hs|]; by right|].
      by apply (Hkeep p').
Qed.

(** ** Freeing blocks *)

(** A sorted part of the blocks of a file is freed. *)
Lemma deallocate_all_spec oth (l : DataList) : forall t fl d f,
  winv H ext oth t (mk_wstate fl d f) -> t < ADDR_LIMIT -> bt_sorted l ->
  (forall k b, (k, b) ∈ l -> (k, b) ∈ d) ->
  exists t', wf_free H t' (deallocate_all (snd <$> l) fl) /\ t' <= t /\
    forall x, free (deallocate_all (snd <$> l) fl) x <-> free fl x \/ in_blocks l x.
Proof.
  induction l as [|[k b] l IH]; intros t fl d f Hw Hlim Hs Hsub.
  { exists t. split_and!; [apply Hw|done|]. intros x. split; [by left|].
    intros [?|(? & ? & Hb & _)]; [done|by inv Hb]. }
  pose proof (Hsub k b ltac:(by left)) as Hb. apply sorted_cons_inv in Hs as [Hs Hkey].
  destruct (wi_block _ _ _ _ _ Hw _ _ Hb) as (? & ? & ? & ? & ? & ?).
  destruct (deallocate_spec H t fl b) as (t1 & Hwf1 & Ht1 & Hf1); try done; [apply Hw|..].
  { intros x Hx. by apply (wi_used _ _ _ _ _ Hw k b x). }
  assert (winv H ext oth t1 (mk_wstate (deallocate b fl) (bt_remove k d) f)) as Hw1.
  { eapply (winv_release oth oth t t1 (mk_wstate fl d f)); try done;
      [apply bt_remove_sorted, Hw|..]; cbn [w_free w_data w_file].
    - intros k' b' Hin. apply bt_remove_elem in Hin as [_ Hin]; [|apply Hw]. exists b'.
      split; [done|]. destruct (wi_block _ _ _ _ _ Hw _ _ Hin) as (? & ? & _). lia.
    - intros x Hf Hor. apply Hf1 in Hf as [?|Hx]; [done|]. exfalso. destruct Hor as [Ho|(k' & b' & Hb' & Hx')].
      + destruct (wi_others _ _ _ _ _ Hw x Ho) as (_ & _ & Hno). by apply (Hno k b).
      + apply bt_remove_elem in Hb' as [Hne Hb']; [|apply Hw].
        by apply (wi_physical _ _ _ _ _ Hw k' b' k b x). }
  destruct (IH t1 _ _ _ Hw1) as (t' & Hwf' & Ht' & Hf'); [lia|done|..].
  { intros k' b' Hin. apply bt_remove_elem; [apply Hw|]. split; [|apply Hsub; by right].
    intros ->. pose proof (Hkey _ _ Hin) as Hlt. by apply key_lt_irrefl in Hlt. }
  exists t'. cbn [fmap list_fmap snd deallocate_all foldl]. split_and!; [done|lia|].
  intros x. rewrite Hf', Hf1. split.
  - intros [[?|?]|(k' & b' & Hb' & Hx)]; [by left|right; exists k, b; by split; [left|]|].
    right. exists k', b'. split; [by right|done].
  - intros [?|(k' & b' & Hb' & Hx)]; [by left; left|].
    apply elem_of_cons in Hb' as [[= -> ->]|Hb']; [by left; right|]. right. by exists k', b'.
Qed.

(** A path whose blocks are freed no longer uses anything. *)
Lemma free_blocks_ok t s p :
  sinv t s -> t < ADDR_LIMIT ->
  exists t', t' <= t /\ wf_free H t' (sn_free_list (free_blocks (bt_get p (sn_files s)) s)) /\
    forall x, free (sn_free_list (free_blocks (bt_get p (sn_files s)) s)) x <->
      free (sn_free_list s) x \/ used_by s p x.
Proof.
  intros Hs Hlim. pose proof (si_sorted _ _ Hs) as Hsort.
  assert (forall d, f_blocks <$> bt_get p (sn_files s) = Some (Some d) -> file_blocks s p d) as Hget.
  { intros d Hd. destruct (bt_get p (sn_files s)) as [f|] eqn:E; [|done]. exists f.
    split; [by apply bt_get_elem|]. by inv Hd. }
  assert ((forall d, ~ file_blocks s p d) -> exists t', t' <= t /\
    wf_free H t' (sn_free_list s) /\ forall x, free (sn_free_list s) x <->
      free (sn_free_list s) x \/ used_by s p x) as Hnone.
  { intros Hno. exists t. split_and!; [done|apply Hs|]. intros x. split; [by left|].
    intros [?|(d & Hd & _)]; [done|by destruct (Hno d)]. }
  destruct (bt_get p (sn_files s)) as [f|] eqn:E; cbn [free_blocks].
  2: { apply Hnone. intros d (f & Hf & _). by apply (proj1 (bt_get_None _ _ Hsort) E) in Hf. }
  apply bt_get_elem in E; [|done].
  destruct (f_blocks f) as [d|] eqn:Ed.
  2: { apply Hnone. intros d (f' & Hf' & Hd). rewrite (bt_elem_unique _ _ _ _ Hsort Hf' E) in Hd.
       congruence. }
  assert (file_blocks s p d) as Hd by (by exists f). pose proof (si_file _ _ Hs _ _ Hd) as Hw.
  destruct (deallocate_all_spec (others_of s p) d t _ _ _ Hw Hlim) as (t' & Hwf & Ht' & Hf);
    [apply Hw|done|]. exists t'. cbn [sn_free_list]. split_and!; [done|done|].
  intros x. rewrite Hf. split; (intros [?|Hx]; [by left|right]).
  - by exists d.
  - destruct Hx as (d' & (f' & Hf' & Hd') & Hx).
    rewrite (bt_elem_unique _ _ _ _ Hsort Hf' E) in Hd'. congruence.
Qed.

Lemma used_by_apart t s p x : sinv t s -> others_of s p x -> ~ used_by s p x.
Proof.
  intros Hs Ho (d & Hd & k & b & Hb & Hx). pose proof (si_file _ _ Hs _ _ Hd) as Hw.
  destruct (wi_others _ _ _ _ _ Hw x Ho) as (_ & _ & Hno). by apply (Hno k b).
Qed.

(** A tail below which every other file's bytes lie. *)
Lemma others_below t t' fl x :
  wf_free H t' fl -> t < ADDR_LIMIT -> H <= x < t -> ~ free fl x -> H <= x < t' /\ ~ free fl x.
Proof.
  intros Hwf Hlim Hx Hnf. split; [|done]. destruct (decide (x < t')); [lia|]. destruct Hnf.
  eapply free_above_tail; [exact Hwf|]. unfold ADDR_LIMIT, USIZE_MAX in *.
  pose proof (wf_H _ _ _ Hwf). lia.
Qed.

Lemma merge_unlink_sinv t s p :
  sinv t s -> t < ADDR_LIMIT ->
  exists t' s', merge_unlink p s = (Ok tt, s') /\ sinv t' s' /\ t' <= t /\
    (forall p' d, file_blocks s' p' d <-> p' <> p /\ file_blocks s p' d).
Proof.
  intros Hs Hlim. destruct (free_blocks_ok t s p Hs Hlim) as (t' & Ht' & Hwf & Hf).
  set (fl := sn_free_list (free_blocks (bt_get p (sn_files s)) s)) in *.
  exists t', (mk_Snapshot (sn_header s) (bt_remove p (sn_files s)) (sn_serialised s) fl).
  split.
  { unfold merge_unlink, modify, free_blocks, remove_file, fl, free_blocks. cbn.
    destruct (bt_get p (sn_files s)) as [f|]; [destruct (f_blocks f)|]; reflexivity. }
  split_and!; [|done|intros; apply file_blocks_remove, Hs].
  apply (sinv_remove t); [done|]. split; [done|]. intros x Hx.
  destruct (others_used t s p x Hs Hx) as [Hr Hnf].
  apply (others_below t); try done. rewrite Hf. intros [?|Hu]; [done|].
  by apply (used_by_apart t s p x).
Qed.

(** ** Truncation *)
Lemma filter_elem {A} (P : A -> bool) (l : list A) x : x ∈ List.filter P l <-> x ∈ l /\ P x = true.
Proof. by rewrite !list_elem_of_In, filter_In. Qed.

(** Freeing the blocks from [sz] on. *)
Lemma drop_blocks_spec oth t fl d f sz :
  winv H ext oth t (mk_wstate fl d f) -> t < ADDR_LIMIT ->
  let kept := List.filter (fun e => fst e <? sz) d in
  let fl' := deallocate_all (snd <$> List.filter (fun e => negb (fst e <? sz)) d) fl in
  exists t', t' <= t /\ winv H ext oth t' (mk_wstate fl' kept f).
Proof.
  intros Hw Hlim kept fl'. set (gone := List.filter (fun e => negb (fst e <? sz)) d).
  assert (forall k b, (k, b) ∈ gone <-> (k, b) ∈ d /\ sz <= k) as Hgone.
  { intros k b. unfold gone. rewrite filter_elem. cbn. split; intros [? ?]; split; try done; lia. }
  assert (forall k b, (k, b) ∈ kept <-> (k, b) ∈ d /\ k < sz) as Hkept.
  { intros k b. unfold kept. rewrite filter_elem. cbn. split; intros [? ?]; split; try done; lia. }
  destruct (deallocate_all_spec oth gone t fl d f Hw Hlim) as (t' & Hwf & Ht' & Hf).
  { apply bt_sorted_filter, Hw. }
  { intros k b. by intros [? _]%Hgone. }
  exists t'. split; [done|].
  apply (winv_release oth oth t t' (mk_wstate fl d f)); cbn [w_free w_data w_file]; try done.
  - apply bt_sorted_filter, Hw.
  - intros k b [Hb _]%Hkept. exists b. split; [done|].
    destruct (wi_block _ _ _ _ _ Hw _ _ Hb) as (? & ? & _). lia.
  - intros x Hx Hor. apply Hf in Hx as [?|(k & b & Hb & Hx)]; [done|]. exfalso.
    apply Hgone in Hb as [Hb Hk]. destruct Hor as [Ho|(k' & b' & Hb' & Hx')].
    + destruct (wi_others _ _ _ _ _ Hw x Ho) as (_ & _ & Hno). by apply (Hno k b).
    + apply Hkept in Hb' as [Hb' Hk']. apply (wi_physical _ _ _ _ _ Hw k b k' b' x); try done. lia.
Qed.

(** Cutting one block at [sz]. *)
Lemma cut_block_spec oth t fl d f sz k b :
  winv H ext oth t (mk_wstate fl d f) -> t < ADDR_LIMIT -> (k, b) ∈ d ->
  k < sz < k + size b ->
  let cut := mk_Block (location b + (sz - k)) (k + size b - sz) in
  exists t', t' <= t /\
    winv H ext oth t' (mk_wstate (deallocate cut fl) (bt_insert k (mk_Block (location b) (sz - k)) d) f).
Proof.
  intros Hw Hlim Hb Hsz cut. destruct (wi_block _ _ _ _ _ Hw _ _ Hb) as (? & ? & ? & ? & ? & ?).
  assert (forall x, in_block cut x -> in_block b x) as Hcut by (unfold cut, in_block; cbn; lia).
  destruct (deallocate_spec H t fl cut) as (t' & Hwf & Ht' & Hf);
    [apply Hw|done|cbn; lia|cbn; lia|cbn; lia|..].
  { intros x Hx. apply (wi_used _ _ _ _ _ Hw k b x); [done|by apply Hcut]. }
  exists t'. split; [done|].
  apply (winv_release oth oth t t' (mk_wstate fl d f)); cbn [w_free w_data w_file]; try done.
  - apply bt_insert_sorted, Hw.
  - intros k' b' Hb'. apply bt_insert_elem in Hb' as [[-> ->]|[Hne Hb']]; [|..|apply Hw].
    + exists b. split; [done|]. cbn. lia.
    + exists b'. split; [done|]. destruct (wi_block _ _ _ _ _ Hw _ _ Hb') as (? & ? & _). lia.
  - intros x Hx Hor. apply Hf in Hx as [?|Hx]; [done|]. exfalso. destruct Hor as [Ho|(k' & b' & Hb' & Hx')].
    + destruct (wi_others _ _ _ _ _ Hw x Ho) as (_ & _ & Hno). apply (Hno k b); [done|by apply Hcut].
    + apply bt_insert_elem in Hb' as [[-> ->]|[Hne Hb']]; [|..|apply Hw].
      * unfold cut, in_block in *. cbn in *. lia.
      * apply (wi_physical _ _ _ _ _ Hw k' b' k b x); try done. by apply Hcut.
Qed.

Lemma truncate_blocks_spec oth t fl d f sz :
  winv H ext oth t (mk_wstate fl d f) -> t < ADDR_LIMIT -> 0 <= sz < 2 ^ 63 ->
  let r := truncate_blocks d sz fl in
  exists t', t' <= t /\ winv H ext oth t' (mk_wstate (snd r) (fst r) f) /\
    forall x v, holds (mk_wstate (snd r) (fst r) f) x v <-> holds (mk_wstate fl d f) x v /\ x < sz.
Proof.
  intros Hw Hlim Hsz r. destruct (drop_blocks_spec oth t fl d f sz Hw Hlim) as (t1 & Ht1 & Hw1).
  unfold r, truncate_blocks. set (kept := List.filter (fun e => fst e <? sz) d) in *.
  assert (forall k b, (k, b) ∈ kept <-> (k, b) ∈ d /\ k < sz) as Hkept.
  { intros k b. unfold kept. rewrite filter_elem. cbn. split; intros [? ?]; split; try done; lia. }
  set (fl1 := deallocate_all _ fl) in *.
  destruct (last kept) as [[off b]|] eqn:El.
  2: { apply last_None in El. exists t1. split_and!; [done|done|]. intros x v. cbn [fst snd].
       unfold holds. cbn [w_data w_file]. split.
       - rewrite El. intros (k & b & Hb & _). by inv Hb.
       - intros [(k & b & Hb & Hx & Hv) Hlt]. exists k, b. split; [|done]. apply Hkept.
         split; [done|lia]. }
  destruct (bt_last_max _ _ _ (wi_sorted _ _ _ _ _ Hw1) El) as [Hb Hmax]. cbn [w_data] in *.
  destruct (wi_block _ _ _ _ _ Hw1 _ _ Hb) as (? & ? & ? & ? & ? & ?).
  apply Hkept in Hb as Hb'. destruct Hb' as [Hbd Hoff].
  assert (forall k b', (k, b') ∈ kept -> k <> off -> k + size b' <= off) as Hbelow.
  { intros k b' Hin Hne. destruct (Hmax _ _ Hin) as [?|Hlt]; [done|]. apply key_lt_Z in Hlt.
    by apply (wi_logical _ _ _ _ _ Hw1 _ _ _ _ Hin Hb). }
  pose proof (wf_H _ _ _ (wi_free _ _ _ _ _ Hw1)).
  rewrite !(u64_small (off + size b)) by (unfold ADDR_LIMIT in *; lia).
  destruct (sz <? off + size b) eqn:E; cbn [fst snd].
  - replace (size b - (off + size b - sz)) with (sz - off) by lia.
    rewrite !(u64_small (sz - off)) by (unfold ADDR_LIMIT in *; lia).
    rewrite u64_small by (unfold ADDR_LIMIT in *; lia).
    destruct (cut_block_spec oth t1 fl1 kept f sz off b Hw1) as (t2 & Ht2 & Hw2); [lia|done|lia|].
    exists t2. split_and!; [lia|done|]. intros x v. unfold holds. cbn [w_data w_file]. split.
    + intros (k & b' & Hin & Hx & Hv). apply bt_insert_elem in Hin as [[-> ->]|[Hne Hin]]; [|..|apply Hw1].
      * cbn in *. split; [|lia]. exists off, b. split; [done|]. split; [lia|done].
      * pose proof (Hbelow _ _ Hin Hne). split; [|lia]. exists k, b'. apply Hkept in Hin as [? _]. done.
    + intros [(k & b' & Hin & Hx & Hv) Hlt]. assert ((k, b') ∈ kept) as Hin' by (apply Hkept; split; [done|lia]).
      destruct (decide (k = off)) as [->|Hne].
      * rewrite (bt_elem_unique _ _ _ _ (wi_sorted _ _ _ _ _ Hw1) Hin' Hb) in *.
        exists off, (mk_Block (location b) (sz - off)).
        split; [apply bt_insert_elem; [apply Hw1|by left]|]. cbn. split; [lia|done].
      * exists k, b'. split; [apply bt_insert_elem; [apply Hw1|by right]|done].
  - exists t1. split_and!; [done|done|]. intros x v. unfold holds. cbn [w_data w_file]. split.
    + intros (k & b' & Hin & Hx & Hv). split; [exists k, b'; by apply Hkept in Hin as [? _]|].
      destruct (decide (k = off)) as [->|Hne]; [|pose proof (Hbelow _ _ Hin Hne); lia].
      pose proof (bt_elem_unique _ _ _ _ (wi_sorted _ _ _ _ _ Hw1) Hin Hb) as ->. lia.
    + intros [(k & b' & Hin & Hx & Hv) Hlt]. exists k, b'. split; [apply Hkept; split; [done|lia]|done].
Qed.

End Invariant.
