(* ===== verification/SnapshotMerge.v ===== *)
(** * What merging a call does to a snapshot

    [effect] is the reference: what a call does to the known bytes of every
    path, those below a directory that is renamed included. [merge_call] keeps
    the snapshot's invariant, and has that effect except for [link], for a
    difference, which is taken for the bytes themselves, and for a [rename]
    with known bytes below one of its names, which moves one path only
    ([call_flat]); [merge_from] does for a whole run. *)

From stdpp Require Import base list numbers option strings.
From Stdlib Require Import ZArith Lia.
From S2P Require Import Prelude Common BTree Filestore Store Snapshot SnapshotAlloc SnapshotWrite SnapshotInv.

Local Open Scope Z_scope.

(** ** The reference *)
Definition content : Type := path -> Z -> Z -> Prop.
Definition nothing : content := fun _ _ _ => False.

(** What is left of a path below another one. *)
Fixpoint comps_below (q p : list string) : option (list string) :=
  match q, p with
  | [], rest => Some rest
  | c :: q, c' :: p => if decide (c = c') then comps_below q p else None
  | _ :: _, [] => None
  end.
Definition below (q p : path) : option (list string) :=
  if decide (p_abs q = p_abs p) then comps_below (p_comps q) (p_comps p) else None.

Definition path_under (q : path) (rest : list string) : path := mk_path (p_abs q) (p_comps q ++ rest).

(** The bytes of a difference are known where those they are applied to are.
    A directory takes all that is below it along when it is renamed. *)
Definition effect (call : VFSCall) (m : content) : content := fun p x v =>
  match call with
  | write q offset buf =>
      if decide (p = q /\ offset <= x < offset + zlen buf) then buf !! Z.to_nat (x - offset) = Some v
      else m p x v
  | diff_write q offset buf =>
      if decide (p = q /\ offset <= x < offset + zlen buf)
      then exists old b, m p x old /\ buf !! Z.to_nat (x - offset) = Some b /\ v = Z.lxor old b
      else m p x v
  | truncate q sz => m p x v /\ (p = q -> x < sz)
  | rename from to _ =>
      match below to p, below from p with
      | Some rest, _ => m (path_under from rest) x v
      | None, Some _ => False
      | None, None => m p x v
      end
  | unlink q | rmdir q | create q _ _ _ => p <> q /\ m p x v
  | _ => m p x v
  end.

Definition effects (calls : list VFSCall) (m : content) : content :=
  foldl (fun m c => effect c m) m calls.

(** A path that is strictly below another one. *)
Definition strictly_below (q p : path) : bool :=
  match below q p with Some (_ :: _) => true | _ => false end.

(** Nothing is known below the two names of a [rename]: a file is renamed, or a
    directory without files the run has written. *)
Definition call_flat (call : VFSCall) (m : content) : Prop :=
  match call with
  | rename from to _ => forall p x v, m p x v -> strictly_below from p = false /\ strictly_below to p = false
  | _ => True
  end.

Fixpoint renames_flat (calls : list VFSCall) (m : content) : Prop :=
  match calls with
  | [] => True
  | c :: calls => call_flat c m /\ renames_flat calls (effect c m)
  end.

(** The calls the code asserts or panics on. *)
Definition refused (call : VFSCall) (s : Snapshot) : bool :=
  match call with
  | mknod p _ _ (Unix _ _) | mkdir p (Unix _ _) _ | symlink _ p (Unix _ _) =>
      match bt_get p (sn_files s) with Some _ => true | None => false end
  | write p _ _ | diff_write p _ _ =>
      match f_blocks (get_or_open (sn_files s) p) with Some _ => false | None => true end
  | rename _ _ _ | create _ _ (Unix _ _) _ | unlink _ | rmdir _ | security _ (Unix _ _) | chmod _ _
  | truncate _ _ | fallocate _ _ _ _ | setxattr _ _ _ _ | removexattr _ _ | utimens _ _
  | fsync _ _ => false
  | _ => true
  end.

(** The calls the theorems speak of: no [link], no difference, and writes that
    end below [ext]. *)
Definition call_ok (ext : Z) (call : VFSCall) : bool :=
  match call with
  | write _ offset buf => (0 <=? offset) && (0 <? zlen buf) && (offset + zlen buf <=? ext)
  | truncate _ sz => (0 <=? sz) && (sz <? 2 ^ 63)
  | link _ _ _ | diff_write _ _ _ => false
  | _ => true
  end.

#[export] Instance effect_ext call :
  Proper (pointwise_relation _ (pointwise_relation _ (pointwise_relation _ iff)) ==>
          pointwise_relation _ (pointwise_relation _ (pointwise_relation _ iff))) (effect call).
Proof.
  intros m m' Hm p x v.
  assert (forall q x v, m q x v <-> m' q x v) as Hq by (intros q y w; apply Hm).
  destruct call; cbn; repeat case_decide; repeat case_match; rewrite ?Hq; try done. by setoid_rewrite Hq.
Qed.

#[export] Instance effects_ext calls :
  Proper (pointwise_relation _ (pointwise_relation _ (pointwise_relation _ iff)) ==>
          pointwise_relation _ (pointwise_relation _ (pointwise_relation _ iff))) (effects calls).
Proof.
  unfold effects. induction calls as [|c calls IH]; intros m m' Hm; cbn; [done|].
  apply IH. by apply effect_ext.
Qed.

#[export] Instance call_flat_ext call :
  Proper (pointwise_relation _ (pointwise_relation _ (pointwise_relation _ iff)) ==> iff) (call_flat call).
Proof.
  intros m m' Hm. assert (forall q x v, m q x v <-> m' q x v) as Hq by (intros q y w; apply Hm).
  destruct call; cbn; try done. split; intros Hf p x v Hp; apply (Hf p x v); by apply Hq.
Qed.

#[export] Instance renames_flat_ext calls :
  Proper (pointwise_relation _ (pointwise_relation _ (pointwise_relation _ iff)) ==> iff) (renames_flat calls).
Proof.
  induction calls as [|c calls IH]; intros m m' Hm; cbn; [done|]. rewrite (IH _ _ (effect_ext c m m' Hm)). by rewrite (call_flat_ext c m m' Hm).
Qed.

Lemma comps_below_spec q : forall p rest, comps_below q p = Some rest <-> p = q ++ rest.
Proof.
  induction q as [|c q IH]; intros [|c' p] rest; cbn; try (split; congruence).
  case_decide; [subst c'; rewrite IH; split; congruence|split; congruence].
Qed.

Lemma below_spec q p rest : below q p = Some rest <-> p = path_under q rest.
Proof.
  unfold below, path_under. destruct p as [a l]. cbn. case_decide; [subst a; rewrite comps_below_spec; split; [by intros ->|by intros [= ->]]|].
  split; [done|]. intros [= Ha _]. congruence.
Qed.

Lemma path_under_nil q : path_under q [] = q.
Proof. unfold path_under. rewrite app_nil_r. by destruct q. Qed.

(** A rename with nothing known below its names concerns two paths. *)
Lemma effect_rename_flat from to fl m p x v : call_flat (rename from to fl) m ->
  effect (rename from to fl) m p x v <-> if decide (p = to) then m from x v else p <> from /\ m p x v.
Proof.
  intros Hf. cbn in *. assert (forall q rest, below q p = Some rest -> p = q \/ strictly_below q p = true) as Hb.
  { intros q [|c rest] E; [left; apply below_spec in E; by rewrite path_under_nil in E|right]. unfold strictly_below. by rewrite E. }
  destruct (below to p) as [rest|] eqn:Et.
  - apply below_spec in Et as E. destruct rest as [|c rest].
    { rewrite path_under_nil in E. subst p. by rewrite decide_True, path_under_nil. }
    rewrite decide_False. 2: { intros Ep. rewrite Ep in E. destruct to as [a l]. injection E as E. by apply (f_equal length) in E; rewrite length_app in E; cbn in E; lia. }
    split.
    + intros Hm. apply Hf in Hm as [Hm _]. unfold strictly_below in Hm. by rewrite (proj2 (below_spec from _ _) eq_refl) in Hm.
    + intros [_ Hm]. apply Hf in Hm as [_ Hm]. unfold strictly_below in Hm. by rewrite Et in Hm.
  - rewrite decide_False by (intros ->; by rewrite (proj2 (below_spec to to [])) in Et by (by rewrite path_under_nil)).
    destruct (below from p) as [rest|] eqn:Ef.
    + split; [done|]. intros [Hne Hm]. destruct (Hb from rest Ef) as [|Hs]; [done|]. apply Hf in Hm as [Hm _]. congruence.
    + split; [|tauto]. intros Hm. split; [|done]. intros ->. by rewrite (proj2 (below_spec from from [])) in Ef by (by rewrite path_under_nil).
Qed.

Section Merge.
Context (H ext : Z).
Local Abbreviation sinv := (sinv H ext).

Definition merged (call : VFSCall) (t : Z) (s : Snapshot) (r : outcome unit * Snapshot) : Prop :=
  fst r = Ok tt /\ exists t', sinv t' (snd r) /\ t' <= t + 2 * ext /\
    (call_flat call (sn_holds s) -> forall p x v, sn_holds (snd r) p x v <-> effect call (sn_holds s) p x v).

(** ** Replacing the record of a path *)
Lemma sn_holds_insert s p f h fl p' x v :
  bt_sorted (sn_files s) ->
  sn_holds (mk_Snapshot h (bt_insert p f (sn_files s)) (sn_serialised s) fl) p' x v <->
  if decide (p' = p) then exists d, f_blocks f = Some d /\ holds (mk_wstate fl d (sn_serialised s)) x v
  else sn_holds s p' x v.
Proof.
  intros Hs. unfold sn_holds. split.
  - intros (d & Hd & Hh). apply file_blocks_insert in Hd as [[-> Hd]|[Hne Hd]]; [|..|done].
    + rewrite decide_True by done. by exists d.
    + rewrite decide_False by done. by exists d.
  - destruct (decide (p' = p)) as [->|Hne]; intros (d & Hd & Hh); exists d; (split; [|done]);
      apply file_blocks_insert; try done; [by left|by right].
Qed.

(** A record whose blocks are those the path had. *)
Lemma set_file_same t s p f :
  sinv t s -> f_blocks f = f_blocks (get_or_open (sn_files s) p) ->
  sinv t (sn_set_file p f s) /\
  forall p' x v, sn_holds (sn_set_file p f s) p' x v <-> sn_holds s p' x v.
Proof.
  intros Hs Hf. split.
  - apply (sinv_insert H ext t); [done|done|]. destruct (f_blocks f) as [d|] eqn:E; cbn.
    + apply (get_or_open_winv H ext t s p d); done.
    + split; [apply Hs|]. intros x Hx. by apply (others_used H ext t s p).
  - intros p' x v. unfold sn_set_file. rewrite sn_holds_insert by apply Hs. case_decide; [subst p'|done].
    split.
    + intros (d & Hd & Hh). apply (get_or_open_holds H ext t s p d); [done|congruence|done].
    + intros Hh. destruct (f_blocks f) as [d|] eqn:E.
      * exists d. split; [done|]. by apply (get_or_open_holds H ext t s p d) in Hh.
      * exfalso. destruct Hh as (d & (f' & Hin & Hd) & _). unfold get_or_open in Hf.
        apply bt_get_elem in Hin; [|apply Hs]. rewrite Hin in Hf. congruence.
Qed.

(** A record without blocks, or with an empty list of them. *)
Lemma set_file_empty t s p f :
  sinv t s -> f_blocks f = None \/ f_blocks f = Some [] ->
  sinv t (sn_set_file p f s) /\
  forall p' x v, sn_holds (sn_set_file p f s) p' x v <-> p' <> p /\ sn_holds s p' x v.
Proof.
  intros Hs Hf. pose proof (fun x => others_used H ext t s p x Hs) as Ho. split.
  - apply (sinv_insert H ext t); [done|done|]. destruct Hf as [->| ->]; cbn.
    + split; [apply Hs|done].
    + apply winv_nil; [apply Hs|done].
  - intros p' x v. unfold sn_set_file. rewrite sn_holds_insert by apply Hs.
    case_decide; [subst p'|tauto]. split; [|tauto]. intros (d & Hd & k & b & Hb & _).
    destruct Hf as [Hf|Hf]; rewrite Hf in Hd; inv Hd. by inv Hb.
Qed.

Lemma absent_no_bytes t s p x v : sinv t s -> bt_get p (sn_files s) = None -> ~ sn_holds s p x v.
Proof.
  intros Hs Hn (d & (f & Hin & _) & _). by apply (proj1 (bt_get_None _ _ (si_sorted _ _ _ _ Hs)) Hn) in Hin.
Qed.

(** ** One call *)
Lemma insert_new_spec t s p f :
  sinv t s -> f_blocks f = None \/ f_blocks f = Some [] ->
  match bt_get p (sn_files s) with
  | Some _ => fst (insert_new p f s) = Panic
  | None => fst (insert_new p f s) = Ok tt /\ sinv t (snd (insert_new p f s)) /\
      forall p' x v, sn_holds (snd (insert_new p f s)) p' x v <-> sn_holds s p' x v
  end.
Proof.
  intros Hs Hf. unfold insert_new. destruct (bt_get p (sn_files s)) eqn:E; [done|]. cbn [fst snd].
  destruct (set_file_empty t s p f Hs Hf) as [Hs' Hh]. split_and!; try done.
  intros p' x v. rewrite Hh. pose proof (absent_no_bytes t s p x v Hs E).
  split; [tauto|]. intros Hv. split; [|done]. by intros ->.
Qed.

Lemma merge_unlink_spec t s p :
  sinv t s -> t < ADDR_LIMIT ->
  fst (merge_unlink p s) = Ok tt /\ exists t', sinv t' (snd (merge_unlink p s)) /\ t' <= t /\
    forall p' x v, sn_holds (snd (merge_unlink p s)) p' x v <-> p' <> p /\ sn_holds s p' x v.
Proof.
  intros Hs Hlim. destruct (merge_unlink_sinv H ext t s p Hs Hlim) as (t' & s' & E & Hs' & Ht' & Hfb).
  assert (sn_serialised s' = sn_serialised s) as Hser.
  { unfold merge_unlink, modify, free_blocks, remove_file in E. inv E. by repeat case_match. }
  rewrite E. split; [done|]. exists t'. split_and!; try done. cbn [snd]. intros p' x v.
  unfold sn_holds, blocks_of, holds. cbn [w_data w_file]. rewrite Hser. split.
  - intros (d & [Hne Hd]%Hfb & Hh). split; [done|]. by exists d.
  - intros [Hne (d & Hd & Hh)]. exists d. split; [by apply Hfb|done].
Qed.

Lemma merge_truncate_spec t s p sz :
  sinv t s -> t < ADDR_LIMIT -> 0 <= sz < 2 ^ 63 ->
  fst (merge_truncate p sz s) = Ok tt /\ exists t', sinv t' (snd (merge_truncate p sz s)) /\ t' <= t /\
    forall p' x v, sn_holds (snd (merge_truncate p sz s)) p' x v <->
      sn_holds s p' x v /\ (p' = p -> x < sz).
Proof.
  intros Hs Hlim Hsz. unfold merge_truncate, modify. cbn [fst snd]. split; [done|].
  rewrite (u64_small sz) by lia. set (f := set_size _ _).
  assert (f_blocks f = f_blocks (get_or_open (sn_files s) p)) as Hf by done.
  destruct (f_blocks f) as [d|] eqn:E.
  - pose proof (get_or_open_winv H ext t s p d Hs ltac:(done)) as Hw.
    destruct (truncate_blocks_spec H ext _ t _ d _ sz Hw Hlim Hsz) as (t' & Ht' & Hw' & Hh).
    destruct (truncate_blocks d sz (sn_free_list s)) as [d' fl'] eqn:Et. cbn [fst snd] in *.
    exists t'. split_and!; [by apply (sinv_insert H ext t)|done|]. intros p' x v.
    rewrite sn_holds_insert by apply Hs. case_decide; [subst p'|tauto].
    cbn [f_blocks set_blocks]. rewrite (get_or_open_holds H ext t s p d x v Hs ltac:(done)).
    unfold blocks_of. split.
    + intros (d0 & [= <-] & Hx). apply Hh in Hx. tauto.
    + intros [Hx Hlt]. exists d'. split; [done|]. apply Hh. auto.
  - destruct (set_file_same t s p f Hs ltac:(congruence)) as [Hs' Hh]. exists t.
    split_and!; [done|done|]. intros p' x v. rewrite Hh. split; [|tauto]. intros Hv. split; [done|].
    intros ->. exfalso. destruct Hv as (d & (f' & Hin & Hd) & _). unfold get_or_open in Hf.
    apply bt_get_elem in Hin; [|apply Hs]. rewrite Hin in Hf. congruence.
Qed.

Lemma used_ok t s p x : sinv t s -> used_by s p x -> H <= x < t /\ ~ free (sn_free_list s) x.
Proof.
  intros Hs (d & Hd & k & b & Hb & Hx). pose proof (si_file _ _ _ _ Hs _ _ Hd) as Hw.
  destruct (wi_block _ _ _ _ _ Hw _ _ Hb) as (? & ? & ? & ? & ? & ?).
  split; [unfold in_block in Hx; lia|]. by apply (wi_used _ _ _ _ _ Hw k b x).
Qed.

(** The blocks of one path become those of another, which had none. *)
Lemma sinv_move t s s' from to :
  sinv t s -> bt_sorted (sn_files s') -> sn_free_list s' = sn_free_list s ->
  sn_serialised s' = sn_serialised s ->
  (forall d, file_blocks s' to d -> file_blocks s from d \/ d = []) ->
  (forall p d, file_blocks s' p d -> p <> to -> p <> from /\ file_blocks s p d) ->
  sinv t s'.
Proof.
  intros Hs Hsort Hfl Hser Hto Hother.
  assert (forall p p' x, p <> p' -> used_by s' p x -> exists q, used_by s q x /\
    q = if decide (p = to) then from else p) as Hq.
  { intros p p' x Hne (d & Hd & k & b & Hb & Hx). case_decide; [subst p|].
    - destruct (Hto d Hd) as [Hd'| ->]; [|by inv Hb]. exists from. split; [|done]. exists d.
      split; [done|by exists k, b].
    - destruct (Hother p d Hd) as [_ Hd']; [done|]. exists p. split; [|done]. exists d.
      split; [done|by exists k, b]. }
  constructor; [done|by rewrite Hfl; apply Hs|]. intros p d Hd. unfold blocks_of. rewrite Hfl, Hser.
  destruct (decide (p = to)) as [->|Hne].
  - destruct (Hto d Hd) as [Hd'| ->].
    + eapply winv_others_ext; [apply (si_file _ _ _ _ Hs), Hd'|].
      intros x (p' & Hp' & Hu). destruct (Hq p' to x Hp' Hu) as (q & Hu' & ->).
      rewrite decide_False in Hu' by done. exists p'. split; [|done].
      destruct Hu as (d' & Hd'' & _). by destruct (Hother p' d' Hd'').
    + apply winv_nil; [apply Hs|]. intros x (p' & Hp' & Hu).
      destruct (Hq p' to x Hp' Hu) as (q & Hu' & _). by apply (used_ok t s q).
  - destruct (Hother p d Hd Hne) as [Hnf Hd']. eapply winv_others_ext; [apply (si_file _ _ _ _ Hs), Hd'|].
    intros x (p' & Hp' & Hu). destruct (Hq p' p x Hp' Hu) as (q & Hu' & ->). eexists. split; [|exact Hu'].
    case_decide; [congruence|done].
Qed.

Lemma merge_rename_spec t s from to :
  sinv t s -> t < ADDR_LIMIT ->
  fst (merge_rename from to s) = Ok tt /\ exists t', sinv t' (snd (merge_rename from to s)) /\ t' <= t /\
    forall p x v, sn_holds (snd (merge_rename from to s)) p x v <->
      if decide (p = to) then sn_holds s from x v else p <> from /\ sn_holds s p x v.
Proof.
  intros Hs Hlim. pose proof (si_sorted _ _ _ _ Hs) as Hsort. unfold merge_rename, modify. cbn [fst snd].
  split; [done|]. set (ff := match bt_get from (sn_files s) with Some f => f | None => _ end).
  assert (forall d, f_blocks ff = Some d <-> file_blocks s from d \/
    (bt_get from (sn_files s) = None /\ d = [])) as Hff.
  { intros d. unfold ff, file_blocks. destruct (bt_get from (sn_files s)) as [f|] eqn:E; cbn.
    - apply bt_get_elem in E; [|done]. split; [intros Hd; left; by exists f|].
      intros [(f' & Hf' & Hd)|[? _]]; [|done]. by rewrite (bt_elem_unique _ _ _ _ Hsort Hf' E) in Hd.
    - split; [intros [= <-]; by right|]. intros [(f' & Hf' & _)|[_ ->]]; [|done].
      by apply (proj1 (bt_get_None _ _ Hsort) E) in Hf'. }
  set (s' := free_blocks _ _).
  assert (sn_files s' = bt_insert to ff (bt_remove from (sn_files s)) /\
    sn_serialised s' = sn_serialised s) as [Hfiles Hser].
  { unfold s', free_blocks. by repeat case_match. }
  assert (forall p d, file_blocks s' p d <-> (p = to /\ f_blocks ff = Some d) \/
    (p <> to /\ p <> from /\ file_blocks s p d)) as Hfb.
  { intros p d. transitivity (file_blocks (sn_set_file to ff (remove_file from s)) p d).
    - unfold file_blocks. by rewrite Hfiles.
    - unfold sn_set_file. rewrite file_blocks_insert by (by apply bt_remove_sorted).
      unfold remove_file. by rewrite file_blocks_remove. }
  assert (bt_sorted (sn_files s')) as Hsort'
    by (rewrite Hfiles; by apply bt_insert_sorted, bt_remove_sorted).
  assert (exists t' s0, sinv t' s0 /\ t' <= t /\ sn_serialised s0 = sn_serialised s /\
    sn_free_list s' = sn_free_list s0 /\
    forall p d, file_blocks s0 p d <-> (p <> to \/ from = to) /\ file_blocks s p d) as
    (t' & s0 & Hs0 & Ht' & Hser0 & Hfl0 & Hfb0).
  { destruct (decide (from = to)) as [->|Hne].
    - exists t, s. split_and!; try done; [|intros; tauto]. unfold s'.
      replace (bt_get to (sn_files (remove_file to s))) with (@None File); [done|].
      symmetry. apply bt_get_None; [by apply bt_remove_sorted|]. intros f Hin.
      cbn in Hin. by apply bt_remove_elem in Hin as [? _].
    - destruct (merge_unlink_sinv H ext t s to Hs Hlim) as (t' & s0 & E & Hs0 & Ht' & Hfb0).
      exists t', s0. unfold merge_unlink, modify in E. injection E as E. split_and!; try done.
      + rewrite <- E. unfold free_blocks. by repeat case_match.
      + rewrite <- E. unfold s'.
        replace (bt_get to (sn_files (remove_file from s))) with (bt_get to (sn_files s)).
        { unfold free_blocks. by repeat case_match. }
        symmetry. cbn [remove_file sn_files]. by apply bt_get_remove_ne.
      + intros p d. rewrite Hfb0. tauto. }
  exists t'. split_and!; [|done|].
  - apply (sinv_move t' s0 s' from to); try done; [congruence|..].
    + intros d Hd. apply Hfb in Hd as [[_ Hd]|[? _]]; [|done]. apply Hff in Hd as [Hd|[_ ?]]; [|by right].
      left. apply Hfb0. split; [|done]. destruct (decide (from = to)); tauto.
    + intros p d Hd Hne. apply Hfb in Hd as [[? _]|(_ & Hnf & Hd)]; [done|]. split; [done|]. apply Hfb0. tauto.
  - intros p x v. unfold sn_holds, blocks_of, holds. cbn [w_data w_file]. rewrite Hser. case_decide.
    + subst p. split; intros (d & Hd & Hh); exists d; (split; [|done]).
      * apply Hfb in Hd as [[_ Hd]|[? _]]; [|done]. apply Hff in Hd as [Hd|[_ ->]]; [done|].
        destruct Hh as (k & b & Hb & _). by inv Hb.
      * apply Hfb. left. split; [done|]. apply Hff. by left.
    + split.
      * intros (d & Hd & Hh). apply Hfb in Hd as [[? _]|(_ & Hnf & Hd)]; [done|]. split; [done|]. by exists d.
      * intros [Hnf (d & Hd & Hh)]. exists d. split; [|done]. apply Hfb. by right.
Qed.

(** Calls that change no block: the record of a path is updated. *)
Lemma update_file_spec t s p g :
  sinv t s -> (forall f, f_blocks (g f) = f_blocks f) ->
  fst (update_file p g s) = Ok tt /\ exists t', sinv t' (snd (update_file p g s)) /\ t' <= t /\
    forall p' x v, sn_holds (snd (update_file p g s)) p' x v <-> sn_holds s p' x v.
Proof.
  intros Hs Hg. split; [done|]. exists t.
  destruct (set_file_same t s p (g (get_or_open (sn_files s) p)) Hs (Hg _)). by split_and!.
Qed.

Lemma merged_weaken call t s r (Q : content) :
  0 <= ext -> (call_flat call (sn_holds s) -> forall p x v, effect call (sn_holds s) p x v <-> Q p x v) ->
  (fst r = Ok tt /\ exists t', sinv t' (snd r) /\ t' <= t /\ forall p x v, sn_holds (snd r) p x v <-> Q p x v) ->
  merged call t s r.
Proof.
  intros He HQ (Hr & t' & Hs & Ht & Hh). split; [done|]. exists t'. split_and!; [done|lia|].
  intros Hf p x v. by rewrite HQ, Hh.
Qed.

Lemma encode_write_merged t s p offset buf :
  sinv t s -> t + 2 * ext < ADDR_LIMIT -> ext < ADDR_LIMIT ->
  0 <= offset -> 0 < zlen buf -> offset + zlen buf <= ext ->
  if refused (write p offset buf) s then fst (encode_write p (u64 offset) buf s) = Panic
  else merged (write p offset buf) t s (encode_write p (u64 offset) buf s).
Proof.
  intros Hs Hlim Hext Ho Hn Hl. rewrite u64_small by (unfold ADDR_LIMIT in *; lia).
  cbn [refused]. destruct (f_blocks _) as [d|] eqn:E; [|unfold encode_write; by rewrite E].
  destruct (encode_write_sinv H ext t s p offset buf d) as (t' & s' & Es & Hs' & Ht' & Hp & Hother); try done.
  rewrite Es. split; [done|]. exists t'. split_and!; try done. intros _ p' x v. cbn.
  destruct (decide (p' = p)) as [->|Hne].
  - rewrite Hp. repeat case_decide; tauto.
  - rewrite Hother by done. case_decide; [tauto|done].
Qed.

(** Every call but [link] and a difference: the ones the code asserts on panic,
    the others keep the invariant and have their effect. *)
Lemma merge_call_spec t s call :
  sinv t s -> t + 2 * ext < ADDR_LIMIT -> 0 <= ext < ADDR_LIMIT -> call_ok ext call = true ->
  if refused call s then fst (merge_call call s) = Panic else merged call t s (merge_call call s).
Proof.
  intros Hs Hlim Hext Hok.
  assert (forall p f call, f_blocks f = None \/ f_blocks f = Some [] ->
    (forall m, effect call m = m) ->
    if (match bt_get p (sn_files s) with Some _ => true | None => false end)
    then fst (insert_new p f s) = Panic else merged call t s (insert_new p f s)) as Hnew.
  { intros p f c Hf Hc. pose proof (insert_new_spec t s p f Hs Hf) as Hi.
    destruct (bt_get p (sn_files s)); [done|]. destruct Hi as (? & ? & ?).
    split; [done|]. exists t. rewrite Hc. split_and!; try done. lia. }
  assert (forall p g call, (forall f, f_blocks (g f) = f_blocks f) -> (forall m, effect call m = m) ->
    merged call t s (update_file p g s)) as Hupd.
  { intros p g c Hg Hc. apply (merged_weaken _ _ _ _ (sn_holds s)); [lia|by rewrite Hc|]. by apply update_file_spec. }
  assert (forall c r, (fst r = Ok tt /\ exists t', sinv t' (snd r) /\ t' <= t /\
    forall p x v, sn_holds (snd r) p x v <-> effect c (sn_holds s) p x v) -> merged c t s r) as Hweak
    by (intros c r Hr; apply (merged_weaken c t s r (effect c (sn_holds s))); [lia|done|done]).
  pose proof (fun p o b => encode_write_merged t s p o b Hs Hlim (proj2 Hext)) as Hwr.
  destruct call; repeat match goal with x : FileSecurity |- _ => destruct x end; cbn in Hok;
    cbn [merge_call refused]; try done; try (by apply Hupd); try (by apply Hnew; [by left|]);
    try (by apply Hnew; [by right|]).
  all: try (by apply Hweak, merge_unlink_spec; [|lia]).
  all: try (by apply Hweak, merge_truncate_spec; [done|lia|lia]).
  all: try (by apply Hwr; lia).
  1: { eapply merged_weaken; [lia|intros Hf p x v; by apply effect_rename_flat|]. by apply merge_rename_spec; [|lia]. }
  all: try apply Hweak.
  - split; [done|]. exists t. destruct (set_file_empty t s p (mk_File (Some uid) (Some gid) (Some mode)
      SizeUnknown None None (FT_New flags) (Some DataList_new)) Hs) as [? Hh]; [by right|]. by split_and!.
  - split; [done|]. by exists t.
Qed.

(** ** A run of calls *)
Lemma merge_from_spec calls : forall t s,
  sinv t s -> 0 <= ext < ADDR_LIMIT -> t + 2 * ext * Z.of_nat (length calls) < ADDR_LIMIT ->
  Forall (fun c => call_ok ext c = true) calls ->
  match merge_from calls s with
  | (Ok _, s') => exists t', sinv t' s' /\ t' <= t + 2 * ext * Z.of_nat (length calls) /\
      (renames_flat calls (sn_holds s) -> forall p x v, sn_holds s' p x v <-> effects calls (sn_holds s) p x v)
  | (r, s') => r = Panic /\ exists done c rest, calls = done ++ c :: rest /\
      exists s1, merge_from done s = (Ok tt, s1) /\ refused c s1 = true
  end.
Proof.
  induction calls as [|c calls IH]; intros t s Hs He Hlim Hok.
  { cbn. munfold. exists t. split_and!; [done|lia|done]. }
  apply Forall_cons in Hok as [Hc Hok]. rewrite length_cons, Nat2Z.inj_succ in Hlim |- *.
  pose proof (merge_call_spec t s c Hs ltac:(nia) He Hc) as Hm. cbn [merge_from]. munfold.
  destruct (merge_call c s) as [r s1] eqn:E1. cbn [fst snd] in Hm. destruct (refused c s) eqn:Er.
  { rewrite Hm. split; [done|]. exists [], c, calls. split; [done|]. by exists s. }
  destruct Hm as (Hr & t1 & Hs1 & Ht1 & Hh1). cbn [fst snd] in *. rewrite Hr.
  specialize (IH t1 s1 Hs1 He ltac:(lia) Hok).
  destruct (merge_from calls s1) as [r2 s2] eqn:E2.
  assert (r2 = Panic /\ (exists done c0 rest, calls = done ++ c0 :: rest /\
    exists s3, merge_from done s1 = (Ok tt, s3) /\ refused c0 s3 = true) ->
    r2 = Panic /\ exists done c0 rest, c :: calls = done ++ c0 :: rest /\
    exists s3, merge_from done s = (Ok tt, s3) /\ refused c0 s3 = true) as Hfail.
  { intros (-> & dn & c0 & rest & -> & s3 & E3 & Hf). split; [done|]. exists (c :: dn), c0, rest.
    split; [done|]. exists s3. split; [|done]. cbn [merge_from]. munfold. by rewrite E1, Hr, E3. }
  destruct r2; try by apply Hfail.
  destruct IH as (t' & Hs2 & Ht2 & Hh2). exists t'. split_and!; [done|lia|]. intros [Hf Hfs] p x v.
  assert (forall p x v, sn_holds s1 p x v <-> effect c (sn_holds s) p x v) as Hh1' by (by apply Hh1).
  rewrite Hh2 by (by apply (renames_flat_ext calls (sn_holds s1) (effect c (sn_holds s)))).
  cbn. by apply (effects_ext calls (sn_holds s1) (effect c (sn_holds s))).
Qed.

End Merge.
