(* ===== verification/SnapshotReplay.v ===== *)
(** * Replaying a snapshot

    [SnapshotApply::next] is a state machine; [pending] lists the calls a state
    still has to give. Every step gives the head of [pending] and leaves its
    tail, so [apply_all] gives [snapshot_calls]. *)

From stdpp Require Import base list numbers option strings.
From Stdlib Require Import ZArith Lia.
From S2P Require Import Prelude Common BTree Filestore Store Snapshot SnapshotAlloc SnapshotWrite SnapshotInv SnapshotMerge.

Local Open Scope Z_scope.

(** ** The calls of one file *)
Definition meta_calls (p : path) (f : File) : list VFSCall :=
  match f_uid f, f_gid f with Some uid, Some gid => [security p (Unix uid gid)] | _, _ => [] end ++
  match f_mode f with Some mode => [chmod p mode] | None => [] end ++
  match f_size f with
  | SizeExactly n => [truncate p (i64 n)]
  | SizeMoreThan n => [fallocate p 0 0 (i64 n)]
  | SizeUnknown => []
  end ++
  match f_time f with Some ts => [utimens p ts] | None => [] end.

Definition block_calls (p : path) (ser : file) (d : DataList) : list VFSCall :=
  (fun e => write p (i64 (fst e)) (file_bytes ser (location (snd e)) (Z.to_nat (size (snd e))))) <$> d.

(** An [Opened] file gives its first metadata call before its writes. *)
Definition file_calls (ser : file) (e : path * File) : list VFSCall :=
  let '(p, f) := e in
  let writes := block_calls p ser (default [] (f_blocks f)) in
  match creation_call p (set_blocks (set_xattrs f None) None) with
  | Ok (Some c, cf) => c :: writes ++ meta_calls p cf
  | Ok (None, cf) =>
    match meta_calls p cf with
    | [] => []
    | m :: ms => m :: writes ++ ms
    end
  | _ => []
  end.

Definition snapshot_calls (s : Snapshot) : list VFSCall :=
  sn_files s ≫= file_calls (sn_serialised s).

(** ** When replay succeeds *)
Definition readable (ser : file) (d : DataList) : bool :=
  forallb (fun e => (0 <? size (snd e)) && (location (snd e) + size (snd e) <=? f_len ser)) d.

Definition no_xattrs (x : option xattr_map) : bool :=
  match x with Some (_ :: _) => false | _ => true end.

Definition applicable (ser : file) (e : path * File) : bool :=
  let '(p, f) := e in
  no_xattrs (f_xattrs f) && readable ser (default [] (f_blocks f)) &&
  match creation_call p (set_blocks (set_xattrs f None) None) with
  | Ok (Some _, _) => true
  | Ok (None, cf) =>
    match meta_calls p cf, default [] (f_blocks f) with [], _ :: _ => false | _, _ => true end
  | _ => false
  end.

(** ** The state machine *)
Definition pending (a : SnapshotApply) : list VFSCall :=
  match ap_current_file a with
  | Some (p, f) => block_calls p (ap_serialised a) (default [] (ap_data_iter a)) ++ meta_calls p f
  | None => []
  end ++ (ap_file_iter a ≫= file_calls (ap_serialised a)).

Definition aok (a : SnapshotApply) : bool :=
  forallb (applicable (ap_serialised a)) (ap_file_iter a) &&
  readable (ap_serialised a) (default [] (ap_data_iter a)) && no_xattrs (ap_xattr_iter a) &&
  match ap_current_file a, default [] (ap_data_iter a) with None, _ :: _ => false | _, _ => true end.

Definition rounds (a : SnapshotApply) : nat :=
  length (ap_file_iter a) + match ap_current_file a with Some _ => 2 | None => 1 end.

Lemma metadata_call_spec p f :
  match metadata_call p f with
  | (Some c, f') => meta_calls p f = c :: meta_calls p f'
  | (None, _) => meta_calls p f = []
  end.
Proof.
  destruct f as [[u|] [g|] [m|] sz x [t|] ty b]; unfold metadata_call, meta_calls; cbn; try done;
    destruct sz; done.
Qed.

Lemma read_block ser b :
  location b + size b <= f_len ser ->
  read_exact_at ser (location b) (size b) = Ok (file_bytes ser (location b) (Z.to_nat (size b))).
Proof.
  intros Hl. unfold read_exact_at. replace (_ || _) with true; [done|].
  symmetry. apply orb_true_iff. right. lia.
Qed.

(** One call of [next]. *)
Definition next_ok (a : SnapshotApply) (r : outcome (option VFSCall) * SnapshotApply) : Prop :=
  match pending a with
  | [] => fst r = Ok None
  | c :: cs => fst r = Ok (Some c) /\ aok (snd r) = true /\ pending (snd r) = cs
  end.

Lemma next_metadata_ok a p f :
  aok a = true -> ap_current_file a = Some (p, f) -> default [] (ap_data_iter a) = [] \/ meta_calls p f <> [] ->
  exists a', match meta_calls p f with
  | [] => next_metadata a = (Ok None, a') /\ aok a' = true /\ rounds a' = (length (ap_file_iter a) + 1)%nat /\
      pending a' = ap_file_iter a ≫= file_calls (ap_serialised a)
  | c :: cs => next_metadata a = (Ok (Some c), a') /\ aok a' = true /\
      pending a' = block_calls p (ap_serialised a) (default [] (ap_data_iter a)) ++ cs ++
        (ap_file_iter a ≫= file_calls (ap_serialised a))
  end.
Proof.
  destruct a as [ser files cur d x]. cbn. intros Hok -> Hd. unfold next_metadata. cbn.
  pose proof (metadata_call_spec p f) as Hm. destruct (metadata_call p f) as [[c|] f'].
  - rewrite Hm. eexists. split; [reflexivity|]. split; [done|].
    unfold pending. cbn. by rewrite <- app_assoc.
  - rewrite Hm in *. destruct Hd as [Hd|]; [|done]. unfold aok in Hok. cbn in Hok.
    apply andb_true_iff in Hok as [[[Hf Hr]%andb_true_iff Hx]%andb_true_iff _].
    exists (mk_SnapshotApply ser files None d None).
    split; [by destruct x as [[|[] ?]|]|]. split; [|done].
    unfold aok. cbn. by rewrite Hf, Hr, Hd.
Qed.

Lemma aok_split a :
  aok a = true <-> forallb (applicable (ap_serialised a)) (ap_file_iter a) = true /\
    readable (ap_serialised a) (default [] (ap_data_iter a)) = true /\ no_xattrs (ap_xattr_iter a) = true /\
    (ap_current_file a = None -> default [] (ap_data_iter a) = []).
Proof.
  unfold aok. rewrite !andb_true_iff. split.
  - intros [[[? ?] ?] Hc]. split_and!; try done. intros E. rewrite E in Hc. by destruct (default [] _).
  - intros (? & ? & ? & Hc). split_and!; try done. destruct (ap_current_file a); [done|]. by rewrite Hc.
Qed.

(** A state without blocks left: the block part of [next] does nothing. *)
Lemma next_block_none a :
  aok a = true -> default [] (ap_data_iter a) = [] ->
  exists a', next_block a = (Ok None, a') /\ aok a' = true /\ pending a' = pending a /\
    rounds a' = rounds a /\ ap_data_iter a' = None /\ ap_current_file a' = ap_current_file a /\
    ap_file_iter a' = ap_file_iter a /\ ap_serialised a' = ap_serialised a.
Proof.
  intros Hok Hd. exists (ap_set a (ap_file_iter a) (ap_current_file a) None (ap_xattr_iter a)).
  split; [unfold next_block; by destruct (ap_data_iter a) as [[|? ?]|]|].
  apply aok_split in Hok as (? & ? & ? & ?).
  split; [by apply aok_split|]. split_and!; try done.
  unfold pending. cbn. by rewrite Hd.
Qed.

Lemma apply_next_ok fuel : forall a,
  aok a = true -> (rounds a <= fuel)%nat -> next_ok a (apply_next fuel a).
Proof.
  induction fuel as [|fuel IH]; intros a Hok Hfuel; [unfold rounds in Hfuel; destruct (ap_current_file a); lia|].
  cbn [apply_next]. munfold. destruct (default [] (ap_data_iter a)) as [|[off b] d] eqn:Ed.
  2: { apply aok_split in Hok as (Hf & Hr & Hx & Hc). rewrite Ed in Hr.
       destruct (ap_current_file a) as [[p f]|] eqn:Ec; [|by rewrite Ed in Hc; specialize (Hc eq_refl)].
       destruct (ap_data_iter a) as [d0|] eqn:Ed'; [cbn in Ed; subst d0|done].
       cbn in Hr. apply andb_true_iff in Hr as [Hb Hr]. unfold next_block. rewrite Ed'.
       cbn [ap_current_file ap_set ap_serialised]. rewrite Ec, read_block by lia.
       cbn [next_ok fst snd]. unfold next_ok, pending. rewrite Ec, Ed'. cbn. split_and!; try done.
       apply aok_split. by split_and!. }
  destruct (next_block_none a Hok Ed) as (a1 & E1 & Hok1 & Hp1 & Hr1 & Hd1 & Hc1 & Hf1 & Hs1).
  rewrite E1. unfold next_ok. rewrite <- Hp1. rewrite <- Hr1 in Hfuel. fold (next_ok a1).
  clear dependent a. unfold next_file. destruct (ap_current_file a1) as [[p f]|] eqn:Ec.
  - destruct (next_metadata_ok a1 p f Hok1 Ec) as (a' & Hm); [left; by rewrite Hd1|].
    unfold pending. rewrite Ec, Hd1. cbn [default block_calls fmap list_fmap app].
    rewrite Hd1 in Hm. unfold rounds in Hfuel. rewrite Ec in Hfuel.
    destruct (meta_calls p f) as [|c cs].
    + destruct Hm as (-> & Hok' & Hr' & Hp'). cbn [app]. rewrite <- Hp'. apply IH; [done|lia].
    + destruct Hm as (-> & Hok' & Hp'). done.
  - destruct (ap_file_iter a1) as [|[p f] files] eqn:Ef.
    { unfold pending. by rewrite Ec, Ef. }
    apply aok_split in Hok1 as (Hf & Hr & Hx & _). rewrite Ef in Hf. cbn [forallb] in Hf.
    apply andb_true_iff in Hf as [Hap Hf]. unfold applicable in Hap.
    apply andb_true_iff in Hap as [[Hxf Hrf]%andb_true_iff Hcr].
    unfold pending. rewrite Ec, Ef. cbn [app mbind list_bind].
    unfold file_calls at 1. set (cf := set_blocks _ _) in *.
    destruct (creation_call p cf) as [[[c|] cf']| | |] eqn:Ecr; try done.
    + split; [done|]. split; [apply aok_split; split_and!; done|].
      unfold pending. cbn. by rewrite <- !app_assoc.
    + set (a2 := ap_set a1 files (Some (p, cf')) (f_blocks f) (f_xattrs f)).
      assert (aok a2 = true) as Hok2 by (apply aok_split; by split_and!).
      destruct (next_metadata_ok a2 p cf' Hok2 eq_refl) as (a' & Hm).
      { cbn. destruct (meta_calls p cf'), (default [] (f_blocks f)); try done; [by left|by right|by right]. }
      cbn [a2 ap_set ap_data_iter ap_serialised ap_file_iter] in Hm.
      unfold rounds in Hfuel. rewrite Ec, Ef in Hfuel. cbn [length] in Hfuel.
      destruct (meta_calls p cf') as [|c cs].
      * destruct Hm as (-> & Hok' & Hr' & Hp'). pose proof (IH a' Hok' ltac:(lia)) as Hn.
        unfold next_ok in Hn. rewrite Hp' in Hn. exact Hn.
      * destruct Hm as (-> & Hok' & Hp'). split; [done|]. split; [done|].
        transitivity (pending a'); [done|]. rewrite Hp'. by rewrite <- app_assoc.
Qed.

(** The whole iteration. *)
Lemma apply_all_ok fuel : forall a,
  aok a = true -> (length (pending a) < fuel)%nat -> fst (apply_all fuel a) = Ok (pending a).
Proof.
  induction fuel as [|fuel IH]; intros a Hok Hfuel; [lia|]. cbn [apply_all]. munfold.
  pose proof (apply_next_ok (S (S (length (ap_file_iter a)))) a Hok) as Hn.
  unfold next_ok in Hn. specialize (Hn ltac:(unfold rounds; destruct (ap_current_file a); lia)).
  destruct (apply_next _ a) as [r a']. cbn [fst snd] in Hn.
  destruct (pending a) as [|c cs] eqn:Ep; [by rewrite Hn|].
  destruct Hn as (-> & Hok' & Hp'). cbn in Hfuel. specialize (IH a' Hok' ltac:(rewrite Hp'; lia)).
  destruct (apply_all fuel a') as [r' a'']. cbn in IH |- *. by rewrite IH, Hp'.
Qed.

(** ** What replay does to the contents *)
Lemma effects_app l1 l2 m : effects (l1 ++ l2) m = effects l2 (effects l1 m).
Proof. apply foldl_app. Qed.

Definition apart (d : DataList) : Prop :=
  bt_sorted d /\
  (forall k b, (k, b) ∈ d -> 0 <= k /\ 0 < size b /\ k + size b < ADDR_LIMIT) /\
  (forall k b k' b', (k, b) ∈ d -> (k', b') ∈ d -> k < k' -> k + size b <= k').

Lemma apart_cons k b d : apart ((k, b) :: d) -> apart d.
Proof.
  intros (Hs & Hb & Hd). apply sorted_cons_inv in Hs as [Hs _]. split_and!; [done|..].
  - intros k' b' Hin. apply (Hb k' b'). by right.
  - intros k1 b1 k2 b2 H1 H2. apply (Hd k1 b1 k2 b2); by right.
Qed.

Lemma winv_apart H ext oth t s : winv H ext oth t s -> apart (w_data s).
Proof.
  intros Hw. split_and!; [apply Hw| |exact (wi_logical _ _ _ _ _ Hw)]. intros k b Hb.
  destruct (wi_block _ _ _ _ _ Hw _ _ Hb) as (? & ? & ? & _). lia.
Qed.

(** Whether the blocks say anything about offset [x]. *)
Definition covered (d : DataList) (x : Z) : Prop := exists k b, (k, b) ∈ d /\ k <= x < k + size b.

Lemma covered_cons k b d x : covered ((k, b) :: d) x <-> k <= x < k + size b \/ covered d x.
Proof.
  unfold covered. split.
  - intros (k' & b' & [[= -> ->]|Hin]%elem_of_cons & Hx); [by left|]. right. by exists k', b'.
  - intros [Hx|(k' & b' & Hin & Hx)]; [exists k, b|exists k', b']; (split; [by constructor|done]).
Qed.

Lemma holds_cons fl k b d ser x v :
  holds (mk_wstate fl ((k, b) :: d) ser) x v <->
  (k <= x < k + size b /\ f_data ser (location b + (x - k)) = v) \/ holds (mk_wstate fl d ser) x v.
Proof.
  unfold holds. cbn [w_data w_file]. split.
  - intros (k' & b' & [[= -> ->]|Hin]%elem_of_cons & Hx); [by left|]. right. by exists k', b'.
  - intros [Hx|(k' & b' & Hin & Hx)]; [exists k, b|exists k', b']; (split; [by constructor|done]).
Qed.

Lemma effect_block p ser k b m q x v :
  0 <= k -> 0 < size b -> k + size b < ADDR_LIMIT ->
  effect (write p (i64 k) (file_bytes ser (location b) (Z.to_nat (size b)))) m q x v <->
  if decide (q = p /\ k <= x < k + size b) then f_data ser (location b + (x - k)) = v else m q x v.
Proof.
  intros Hk Hsz Hlim. cbn. rewrite i64_small by (unfold ADDR_LIMIT in *; lia).
  replace (zlen (file_bytes ser (location b) (Z.to_nat (size b)))) with (size b)
    by (unfold zlen; rewrite length_file_bytes; lia).
  case_decide as Hx; [|done]. rewrite file_bytes_lookup by lia. rewrite Z2Nat.id by lia.
  split; [by intros [= ->]|by intros ->].
Qed.

Lemma effects_blocks p ser fl d : forall m q x v, apart d ->
  effects (block_calls p ser d) m q x v <->
  if decide (q = p) then holds (mk_wstate fl d ser) x v \/ (~ covered d x /\ m p x v) else m q x v.
Proof.
  induction d as [|[k b] d IH]; intros m q x v Ha.
  { cbn. case_decide; [subst q|done]. split; [|by intros [(? & ? & Hb & _)|[_ ?]]; [inv Hb|]].
    intros Hm. right. split; [|done]. intros (? & ? & Hb & _). by inv Hb. }
  pose proof Ha as (Hs & Hb & Hd). destruct (Hb k b ltac:(by left)) as (? & ? & ?).
  apply sorted_cons_inv in Hs as [_ Hkey].
  change (effects (block_calls p ser ((k, b) :: d)) m) with (effects (block_calls p ser d)
    (effect (write p (i64 k) (file_bytes ser (location b) (Z.to_nat (size b)))) m)).
  rewrite IH by (by eapply apart_cons). case_decide as Eq; [subst q|].
  2: { rewrite effect_block by done. rewrite decide_False by tauto. done. }
  rewrite effect_block, holds_cons, covered_cons by done.
  assert (k <= x < k + size b -> ~ covered d x) as Hnc.
  { intros Hx (k' & b' & Hin & Hx'). pose proof (Hkey _ _ Hin) as Hlt. apply key_lt_Z in Hlt.
    pose proof (Hd k b k' b' ltac:(by left) ltac:(by right) Hlt). lia. }
  assert (holds (mk_wstate fl d ser) x v -> covered d x) as Hhc.
  { intros (k' & b' & Hin & Hx & _). by exists k', b'. }
  case_decide; tauto.
Qed.

(** A file that the snapshot creates and whose size was never fixed. *)
Definition created (f : File) : bool :=
  match f_ty f, f_uid f, f_gid f, f_mode f, f_size f with
  | FT_New _, Some _, Some _, Some _, (SizeUnknown | SizeMoreThan _) => no_xattrs (f_xattrs f)
  | _, _, _, _, _ => false
  end.

Lemma created_calls p f ser : created f = true ->
  exists c ms, file_calls ser (p, f) = c :: block_calls p ser (default [] (f_blocks f)) ++ ms /\
    (forall m, effect c m = fun q x v => q <> p /\ m q x v) /\ forall m, effects ms m = m.
Proof.
  destruct f as [[u|] [g|] [mo|] sz xa ti ty bl]; unfold created; cbn; try done;
    destruct ty; try done. destruct sz; try done; intros _.
  - eexists _, _. split; [reflexivity|]. split; [done|]. intros m. unfold meta_calls. cbn. by destruct ti.
  - eexists _, _. split; [reflexivity|]. split; [done|]. intros m. unfold meta_calls. cbn. by destruct ti.
Qed.

Lemma effects_created p f ser fl m q x v :
  created f = true -> apart (default [] (f_blocks f)) ->
  effects (file_calls ser (p, f)) m q x v <->
  if decide (q = p) then holds (mk_wstate fl (default [] (f_blocks f)) ser) x v else m q x v.
Proof.
  intros Hc Ha. destruct (created_calls p f ser Hc) as (c & ms & -> & Hcm & Hms).
  change (effects (c :: ?l ++ ms) m) with (effects (l ++ ms) (effect c m)).
  rewrite effects_app, Hms, (effects_blocks p ser fl) by done. rewrite Hcm. case_decide; tauto.
Qed.

Lemma effects_created_files ser fl (files : Files) : forall m q x v,
  bt_sorted files -> Forall (fun e => created (snd e) = true /\ apart (default [] (f_blocks (snd e)))) files ->
  effects (files ≫= file_calls ser) m q x v <->
  (exists f, (q, f) ∈ files /\ holds (mk_wstate fl (default [] (f_blocks f)) ser) x v) \/
  ((forall f, (q, f) ∉ files) /\ m q x v).
Proof.
  induction files as [|[p f] files IH]; intros m q x v Hs Hf.
  { cbn. split; [|by intros [(? & Hin & _)|[_ ?]]; [inv Hin|]]. right. split; [|done].
    intros f. apply not_elem_of_nil. }
  apply Forall_cons in Hf as [[Hc Ha] Hf]. cbn [snd] in *.
  apply sorted_cons_inv in Hs as [Hs Hkey].
  assert (forall f', (p, f') ∉ files) as Hnp.
  { intros f' Hin. by destruct (key_lt_irrefl p); apply (Hkey _ _ Hin). }
  rewrite bind_cons, effects_app, (IH _ _ _ _ Hs Hf), (effects_created p f ser fl) by done.
  case_decide; [subst q|].
  - split.
    + intros [(f' & Hin & _)|[_ Hh]]; [by destruct (Hnp f')|]. left. exists f. split; [by left|done].
    + intros [(f' & [[= ->]|Hin]%elem_of_cons & Hh)|[Hn _]]; [by right|by destruct (Hnp f')|].
      destruct (Hn f). by left.
  - split.
    + intros [(f' & Hin & Hh)|[Hn Hm]]; [left; exists f'; split; [by right|done]|].
      right. split; [|done]. intros f' [[= ? ?]|Hin]%elem_of_cons; [done|by apply (Hn f')].
    + intros [(f' & [[= ? ?]|Hin]%elem_of_cons & Hh)|[Hn Hm]]; [done|left; by exists f'|].
      right. split; [|done]. intros f' Hin. apply (Hn f'). by right.
Qed.

(** ** A snapshot that created all its files *)
Lemma created_applicable H ext t s :
  sinv H ext t s -> forallb (fun e => created (snd e)) (sn_files s) = true ->
  forallb (applicable (sn_serialised s)) (sn_files s) = true /\
  Forall (fun e => created (snd e) = true /\ apart (default [] (f_blocks (snd e)))) (sn_files s).
Proof.
  intros Hs Hc. rewrite forallb_forall in Hc.
  assert (forall p f, (p, f) ∈ sn_files s -> apart (default [] (f_blocks f)) /\
    readable (sn_serialised s) (default [] (f_blocks f)) = true) as Hd.
  { intros p f Hin. destruct (f_blocks f) as [d|] eqn:E; cbn [default].
    2: { split; [|done]. split_and!; [apply Sorted.SSorted_nil| |].
         - intros k b Hb. by inv Hb.
         - intros k b k' b' Hb. by inv Hb. }
    pose proof (si_file _ _ _ _ Hs p d ltac:(by exists f)) as Hw. split; [exact (winv_apart _ _ _ _ _ Hw)|].
    apply forallb_forall. intros [k b] Hb. apply list_elem_of_In in Hb.
    destruct (wi_block _ _ _ _ _ Hw _ _ Hb) as (? & ? & ? & ? & ? & ?). cbn in *. lia. }
  split.
  - apply forallb_forall. intros [p f] Hin. specialize (Hc _ Hin). apply list_elem_of_In in Hin.
    destruct (Hd p f Hin) as [_ Hr]. unfold applicable. rewrite Hr.
    destruct f as [[u|] [g|] [mo|] sz xa ti ty bl]; unfold created in Hc; cbn in Hc |- *;
      destruct ty; try done. destruct sz; try done; by rewrite Hc.
  - apply Forall_forall. intros [p f] Hin. split; [apply Hc; by apply list_elem_of_In|by apply (Hd p f)].
Qed.

(** What its calls write, starting from nothing, is what it holds. *)
Lemma snapshot_calls_effects H ext t s p x v :
  sinv H ext t s -> forallb (fun e => created (snd e)) (sn_files s) = true ->
  effects (snapshot_calls s) nothing p x v <-> sn_holds s p x v.
Proof.
  intros Hs Hc. destruct (created_applicable _ _ _ _ Hs Hc) as [_ Hcr]. unfold snapshot_calls.
  rewrite (effects_created_files _ [] _ _ _ _ _ (si_sorted _ _ _ _ Hs) Hcr). split.
  - intros [(f' & Hin & Hx)|[_ []]]. destruct (f_blocks f') as [d|] eqn:Ed.
    + exists d. split; [by exists f'|done].
    + destruct Hx as (k & b & Hb & _). by inv Hb.
  - intros (d & (f' & Hin & Hd) & Hx). left. exists f'. split; [done|]. by rewrite Hd.
Qed.
