(* ===== verification/SnapshotFormat.v ===== *)
(** * Writing a snapshot to disk and reading it back

    [finalize] lays the file out as header, blocks, files; [Snapshot::open]
    reads the header and the files and leaves the blocks where they are. *)

From stdpp Require Import base list numbers option strings.
From Stdlib Require Import ZArith Lia.
From S2P Require Import Prelude Common BTree Filestore Store Snapshot SnapshotAlloc SnapshotWrite SnapshotInv SnapshotMerge SnapshotReplay.

Local Open Scope Z_scope.

(** ** The end of the data *)
Lemma end_of_data_spec H t fl : wf_free H t fl -> end_of_data fl = Ok t.
Proof.
  intros Hwf. destruct (wf_tail _ _ _ Hwf) as (v & Hin & Hv). unfold end_of_data.
  destruct (last fl) as [[k w]|] eqn:El; [|apply last_None in El; subst fl; by inv Hin].
  destruct (bt_last_max _ _ _ (wf_sorted _ _ _ Hwf) El) as [Hk Hmax]. f_equal.
  pose proof (wf_key_le_tail _ _ _ _ _ Hwf Hk). destruct (Hmax _ _ Hin) as [->|Hlt]; [done|].
  apply key_lt_Z in Hlt. lia.
Qed.

Lemma bind_ext_in {A B} (f g : A -> list B) (l : list A) :
  (forall x, x ∈ l -> f x = g x) -> l ≫= f = l ≫= g.
Proof.
  intros Hfg. induction l as [|x l IH]; [done|]. rewrite !bind_cons, IH, Hfg; [done|by left|].
  intros y Hy. apply Hfg. by right.
Qed.

Section Format.
Context {F : SnapFormat}.

(** ** [hash_reader] reads the file to its end *)
Lemma hash_reader_total fuel : forall digest f,
  (Z.to_nat (f_len f - f_pos f) < fuel)%nat -> 0 <= digest < 2 ^ 32 ->
  exists c pos, hash_reader fuel digest f = (Ok c, seek_start f pos) /\ 0 <= c < 2 ^ 32.
Proof.
  induction fuel as [|fuel IH]; intros digest f Hf Hd; [lia|]. cbn [hash_reader]. munfold.
  destruct (take (Z.to_nat 4096) (file_rest f)) as [|b l] eqn:E.
  { exists digest, (f_pos f). split; [|done]. by destruct f. }
  assert (0 < zlen (b :: l) /\ zlen (b :: l) <= f_len f - f_pos f) as [Hpos Hle].
  { rewrite <- E. unfold file_rest, zlen. rewrite length_take, length_file_bytes.
    assert (0 < f_len f - f_pos f); [|lia].
    destruct (decide (0 < f_len f - f_pos f)) as [|Hn]; [done|]. exfalso. unfold file_rest in E.
    replace (Z.to_nat (f_len f - f_pos f)) with 0%nat in E by lia. cbn in E. by rewrite take_nil in E. }
  destruct (IH (u32 (crc_update digest (b :: l))) (seek_start f (f_pos f + zlen (b :: l))))
    as (c & pos & Hh & Hc).
  { cbn [seek_start f_len f_pos]. lia. }
  { apply u32_range. }
  exists c, pos. split; [exact Hh|done].
Qed.

Lemma at_bytes_rest f off l :
  at_bytes f off l -> off + zlen l <= f_len f -> exists rest, file_rest (seek_start f off) = l ++ rest.
Proof.
  intros Ha Hl. unfold file_rest. cbn [seek_start f_pos f_len].
  exists (drop (length l) (file_bytes f off (Z.to_nat (f_len f - off)))).
  rewrite <- (take_drop (length l) (file_bytes (seek_start f off) off _)) at 1. f_equal.
  apply list_eq. intros i. destruct (decide (i < length l)%nat) as [Hi|Hi].
  - rewrite lookup_take_lt, file_bytes_lookup by (unfold zlen in *; lia). cbn.
    destruct (lookup_lt_is_Some_2 l i Hi) as [v Hv]. rewrite Hv. f_equal. by apply Ha.
  - rewrite !lookup_ge_None_2; [done|lia|rewrite length_take; lia].
Qed.

Context {L : SnapFormatLaws}.

(** ** Finalising *)
Definition same_data (f f' : file) (lo hi : Z) : Prop :=
  hi <= f_len f' /\ forall x, lo <= x < hi -> f_data f' x = f_data f x.

Lemma finalize_spec s s1 fin :
  compact s = (Ok tt, s1) -> end_of_data (sn_free_list s1) = Ok fin ->
  snap_header_size <= fin < 2 ^ 63 -> files_ok (sn_files s1) ->
  0 <= hd_from (sn_header s1) < 2 ^ 64 * 10 ^ 9 -> 0 <= hd_to (sn_header s1) < 2 ^ 64 * 10 ^ 9 ->
  exists s' f', finalize s = (Ok tt, s') /\ sn_files s' = sn_files s1 /\
    hd_ft_offset (sn_header s') = fin /\ same_data (sn_serialised s1) f' snap_header_size fin /\
    Snapshot_open (sn_serialised s') = Ok (mk_Snapshot (sn_header s') (sn_files s1) f' [(fin, USIZE_MAX)]).
Proof.
  intros Hc He Hfin Hfiles Hfrom Hto. unfold finalize. munfold. rewrite Hc, He.
  set (f1 := write_cursor _ _). set (f2 := seek_start f1 snap_header_size).
  destruct (hash_reader_total (S (Z.to_nat (f_len f2))) 0 f2) as (c & pos & -> & Hcr).
  { cbn. assert (0 <= snap_header_size) by (unfold snap_header_size, zlen; lia). lia. }
  { lia. }
  set (h := mk_Header _ fin _ _ c). eexists. eexists. split; [reflexivity|]. cbn [sn_files sn_header sn_serialised].
  split; [done|]. split; [done|].
  assert (zlen (ser_snap_header h) = snap_header_size) as Hhl
    by (unfold snap_header_size, zlen; f_equal; apply law_snap_header_length).
  set (f3 := write_cursor (ser_snap_header h) _).
  assert (f_len f1 = Z.max fin (fin + zlen (ser_files (sn_files s1)))) as Hl1.
  { unfold f1, write_cursor. cbn [seek_start f_len f_pos set_len].
    destruct (ser_files (sn_files s1)); [cbn; unfold zlen; cbn; lia|]. cbn [write_all_at f_len set_len]. done. }
  assert (0 <= snap_header_size) as Hhs by (unfold snap_header_size, zlen; lia).
  assert (0 <= zlen (ser_files (sn_files s1))) as Hzf by (unfold zlen; lia).
  assert (f_len f3 = f_len f1) as Hl3.
  { unfold f3, write_cursor. cbn [seek_start f_len f_pos].
    destruct (ser_snap_header h) as [|b l]; [done|]. cbn [write_all_at f_len seek_start f2]. lia. }
  assert (forall x, snap_header_size <= x -> f_data f3 x = f_data f1 x) as Hd3.
  { intros x Hx. unfold f3, write_cursor. cbn [seek_start f_data f_pos].
    rewrite write_all_at_other by lia. done. }
  assert (forall x, snap_header_size <= x < fin -> f_data f1 x = f_data (sn_serialised s1) x) as Hd1.
  { intros x Hx. unfold f1, write_cursor. cbn [seek_start f_data f_pos].
    rewrite write_all_at_other by lia. cbn. by replace (x <? fin) with true by lia. }
  assert (at_bytes f3 0 (ser_snap_header h)) as Hat0.
  { unfold f3, write_cursor. cbn [seek_start f_pos]. apply at_bytes_write_same. }
  assert (at_bytes f3 fin (ser_files (sn_files s1))) as Hatf.
  { intros i v Hi. rewrite Hd3 by lia. unfold f1, write_cursor. cbn [seek_start f_pos f_data].
    by apply at_bytes_write_same. }
  destruct (at_bytes_rest f3 0 _ Hat0) as (r0 & Hr0); [lia|].
  destruct (at_bytes_rest (seek_start f3 0) fin _ Hatf) as (rf & Hrf); [cbn [seek_start f_len]; lia|].
  unfold Snapshot_open. rewrite Hr0, law_snap_header.
  2: { unfold header_ok, h. cbn. split_and!; try done; lia. }
  cbn [h hd_ft_offset]. rewrite Hrf, law_files by done. split; [|reflexivity].
  split; [change (fin <= f_len f3); lia|]. intros x Hx. change (f_data f3 x = f_data (sn_serialised s1) x).
  by rewrite Hd3, Hd1 by lia.
Qed.

(** The contents and the replayed calls of a snapshot that was written to disk
    and read back. *)
Lemma reopened_same ext t s1 h f' :
  sinv snap_header_size ext t s1 -> same_data (sn_serialised s1) f' snap_header_size t ->
  let o := mk_Snapshot h (sn_files s1) f' [(t, USIZE_MAX)] in
  snapshot_calls o = snapshot_calls s1 /\
  forall p x v, sn_holds o p x v <-> sn_holds s1 p x v.
Proof.
  intros Hs [Hlen Hsame] o.
  assert (forall p d k b, file_blocks s1 p d -> (k, b) ∈ d -> 0 < size b /\
    snap_header_size <= location b /\ location b + size b <= t) as Hin.
  { intros p d k b Hd Hb. pose proof (si_file _ _ _ _ Hs _ _ Hd) as Hw.
    destruct (wi_block _ _ _ _ _ Hw _ _ Hb) as (? & ? & ? & ? & ? & ?). done. }
  split.
  - unfold snapshot_calls. cbn [o sn_files sn_serialised].
    apply bind_ext_in. intros [p f] Hpf. unfold file_calls.
    assert (block_calls p f' (default [] (f_blocks f)) =
      block_calls p (sn_serialised s1) (default [] (f_blocks f))) as ->; [|done].
    unfold block_calls. destruct (f_blocks f) as [d|] eqn:Ed; [|done]. cbn [default].
    apply list_fmap_ext. intros i [k b] Hi. unfold id. cbn [fst snd]. f_equal.
    destruct (Hin p d k b) as (? & ? & ?); [by exists f|by eapply list_elem_of_lookup_2|].
    unfold file_bytes. apply list_fmap_ext. intros j n Hj. apply lookup_seq in Hj as [-> Hj].
    apply Hsame. lia.
  - intros p x v. unfold sn_holds. split; intros (d & Hd & k & b & Hb & Hx & Hv); exists d;
      (split; [done|]); exists k, b; (split; [done|]); (split; [done|]); cbn [blocks_of w_file w_data o sn_serialised] in *;
      destruct (Hin p d k b Hd Hb) as (? & ? & ?); rewrite <- Hv; [symmetry|]; apply Hsame; lia.
Qed.

End Format.
