(* ===== verification/SnapshotCompact.v ===== *)
(** * Compaction

    [compact] moves blocks down into free ranges and joins runs of moved blocks.
    It keeps the invariant and every byte of every file, as long as no file has
    a block at offset 0: the last run of a file is written back only if its
    offset is not 0. *)

From stdpp Require Import base list numbers option strings.
From Stdlib Require Import ZArith Lia.
From S2P Require Import Prelude Common BTree Filestore Store Snapshot SnapshotAlloc SnapshotWrite SnapshotInv SnapshotMerge SnapshotFormat.

Local Open Scope Z_scope.

(** The tail is no higher than the bytes above which all is free. *)
Lemma wf_tail_le H t t' fl :
  wf_free H t' fl -> t' <= H + USIZE_MAX -> (forall x, t <= x < H + USIZE_MAX -> free fl x) -> t' <= t.
Proof.
  intros Hwf Hle Hf. destruct (decide (t' <= t)) as [|Hn]; [done|]. exfalso.
  destruct (Hf (t' - 1)) as (k & v & Hin & Hk); [lia|].
  pose proof (wf_tail_max _ _ _ _ _ Hwf Hin ltac:(lia)). lia.
Qed.

Lemma wf_tail_bound H t fl : wf_free H t fl -> t <= H + USIZE_MAX.
Proof. intros Hwf. destruct (wf_tail _ _ _ Hwf) as (v & Hin & Hv). pose proof (wf_entry _ _ _ Hwf _ _ Hin). lia. Qed.

Section Compact.
Context (H ext : Z) (oth : Z -> Prop).

Definition run_open (c : cstate) : Prop := is_empty_run (c_run c) = false.

(** The blocks of the file while the loop runs: placed, in the run, still to come. *)
Record cinv (t : Z) (c : cstate) (rest : DataList) (fl : FreeList) (f : file) (d : DataList) : Prop := mk_cinv {
  ci_winv : winv H ext oth t (mk_wstate fl d f);
  ci_mem : forall e, e ∈ d <-> e ∈ c_merged c \/ (run_open c /\ e = c_run c) \/ e ∈ rest;
  ci_sorted : bt_sorted (c_merged c);
  ci_rest : bt_sorted rest;
  ci_before : forall k b k' b', (k, b) ∈ c_merged c \/ (run_open c /\ (k, b) = c_run c) ->
    (k', b') ∈ rest -> k < k';
  ci_run : forall b, run_open c -> (fst (c_run c), b) ∉ c_merged c;
  ci_zero : forall b, (0, b) ∉ d }.

Definition kept (d : DataList) (f : file) (d' : DataList) (f' : file) : Prop :=
  (forall fl fl' x v, holds (mk_wstate fl' d' f') x v <-> holds (mk_wstate fl d f) x v) /\
  (forall x, oth x -> f_data f' x = f_data f x) /\ f_len f <= f_len f'.

Lemma kept_refl d f : kept d f d f.
Proof. split_and!; [|done|done]. intros fl fl' x v. done. Qed.

Lemma kept_trans d1 f1 d2 f2 d3 f3 : kept d1 f1 d2 f2 -> kept d2 f2 d3 f3 -> kept d1 f1 d3 f3.
Proof.
  intros (H1 & H2 & H3) (H4 & H5 & H6). split_and!; [| |lia].
  - intros fl fl' x v. by rewrite (H4 fl fl'), (H1 fl fl).
  - intros x Hx. by rewrite H5, H2.
Qed.

Lemma replaces_kept t s s' ov lo nb :
  winv H ext oth t s -> replaces s s' ov lo nb -> 0 < size nb ->
  (forall k b, (k, b) ∈ ov -> lo <= k /\ k + size b <= lo + size nb) ->
  (forall x, lo <= x < lo + size nb -> holds s x (f_data (w_file s') (location nb + (x - lo)))) ->
  kept (w_data s) (w_file s) (w_data s') (w_file s').
Proof.
  intros Hw Hr Hn Hhull Hnew. split_and!.
  - intros fl fl' x v.
    pose proof (replaces_overlaid H ext oth t s s' ov lo nb lo [] Hw Hr Hhull) as Hov.
    rewrite zlen_nil in Hov. specialize (Hov ltac:(lia) ltac:(lia)).
    assert (overlaid s s' lo []) as Ho.
    { apply Hov. intros y Hy. cbn zeta. rewrite decide_False by lia. by apply Hnew. }
    specialize (Ho x v). rewrite zlen_nil, decide_False in Ho by lia. exact Ho.
  - intros x Hx. by apply (replaces_others H ext oth t s s' ov lo nb).
  - apply Hr.
Qed.

(** What moving one block does to the free list and the file. *)
Lemma move_block t fl d f k b hint :
  winv H ext oth t (mk_wstate fl d f) -> 2 * t < ADDR_LIMIT -> (k, b) ∈ d ->
  exists loc fl1, allocate (size b) hint fl = (Ok (mk_Block loc (size b)), fl1) /\
    (location b < loc -> wf_free H t (deallocate (mk_Block loc (size b)) fl1) /\
       forall x, free (deallocate (mk_Block loc (size b)) fl1) x <-> free fl x) /\
    (loc <= location b -> exists f' t2,
       move_file_range (location b) loc (size b) f = (Ok tt, f') /\
       copied f f' (location b) loc (size b) /\ H <= loc /\ loc + size b <= location b /\
       wf_free H t2 (deallocate b fl1) /\ t2 <= t /\
       (forall x, loc <= x < loc + size b -> free fl x) /\
       forall x, free (deallocate b fl1) x <-> (free fl x \/ in_block b x) /\ ~ loc <= x < loc + size b).
Proof.
  intros Hw Hlim Hb. pose proof (wi_free _ _ _ _ _ Hw) as Hwf. cbn [w_free] in Hwf.
  destruct (wi_block _ _ _ _ _ Hw _ _ Hb) as (? & Hsz & ? & ? & ? & Hlen). cbn [w_file] in Hlen.
  pose proof (wf_H _ _ _ Hwf) as HH0.
  destruct (allocate_spec H t fl (size b) hint Hwf Hsz) as
    (loc & t1 & fl1 & Ha & Hwf1 & Ht1 & HH & Hle & Hf & Hnf); [lia|].
  exists loc, fl1. split; [done|].
  assert (forall x, t <= x < H + USIZE_MAX -> free fl x) as Habove
    by (intros x Hx; by apply (free_above_tail H t)).
  split.
  - intros Hlt. destruct (deallocate_spec H t1 fl1 (mk_Block loc (size b)) Hwf1)
      as (t2 & Hwf2 & Ht2 & Hf2); cbn [location size]; [lia|done|done|done|done|].
    assert (forall x, free (deallocate (mk_Block loc (size b)) fl1) x <-> free fl x) as Hsame.
    { intros x. rewrite Hf2, Hf. unfold in_block. cbn. done. }
    split; [|done].
    assert (t2 = t) as ->; [|done]. apply Z.le_antisymm.
    + apply (wf_tail_le H t t2 _ Hwf2); [by apply wf_tail_bound in Hwf2|]. intros x Hx. apply Hsame. auto.
    + apply (wf_tail_le H t2 t fl Hwf); [by apply wf_tail_bound in Hwf|]. intros x Hx. apply Hsame.
      by apply (free_above_tail H t2).
  - intros Hlt.
    assert (loc + size b <= location b) as Hdis.
    { destruct (decide (loc + size b <= location b)); [done|].
      destruct (wi_used _ _ _ _ _ Hw k b (location b) Hb); [unfold in_block; lia|].
      cbn. apply Hf. right. lia. }
    destruct (move_file_range_spec (location b) loc (size b) f) as (f' & Hm & Hc);
      [unfold ADDR_LIMIT in *; lia..|].
    destruct (deallocate_spec H t1 fl1 b Hwf1) as (t2 & Hwf2 & Ht2 & Hf2); [lia|done|done|lia|..].
    { intros x Hx Hx'. apply (wi_used _ _ _ _ _ Hw k b x Hb Hx). apply Hf. by left. }
    exists f', t2. split_and!; try done.
    + apply (wf_tail_le H t t2 _ Hwf2); [by apply wf_tail_bound in Hwf2|]. intros x Hx. apply Hf2. left.
      specialize (Habove x Hx). apply Hf in Habove as [?|?]; [done|]. unfold in_block in *. lia.
    + intros x Hx. apply Hf. by right.
    + intros x. rewrite Hf2, Hf. specialize (Hnf x). unfold in_block. split.
      * intros [Hx|Hx]; [split; [by left; left|]; intros Hx'; by apply Hnf|]. split; [by right|lia].
      * tauto.
Qed.

(** The bytes of [b] now lie at [loc]. *)
Definition freed (fl fl' : FreeList) (b : Block) (loc : Z) : Prop :=
  (forall x, loc <= x < loc + size b -> free fl x) /\
  forall x, free fl' x <-> (free fl x \/ in_block b x) /\ ~ loc <= x < loc + size b.

(** Moving a block that stays on its own. *)
Lemma moved_one t t2 fl fl' d f f' k b loc :
  winv H ext oth t (mk_wstate fl d f) -> t < ADDR_LIMIT -> (k, b) ∈ d ->
  copied f f' (location b) loc (size b) -> H <= loc -> loc + size b <= location b ->
  wf_free H t2 fl' -> freed fl fl' b loc ->
  let d' := bt_insert k (mk_Block loc (size b)) d in
  winv H ext oth t2 (mk_wstate fl' d' f') /\ kept d f d' f'.
Proof.
  intros Hw Hlim Hb (Hcd & Hcl & Hce) HH Hbel Hwf [Hfr Hf] d'.
  destruct (wi_block _ _ _ _ _ Hw _ _ Hb) as (? & Hsz & ? & ? & ? & ?). pose proof (wf_H _ _ _ Hwf).
  pose proof (wi_sorted _ _ _ _ _ Hw) as Hsort. cbn [w_data] in Hsort.
  set (nb := mk_Block loc (size b)). set (s := mk_wstate fl d f) in *. set (s' := mk_wstate fl' d' f').
  assert (forall k' b', (k', b') ∈ d -> (k', b') ∉ [(k, b)] <-> k' <> k) as Hne.
  { intros k' b' Hin. rewrite list_elem_of_singleton. split; [|by intros ? [= -> ->]].
    intros Hn ->. by rewrite (bt_elem_unique _ _ _ _ Hsort Hin Hb) in Hn. }
  assert (replaces s s' [(k, b)] k nb) as Hr.
  { constructor; cbn [s s' w_free w_data w_file].
    - intros k' b' Hin. by apply list_elem_of_singleton in Hin as [= -> ->].
    - by apply bt_insert_sorted.
    - intros k' b'. unfold d'. rewrite bt_insert_elem by done. specialize (Hne k' b'). tauto.
    - intros k' b' Hin Hn. apply Hne in Hn; [|done]. cbn. destruct (Z.lt_total k' k) as [Hl|[?|Hg]]; [|done|].
      + left. by apply (wi_logical _ _ _ _ _ Hw _ _ _ _ Hin Hb).
      + right. by apply (wi_logical _ _ _ _ _ Hw _ _ _ _ Hb Hin).
    - intros x Hx. left. by apply Hfr.
    - intros x. rewrite in_blocks_one. apply Hf.
    - intros x Hx. rewrite Hcd, decide_False; [done|]. exact Hx.
    - done. }
  split.
  - apply (replaces_winv H ext oth t t2 s s' [(k, b)] k nb); try done; cbn [nb s' location size w_file]; try lia.
    apply (used_below_tail H t2 fl' nb Hwf); [done|cbn; unfold ADDR_LIMIT, USIZE_MAX in *; lia|].
    intros x Hx. rewrite Hf. unfold in_block in Hx. cbn in Hx. tauto.
  - apply (replaces_kept t s s' [(k, b)] k nb Hw Hr); [done| |].
    + intros k' b' Hin. apply list_elem_of_singleton in Hin as [= -> ->]. cbn. lia.
    + cbn [nb s' w_file location size]. intros x Hx. rewrite Hcd, decide_True by lia.
      exists k, b. split; [done|]. split; [done|]. cbn [s w_file]. f_equal. lia.
Qed.

(** Moving a block to the end of the run before it. *)
Lemma moved_join t t2 fl fl' d f f' rk rb k b :
  winv H ext oth t (mk_wstate fl d f) -> t < ADDR_LIMIT -> (k, b) ∈ d -> (rk, rb) ∈ d ->
  rk + size rb = k -> location rb + size rb + size b <= location b ->
  copied f f' (location b) (location rb + size rb) (size b) ->
  wf_free H t2 fl' -> freed fl fl' b (location rb + size rb) ->
  let d' := bt_insert rk (mk_Block (location rb) (size rb + size b)) (bt_remove k d) in
  winv H ext oth t2 (mk_wstate fl' d' f') /\ kept d f d' f'.
Proof.
  intros Hw Hlim Hb Hrb Hk Hbel (Hcd & Hcl & Hce) Hwf [Hfr Hf] d'.
  destruct (wi_block _ _ _ _ _ Hw _ _ Hb) as (? & Hsz & ? & ? & ? & ?). pose proof (wf_H _ _ _ Hwf).
  destruct (wi_block _ _ _ _ _ Hw _ _ Hrb) as (? & Hrsz & ? & ? & ? & ?).
  pose proof (wi_sorted _ _ _ _ _ Hw) as Hsort. cbn [w_data] in Hsort.
  set (nb := mk_Block (location rb) (size rb + size b)). set (ov := [(rk, rb); (k, b)]).
  set (s := mk_wstate fl d f) in *. set (s' := mk_wstate fl' d' f').
  assert (forall k' b', (k', b') ∈ ov <-> (k' = rk /\ b' = rb) \/ (k' = k /\ b' = b)) as Hov.
  { intros k' b'. unfold ov. rewrite elem_of_cons, list_elem_of_singleton, !pair_equal_spec. done. }
  assert (forall k' b', (k', b') ∈ d -> (k', b') ∉ ov <-> k' <> rk /\ k' <> k) as Hne.
  { intros k' b' Hin. rewrite Hov. split; [|intros [? ?] [[? _]|[? _]]; done]. intros Hn. split; intros ->.
    - by rewrite (bt_elem_unique _ _ _ _ Hsort Hin Hrb) in Hn; destruct Hn; left.
    - by rewrite (bt_elem_unique _ _ _ _ Hsort Hin Hb) in Hn; destruct Hn; right. }
  assert (forall x, in_blocks ov x <-> in_block rb x \/ in_block b x) as Hib.
  { intros x. split.
    - intros (k' & b' & Hin & Hx). apply Hov in Hin as [[-> ->]|[-> ->]]; [by left|by right].
    - intros [Hx|Hx]; [exists rk, rb|exists k, b]; (split; [apply Hov|done]); [by left|by right]. }
  assert (forall x, in_block nb x <-> in_block rb x \/
    location rb + size rb <= x < location rb + size rb + size b) as Hnb
    by (intros x; unfold in_block; cbn; lia).
  assert (replaces s s' ov rk nb) as Hr.
  { constructor; cbn [s s' w_free w_data w_file].
    - intros k' b' Hin. by apply Hov in Hin as [[-> ->]|[-> ->]].
    - by apply bt_insert_sorted, bt_remove_sorted.
    - intros k' b'. unfold d'. rewrite bt_insert_elem, bt_remove_elem by (try apply bt_remove_sorted; done).
      specialize (Hne k' b'). tauto.
    - intros k' b' Hin Hn. apply Hne in Hn as [Hn1 Hn2]; [|done]. cbn [nb size].
      destruct (wi_block _ _ _ _ _ Hw _ _ Hin) as (? & ? & _).
      destruct (Z.lt_total k' rk) as [Hl|[?|Hg]]; [|done|].
      + left. by apply (wi_logical _ _ _ _ _ Hw _ _ _ _ Hin Hrb).
      + right. pose proof (wi_logical _ _ _ _ _ Hw _ _ _ _ Hrb Hin Hg).
        pose proof (wi_logical _ _ _ _ _ Hw _ _ _ _ Hb Hin ltac:(lia)). lia.
    - intros x Hx. rewrite Hib. apply Hnb in Hx as [Hx|Hx]; [by right; left|left; by apply Hfr].
    - intros x. rewrite Hib, Hnb, Hf.
      pose proof (fun Hx => wi_used _ _ _ _ _ Hw rk rb x Hrb Hx) as Hu. cbn [w_free s] in Hu.
      pose proof (fun Hx => wi_physical _ _ _ _ _ Hw rk rb k b x Hrb Hb ltac:(lia) Hx) as Hph. tauto.
    - intros x Hx. rewrite Hcd, decide_False; [done|]. rewrite Hnb in Hx. tauto.
    - done. }
  split.
  - apply (replaces_winv H ext oth t t2 s s' ov rk nb); try done; cbn [nb s' location size w_file]; try lia.
    apply (used_below_tail H t2 fl' nb Hwf); [cbn; lia|cbn; unfold ADDR_LIMIT, USIZE_MAX in *; lia|].
    intros x Hx. rewrite Hf. apply Hnb in Hx as [Hx|Hx]; [|tauto].
    pose proof (wi_used _ _ _ _ _ Hw rk rb x Hrb Hx).
    pose proof (wi_physical _ _ _ _ _ Hw rk rb k b x Hrb Hb ltac:(lia) Hx). tauto.
  - apply (replaces_kept t s s' ov rk nb Hw Hr); [cbn; lia| |].
    + intros k' b' Hin. apply Hov in Hin as [[-> ->]|[-> ->]]; cbn; lia.
    + cbn [nb s' w_file location size]. intros x Hx. rewrite Hcd. case_decide.
      * exists k, b. split; [done|]. split; [lia|]. cbn [s w_file]. f_equal. lia.
      * exists rk, rb. split; [done|]. split; [lia|]. done.
Qed.

(** ** One block of the loop *)

(** The block stays where it is. *)
Lemma place_block t c k b rest fl fl' f d :
  cinv t c ((k, b) :: rest) fl f d -> t < ADDR_LIMIT -> wf_free H t fl' ->
  (forall x, free fl' x <-> free fl x) ->
  cinv t (mk_cstate (bt_insert k b (c_merged c)) (c_run c)) rest fl' f d.
Proof.
  intros [Hw Hmem Hs Hr Hbef Hrun Hz] Hlim Hwf Hf. apply sorted_cons_inv in Hr as [Hr Hkey].
  assert (forall k' b', (k', b') ∈ c_merged c \/ run_open c /\ (k', b') = c_run c -> k' < k) as Hlt
    by (intros k' b' Hin; apply (Hbef k' b' k b Hin); by left).
  constructor; cbn [c_merged c_run]; try done.
  - by apply (winv_free_list H ext oth t t (mk_wstate fl d f)).
  - intros [k' b']. rewrite Hmem, bt_insert_elem, elem_of_cons, pair_equal_spec by done.
    specialize (Hlt k' b'). unfold run_open. cbn [c_run]. split; [|tauto].
    intros [Hin|[?|[[-> ->]|?]]]; [|by right; left|by left; left|by right; right].
    left. right. split; [|done]. intros ->. specialize (Hlt ltac:(by left)). lia.
  - by apply bt_insert_sorted.
  - intros k' b' k2 b2 Hin Hin2. pose proof (Hkey _ _ Hin2) as Hk2. apply key_lt_Z in Hk2.
    destruct Hin as [Hin|Hin]; [|specialize (Hlt k' b' ltac:(by right)); lia].
    apply bt_insert_elem in Hin as [[-> _]|[_ Hin]]; [done| |done]. specialize (Hlt k' b' ltac:(by left)). lia.
  - intros b' Ho Hin. apply bt_insert_elem in Hin as [[Heq _]|[_ Hin]]; [| |done].
    + specialize (Hlt (fst (c_run c)) (snd (c_run c))). rewrite <- surjective_pairing in Hlt.
      specialize (Hlt ltac:(by right)). lia.
    + by apply (Hrun b').
Qed.

Lemma open_run k b m : 0 < size b -> run_open (mk_cstate m (k, b)).
Proof. intros Hb. unfold run_open, is_empty_run. cbn. lia. Qed.

(** The loop state after the block has moved. *)
Section Extend.
Context (t t2 k loc rk : Z) (rb b : Block) (m rest : list (Z * Block)) (fl fl' : list (Z * Z)) (f f' : file) (d : list (Z * Block)).
Abbreviation c := (mk_cstate m (rk, rb)).
Context (Hci : cinv t c ((k, b) :: rest) fl f d) (Hlim : t < ADDR_LIMIT) (Hcp : copied f f' (location b) loc (size b))
  (HH : H <= loc) (Hbel : loc + size b <= location b) (Hwf : wf_free H t2 fl') (Hfr : freed fl fl' b loc).

(** Where the block to move is among the others. *)
Lemma extend_order : (k, b) ∈ d /\ 0 < size b /\ k <> 0 /\
  (forall k' b', (k', b') ∈ rest -> k < k') /\
  (forall k' b', (k', b') ∈ m \/ run_open c /\ (k', b') = (rk, rb) -> k' < k).
Proof.
  destruct Hci as [Hw Hmem Hs Hr Hbef Hrun Hz]. apply sorted_cons_inv in Hr as [Hr Hkey].
  assert ((k, b) ∈ d) as Hb by (apply Hmem; right; right; by left).
  destruct (wi_block _ _ _ _ _ Hw _ _ Hb) as (? & Hsz & _). split_and!; [done|done| | |].
  - intros ->. by apply (Hz b).
  - intros k' b' Hin. by apply key_lt_Z, (Hkey k' b').
  - intros k' b' Hin. apply (Hbef k' b' k b Hin). by left.
Qed.

(** The first block of a run. *)
Lemma extend_first : is_empty_run (rk, rb) = true ->
  exists d', cinv t2 (mk_cstate m (k, mk_Block loc (size b))) rest fl' f' d' /\ kept d f d' f'.
Proof.
  intros Ee. destruct extend_order as (Hb & Hsz & Hk0 & Hkr & Hlt). destruct Hci as [Hw Hmem Hs Hr Hbef Hrun Hz].
  pose proof (wi_sorted _ _ _ _ _ Hw) as Hsort. cbn [w_data] in Hsort. apply sorted_cons_inv in Hr as [Hr _]. cbn [c_run c_merged] in *.
  destruct (moved_one t t2 fl fl' d f f' k b loc) as [Hw' Hk']; try done. eexists. split; [|exact Hk'].
  assert (~ run_open c) as Hno by (unfold run_open; cbn [c_run]; congruence).
  constructor; cbn [c_run c_merged]; try done.
  - intros [k' b']. rewrite bt_insert_elem, Hmem, elem_of_cons, !pair_equal_spec by done.
    specialize (Hlt k' b'). specialize (Hkr k' b').
    pose proof (open_run k (mk_Block loc (size b)) m Hsz).
    split; [tauto|]. intros [Hin|[?|Hin]]; [|by left; tauto|]; right.
    + split; [|by left]. specialize (Hlt ltac:(by left)). lia.
    + split; [|by right; right; right]. specialize (Hkr Hin). lia.
  - intros k' b' k2 b2 [Hin|[_ [= -> ->]]] Hin2; specialize (Hkr _ _ Hin2); [|done].
    specialize (Hlt k' b' ltac:(by left)). lia.
  - intros b' _ Hin. specialize (Hlt k b' ltac:(by left)). lia.
  - intros b' Hin. apply bt_insert_elem in Hin as [[? _]|[_ Hin]]; [done|by apply (Hz b')|done].
Qed.

(** A block that goes on where the run ends, in the file and on disk. *)
Lemma extend_join : run_open c -> rk + size rb = k -> loc = location rb + size rb ->
  exists d', cinv t2 (mk_cstate m (rk, mk_Block (location rb) (size rb + size b))) rest fl' f' d' /\ kept d f d' f'.
Proof.
  intros Ho Hj Hl. destruct extend_order as (Hb & Hsz & Hk0 & Hkr & Hlt). destruct Hci as [Hw Hmem Hs Hr Hbef Hrun Hz].
  pose proof (wi_sorted _ _ _ _ _ Hw) as Hsort. cbn [w_data] in Hsort. apply sorted_cons_inv in Hr as [Hr _]. cbn [c_run c_merged] in *.
  assert ((rk, rb) ∈ d) as Hrb by (apply Hmem; right; by left).
  destruct (wi_block _ _ _ _ _ Hw _ _ Hrb) as (? & Hrsz & _). rewrite Hl in *.
  destruct (moved_join t t2 fl fl' d f f' rk rb k b) as [Hw' Hk']; try done. eexists. split; [|exact Hk'].
  constructor; cbn [c_run c_merged]; try done.
  - intros [k' b']. rewrite bt_insert_elem, bt_remove_elem, Hmem, elem_of_cons, !pair_equal_spec
      by (try apply bt_remove_sorted; done).
    pose proof (open_run rk (mk_Block (location rb) (size rb + size b)) m ltac:(cbn; lia)).
    split; [tauto|]. intros [Hin|[?|Hin]]; [|by left; tauto|]; right.
    + split; [intros ->; by apply (Hrun b')|]. split; [|by left].
      specialize (Hlt k' b' ltac:(by left)). lia.
    + specialize (Hkr _ _ Hin). split; [lia|]. split; [lia|]. by right; right; right.
  - intros k' b' k2 b2 [Hin|[_ [= -> ->]]] Hin2; specialize (Hkr _ _ Hin2); [|lia].
    specialize (Hlt k' b' ltac:(by left)). lia.
  - intros b' _. by apply (Hrun b').
  - intros b' Hin. apply bt_insert_elem in Hin as [[Heq _]|[_ Hin]]; [apply (Hz rb); by rewrite Heq| |by apply bt_remove_sorted].
    apply bt_remove_elem in Hin as [_ Hin]; [by apply (Hz b')|done].
Qed.

(** A block after a gap: the run is closed and another begins. *)
Lemma extend_next : run_open c ->
  exists d', cinv t2 (mk_cstate (bt_insert rk rb m) (k, mk_Block loc (size b))) rest fl' f' d' /\ kept d f d' f'.
Proof.
  intros Ho. destruct extend_order as (Hb & Hsz & Hk0 & Hkr & Hlt). destruct Hci as [Hw Hmem Hs Hr Hbef Hrun Hz].
  pose proof (wi_sorted _ _ _ _ _ Hw) as Hsort. cbn [w_data] in Hsort. apply sorted_cons_inv in Hr as [Hr _]. cbn [c_run c_merged] in *.
  assert (rk < k) as Hrk by (apply (Hlt rk rb); by right).
  destruct (moved_one t t2 fl fl' d f f' k b loc) as [Hw' Hk']; try done. eexists. split; [|exact Hk'].
  constructor; cbn [c_run c_merged]; try done.
  - intros [k' b']. rewrite !bt_insert_elem, Hmem, elem_of_cons, !pair_equal_spec by done.
    pose proof (open_run k (mk_Block loc (size b)) (bt_insert rk rb m) Hsz).
    split; [|intros [[[-> ->]|[Hne Hin]]|[?|Hin]]; [right|right|by left; tauto|right]].
    + intros [?|[Hne [Hin|[[_ [-> ->]]|[?|Hin]]]]]; [by right; left|left; right|by left; left|tauto|by right; right].
      split; [|done]. intros ->. by apply (Hrun b').
    + split; [lia|]. tauto.
    + specialize (Hlt k' b' ltac:(by left)). split; [lia|by left].
    + specialize (Hkr _ _ Hin). split; [lia|]. tauto.
  - by apply bt_insert_sorted.
  - intros k' b' k2 b2 [Hin|[_ [= -> ->]]] Hin2; specialize (Hkr _ _ Hin2); [|done].
    apply bt_insert_elem in Hin as [[-> _]|[_ Hin]]; [lia| |done].
    specialize (Hlt k' b' ltac:(by left)). lia.
  - intros b' _ Hin. cbn [fst] in Hin. apply bt_insert_elem in Hin as [[? _]|[_ Hin]]; [lia| |done].
    specialize (Hlt k b' ltac:(by left)). lia.
  - intros b' Hin. apply bt_insert_elem in Hin as [[? _]|[_ Hin]]; [done|by apply (Hz b')|done].
Qed.
End Extend.

Lemma extend_run_ok t t2 c k b rest fl fl' f f' d loc :
  cinv t c ((k, b) :: rest) fl f d -> t < ADDR_LIMIT ->
  copied f f' (location b) loc (size b) -> H <= loc -> loc + size b <= location b ->
  wf_free H t2 fl' -> freed fl fl' b loc ->
  exists d', cinv t2 (extend_run c k b (mk_Block loc (size b))) rest fl' f' d' /\ kept d f d' f'.
Proof.
  intros Hci Hlim Hcp HH Hbel Hwf Hfr. destruct c as [m [rk rb]]. unfold extend_run. cbn [c_run c_merged].
  destruct (is_empty_run (rk, rb)) eqn:Ee; [by eapply extend_first|].
  assert (run_open (mk_cstate m (rk, rb))) as Ho by done.
  pose proof Hci as [Hw Hmem _ _ _ _ _]. pose proof (wf_H _ _ _ Hwf).
  assert ((rk, rb) ∈ d) as Hrb by (apply Hmem; right; by left).
  assert ((k, b) ∈ d) as Hb by (apply Hmem; right; right; by left).
  destruct (wi_block _ _ _ _ _ Hw _ _ Hrb) as (? & ? & ? & ? & ? & ?), (wi_block _ _ _ _ _ Hw _ _ Hb) as (? & ? & ? & ? & ? & ?).
  rewrite !(u64_small (rk + _)), !(u64_small (location rb + _)) by (unfold ADDR_LIMIT in *; lia).
  cbn [location]. destruct ((rk + size rb =? k) && (location rb + size rb =? loc)) eqn:Ej; [|by eapply extend_next].
  rewrite u64_small by (unfold ADDR_LIMIT in *; lia).
  apply (extend_join t t2 k loc rk rb b m rest fl fl' f f' d); try done; lia.
Qed.

Lemma compact_block_ok t c k b rest fl f d wasted fin :
  cinv t c ((k, b) :: rest) fl f d -> 2 * t < ADDR_LIMIT -> 0 <= t ->
  exists c' fl' f' d' t', compact_block wasted fin k b c (fl, f) = (Ok c', (fl', f')) /\
    cinv t' c' rest fl' f' d' /\ t' <= t /\ kept d f d' f'.
Proof.
  intros Hci Hlim Ht. pose proof (ci_winv _ _ _ _ _ _ Hci) as Hw.
  assert ((k, b) ∈ d) as Hb by (apply (ci_mem _ _ _ _ _ _ Hci); right; right; by left).
  unfold compact_block. destruct (_ <? location b).
  2: { exists (mk_cstate (bt_insert k b (c_merged c)) (c_run c)), fl, f, d, t. split; [done|]. split; [|split; [done|apply kept_refl]].
       apply (place_block t c k b rest fl fl f d Hci); [lia|apply Hw|done]. }
  destruct (move_block t fl d f k b (Some (u64 (location (c_run c).2 + size (c_run c).2))) Hw Hlim Hb)
    as (loc & fl1 & -> & Hup & Hdown). cbn [location].
  destruct (location b <? loc) eqn:E.
  - destruct (Hup ltac:(lia)) as [Hwf Hf].
    exists (mk_cstate (bt_insert k b (c_merged c)) (c_run c)), (deallocate (mk_Block loc (size b)) fl1), f, d, t.
    split; [done|]. split; [|split; [done|apply kept_refl]]. apply (place_block t c k b rest fl _ f d Hci); [lia|done|done].
  - destruct (Hdown ltac:(lia)) as (f' & t2 & -> & Hcp & HH & Hbel & Hwf & Ht2 & Hfr).
    destruct (extend_run_ok t t2 c k b rest fl (deallocate b fl1) f f' d loc) as (d' & Hci' & Hk); try done; [lia|].
    exists (extend_run c k b (mk_Block loc (size b))), (deallocate b fl1), f', d', t2. done.
Qed.

Lemma winv_tail_nonneg t s : winv H ext oth t s -> 0 <= t.
Proof.
  intros Hw. pose proof (wi_free _ _ _ _ _ Hw) as Hf. pose proof (wf_H _ _ _ Hf).
  destruct (wf_tail _ _ _ Hf) as (v & Hin & _). pose proof (wf_entry _ _ _ Hf _ _ Hin). lia.
Qed.

Lemma compact_blocks_ok wasted fin rest : forall t c fl f d,
  cinv t c rest fl f d -> 2 * t < ADDR_LIMIT ->
  exists c' fl' f' d' t', compact_blocks wasted fin rest c (fl, f) = (Ok c', (fl', f')) /\
    cinv t' c' [] fl' f' d' /\ t' <= t /\ kept d f d' f'.
Proof.
  induction rest as [|[k b] rest IH]; intros t c fl f d Hci Hlim.
  { exists c, fl, f, d, t. split; [done|]. split; [done|]. split; [done|apply kept_refl]. }
  pose proof (winv_tail_nonneg t _ (ci_winv _ _ _ _ _ _ Hci)) as Ht.
  destruct (compact_block_ok t c k b rest fl f d wasted fin Hci Hlim Ht)
    as (c1 & fl1 & f1 & d1 & t1 & E1 & Hci1 & Ht1 & Hk1).
  destruct (IH t1 c1 fl1 f1 d1 Hci1 ltac:(lia)) as (c' & fl' & f' & d' & t' & E' & Hci' & Ht' & Hk').
  exists c', fl', f', d', t'. cbn [compact_blocks]. munfold. rewrite E1, E'.
  split; [done|]. split; [done|]. split; [lia|]. by apply (kept_trans d f d1 f1).
Qed.

(** Two sorted lists with the same bindings hold the same. *)
Lemma winv_data_ext t fl d d' f :
  winv H ext oth t (mk_wstate fl d f) -> bt_sorted d' -> (forall e, e ∈ d' <-> e ∈ d) ->
  winv H ext oth t (mk_wstate fl d' f).
Proof.
  intros [Hf Hs Hb Hl Hp Hu Ho] Hs' He. cbn [w_data w_free w_file] in *.
  constructor; cbn [w_data w_free w_file]; try done.
  - intros k b Hin. by apply (Hb k b), He.
  - intros k b k' b' Hin Hin'. by apply (Hl k b k' b'); apply He.
  - intros k b k' b' x Hin Hin'. by apply (Hp k b k' b' x); apply He.
  - intros k b x Hin. apply (Hu k b). by apply He.
  - intros x Hx. destruct (Ho x Hx) as (? & ? & Hno). split_and!; try done; try lia.
    intros k b Hin. by apply (Hno k b), He.
Qed.

(** All the blocks of a file: none of them at offset 0. *)
Lemma compact_data_ok t fl d f wasted fin :
  winv H ext oth t (mk_wstate fl d f) -> 2 * t < ADDR_LIMIT -> (forall b, (0, b) ∉ d) ->
  exists c fl' f' t', compact_blocks wasted fin d (mk_cstate [] empty_run) (fl, f) = (Ok c, (fl', f')) /\
    winv H ext oth t' (mk_wstate fl' (finish_run c) f') /\ t' <= t /\ kept d f (finish_run c) f' /\
    forall b, (0, b) ∉ finish_run c.
Proof.
  intros Hw Hlim Hz.
  destruct (compact_blocks_ok wasted fin d t (mk_cstate [] empty_run) fl f d) as
    (c & fl' & f' & d' & t' & E & Hci & Ht & Hk); [|done|].
  { constructor; cbn [c_merged c_run]; try done; try apply Hw.
    - intros e. split; [by right; right|]. intros [Hin|[[Ho _]|?]]; [by inv Hin|done|done].
    - constructor.
    - intros k b k' b' [Hin|[Ho _]]; [by inv Hin|done]. }
  pose proof Hci as [Hw' Hmem Hs _ _ Hrun Hz'].
  assert (bt_sorted (finish_run c) /\ forall e, e ∈ finish_run c <-> e ∈ d') as [Hs' He].
  { unfold finish_run. destruct c as [m [rk rb]]. cbn [c_merged c_run] in *.
    assert (forall e, e ∈ d' <-> e ∈ m \/ run_open (mk_cstate m (rk, rb)) /\ e = (rk, rb)) as Hmem'.
    { intros e. rewrite Hmem. split; [|tauto]. intros [?|[?|Hin]]; [by left|by right|by inv Hin]. }
    destruct (rk =? 0) eqn:E0.
    - split; [done|]. intros e. rewrite Hmem'. split; [by left|]. intros [?|[Ho ->]]; [done|].
      apply Z.eqb_eq in E0 as ->. destruct (Hz' rb). apply Hmem'. by right.
    - assert (run_open (mk_cstate m (rk, rb))) as Ho by (unfold run_open, is_empty_run; cbn; lia).
      split; [by apply bt_insert_sorted|]. intros [k b]. rewrite bt_insert_elem, Hmem', pair_equal_spec by done.
      split; [tauto|]. intros [Hin|[_ ?]]; [|by left]. right. split; [|done]. intros ->. by apply (Hrun b). }
  exists c, fl', f', t'. split; [done|]. split; [by apply (winv_data_ext t' fl' d')|]. split; [done|]. split.
  - destruct Hk as (H1 & H2 & H3). split_and!; try done. intros fl0 fl1 x v. rewrite <- (H1 fl0 fl1).
    unfold holds. cbn [w_data w_file]. split; intros (k & b & Hin & Hx); exists k, b; (split; [by apply He|done]).
  - intros b Hin. by apply (Hz' b), He.
Qed.

End Compact.

(** ** All files *)
Definition no_zero_block (s : Snapshot) : Prop := forall p d b, file_blocks s p d -> (0, b) ∉ d.

Definition compacted (H ext t : Z) (s s' : Snapshot) : Prop :=
  exists t', sinv H ext t' s' /\ t' <= t /\ no_zero_block s' /\
    forall p x v, sn_holds s' p x v <-> sn_holds s p x v.

Lemma compact_file_ok H ext t s p :
  sinv H ext t s -> 2 * t < ADDR_LIMIT -> no_zero_block s ->
  exists more s', compact_file p s = (Ok more, s') /\ compacted H ext t s s'.
Proof.
  intros Hs Hlim Hz. assert (compacted H ext t s s) as Hrefl by (exists t; by split_and!).
  unfold compact_file. destruct (bt_get p (sn_files s)) as [f|] eqn:Ef; [|by exists true, s].
  destruct (f_blocks f) as [d|] eqn:Ed; [|by exists true, s].
  rewrite (end_of_data_spec H t) by apply Hs. destruct (below_threshold _ _); [by exists false, s|].
  apply bt_get_elem in Ef; [|apply Hs].
  assert (file_blocks s p d) as Hd by (by exists f).
  destruct (compact_data_ok H ext (others_of s p) t (sn_free_list s) d (sn_serialised s)
    (wasted_space (sn_free_list s)) t) as (c & fl' & f' & t' & -> & Hw' & Ht' & (Hh & Ho & Hl) & Hz');
    [by apply (si_file _ _ _ _ Hs)|done|by intros b; apply (Hz p)|].
  eexists true, _. split; [reflexivity|]. exists t'.
  assert (bt_sorted (sn_files s)) as Hsort by apply Hs.
  split; [by apply (sinv_insert H ext t)|]. split; [done|]. split.
  - intros p' d' b Hd'. apply file_blocks_insert in Hd' as [[_ [= <-]]|[_ Hd']]; [by apply Hz'| |done].
    by apply (Hz p').
  - intros p' x v. unfold sn_holds. split.
    + intros (d' & Hd' & Hx). apply file_blocks_insert in Hd' as [[-> [= <-]]|[Hne Hd']]; [| |done].
      * exists d. split; [done|]. by apply (Hh (sn_free_list s) fl').
      * exists d'. split; [done|]. destruct Hx as (k & b & Hb & Hx & <-). exists k, b. split; [done|]. split; [done|].
        symmetry. apply Ho. exists p'. split; [done|]. exists d'. split; [done|]. exists k, b.
        split; [done|]. unfold in_block. lia.
    + intros (d' & Hd' & Hx). destruct (decide (p' = p)) as [->|Hne].
      * exists (finish_run c). split; [apply file_blocks_insert; [done|]; by left|].
        destruct Hd' as (f0 & Hin & Hd0). rewrite (bt_elem_unique _ _ _ _ Hsort Hin Ef) in Hd0.
        assert (d' = d) as -> by congruence. by apply (Hh (sn_free_list s) fl').
      * exists d'. split; [apply file_blocks_insert; [done|]; by right|].
        destruct Hx as (k & b & Hb & Hx & <-). exists k, b. split; [done|]. split; [done|].
        apply Ho. exists p'. split; [done|]. exists d'. split; [done|]. exists k, b.
        split; [done|]. unfold in_block. lia.
Qed.

Lemma compact_files_ok H ext ps : forall t s,
  sinv H ext t s -> 2 * t < ADDR_LIMIT -> no_zero_block s ->
  exists s', compact_files ps s = (Ok tt, s') /\ compacted H ext t s s'.
Proof.
  induction ps as [|p ps IH]; intros t s Hs Hlim Hz.
  { exists s. split; [done|]. exists t. by split_and!. }
  destruct (compact_file_ok H ext t s p Hs Hlim Hz) as (more & s1 & E1 & Hc1).
  cbn [compact_files]. munfold. rewrite E1. destruct more; [|by exists s1].
  destruct Hc1 as (t1 & Hs1 & Ht1 & Hz1 & Hh1).
  destruct (IH t1 s1 Hs1 ltac:(lia) Hz1) as (s' & E' & t' & Hs' & Ht' & Hz' & Hh').
  exists s'. split; [done|]. exists t'. split_and!; try done; [lia|]. intros p' x v. by rewrite Hh', Hh1.
Qed.

Lemma compact_ok H ext t s :
  sinv H ext t s -> 2 * t < ADDR_LIMIT -> no_zero_block s ->
  exists s', compact s = (Ok tt, s') /\ compacted H ext t s s'.
Proof. intros Hs Hlim Hz. unfold compact. munfold. by apply compact_files_ok. Qed.

(** Little wasted space: nothing is moved. *)
Lemma compact_quiet H ext t s :
  sinv H ext t s -> below_threshold (wasted_space (sn_free_list s)) t = true -> compact s = (Ok tt, s).
Proof.
  intros Hs Hq. unfold compact. munfold. induction (fst <$> sn_files s) as [|p ps IH]; [done|].
  cbn [compact_files]. munfold. unfold compact_file at 1.
  destruct (bt_get p (sn_files s)) as [f|]; [|done]. destruct (f_blocks f); [|done].
  by rewrite (end_of_data_spec H t), Hq by apply Hs.
Qed.

(** What compaction keeps of every record: all but its blocks. *)
Section Keeps.
Context (P : File -> bool) (HP : forall f d, P (set_blocks f d) = P f).

Definition all_files (s : Snapshot) : Prop := forall p f, (p, f) ∈ sn_files s -> P f = true.

Lemma compact_file_keeps p s r s' :
  bt_sorted (sn_files s) -> compact_file p s = (r, s') -> all_files s ->
  bt_sorted (sn_files s') /\ all_files s' /\ sn_header s' = sn_header s.
Proof.
  intros Hsort E Ha. unfold compact_file in E.
  destruct (bt_get p (sn_files s)) as [f|] eqn:Ef; [|by inv E]. destruct (f_blocks f) as [d|]; [|by inv E].
  destruct (end_of_data _); try by inv E. destruct (below_threshold _ _); [by inv E|].
  apply bt_get_elem in Ef; [|done].
  assert (forall d', bt_sorted (bt_insert p (set_blocks f d') (sn_files s)) /\
    forall q g, (q, g) ∈ bt_insert p (set_blocks f d') (sn_files s) -> P g = true) as Hins.
  { intros d'. split; [by apply bt_insert_sorted|]. intros q g Hin. apply bt_insert_elem in Hin; [|done].
    destruct Hin as [[-> ->]|[_ Hin]]; [rewrite HP; by apply (Ha p)|by apply (Ha q)]. }
  destruct (compact_blocks _ _ _ _ _) as [o [fl ser]]. destruct o; injection E as <- <-; (split; [apply Hins|split; [|done]]);
    unfold all_files; cbn [sn_files]; apply Hins.
Qed.

Lemma compact_keeps s r s' :
  bt_sorted (sn_files s) -> compact s = (r, s') -> all_files s -> all_files s' /\ sn_header s' = sn_header s.
Proof.
  unfold compact. munfold. generalize (fst <$> sn_files s). intros ps. revert s r s'.
  induction ps as [|p ps IH]; intros s r s' Hsort E Ha; cbn [compact_files] in E; munfold; [by inv E|].
  destruct (compact_file p s) as [o s1] eqn:E1. destruct (compact_file_keeps p s o s1 Hsort E1 Ha) as (Hs1 & Ha1 & Hh1).
  destruct o as [[]| | |]; try by inv E. rewrite <- Hh1. by apply (IH s1 r).
Qed.
End Keeps.
