(* ===== verification/SnapshotInst.v ===== *)
(** * A concrete snapshot format

    Little-endian fixed-width headers, a byte sum in place of the CRC, and one
    table of files per format. It shows that [SnapFormatLaws] can hold, and lets
    snapshots be run on small inputs. *)

From stdpp Require Import base list numbers option strings.
From Stdlib Require Import ZArith Lia.
From S2P Require Import Prelude Common BTree Filestore Store StoreInst Snapshot SnapshotAlloc SnapshotWrite SnapshotInv SnapshotMerge.

Local Open Scope Z_scope.

Definition tag_of_snapshot (t : SnapshotType) : Z :=
  match t with ST_Forward => 0 | ST_Bidirectional => 1 | ST_Undo => 2 end.

Definition snapshot_of_tag (z : Z) : option SnapshotType :=
  if z =? 0 then Some ST_Forward else if z =? 1 then Some ST_Bidirectional
  else if z =? 2 then Some ST_Undo else None.

Definition snap_header_bytes (h : Header) : list Z :=
  le_bytes 4 (tag_of_snapshot (hd_ty h)) ++ le_bytes 8 (hd_ft_offset h) ++ le_bytes 12 (hd_from h) ++
  le_bytes 12 (hd_to h) ++ le_bytes 4 (hd_checksum h).

Definition bytes_snap_header (l : list Z) : option Header :=
  (fun ty => mk_Header ty (le_val (take 8 (drop 4 l))) (le_val (take 12 (drop 12 l)))
    (le_val (take 12 (drop 24 l))) (le_val (take 4 (drop 36 l)))) <$> snapshot_of_tag (le_val (take 4 l)).

Lemma snap_header_inv h rest : header_ok h -> bytes_snap_header (snap_header_bytes h ++ rest) = Some h.
Proof.
  intros (Ho & Hc & Hf & Ht). destruct h as [ty off from to c]. cbn [hd_ft_offset hd_checksum hd_from hd_to] in *.
  unfold bytes_snap_header, snap_header_bytes. cbn [hd_ty hd_ft_offset hd_checksum hd_from hd_to].
  rewrite <- !app_assoc.
  rewrite (take_le 4), (drop_le 4 0), (drop_le 4 8), (drop_le 4 20), (drop_le 4 32).
  rewrite (drop_le 8 0), (drop_le 8 12), (drop_le 8 24), (drop_le 12 0), (drop_le 12 12), (drop_le 12 0).
  rewrite !drop_0, !take_le. rewrite !le_val_bytes by (destruct ty; cbn in *; lia). by destruct ty.
Qed.

Section Table.
Context (fs : Files).

Definition table_format : SnapFormat := {|
  ser_snap_header := snap_header_bytes; de_snap_header := bytes_snap_header;
  ser_files := fun _ => [1];
  de_files := fun l => match l with 1 :: _ => Some fs | _ => None end;
  crc_update := fun d l => byte_sum (d :: l) |}.

Definition table_format_laws : SnapFormatLaws (F := table_format).
Proof.
  refine (Build_SnapFormatLaws table_format (fun fs' => fs' = fs) _ _ _).
  - intros [] []. reflexivity.
  - apply snap_header_inv.
  - by intros fs' rest ->.
Defined.
End Table.

(** An empty file, and a new snapshot on it. *)
Definition empty_file : file := mk_file 0 (fun _ => 0) 0.
Definition demo_snapshot : Snapshot := Snapshot_new (F := table_format []) empty_file 1 2.

Section New.
Context {F : SnapFormat}.

(** A new snapshot satisfies the invariant and holds nothing. *)
Lemma Snapshot_new_sinv ext f now now' :
  sinv snap_header_size ext snap_header_size (Snapshot_new f now now').
Proof.
  assert (0 <= snap_header_size) by (unfold snap_header_size, zlen; lia).
  constructor; cbn.
  - constructor.
  - constructor; try done.
    + repeat constructor.
    + intros k v Hin. apply list_elem_of_singleton in Hin as [= -> ->]. unfold USIZE_MAX. lia.
    + intros k v k' v' H1 H2. apply list_elem_of_singleton in H1 as [= -> ->].
      apply list_elem_of_singleton in H2 as [= -> ->]. lia.
    + exists USIZE_MAX. split; [by left|done].
  - intros p d (f' & Hin & _). by inv Hin.
Qed.

Lemma Snapshot_new_nothing f now now' p x v : ~ sn_holds (Snapshot_new f now now') p x v.
Proof. intros (d & (f' & Hin & _) & _). by inv Hin. Qed.

Lemma Snapshot_new_nothing_iff f now now' p x v : sn_holds (Snapshot_new f now now') p x v <-> nothing p x v.
Proof. split; [|done]. intros Hx. by apply Snapshot_new_nothing in Hx. Qed.

(** What holds of a run from the contents of a new snapshot holds from nothing. *)
Lemma effects_from_new f now now' calls s' :
  (renames_flat calls (sn_holds (Snapshot_new f now now')) ->
   forall p x v, sn_holds s' p x v <-> effects calls (sn_holds (Snapshot_new f now now')) p x v) ->
  renames_flat calls nothing -> forall p x v, sn_holds s' p x v <-> effects calls nothing p x v.
Proof.
  intros Hh Hf p x v. assert (pointwise_relation _ (pointwise_relation _ (pointwise_relation _ iff))
    (sn_holds (Snapshot_new f now now')) nothing) as Hn by (intros q y w; apply Snapshot_new_nothing_iff).
  rewrite Hh by (by rewrite Hn). by apply (effects_ext calls).
Qed.
End New.
