(* ===== verification/SnapshotProps.v ===== *)
(** * What snapshots promise

    The properties of [fsyncd/src/snapshot/forward.rs], with their instances on
    small inputs, and the places where the code does not do what it means to. *)

From stdpp Require Import base list numbers option strings.
From Stdlib Require Import ZArith Lia.
From S2P Require Import Prelude Common BTree Filestore Store Snapshot SnapshotAlloc SnapshotWrite SnapshotInv SnapshotMerge SnapshotReplay SnapshotFormat SnapshotCompact SnapshotInst.

Local Open Scope Z_scope.

Definition path_a : path := mk_path true ["a"%string].
Definition path_b : path := mk_path true ["b"%string].
Definition path_c : path := mk_path true ["c"%string].

(** ** Space in the serialised file *)

(** Allocation hands out free bytes only, whatever the hint, and freeing the
    block again leaves exactly the bytes free that were. *)
Theorem snapshot_allocate_free H t fl sz hint :
  wf_free H t fl -> 0 < sz -> t + sz < ADDR_LIMIT ->
  exists loc t' fl', allocate sz hint fl = (Ok (mk_Block loc sz), fl') /\ wf_free H t' fl' /\
    (forall x, loc <= x < loc + sz -> free fl x /\ ~ free fl' x) /\
    (forall x, ~ loc <= x < loc + sz -> free fl' x <-> free fl x) /\
    exists t2, wf_free H t2 (deallocate (mk_Block loc sz) fl') /\
      forall x, free (deallocate (mk_Block loc sz) fl') x <-> free fl x.
Proof.
  intros Hwf Hsz Hlim. destruct (allocate_spec H t fl sz hint Hwf Hsz Hlim)
    as (loc & t' & fl' & Ha & Hwf' & Ht' & HH & Hle & Hf & Hnf).
  destruct (deallocate_spec H t' fl' (mk_Block loc sz) Hwf') as (t2 & Hwf2 & Ht2 & Hf2);
    cbn [location size]; [lia|done|done|done|done|].
  exists loc, t', fl'. split_and!; try done.
  - intros x Hx. split; [apply Hf; by right|by apply Hnf].
  - intros x Hx. rewrite Hf. tauto.
  - exists t2. split; [done|]. intros x. rewrite Hf2, Hf. done.
Qed.

Lemma new_free_wf : wf_free 40 40 [(40, USIZE_MAX)].
Proof. exact (si_free _ _ _ _ (Snapshot_new_sinv (F := table_format []) 0 empty_file 1 2)). Qed.

Lemma snapshot_allocate_free_witness :
  exists loc t' fl', allocate 10 None [(40, USIZE_MAX)] = (Ok (mk_Block loc 10), fl') /\ wf_free 40 t' fl' /\
    (forall x, loc <= x < loc + 10 -> free [(40, USIZE_MAX)] x /\ ~ free fl' x) /\
    (forall x, ~ loc <= x < loc + 10 -> free fl' x <-> free [(40, USIZE_MAX)] x) /\
    exists t2, wf_free 40 t2 (deallocate (mk_Block loc 10) fl') /\
      forall x, free (deallocate (mk_Block loc 10) fl') x <-> free [(40, USIZE_MAX)] x.
Proof.
  exact (snapshot_allocate_free 40 40 [(40, USIZE_MAX)] 10 None new_free_wf eq_refl eq_refl).
Defined.

(** ** Merging *)

(** C29. A write into a snapshot always succeeds on a file that has data: the file's
    contents become the old ones overlaid with the write, those of every other
    file stay, and the blocks stay disjoint. *)
Theorem snapshot_write_overlays H ext t s p offset buff d :
  sinv H ext t s -> f_blocks (get_or_open (sn_files s) p) = Some d ->
  0 <= offset -> 0 < zlen buff -> offset + zlen buff <= ext < ADDR_LIMIT ->
  t + 2 * ext < ADDR_LIMIT ->
  exists t' s', encode_write p offset buff s = (Ok tt, s') /\ sinv H ext t' s' /\ t' <= t + 2 * ext /\
    (forall x v, sn_holds s' p x v <->
       if decide (offset <= x < offset + zlen buff) then buff !! Z.to_nat (x - offset) = Some v
       else sn_holds s p x v) /\
    (forall p' x v, p' <> p -> sn_holds s' p' x v <-> sn_holds s p' x v).
Proof. apply encode_write_sinv. Qed.

Lemma snapshot_write_overlays_witness :
  exists t' s', encode_write path_a 5 [7; 8] demo_snapshot = (Ok tt, s') /\
    sinv 40 100 t' s' /\ t' <= 40 + 2 * 100 /\
    (forall x v, sn_holds s' path_a x v <->
       if decide (5 <= x < 5 + zlen [7; 8]) then [7; 8] !! Z.to_nat (x - 5) = Some v
       else sn_holds demo_snapshot path_a x v) /\
    (forall p' x v, p' <> path_a -> sn_holds s' p' x v <-> sn_holds demo_snapshot p' x v).
Proof.
  exact (snapshot_write_overlays 40 100 40 demo_snapshot path_a 5 [7; 8] []
    (Snapshot_new_sinv (F := table_format []) 100 empty_file 1 2) eq_refl ltac:(lia) eq_refl
    ltac:(split; [vm_compute; discriminate|reflexivity]) eq_refl).
Defined.


Definition demo_calls : list VFSCall :=
  [create path_a 0 (Unix 1 2) 420; write path_a 0 [1; 2; 3; 4];
   create path_b 0 (Unix 1 2) 420; write path_b 2 [9; 9];
   write path_a 2 [5; 6; 7]; truncate path_b 3; rename path_b path_c 0].

Lemma demo_calls_ok : Forall (fun c => call_ok 100 c = true) demo_calls.
Proof. repeat constructor. Qed.


(** Known defect: a directory is renamed path by path. A file below it keeps its
    old path in the snapshot: the bytes are missing where the calls put them, and
    the snapshot gives back a call that creates the file in the directory that is
    no longer there. *)
Definition path_da : path := mk_path true ["d"; "a"]%string.
Definition path_ea : path := mk_path true ["e"; "a"]%string.
Definition directory_calls : list VFSCall :=
  [mkdir (mk_path true ["d"%string]) (Unix 1 2) 493; create path_da 577 (Unix 1 2) 420; write path_da 0 [1; 2];
   rename (mk_path true ["d"%string]) (mk_path true ["e"%string]) 0].

Theorem snapshot_directory_rename_misplaces :
  exists s', merge_from directory_calls demo_snapshot = (Ok tt, s') /\
    effects directory_calls nothing path_ea 0 1 /\ (forall x v, ~ effects directory_calls nothing path_da x v) /\
    snapshot_calls s' = [create path_da 577 (Unix 1 2) 420; write path_da 0 [1; 2];
                         mkdir (mk_path true ["e"%string]) (Unix 1 2) 493].
Proof.
  eexists. split; [rewrite (surjective_pairing (merge_from _ _)); f_equal; vm_compute; reflexivity|].
  split; [reflexivity|]. split; [|vm_compute; reflexivity]. intros x v. exact id.
Qed.

(** ** Replaying *)

(** The iterator over a snapshot is a state machine; run to its end, it gives
    for every file the call that makes it, then its blocks as writes, then its
    metadata, and nothing else, provided every file can be replayed. *)
Theorem snapshot_replay_calls s fuel :
  forallb (applicable (sn_serialised s)) (sn_files s) = true ->
  (length (snapshot_calls s) < fuel)%nat ->
  fst (apply_all fuel (Snapshot_apply s)) = Ok (snapshot_calls s).
Proof.
  intros Hap Hf. apply (apply_all_ok fuel (Snapshot_apply s)); [|done].
  apply aok_split. by split_and!.
Qed.

Definition demo_merged : Snapshot := snd (merge_from demo_calls demo_snapshot).

Lemma snapshot_replay_calls_witness :
  forallb (applicable (sn_serialised demo_merged)) (sn_files demo_merged) = true /\
  fst (apply_all 10 (Snapshot_apply demo_merged)) = Ok (snapshot_calls demo_merged).
Proof.
  assert (forallb (applicable (sn_serialised demo_merged)) (sn_files demo_merged) = true) as H
    by (vm_compute; reflexivity).
  assert (Nat.ltb (length (snapshot_calls demo_merged)) 10 = true) as Hl by (vm_compute; reflexivity).
  exact (conj H (snapshot_replay_calls demo_merged 10 H (proj1 (Nat.ltb_lt _ 10) Hl))).
Defined.

(** Merging calls into a new snapshot and replaying it has the effect of the
    calls themselves, if the snapshot created every file it holds and fixed no
    size, and no directory with known files was renamed: the replayed calls write the same bytes to the same paths. *)
Theorem snapshot_merge_replay {F : SnapFormat} f now now' ext calls s' :
  0 <= ext < ADDR_LIMIT ->
  snap_header_size + 2 * ext * Z.of_nat (length calls) < ADDR_LIMIT ->
  Forall (fun c => call_ok ext c = true) calls -> renames_flat calls nothing ->
  merge_from calls (Snapshot_new f now now') = (Ok tt, s') ->
  forallb (fun e => created (snd e)) (sn_files s') = true ->
  exists n calls', (forall fuel, (n <= fuel)%nat -> fst (apply_all fuel (Snapshot_apply s')) = Ok calls') /\
    forall p x v, effects calls' nothing p x v <-> effects calls nothing p x v.
Proof.
  intros He Hlim Hok Hflat Hm Hc.
  pose proof (merge_from_spec snap_header_size ext calls _ _ (Snapshot_new_sinv ext f now now') He Hlim Hok) as Hs.
  rewrite Hm in Hs. destruct Hs as (t' & Hs & _ & Hh).
  destruct (created_applicable _ _ _ _ Hs Hc) as [Hap _].
  exists (S (length (snapshot_calls s'))), (snapshot_calls s'). split.
  - intros fuel Hf. apply (apply_all_ok fuel (Snapshot_apply s')); [|done]. apply aok_split. by split_and!.
  - intros p x v. rewrite (snapshot_calls_effects _ _ _ _ _ _ _ Hs Hc). exact (effects_from_new _ _ _ _ _ Hh Hflat p x v).
Qed.

Definition demo_calls2 : list VFSCall :=
  [create path_a 0 (Unix 1 2) 420; write path_a 0 [1; 2; 3; 4]; write path_a 2 [5; 6; 7];
   create path_b 0 (Unix 1 2) 420; write path_b 8 [9]; chmod path_b 384; unlink path_a;
   rename path_b path_c 0].
Definition demo_merged2 : Snapshot := snd (merge_from demo_calls2 demo_snapshot).

Lemma demo_flat2 : renames_flat demo_calls2 nothing.
Proof. cbn. split_and!; try done. intros p x v. repeat case_decide; intros Hm; destruct_and?; subst; try done; by split. Qed.

Lemma snapshot_merge_replay_witness :
  exists n calls', (forall fuel, (n <= fuel)%nat -> fst (apply_all fuel (Snapshot_apply demo_merged2)) = Ok calls') /\
    forall p x v, effects calls' nothing p x v <-> effects demo_calls2 nothing p x v.
Proof.
  assert (Forall (fun c => call_ok 100 c = true) demo_calls2) as Hok by repeat constructor.
  assert (merge_from demo_calls2 (Snapshot_new (F := table_format []) empty_file 1 2) = (Ok tt, demo_merged2)) as Hm
    by (unfold demo_merged2; rewrite (surjective_pairing (merge_from _ _)); f_equal; vm_compute; reflexivity).
  assert (forallb (fun e => created (snd e)) (sn_files demo_merged2) = true) as Hc by (vm_compute; reflexivity).
  assert (0 <= 100 < ADDR_LIMIT) as He by (split; [discriminate|reflexivity]).
  assert (snap_header_size (F := table_format []) + 2 * 100 * Z.of_nat (length demo_calls2) < ADDR_LIMIT) as Hl
    by reflexivity.
  exact (snapshot_merge_replay (F := table_format []) empty_file 1 2 100 demo_calls2 demo_merged2 He Hl Hok demo_flat2 Hm Hc).
Defined.

(** ** Compaction *)

(** C30. Compaction keeps every byte of every file and the invariant, and does not
    grow the serialised file, as long as no file has a block at offset 0. *)
Theorem snapshot_compact_preserves H ext t s :
  sinv H ext t s -> 2 * t < ADDR_LIMIT -> no_zero_block s ->
  exists s' t', compact s = (Ok tt, s') /\ sinv H ext t' s' /\ t' <= t /\
    forall p x v, sn_holds s' p x v <-> sn_holds s p x v.
Proof.
  intros Hs Hlim Hz. destruct (compact_ok H ext t s Hs Hlim Hz) as (s' & E & t' & Hs' & Ht' & _ & Hh).
  by exists s', t'.
Qed.

Lemma no_zero_block_check s :
  bt_sorted (sn_files s) ->
  forallb (fun e => forallb (fun kb => negb (fst kb =? 0)) (default [] (f_blocks (snd e)))) (sn_files s) = true ->
  no_zero_block s.
Proof.
  intros Hs Hc p d b (f & Hin & Hd) Hb. rewrite forallb_forall in Hc.
  apply list_elem_of_In in Hin. specialize (Hc _ Hin). cbn in Hc. rewrite Hd in Hc. cbn in Hc.
  rewrite forallb_forall in Hc. apply list_elem_of_In in Hb. by specialize (Hc _ Hb).
Qed.

(** A run of calls on the demo snapshot that panics nowhere keeps the invariant. *)
Lemma demo_sinv calls :
  Forall (fun c => call_ok 100 c = true) calls -> Z.of_nat (length calls) < 100 ->
  fst (merge_from calls demo_snapshot) = Ok tt ->
  exists t, sinv 40 100 t (snd (merge_from calls demo_snapshot)) /\ t <= 40 + 200 * Z.of_nat (length calls).
Proof.
  intros Hok Hl Hr.
  pose proof (merge_from_spec 40 100 calls 40 demo_snapshot
    (Snapshot_new_sinv (F := table_format []) 100 empty_file 1 2)) as Hm.
  specialize (Hm ltac:(unfold ADDR_LIMIT; lia) ltac:(unfold ADDR_LIMIT; lia) Hok).
  destruct (merge_from calls demo_snapshot) as [r s']. cbn in Hr. subst r. cbn [snd].
  destruct Hm as (t & Hs & Ht & _). exists t. split; [done|lia].
Qed.

Definition demo_calls3 : list VFSCall :=
  [create path_a 0 (Unix 1 2) 420; write path_a 8 [1; 2; 3; 4];
   create path_b 0 (Unix 1 2) 420; write path_b 8 [5; 6; 7]; unlink path_a].
Definition demo_merged3 : Snapshot := snd (merge_from demo_calls3 demo_snapshot).

Lemma snapshot_compact_preserves_witness :
  exists s' t', compact demo_merged3 = (Ok tt, s') /\ sinv 40 100 t' s' /\ t' <= 1040 /\
    forall p x v, sn_holds s' p x v <-> sn_holds demo_merged3 p x v.
Proof.
  assert (Forall (fun c => call_ok 100 c = true) demo_calls3) as Hok by repeat constructor.
  assert (fst (merge_from demo_calls3 demo_snapshot) = Ok tt) as Hr by (vm_compute; reflexivity).
  destruct (demo_sinv demo_calls3 Hok eq_refl Hr) as (t & Hs & Ht).
  change (40 + 200 * Z.of_nat (length demo_calls3)) with 1040 in Ht.
  assert (no_zero_block demo_merged3) as Hz
    by (apply no_zero_block_check; [apply (si_sorted _ _ _ _ Hs)|vm_compute; reflexivity]).
  destruct (snapshot_compact_preserves 40 100 t demo_merged3 Hs ltac:(unfold ADDR_LIMIT; lia) Hz)
    as (s' & t' & E & Hs' & Ht' & Hh).
  exact (ex_intro _ s' (ex_intro _ t' (conj E (conj Hs' (conj (Z.le_trans _ _ _ Ht' Ht) Hh))))).
Defined.

Lemma find_first H t fl sz k v :
  wf_free H t fl -> (k, v) ∈ fl -> sz <= v ->
  exists loc w, List.find (fun e => sz <=? snd e) fl = Some (loc, w) /\ loc <= k.
Proof.
  intros Hwf. pose proof (wf_sorted _ _ _ Hwf) as Hs. clear Hwf. revert Hs.
  induction fl as [|[k0 v0] fl IH]; intros Hs Hin Hv; [by inv Hin|].
  apply sorted_cons_inv in Hs as [Hs Hkey]. cbn. destruct (sz <=? v0) eqn:E.
  - exists k0, v0. split; [done|]. apply elem_of_cons in Hin as [[= -> ->]|Hin]; [done|].
    pose proof (Hkey _ _ Hin) as Hlt. apply key_lt_Z in Hlt. lia.
  - apply elem_of_cons in Hin as [[= -> ->]|Hin]; [lia|]. by apply IH.
Qed.

(** Known defect: a file whose only block lies at offset 0 loses its contents
    when compaction moves that block: the run that holds it is dropped because
    its offset is 0. *)
Theorem snapshot_compact_drops_offset_zero H ext t s p f b k v :
  sinv H ext t s -> 2 * t < ADDR_LIMIT -> 0 < H ->
  bt_get p (sn_files s) = Some f -> f_blocks f = Some [(0, b)] ->
  below_threshold (wasted_space (sn_free_list s)) t = false ->
  u64 (t - wasted_space (sn_free_list s)) < location b ->
  (k, v) ∈ sn_free_list s -> k < location b -> size b <= v ->
  exists s', compact_file p s = (Ok true, s') /\
    bt_get p (sn_files s') = Some (set_blocks f (Some [])) /\
    (exists x v, sn_holds s p x v) /\ forall x v, ~ sn_holds s' p x v.
Proof.
  intros Hs Hlim HH Hf Hb Hthr Hloc Hin Hk Hv. pose proof (si_sorted _ _ _ _ Hs) as Hsort.
  apply bt_get_elem in Hf as Hfin; [|done].
  assert (file_blocks s p [(0, b)]) as Hfb by (by exists f).
  pose proof (si_file _ _ _ _ Hs _ _ Hfb) as Hw. unfold blocks_of in Hw.
  destruct (wi_block _ _ _ _ _ Hw 0 b ltac:(by left)) as (_ & Hsz & _).
  destruct (move_block H ext _ t _ _ _ 0 b (Some 0) Hw Hlim ltac:(by left)) as (loc & fl1 & Ha & _ & Hdown).
  assert (loc <= location b) as Hle.
  { destruct (find_first H t (sn_free_list s) (size b) k v) as (loc' & w & Hfind & Hle'); [apply Hs|done|done|].
    unfold allocate, find_free in Ha. destruct (bt_get 0 (sn_free_list s)) as [w0|] eqn:E0.
    - apply bt_get_elem in E0; [|apply (wf_sorted _ _ _ (si_free _ _ _ _ Hs))].
      pose proof (wf_entry _ _ _ (si_free _ _ _ _ Hs) _ _ E0). lia.
    - rewrite Hfind in Ha. inv Ha. lia. }
  destruct (Hdown Hle) as (f' & t2 & Hm & _).
  unfold compact_file. rewrite Hf, Hb, (end_of_data_spec H t) by apply Hs. rewrite Hthr.
  cbn [compact_blocks]. munfold. unfold compact_block.
  replace (u64 (t - wasted_space (sn_free_list s)) <? location b) with true by lia.
  change (u64 (location (c_run (mk_cstate [] empty_run)).2 + size (c_run (mk_cstate [] empty_run)).2)) with 0.
  rewrite Ha. cbn [location]. replace (location b <? loc) with false by lia. rewrite Hm.
  eexists. split; [reflexivity|]. cbn [sn_files]. split; [apply bt_get_elem; [by apply bt_insert_sorted|];
    apply bt_insert_elem; [done|]; by left|]. split.
  - exists 0, (f_data (sn_serialised s) (location b + (0 - 0))), [(0, b)]. split; [done|]. exists 0, b.
    split; [by left|]. split; [lia|done].
  - intros x w (d & Hd & kk & bb & Hbb & _). apply file_blocks_insert in Hd as [[_ Hd]|[? _]]; [|done|done].
    cbn in Hd. inv Hd. by inv Hbb.
Qed.

Definition demo_calls4 : list VFSCall :=
  [create path_a 0 (Unix 1 2) 420; write path_a 0 [1; 2; 3; 4];
   create path_b 0 (Unix 1 2) 420; write path_b 0 [5; 6; 7]; unlink path_a].
Definition demo_merged4 : Snapshot := snd (merge_from demo_calls4 demo_snapshot).

Lemma snapshot_compact_drops_offset_zero_witness :
  exists s', compact_file path_b demo_merged4 = (Ok true, s') /\
    (exists f, bt_get path_b (sn_files s') = Some (set_blocks f (Some []))) /\
    (exists x v, sn_holds demo_merged4 path_b x v) /\ forall x v, ~ sn_holds s' path_b x v.
Proof.
  assert (Forall (fun c => call_ok 100 c = true) demo_calls4) as Hok by repeat constructor.
  assert (fst (merge_from demo_calls4 demo_snapshot) = Ok tt) as Hr by (vm_compute; reflexivity).
  destruct (demo_sinv demo_calls4 Hok eq_refl Hr) as (t & Hs & _).
  assert (end_of_data (sn_free_list demo_merged4) = Ok 47) as He by (vm_compute; reflexivity).
  assert (t = 47) as ->.
  { pose proof (end_of_data_spec 40 t (sn_free_list demo_merged4) (si_free _ _ _ _ Hs)) as He'.
    rewrite He in He'. congruence. }
  destruct (bt_get path_b (sn_files demo_merged4)) as [f|] eqn:Ef; [|exfalso; vm_compute in Ef; discriminate Ef].
  assert (f_blocks f = Some [(0, mk_Block 44 3)]) as Hb by (vm_compute in Ef; injection Ef as <-; reflexivity).
  assert (sn_free_list demo_merged4 = [(40, 4); (47, USIZE_MAX - 7)]) as Hfl by (vm_compute; reflexivity).
  destruct (snapshot_compact_drops_offset_zero 40 100 47 demo_merged4 path_b f (mk_Block 44 3) 40 4 Hs)
    as (s' & E & Hg & Hh & Hno); [reflexivity|reflexivity|exact Ef|exact Hb|rewrite Hfl; reflexivity|
    rewrite Hfl; reflexivity|rewrite Hfl; by left|reflexivity|discriminate|].
  exact (ex_intro _ s' (conj E (conj (ex_intro _ f Hg) (conj Hh Hno)))).
Defined.

(** ** On disk *)

(** A snapshot that compaction leaves well formed is written to disk without
    failure, and [Snapshot::open] gives it back: the same files, bytes and
    replayed calls. *)
Theorem snapshot_finalize_open {F : SnapFormat} {L : SnapFormatLaws} ext t s s1 :
  compact s = (Ok tt, s1) -> sinv snap_header_size ext t s1 -> t < ADDR_LIMIT ->
  files_ok (sn_files s1) ->
  0 <= hd_from (sn_header s1) < 2 ^ 64 * 10 ^ 9 -> 0 <= hd_to (sn_header s1) < 2 ^ 64 * 10 ^ 9 ->
  exists s' o, finalize s = (Ok tt, s') /\ Snapshot_open (sn_serialised s') = Ok o /\
    sn_header o = sn_header s' /\ hd_ft_offset (sn_header o) = t /\ sn_files o = sn_files s1 /\
    snapshot_calls o = snapshot_calls s1 /\
    forall p x v, sn_holds o p x v <-> sn_holds s1 p x v.
Proof.
  intros Hc Hs Hlim Hfiles Hfrom Hto.
  pose proof (end_of_data_spec _ _ _ (si_free _ _ _ _ Hs)) as He.
  assert (snap_header_size <= t < 2 ^ 63) as Ht.
  { destruct (wf_tail _ _ _ (si_free _ _ _ _ Hs)) as (v & Hin & _).
    pose proof (wf_entry _ _ _ (si_free _ _ _ _ Hs) _ _ Hin). unfold ADDR_LIMIT in *. lia. }
  destruct (finalize_spec s s1 t Hc He Ht Hfiles Hfrom Hto) as (s' & f' & E & _ & Hoff & Hsame & Hopen).
  destruct (reopened_same ext t s1 (sn_header s') f' Hs Hsame) as [Hcalls Hh].
  eexists s', _. split; [exact E|]. split; [exact Hopen|]. by split_and!.
Qed.

Definition demo_compacted : Snapshot := snd (compact demo_merged3).
Definition demo_format : SnapFormat := table_format (sn_files demo_compacted).

Lemma snapshot_finalize_open_witness :
  exists s' o, finalize (F := demo_format) demo_merged3 = (Ok tt, s') /\
    Snapshot_open (F := demo_format) (sn_serialised s') = Ok o /\ sn_files o = sn_files demo_compacted /\
    forall p x v, sn_holds o p x v <-> sn_holds demo_compacted p x v.
Proof.
  assert (Forall (fun c => call_ok 100 c = true) demo_calls3) as Hok by repeat constructor.
  assert (fst (merge_from demo_calls3 demo_snapshot) = Ok tt) as Hr by (vm_compute; reflexivity).
  destruct (demo_sinv demo_calls3 Hok eq_refl Hr) as (t & Hs & Ht).
  change (40 + 200 * Z.of_nat (length demo_calls3)) with 1040 in Ht.
  assert (no_zero_block demo_merged3) as Hz
    by (apply no_zero_block_check; [apply (si_sorted _ _ _ _ Hs)|vm_compute; reflexivity]).
  destruct (compact_ok 40 100 t demo_merged3 Hs ltac:(unfold ADDR_LIMIT; lia) Hz) as (s1 & E & t1 & Hs1 & Ht1 & _).
  assert (s1 = demo_compacted) as -> by (unfold demo_compacted; by rewrite E).
  assert (0 <= hd_from (sn_header demo_compacted) < 2 ^ 64 * 10 ^ 9) as Hfrom
    by (split; vm_compute; [discriminate|reflexivity]).
  assert (0 <= hd_to (sn_header demo_compacted) < 2 ^ 64 * 10 ^ 9) as Hto
    by (split; vm_compute; [discriminate|reflexivity]).
  destruct (snapshot_finalize_open (F := demo_format) (L := table_format_laws (sn_files demo_compacted))
    100 t1 demo_merged3 demo_compacted E Hs1 ltac:(unfold ADDR_LIMIT; lia) eq_refl Hfrom Hto)
    as (s' & o & E1 & E2 & _ & _ & E3 & _ & Hh).
  exact (ex_intro _ s' (ex_intro _ o (conj E1 (conj E2 (conj E3 Hh))))).
Defined.

(** ** Where replay goes wrong *)

(** The first write of a file in a new snapshot. *)
Lemma write_data_first h offset buf f :
  0 < zlen buf < 2 ^ 60 ->
  exists fl, write_data offset buf (mk_wstate [(h, USIZE_MAX)] [] f) =
    (Ok tt, mk_wstate fl [(offset, mk_Block h (zlen buf))] (write_all_at f buf h)).
Proof.
  intros Hn. assert (allocate (zlen buf) None [(h, USIZE_MAX)] =
    (Ok (mk_Block h (zlen buf)), snd (allocate (zlen buf) None [(h, USIZE_MAX)]))) as Ha.
  { unfold allocate, find_free. cbn [List.find snd].
    by replace (zlen buf <=? USIZE_MAX) with true by (unfold USIZE_MAX; lia). }
  exists (snd (allocate (zlen buf) None [(h, USIZE_MAX)])).
  transitivity ((block ← w_alloc (zlen buf) None; _ ← w_write buf (location block); w_insert offset block)
    (mk_wstate [(h, USIZE_MAX)] [] f)); [reflexivity|].
  unfold w_alloc, w_write, w_insert. munfold. cbn [w_free w_data w_file]. by rewrite Ha.
Qed.

Lemma merge_first_write {F : SnapFormat} f now now' p offset buf :
  0 <= offset < 2 ^ 60 -> 0 < zlen buf < 2 ^ 60 ->
  exists fl, merge_from [write p offset buf] (Snapshot_new f now now') =
    (Ok tt, mk_Snapshot (mk_Header ST_Forward 0 now now' 0)
      [(p, set_blocks opened_file (Some [(offset, mk_Block snap_header_size (zlen buf))]))]
      (write_all_at f buf snap_header_size) fl).
Proof.
  intros Ho Hn. destruct (write_data_first snap_header_size offset buf f Hn) as (fl & Hw). exists fl.
  cbn [merge_from merge_call]. munfold. rewrite u64_small by lia. unfold encode_write.
  cbn [Snapshot_new sn_files sn_free_list sn_serialised sn_header get_or_open bt_get].
  change (f_blocks opened_file) with (Some DataList_new). unfold DataList_new. by rewrite Hw.
Qed.

(** Known defect: a snapshot that only records a write to an existing file
    cannot be replayed. The record has no metadata, so [next] finishes the file
    before its blocks and then looks for the current file of a block. *)
Theorem snapshot_only_write_panics {F : SnapFormat} f now now' p offset buf :
  0 <= offset -> 0 < zlen buf -> offset + zlen buf < 2 ^ 60 ->
  exists s', merge_from [write p offset buf] (Snapshot_new f now now') = (Ok tt, s') /\
    forall fuel, (2 <= fuel)%nat -> fst (apply_next fuel (Snapshot_apply s')) = Panic.
Proof.
  intros Ho Hn Hlim. destruct (merge_first_write f now now' p offset buf) as (fl & E); [lia|lia|].
  eexists. split; [exact E|]. intros [|[|fuel]] Hf; [lia|lia|]. reflexivity.
Qed.

Lemma snapshot_only_write_panics_witness :
  exists s', merge_from [write path_a 3 [1]] demo_snapshot = (Ok tt, s') /\
    forall fuel, (2 <= fuel)%nat -> fst (apply_next fuel (Snapshot_apply s')) = Panic.
Proof.
  exact (snapshot_only_write_panics (F := table_format []) empty_file 1 2 path_a 3 [1]
    ltac:(discriminate) eq_refl eq_refl).
Defined.

(** Known defect: a snapshot that holds an extended attribute cannot be
    replayed. Names are kept without their terminating NUL and replay requires
    one. *)
Theorem snapshot_xattr_panics {F : SnapFormat} f now now' p name value flags :
  Forall (fun b => b <> 0) name ->
  exists s', merge_from [setxattr p name value flags] (Snapshot_new f now now') = (Ok tt, s') /\
    forall fuel, fst (apply_next (S fuel) (Snapshot_apply s')) = Panic.
Proof.
  intros Hn. eexists. split; [reflexivity|]. intros fuel.
  assert (from_bytes_with_nul name = None) as Hc.
  { unfold from_bytes_with_nul. destruct (last name) as [b|] eqn:E; [|done].
    apply last_Some in E as [l ->]. apply Forall_app in Hn as [_ Hb]. apply Forall_cons in Hb as [Hb _].
    apply Z.eqb_neq in Hb. by rewrite Hb. }
  cbn [apply_next]. munfold. unfold next_block, next_file, next_metadata. cbn -[from_bytes_with_nul]. by rewrite Hc.
Qed.

Lemma snapshot_xattr_panics_witness :
  exists s', merge_from [setxattr path_a [117; 46; 97] [1] 0] demo_snapshot = (Ok tt, s') /\
    forall fuel, fst (apply_next (S fuel) (Snapshot_apply s')) = Panic.
Proof.
  assert (Forall (fun b => b <> 0) [117; 46; 97]) as Hn by (repeat constructor; discriminate).
  exact (snapshot_xattr_panics (F := table_format []) empty_file 1 2 path_a [117; 46; 97] [1] 0 Hn).
Defined.

(** One path. *)
Lemma bt_get_one {K V} `{KeyOrd K} (k : K) (v : V) : bt_get k [(k, v)] = Some v.
Proof. cbn. by rewrite key_ltb_irrefl. Qed.

Lemma bt_insert_one {K V} `{KeyOrd K} (k : K) (v w : V) : bt_insert k v [(k, w)] = [(k, v)].
Proof. cbn. by rewrite key_ltb_irrefl. Qed.

Lemma bt_remove_one {K V} `{KeyOrd K} (k : K) (v : V) : bt_remove k [(k, v)] = [].
Proof. cbn. by rewrite key_ltb_irrefl. Qed.

(** Known defect: the size a truncation fixes is replayed after the writes that
    followed it. A file that is created, truncated to nothing and then written
    comes back empty. *)
Theorem snapshot_truncate_replayed_last {F : SnapFormat} f now now' p flags uid gid mode buf :
  0 < zlen buf < 2 ^ 60 ->
  let made := create p flags (Unix uid gid) mode in
  let calls := [made; truncate p 0; write p 0 buf] in
  let calls' := [made; write p 0 buf; truncate p 0] in
  exists s', merge_from calls (Snapshot_new f now now') = (Ok tt, s') /\
    fst (apply_all 4 (Snapshot_apply s')) = Ok calls' /\
    (forall i v, buf !! i = Some v -> effects calls nothing p (Z.of_nat i) v) /\
    forall x v, ~ effects calls' nothing p x v.
Proof.
  intros Hn made calls calls'. destruct (write_data_first snap_header_size 0 buf f Hn) as (fl & Hw).
  set (f3 := mk_File (Some uid) (Some gid) (Some mode) (SizeExactly 0) None None (FT_New flags)
    (Some [(0, mk_Block snap_header_size (zlen buf))])).
  set (s' := mk_Snapshot (mk_Header ST_Forward 0 now now' 0) [(p, f3)] (write_all_at f buf snap_header_size) fl).
  assert (snapshot_calls s' = calls') as Hcalls.
  { unfold snapshot_calls. cbn [s' sn_files sn_serialised mbind list_bind]. rewrite app_nil_r.
    unfold file_calls. cbn -[file_bytes write_all_at]. unfold zlen. rewrite Nat2Z.id.
    by rewrite at_bytes_read by apply at_bytes_write_same. }
  exists s'. split; [|split; [|split]].
  - unfold calls, made. cbn [merge_from merge_call]. munfold. unfold merge_truncate, modify, encode_write.
    cbn [sn_set_file Snapshot_new sn_files sn_header sn_serialised sn_free_list bt_insert].
    unfold get_or_open. rewrite !bt_get_one. cbn [set_size f_blocks set_blocks truncate_blocks].
    change (truncate_blocks DataList_new (u64 0) [(snap_header_size, USIZE_MAX)]) with
      (@nil (Z * Block), [(snap_header_size, USIZE_MAX)]).
    cbn [sn_files sn_header sn_serialised sn_free_list]. rewrite !key_ltb_irrefl, bt_get_one.
    cbn [f_blocks set_blocks]. change (u64 0) with 0. rewrite Hw. rewrite bt_insert_one. done.
  - rewrite <- Hcalls. apply (apply_all_ok 4 (Snapshot_apply s')).
    + apply aok_split. split_and!; try done. cbn. pose proof (f_len_write_end f buf snap_header_size). lia.
    + change (pending (Snapshot_apply s')) with (snapshot_calls s'). rewrite Hcalls. cbn. lia.
  - intros i v Hi. cbn. apply lookup_lt_Some in Hi as Hlt. rewrite decide_True by (unfold zlen; split; [done|lia]).
    by rewrite Z.sub_0_r, Nat2Z.id.
  - intros x v. cbn. intros [Hx Hlt]. specialize (Hlt eq_refl). rewrite decide_False in Hx by lia. by destruct Hx.
Qed.

Lemma snapshot_truncate_replayed_last_witness :
  let made := create path_a 577 (Unix 0 0) 420 in
  let calls := [made; truncate path_a 0; write path_a 0 [1; 2]] in
  let calls' := [made; write path_a 0 [1; 2]; truncate path_a 0] in
  exists s', merge_from calls demo_snapshot = (Ok tt, s') /\
    fst (apply_all 4 (Snapshot_apply s')) = Ok calls' /\
    (forall i v, [1; 2] !! i = Some v -> effects calls nothing path_a (Z.of_nat i) v) /\
    forall x v, ~ effects calls' nothing path_a x v.
Proof.
  exact (snapshot_truncate_replayed_last (F := table_format []) empty_file 1 2 path_a 577 0 0 420 [1; 2]
    (conj eq_refl eq_refl)).
Defined.

(** Known defect: a reopened snapshot gives its last free range the size
    [usize::MAX]; freeing the block before it overflows that size, and from
    then on no block of that size or larger can be allocated. *)
Theorem snapshot_reopened_free_overflows {F : SnapFormat} f o b n hint :
  Snapshot_open f = Ok o -> 0 <= location b -> 0 < size b <= n ->
  location b + size b = hd_ft_offset (sn_header o) -> hd_ft_offset (sn_header o) < 2 ^ 64 ->
  fst (allocate n hint (deallocate b (sn_free_list o))) = Panic.
Proof.
  intros Ho Hl Hn Hend Hlt. unfold Snapshot_open in Ho.
  destruct (de_snap_header _) as [h|]; [|done]. destruct (de_files _) as [fs|]; [|done].
  injection Ho as <-. cbn [sn_header sn_free_list] in *. set (t := hd_ft_offset h) in *.
  assert (deallocate b [(t, USIZE_MAX)] = [(location b, size b - 1)]) as ->.
  { unfold deallocate, join_prev, bt_below. cbn [List.filter fst].
    replace (key_ltb t (location b)) with false by (symmetry; apply Z.ltb_ge; lia). cbn [last].
    unfold join_next. rewrite (u64_small (location b + size b)), Hend by lia. rewrite bt_get_one.
    rewrite bt_remove_one. cbn [bt_insert]. do 2 f_equal.
    unfold u64, wrap, USIZE_MAX. replace (size b + (2 ^ 64 - 1)) with (size b - 1 + 1 * 2 ^ 64) by lia.
    rewrite Z.mod_add by lia. apply Z.mod_small. lia. }
  unfold allocate, find_free. cbn [List.find snd]. replace (n <=? size b - 1) with false by lia.
  destruct hint as [h'|]; [|done]. destruct (bt_get h' _) as [v|] eqn:E; [|done].
  assert (v = size b - 1) as -> by (cbn in E; repeat case_match; congruence).
  by replace (n <=? size b - 1) with false by lia.
Qed.

Lemma snapshot_reopened_free_overflows_witness :
  exists o, Snapshot_open (F := table_format []) (write_all_at empty_file
      (snap_header_bytes (mk_Header ST_Forward 50 1 2 0) ++ replicate 10 7 ++ [1]) 0) = Ok o /\
    fst (allocate 10 None (deallocate (mk_Block 40 10) (sn_free_list o))) = Panic.
Proof.
  destruct (Snapshot_open (F := table_format []) (write_all_at empty_file
      (snap_header_bytes (mk_Header ST_Forward 50 1 2 0) ++ replicate 10 7 ++ [1]) 0)) as [o| | |] eqn:E;
    try (exfalso; vm_compute in E; discriminate E).
  assert (hd_ft_offset (sn_header o) = 50) as Hh by (vm_compute in E; injection E as <-; reflexivity).
  exists o. split; [reflexivity|].
  exact (snapshot_reopened_free_overflows (F := table_format []) _ o (mk_Block 40 10) 10 None E
    ltac:(discriminate) ltac:(split; [reflexivity|discriminate]) (eq_sym Hh) ltac:(rewrite Hh; reflexivity)).
Defined.

(** Known defect: a hard link gets a copy of the block list of its source.
    When the source is removed the blocks are freed while the link still uses
    them, and the next write of another file overwrites the link's contents. *)
Theorem snapshot_hardlink_shares_blocks :
  let calls := [create path_a 0 (Unix 0 0) 420; write path_a 0 [1; 2; 3];
    link path_a path_b (Unix 0 0); unlink path_a;
    create path_c 0 (Unix 0 0) 420; write path_c 0 [7; 8; 9]] in
  exists s', merge_from calls demo_snapshot = (Ok tt, s') /\
    snapshot_calls s' = [link path_a path_b (Unix 0 0); write path_b 0 [7; 8; 9];
      create path_c 0 (Unix 0 0) 420; write path_c 0 [7; 8; 9]].
Proof.
  intros calls. eexists. split; [|].
  - rewrite (surjective_pairing (merge_from calls demo_snapshot)). f_equal.
  - vm_compute. reflexivity.
Qed.
