(* ===== verification/Net.v ===== *)
(** * Replication: [fsyncd/src/server/client.rs] and [fsyncd/src/client/mod.rs]

    The server keeps a [Client] per connection and sends it length-prefixed
    messages; the client reads them, dispatches the calls and acknowledges.

    [bincode] ([MsgFormat]) and the packet compressors of the [dssc] crate
    ([Compressor]) are parameters. A connection is the stream of bytes before
    stream compression and rate limiting, which hand the same bytes on. A
    response that a thread waits for is a cell of a shared heap: the server's
    table of parked threads and the waiting thread refer to the same cell. *)

From stdpp Require Import base list numbers option gmap.
From Stdlib Require Import ZArith Lia.
From S2P Require Import Prelude Common.

Local Open Scope Z_scope.

(** ** What is used of other crates *)
Class MsgFormat := {
  ser_msg : FsyncerMsg -> list Z;
  de_msg : list Z -> option (FsyncerMsg * list Z) }.

(** Documented behaviour of [bincode]: decoding reads back what was encoded and
    leaves the rest of the input; an enum starts with a 32-bit tag, which an
    empty input does not have. *)
Class MsgFormatLaws {F : MsgFormat} := {
  msg_ok : FsyncerMsg -> Prop;
  law_msg : forall m rest, msg_ok m -> de_msg (ser_msg m ++ rest) = Some (m, rest);
  law_msg_tag : forall m, (4 <= length (ser_msg m))%nat;
  law_msg_eof : de_msg [] = None }.

Class Compressor := {
  comp_state : Type;
  comp_chunked : comp_state;
  comp_zstd : comp_state;
  comp_encode : comp_state -> list Z -> comp_state * list Z;
  comp_decode : comp_state -> list Z -> comp_state * list Z }.

(** ** Streams

    [room] is how many more bytes the peer takes before the connection breaks. *)
Record stream := mk_stream { st_out : list Z; st_room : option nat }.

Definition stream_write_all (buf : list Z) : M stream unit := fun s =>
  match st_room s with
  | None => (Ok tt, mk_stream (st_out s ++ buf) None)
  | Some n =>
    if Nat.leb (length buf) n then (Ok tt, mk_stream (st_out s ++ buf) (Some (n - length buf)%nat))
    else (Err OtherError, mk_stream (st_out s ++ take n buf) (Some 0%nat))
  end.

(** Nothing of what is modelled here is buffered. *)
Definition stream_flush : M stream unit := mret tt.

(** ** The server's side of a connection *)
Inductive ClientStatus := DEAD | ALIVE.

#[export] Instance ClientStatus_eq_dec : EqDecision ClientStatus.
Proof. solve_decision. Defined.

(** The cells of [ClientResponse]s, by address. *)
Abbreviation cells := (list (option ClientAck)).

Section Net.
Context {F : MsgFormat} {C : Compressor}.

Record Client := mk_Client {
  cl_mode : ClientMode; cl_comp : Z; cl_write : stream; cl_rt_comp : option comp_state;
  cl_parked : gmap Z nat; cl_status : ClientStatus }.

Definition cl_set_write (c : Client) (w : stream) : Client :=
  mk_Client (cl_mode c) (cl_comp c) w (cl_rt_comp c) (cl_parked c) (cl_status c).
Definition cl_set_rt_comp (c : Client) (z : option comp_state) : Client :=
  mk_Client (cl_mode c) (cl_comp c) (cl_write c) z (cl_parked c) (cl_status c).
Definition cl_set_parked (c : Client) (p : gmap Z nat) : Client :=
  mk_Client (cl_mode c) (cl_comp c) (cl_write c) (cl_rt_comp c) p (cl_status c).
Definition cl_set_status (c : Client) (st : ClientStatus) : Client :=
  mk_Client (cl_mode c) (cl_comp c) (cl_write c) (cl_rt_comp c) (cl_parked c) st.

(** *** Connecting *)

(** The packet compressor both sides derive from the client's flags. *)
Definition rt_comp_of (compress : Z) : option comp_state :=
  if flags_contains compress CompMode_RT_DSSC_CHUNKED then Some comp_chunked
  else if flags_contains compress CompMode_RT_DSSC_ZSTD then Some comp_zstd
  else None.

(** [Client::from_stream], with what is left of the input for the reader;
    [srchash] is [hash_metadata] of the backing store and [rsync] the result of
    the initial synchronisation. *)
Definition from_stream (input : list Z) (netout : stream) (dontcheck : bool)
  (srchash : outcome Z) (rsync : outcome unit) : outcome (Client * list Z) :=
  match de_msg input with
  | None => Err OtherError
  | Some (Msg_InitMsg init, rest) =>
    let initial_rsync := flags_contains (im_options init) Options_INITIAL_RSYNC in
    _ ← (if bool_decide (im_mode init = MODE_CONTROL) || dontcheck || initial_rsync then Ok tt
         else match srchash with
              | Ok h => if im_dsthash init =? h then Ok tt else Err OtherError
              | NoFuel => NoFuel
              | _ => Panic
              end);
    _ ← (if initial_rsync then rsync else Ok tt);
    Ok (mk_Client (im_mode init) (im_compress init) netout (rt_comp_of (im_compress init)) ∅ ALIVE, rest)
  | Some _ => Panic
  end.

(** *** [ClientResponse] *)
Definition ClientResponse_new (h : cells) : nat * cells := (length h, h ++ [None]).

Definition notify (h : cells) (a : nat) (data : ClientAck) : cells := <[a := Some data]> h.

(** [ClientResponse::wait] once it wakes up: with data, which it takes, or on a
    timeout with nothing. *)
Definition wait (a : nat) : M cells (option ClientAck) := fun h =>
  match h !! a with
  | Some (Some d) => (Ok (Some d), <[a := None]> h)
  | _ => (Ok None, h)
  end.

(** [parked.entry(tid).or_insert_with(..)]. *)
Definition park (tid : Z) : M (cells * Client) nat := fun '(h, c) =>
  match cl_parked c !! tid with
  | Some a => (Ok a, (h, c))
  | None => let '(a, h) := ClientResponse_new h in
            (Ok a, (h, cl_set_parked c (<[tid := a]> (cl_parked c))))
  end.

(** *** [Client::response_msg] *)

(** One frame: the length in network order and the message, compressed first
    when the connection has a packet compressor. *)
Definition write_frame (serbuf : list Z) (size : Z) : M Client unit := fun c =>
  let '(buf, size, c) :=
    match cl_rt_comp c with
    | Some st => let '(st, nbuf) := comp_encode st serbuf in
                 (nbuf, zlen nbuf, cl_set_rt_comp c (Some st))
    | None => (serbuf, size, c)
    end in
  let '(r, w) := (_ ← stream_write_all (be32 (u32 size)); stream_write_all buf) (cl_write c) in
  (r, cl_set_write c w).

Definition client_flush_write : M Client unit := fun c =>
  let '(r, w) := stream_flush (cl_write c) in (r, cl_set_write c w).

(** [inner]: with stream compression a flush needs another message after it. *)
Definition inner (serbuf : list Z) (size : Z) (flush comp : bool) : M Client unit :=
  _ ← write_frame serbuf size;
  if flush then
    _ ← client_flush_write;
    if comp then
      _ ← write_frame (ser_msg Msg_NOP) (zlen (ser_msg Msg_NOP));
      client_flush_write
    else mret tt
  else mret tt.

Definition response_msg (tid : Z) (msg : FsyncerMsg) (flush want_response : bool)
  : M (cells * Client) (option nat) := fun '(h, c) =>
  let serbuf := ser_msg msg in
  let size := zlen serbuf in
  if bool_decide (cl_status c = DEAD) then (Err OtherError, (h, c))
  else
    let '(resp, (h, c)) :=
      if want_response
      then let '(a, hc) := park tid (h, c) in (match a with Ok a => Some a | _ => None end, hc)
      else (None, (h, c)) in
    match inner serbuf size flush (flags_intersects (cl_comp c) CompMode_STREAM_MASK) c with
    | (Ok _, c) => (Ok resp, (h, c))
    | (Err e, c) => (Err e, (h, cl_set_status c DEAD))
    | (Panic, c) => (Panic, (h, c))
    | (NoFuel, c) => (NoFuel, (h, c))
    end.

Definition client_send_msg (tid : Z) (msg : FsyncerMsg) (flush : bool) : M (cells * Client) unit :=
  _ ← response_msg tid msg flush false; mret tt.

(** [Client::flush]. *)
Definition client_flush (tid : Z) : M (cells * Client) unit := fun '(h, c) =>
  if flags_intersects (cl_comp c) CompMode_STREAM_MASK
  then client_send_msg tid Msg_NOP true (h, c)
  else let '(r, c) := client_flush_write c in (r, (h, c)).

(** [Client::uncork]. *)
Definition client_uncork (tid : Z) : M (cells * Client) unit := client_send_msg tid Msg_Uncork false.

(** What [reader] does with one message; the two messages that concern the
    whole server are returned to the caller. *)
Inductive reader_action := ReaderGoesOn | ReaderCork | ReaderUncork | ReaderStops.

Definition reader_msg (m : option FsyncerMsg) : M (cells * Client) reader_action := fun '(h, c) =>
  match m with
  | Some (Msg_AckCork tid) =>
    match cl_parked c !! tid with
    | Some a => (Ok ReaderGoesOn, (notify h a Ack, c))
    | None => (Ok ReaderGoesOn, (h, c))
    end
  | Some (Msg_Ack (mk_AckMsg code tid)) =>
    let '(_, (h, c)) := park tid (h, c) in
    match cl_parked c !! tid with
    | Some a => (Ok ReaderGoesOn, (notify h a code, c))
    | None => (Ok ReaderGoesOn, (h, c))
    end
  | Some (Msg_Cork _) => (Ok ReaderCork, (h, c))
  | Some Msg_Uncork => (Ok ReaderUncork, (h, c))
  | None => (Ok ReaderStops, (h, cl_set_status c DEAD))
  | Some _ => (Ok ReaderGoesOn, (h, c))
  end.

(** [reader] on the messages that have arrived, up to one for the whole server;
    the client sends messages without a length prefix. At the end of the input
    the thread waits for more, unless the connection is [closed]. *)
Fixpoint reader (fuel : nat) (closed : bool) (input : list Z)
  : M (cells * Client) (reader_action * list Z) :=
  match fuel with
  | O => lift NoFuel
  | S fuel =>
    if bool_decide (input = []) && negb closed then mret (ReaderGoesOn, [])
    else
      let '(m, rest) := match de_msg input with
                        | Some (m, rest) => (Some m, rest)
                        | None => (None, input)
                        end in
      act ← reader_msg m;
      match act with
      | ReaderGoesOn => reader fuel closed rest
      | act => mret (act, rest)
      end
  end.

(** [Drop for Client]: whoever waits for this client is told it is dead. *)
Definition client_drop (h : cells) (c : Client) : cells :=
  foldl (fun h e => notify h (snd e) Dead) h (map_to_list (cl_parked c)).

(** ** The client *)
Record ServerConnection := mk_ServerConnection {
  sc_write : stream; sc_read : list Z; sc_rcv_buf : list Z; sc_mode : ClientMode;
  sc_rt_comp : option comp_state }.

(** [ConnectionBuilder::build]; [rsynced] tells whether [rsync] was called. *)
Definition build (netin : list Z) (netout : stream) (init : InitMsg) (rsynced : bool)
  : outcome ServerConnection :=
  if flags_contains (im_options init) Options_INITIAL_RSYNC && negb rsynced then Panic
  else Ok (mk_ServerConnection netout netin [] (im_mode init) (rt_comp_of (im_compress init))).

(** [send_msg]: no length prefix in this direction. *)
Definition send_msg (msg : FsyncerMsg) : M ServerConnection unit := fun sc =>
  let '(r, w) := (_ ← stream_write_all (ser_msg msg); stream_flush) (sc_write sc) in
  (r, mk_ServerConnection w (sc_read sc) (sc_rcv_buf sc) (sc_mode sc) (sc_rt_comp sc)).

Definition sc_read_exact (n : Z) : M ServerConnection (list Z) := fun sc =>
  let set rest := mk_ServerConnection (sc_write sc) rest (sc_rcv_buf sc) (sc_mode sc) (sc_rt_comp sc) in
  if n <=? zlen (sc_read sc)
  then (Ok (take (Z.to_nat n) (sc_read sc)), set (drop (Z.to_nat n) (sc_read sc)))
  else (Err UnexpectedEof, set []).

(** [ServerConnection::read_msg]. The receive buffer only grows; the bytes of
    the message are at its front. *)
Definition read_msg : M ServerConnection FsyncerMsg :=
  lbuf ← sc_read_exact 4;
  let length := be_val lbuf in
  data ← sc_read_exact length;
  sc ← get;
  let rcv_buf := data ++ drop (Z.to_nat length) (sc_rcv_buf sc) in
  _ ← put (mk_ServerConnection (sc_write sc) (sc_read sc) rcv_buf (sc_mode sc) (sc_rt_comp sc));
  msgbuf ← (match sc_rt_comp sc with
            | Some st =>
              if length <? 4 then panic
              else
                let '(st, dbuf) := comp_decode st (drop 4 (take (Z.to_nat length) rcv_buf)) in
                _ ← put (mk_ServerConnection (sc_write sc) (sc_read sc) rcv_buf (sc_mode sc) (Some st));
                mret dbuf
            | None => mret (take (Z.to_nat length) rcv_buf)
            end);
  match de_msg msgbuf with
  | Some (m, _) => mret m
  | None => throw OtherError
  end.

(** [ConnectionBuilder::with_net]: the first message introduces the client. *)
Definition with_net (netout : stream) (init : InitMsg) : outcome stream :=
  match (_ ← stream_write_all (ser_msg (Msg_InitMsg init)); stream_flush) netout with
  | (Ok _, w) => Ok w
  | (Err e, _) => Err e
  | (Panic, _) => Panic
  | (NoFuel, _) => NoFuel
  end.

(** [cork_server]: waits for the server's answer and acknowledges it. *)
Fixpoint await_cork (fuel : nat) : M ServerConnection unit :=
  match fuel with
  | O => lift NoFuel
  | S fuel =>
    msg ← read_msg;
    match msg with
    | Msg_Cork tid => send_msg (Msg_AckCork tid)
    | _ => await_cork fuel
    end
  end.

Definition sc_cork_server : M ServerConnection unit :=
  _ ← send_msg (Msg_Cork 0);
  sc ← get;
  await_cork (S (length (sc_read sc))).

Definition sc_uncork_server : M ServerConnection unit := send_msg Msg_Uncork.

(** *** [process_ops] with one thread

    [dispatch] is the function of the same name on the client's copy of the
    file system, which is the rest of the state; like the code it may panic. *)
Section Ops.
Context {FS : Type} (dispatch : VFSCall -> M FS Z).

Definition on_conn {A} (m : M ServerConnection A) : M (ServerConnection * FS) A := fun '(sc, fs) =>
  let '(r, sc) := m sc in (r, (sc, fs)).

Definition callback (call : VFSCall) : M (ServerConnection * FS) Z := fun '(sc, fs) =>
  let '(e, fs) := dispatch call fs in (e, (sc, fs)).

(** [.expect("Failed to send ack")]. *)
Definition send_ack (msg : FsyncerMsg) : M (ServerConnection * FS) unit := fun s =>
  match on_conn (send_msg msg) s with
  | (Err _, s) => (Panic, s)
  | r => r
  end.

Definition process_msg (msg : FsyncerMsg) : M (ServerConnection * FS) unit :=
  '(sc, _) ← get;
  let mode := sc_mode sc in
  match msg with
  | Msg_SyncOp call tid =>
    _ ← (if bool_decide (mode = MODE_SEMISYNC)
         then on_conn (send_msg (Msg_Ack (mk_AckMsg Ack tid))) else mret tt);
    res ← callback call;
    if bool_decide (mode = MODE_SYNC) || bool_decide (mode = MODE_FLUSHSYNC)
    then send_ack (Msg_Ack (mk_AckMsg (RetCode res) tid)) else mret tt
  | Msg_AsyncOp call => _ ← callback call; mret tt
  | Msg_Cork tid => on_conn (send_msg (Msg_AckCork tid))
  | Msg_NOP | Msg_Uncork => mret tt
  | _ => mret tt
  end.

(** The loop ends with the error of a read. *)
Fixpoint process_ops (fuel : nat) : M (ServerConnection * FS) unit :=
  match fuel with
  | O => lift NoFuel
  | S fuel =>
    msg ← on_conn read_msg;
    _ ← process_msg msg;
    process_ops fuel
  end.

End Ops.
End Net.
