(* ===== verification/NetInst.v ===== *)
(** * A concrete message format

    The messages with a 32-bit tag and little-endian fields of fixed width, the
    calls by their number in a table; and the compressor that changes nothing.
    It shows that [MsgFormatLaws] can hold, and lets connections be run on small
    inputs. *)

From stdpp Require Import base list numbers option.
From Stdlib Require Import ZArith Lia.
From S2P Require Import Prelude Common Filestore Store StoreInst Net.

Local Open Scope Z_scope.

Section Table.
Context (table : list VFSCall).

Definition call_index (c : VFSCall) : Z :=
  match list_find (fun d => d = c) table with Some (i, _) => Z.of_nat i | None => 0 end.

Definition mode_tag (m : ClientMode) : Z :=
  match m with MODE_ASYNC => 0 | MODE_SYNC => 1 | MODE_SEMISYNC => 2 | MODE_FLUSHSYNC => 3 | MODE_CONTROL => 4 end.

Definition mode_of_tag (z : Z) : ClientMode :=
  if z =? 0 then MODE_ASYNC else if z =? 1 then MODE_SYNC else if z =? 2 then MODE_SEMISYNC
  else if z =? 3 then MODE_FLUSHSYNC else MODE_CONTROL.

Definition msg_fields (m : FsyncerMsg) : Z * Z * Z :=
  match m with
  | Msg_InitMsg (mk_InitMsg mode hash comp bps opts) =>
    (0, mode_tag mode + 256 * comp + 65536 * opts, hash + 2 ^ 64 * bps)
  | Msg_AsyncOp c => (1, call_index c, 0)
  | Msg_SyncOp c tid => (2, call_index c, tid)
  | Msg_Ack (mk_AckMsg Ack tid) => (3, 0, tid)
  | Msg_Ack (mk_AckMsg Dead tid) => (4, 0, tid)
  | Msg_Ack (mk_AckMsg (RetCode code) tid) => (5, u32 code, tid)
  | Msg_Cork tid => (6, 0, tid)
  | Msg_AckCork tid => (7, 0, tid)
  | Msg_Uncork => (8, 0, 0)
  | Msg_NOP => (9, 0, 0)
  end.

Definition fields_msg (tag a b : Z) : option FsyncerMsg :=
  if tag =? 0 then Some (Msg_InitMsg (mk_InitMsg (mode_of_tag (a mod 256)) (b mod 2 ^ 64) (a / 256 mod 256)
                                        (b / 2 ^ 64) (a / 65536)))
  else if tag =? 1 then Msg_AsyncOp <$> table !! Z.to_nat a
  else if tag =? 2 then (fun c => Msg_SyncOp c b) <$> table !! Z.to_nat a
  else if tag =? 3 then Some (Msg_Ack (mk_AckMsg Ack b))
  else if tag =? 4 then Some (Msg_Ack (mk_AckMsg Dead b))
  else if tag =? 5 then Some (Msg_Ack (mk_AckMsg (RetCode (i32 a)) b))
  else if tag =? 6 then Some (Msg_Cork b)
  else if tag =? 7 then Some (Msg_AckCork b)
  else if tag =? 8 then Some Msg_Uncork
  else if tag =? 9 then Some Msg_NOP
  else None.

Definition table_ser (m : FsyncerMsg) : list Z :=
  let '(tag, a, b) := msg_fields m in le_bytes 4 tag ++ le_bytes 4 a ++ le_bytes 16 b.

Definition table_de (l : list Z) : option (FsyncerMsg * list Z) :=
  if Nat.ltb (length l) 24 then None
  else (fun m => (m, drop 24 l)) <$>
         fields_msg (le_val (take 4 l)) (le_val (take 4 (drop 4 l))) (le_val (take 16 (drop 8 l))).

Definition table_msgs : MsgFormat := {| ser_msg := table_ser; de_msg := table_de |}.

(** The messages the fields can hold. *)
Definition table_ok (m : FsyncerMsg) : Prop :=
  let '(tag, a, b) := msg_fields m in
  fields_msg tag a b = Some m /\ 0 <= tag < 2 ^ 32 /\ 0 <= a < 2 ^ 32 /\ 0 <= b < 2 ^ 128.

Definition table_msgs_laws : MsgFormatLaws (F := table_msgs).
Proof.
  refine (Build_MsgFormatLaws table_msgs table_ok _ _ eq_refl).
  - intros m rest Hm. unfold table_ok in Hm. change (table_de (table_ser m ++ rest) = Some (m, rest)).
    unfold table_de, table_ser.
    destruct (msg_fields m) as [[tag a] b]. destruct Hm as (Hf & Ht & Ha & Hb). rewrite <- !app_assoc.
    replace (Nat.ltb _ _) with false
      by (symmetry; apply Nat.ltb_ge; rewrite !length_app, !length_le_bytes; lia).
    rewrite take_le, (drop_le 4 0), (drop_le 4 4), (drop_le 4 20), (drop_le 4 0), (drop_le 4 16), (drop_le 16 0).
    rewrite !drop_0, !take_le, !le_val_bytes by (cbn; lia). by rewrite Hf.
  - intros m. change (4 <= length (table_ser m))%nat. unfold table_ser.
    destruct (msg_fields m) as [[tag a] b]. rewrite length_app, length_le_bytes. lia.
Defined.

Lemma ack_code_ok code tid :
  - 2 ^ 31 <= code < 2 ^ 31 -> 0 <= tid < 2 ^ 64 -> table_ok (Msg_Ack (mk_AckMsg (RetCode code) tid)).
Proof.
  intros Hc Ht. unfold table_ok, fields_msg. cbn [msg_fields Z.eqb Pos.eqb].
  assert (i32 (u32 code) = code) as ->.
  { unfold i32, swrap, u32, wrap. rewrite Zplus_mod_idemp_l, Z.mod_small; lia. }
  split; [done|]. unfold u32, wrap. pose proof (Z.mod_pos_bound code (2 ^ 32)). lia.
Qed.
End Table.

Definition no_compressor : Compressor := {|
  comp_state := unit; comp_chunked := tt; comp_zstd := tt;
  comp_encode := fun _ l => (tt, l); comp_decode := fun _ l => (tt, l) |}.
