(* ===== verification/NetSpec.v ===== *)
(** * Frames and the client's loop

    A frame is the length of a message and the message. What the server writes
    for a message is its frame, possibly followed by that of [NOP]; the client
    reads frames back one by one, and its loop does to the file system and to
    its output what [handle] says for each message. *)

From stdpp Require Import base list numbers option gmap.
From Stdlib Require Import ZArith Lia.
From S2P Require Import Prelude Common Net.

Local Open Scope Z_scope.

Section NetSpec.
Context {F : MsgFormat} {L : MsgFormatLaws} {C : Compressor}.

Definition frame (m : FsyncerMsg) : list Z := be32 (zlen (ser_msg m)) ++ ser_msg m.
Definition frames (l : list FsyncerMsg) : list Z := l ≫= frame.

(** Messages that fit the length word. *)
Definition sendable (m : FsyncerMsg) : Prop := msg_ok m /\ zlen (ser_msg m) < 2 ^ 32.

Lemma frames_app l1 l2 : frames (l1 ++ l2) = frames l1 ++ frames l2.
Proof. apply bind_app. Qed.

(** ** Writing *)

(** A connection that works, without packet compression. *)
Definition open_client (c : Client) : Prop :=
  cl_status c = ALIVE /\ st_room (cl_write c) = None /\ cl_rt_comp c = None.

Definition sent (c : Client) (l : list FsyncerMsg) : Client :=
  cl_set_write c (mk_stream (st_out (cl_write c) ++ frames l) None).

Lemma write_frame_ok m c :
  open_client c -> zlen (ser_msg m) < 2 ^ 32 ->
  write_frame (ser_msg m) (zlen (ser_msg m)) c = (Ok tt, sent c [m]).
Proof.
  intros (_ & Hroom & Hrt) Hlen. unfold write_frame. rewrite Hrt.
  unfold stream_write_all. munfold. rewrite Hroom. cbn [st_room st_out].
  unfold sent, frames, frame. cbn [mbind list_bind]. rewrite app_nil_r, <- app_assoc.
  rewrite u32_small by (unfold zlen in *; lia). done.
Qed.

Lemma open_sent c l : open_client c -> open_client (sent c l).
Proof. intros (? & ? & ?). by split_and!. Qed.

Lemma sent_app c l1 l2 : sent (sent c l1) l2 = sent c (l1 ++ l2).
Proof. unfold sent, cl_set_write. cbn. by rewrite frames_app, <- app_assoc. Qed.

(** With stream compression a flushed message is followed by [NOP]. *)
Definition flushed (c : Client) (flush : bool) (m : FsyncerMsg) : list FsyncerMsg :=
  m :: (if flush && flags_intersects (cl_comp c) CompMode_STREAM_MASK then [Msg_NOP] else []).

Lemma flush_write_id c : client_flush_write c = (Ok tt, c).
Proof. unfold client_flush_write, stream_flush. munfold. by destruct c. Qed.

Lemma inner_ok m c flush :
  open_client c -> zlen (ser_msg m) < 2 ^ 32 -> zlen (ser_msg Msg_NOP) < 2 ^ 32 ->
  inner (ser_msg m) (zlen (ser_msg m)) flush (flags_intersects (cl_comp c) CompMode_STREAM_MASK) c =
    (Ok tt, sent c (flushed c flush m)).
Proof.
  intros Ho Hm Hnop. unfold inner, flushed. munfold. rewrite write_frame_ok by done.
  destruct flush; [|done]. rewrite flush_write_id. cbn [andb].
  destruct (flags_intersects _ _); [|done].
  rewrite write_frame_ok by (try apply open_sent; done). by rewrite flush_write_id, sent_app.
Qed.

(** ** Reading *)
Definition open_conn (sc : ServerConnection) : Prop :=
  st_room (sc_write sc) = None /\ sc_rt_comp sc = None.

Definition sc_left (sc : ServerConnection) (rest rcv : list Z) : ServerConnection :=
  mk_ServerConnection (sc_write sc) rest rcv (sc_mode sc) (sc_rt_comp sc).

Lemma read_msg_frame sc m rest :
  sc_rt_comp sc = None -> sc_read sc = frame m ++ rest -> sendable m ->
  exists rcv, read_msg sc = (Ok m, sc_left sc rest rcv).
Proof.
  intros Hrt Hin [Hok Hlen]. unfold read_msg, sc_read_exact. munfold.
  rewrite Hin. unfold frame. rewrite <- app_assoc.
  replace (4 <=? zlen _) with true
    by (symmetry; apply Z.leb_le; unfold zlen; rewrite length_app, length_be32; lia).
  change (Z.to_nat 4) with 4%nat.
  rewrite (take_app_length' (be32 _)), (drop_app_length' (be32 _)) by (by rewrite length_be32).
  cbn [sc_read sc_write sc_rcv_buf sc_mode sc_rt_comp].
  rewrite be32_val by (unfold zlen in *; lia).
  replace (zlen (ser_msg m) <=? zlen (ser_msg m ++ rest)) with true
    by (symmetry; apply Z.leb_le; unfold zlen; rewrite length_app; lia).
  unfold zlen. rewrite Nat2Z.id, take_app_length, drop_app_length.
  cbn [sc_read sc_write sc_rcv_buf sc_mode sc_rt_comp]. rewrite Hrt, take_app_length.
  pose proof (law_msg m [] Hok) as Hde. rewrite app_nil_r in Hde. rewrite Hde.
  eexists. unfold sc_left. rewrite Hrt. reflexivity.
Qed.

Lemma read_msg_end sc : sc_read sc = [] -> read_msg sc = (Err UnexpectedEof, sc).
Proof.
  intros Hin. unfold read_msg, sc_read_exact. munfold. rewrite Hin. cbn.
  destruct sc. cbn in *. by subst.
Qed.

(** ** The loop *)


(** A [dispatch] that returns. *)
Definition returning {FS} (dispatch : VFSCall -> FS -> Z * FS) (call : VFSCall) : M FS Z := fun fs =>
  let '(code, fs) := dispatch call fs in (Ok code, fs).

Section Loop.
Context {FS : Type} (dispatch : VFSCall -> FS -> Z * FS) (code_dispatch : VFSCall -> M FS Z).

(** On these calls the code's [dispatch] is this one. *)
Definition agrees (call : VFSCall) : Prop := forall fs, code_dispatch call fs = returning dispatch call fs.

(** What one message makes of the client's copy, and the answers to it. *)
Definition handle (mode : ClientMode) (m : FsyncerMsg) (fs : FS) : FS * list FsyncerMsg :=
  match m with
  | Msg_SyncOp call tid =>
    let '(code, fs) := dispatch call fs in
    (fs, match mode with
         | MODE_SEMISYNC => [Msg_Ack (mk_AckMsg Ack tid)]
         | MODE_SYNC | MODE_FLUSHSYNC => [Msg_Ack (mk_AckMsg (RetCode code) tid)]
         | _ => []
         end)
  | Msg_AsyncOp call => (snd (dispatch call fs), [])
  | Msg_Cork tid => (fs, [Msg_AckCork tid])
  | _ => (fs, [])
  end.

Fixpoint handle_all (mode : ClientMode) (l : list FsyncerMsg) (fs : FS) : FS * list FsyncerMsg :=
  match l with
  | [] => (fs, [])
  | m :: l =>
    let '(fs, a) := handle mode m fs in
    let '(fs, b) := handle_all mode l fs in (fs, a ++ b)
  end.

(** The calls in a run of messages, in order. *)
Definition msg_call (m : FsyncerMsg) : list VFSCall :=
  match m with Msg_SyncOp call _ | Msg_AsyncOp call => [call] | _ => [] end.

Definition dispatch_all (calls : list VFSCall) (fs : FS) : FS :=
  foldl (fun fs call => snd (dispatch call fs)) fs calls.

Lemma handle_fs mode m fs : fst (handle mode m fs) = dispatch_all (msg_call m) fs.
Proof. destruct m; try done. cbn. by destruct (dispatch call fs). Qed.

Lemma handle_all_fs mode l : forall fs, fst (handle_all mode l fs) = dispatch_all (l ≫= msg_call) fs.
Proof.
  induction l as [|m l IH]; intros fs; [done|]. cbn [handle_all]. rewrite bind_cons.
  pose proof (handle_fs mode m fs) as Hm. destruct (handle mode m fs) as [fs1 a]. cbn [fst] in Hm.
  pose proof (IH fs1) as Hl. destruct (handle_all mode l fs1) as [fs2 b]. cbn [fst] in *.
  unfold dispatch_all in *. by rewrite foldl_app, <- Hm.
Qed.

Lemma handle_all_app mode l1 l2 fs :
  handle_all mode (l1 ++ l2) fs =
    (fst (handle_all mode l2 (fst (handle_all mode l1 fs))),
     snd (handle_all mode l1 fs) ++ snd (handle_all mode l2 (fst (handle_all mode l1 fs)))).
Proof.
  revert fs. induction l1 as [|m l1 IH]; intros fs; [cbn; by destruct (handle_all mode l2 fs)|].
  cbn [handle_all app]. destruct (handle mode m fs) as [fs1 a]. rewrite IH.
  destruct (handle_all mode l1 fs1) as [fs2 b]. cbn [fst snd]. by rewrite app_assoc.
Qed.

Definition sc_wrote (sc : ServerConnection) (l : list FsyncerMsg) : ServerConnection :=
  mk_ServerConnection (mk_stream (st_out (sc_write sc) ++ (l ≫= ser_msg)) None)
    (sc_read sc) (sc_rcv_buf sc) (sc_mode sc) (sc_rt_comp sc).

Lemma send_msg_ok sc m : open_conn sc -> send_msg m sc = (Ok tt, sc_wrote sc [m]).
Proof.
  intros [Hroom _]. unfold send_msg, stream_write_all, stream_flush. munfold. rewrite Hroom.
  unfold sc_wrote. cbn [mbind list_bind]. by rewrite app_nil_r.
Qed.

Lemma sc_wrote_nil sc : open_conn sc -> sc_wrote sc [] = sc.
Proof. intros [Hr _]. destruct sc as [[o r] ? ? ? ?]. unfold sc_wrote. cbn in *. subst. by rewrite app_nil_r. Qed.

Lemma process_msg_ok sc m fs :
  open_conn sc -> Forall agrees (msg_call m) ->
  process_msg code_dispatch m (sc, fs) =
    (Ok tt, (sc_wrote sc (snd (handle (sc_mode sc) m fs)), fst (handle (sc_mode sc) m fs))).
Proof.
  intros Ho Hag. pose proof (sc_wrote_nil sc Ho) as Hnil. unfold process_msg. munfold.
  destruct m; cbn [handle fst snd]; rewrite ?Hnil; try done.
  - apply Forall_cons in Hag as [Hag _]. unfold callback. rewrite Hag. unfold returning. by destruct (dispatch call fs).
  - apply Forall_cons in Hag as [Hag _].
    unfold callback, send_ack, on_conn. destruct (sc_mode sc) eqn:Em;
      repeat first [rewrite bool_decide_true by done | rewrite bool_decide_false by done]; cbn;
      rewrite ?(send_msg_ok sc) by done; rewrite Hag; unfold returning; destruct (dispatch call fs); cbn;
      rewrite ?(send_msg_ok sc) by done; rewrite ?Hnil; done.
  - unfold on_conn. by rewrite send_msg_ok.
Qed.

Lemma process_ops_ok l : forall fuel sc fs,
  open_conn sc -> sc_read sc = frames l -> Forall sendable l -> Forall agrees (l ≫= msg_call) ->
  (length l < fuel)%nat ->
  exists rcv, process_ops code_dispatch fuel (sc, fs) =
    (Err UnexpectedEof, (sc_left (sc_wrote sc (snd (handle_all (sc_mode sc) l fs))) [] rcv,
                         fst (handle_all (sc_mode sc) l fs))).
Proof.
  induction l as [|m l IH]; intros [|fuel] sc fs Ho Hin Hok Hag Hf; try (cbn in Hf; lia);
    cbn [process_ops]; munfold; unfold on_conn at 1.
  - rewrite read_msg_end by done. cbn [handle_all fst snd]. exists (sc_rcv_buf sc).
    rewrite sc_wrote_nil by done. unfold sc_left. change (@nil Z) with (frames []). rewrite <- Hin. by destruct sc.
  - apply Forall_cons in Hok as [Hm Hok]. rewrite bind_cons in Hag. apply Forall_app in Hag as [Hag1 Hag].
    destruct (read_msg_frame sc m (frames l)) as (rcv & Er); [apply Ho|exact Hin|done|].
    rewrite Er. assert (open_conn (sc_left sc (frames l) rcv)) as Ho1 by (by destruct Ho).
    rewrite process_msg_ok by done. change (sc_mode (sc_left sc (frames l) rcv)) with (sc_mode sc).
    cbn [handle_all]. destruct (handle (sc_mode sc) m fs) as [fs1 a]. cbn [fst snd].
    destruct (IH fuel (sc_wrote (sc_left sc (frames l) rcv) a) fs1) as (rcv' & Ep);
      [by destruct Ho|done|done|done|cbn in Hf; lia|].
    rewrite Ep. change (sc_mode (sc_wrote (sc_left sc (frames l) rcv) a)) with (sc_mode sc).
    destruct (handle_all (sc_mode sc) l fs1) as [fs2 b]. cbn [fst snd]. exists rcv'.
    unfold sc_left, sc_wrote. cbn. by rewrite bind_app, <- app_assoc.
Qed.

End Loop.

Lemma returning_agrees {FS} (dispatch : VFSCall -> FS -> Z * FS) l :
  Forall (agrees dispatch (returning dispatch)) l.
Proof. by apply Forall_forall. Qed.
End NetSpec.

(** ** The server's clients *)
Section ServerSpec.
Context {F : MsgFormat} {L : MsgFormatLaws} {C : Compressor}.

Definition small (m : FsyncerMsg) : Prop := zlen (ser_msg m) < 2 ^ 32.

Lemma park_open tid h c h' c' a :
  park tid (h, c) = (Ok a, (h', c')) -> open_client c -> open_client c' /\
    cl_write c' = cl_write c /\ cl_comp c' = cl_comp c /\ cl_mode c' = cl_mode c /\ cl_parked c' !! tid = Some a.
Proof.
  unfold park, ClientResponse_new. intros E (? & ? & ?).
  destruct (cl_parked c !! tid) as [a'|] eqn:Ep; inv E; split_and!; try done.
  cbn. by rewrite lookup_insert_eq.
Qed.

Lemma park_total tid h c : exists a h' c', park tid (h, c) = (Ok a, (h', c')).
Proof. unfold park, ClientResponse_new. destruct (cl_parked c !! tid); by eexists _, _, _. Qed.

Lemma response_msg_ok tid m flush h c :
  open_client c -> small m -> small Msg_NOP ->
  response_msg tid m flush false (h, c) = (Ok None, (h, sent c (flushed c flush m))).
Proof.
  intros Ho Hm Hn. pose proof Ho as (Hs & _). unfold response_msg. rewrite Hs.
  rewrite bool_decide_false by done. by rewrite inner_ok.
Qed.

Lemma response_msg_wait tid m flush h c a h' c' :
  open_client c -> small m -> small Msg_NOP -> park tid (h, c) = (Ok a, (h', c')) ->
  response_msg tid m flush true (h, c) = (Ok (Some a), (h', sent c' (flushed c flush m))).
Proof.
  intros Ho Hm Hn Hp. pose proof Ho as (Hs & _). unfold response_msg. rewrite Hs.
  rewrite bool_decide_false by done. rewrite Hp.
  destruct (park_open tid h c h' c' a Hp Ho) as (Ho' & _ & Hcomp & _).
  rewrite inner_ok by done. unfold flushed. by rewrite Hcomp.
Qed.

(** A message that is not sent leaves a connection that is not open alone or
    dead; in any case no other outcome than success or an error. *)
Lemma write_frame_outcome l z c : exists c', write_frame l z c = (Ok tt, c') \/ exists e, write_frame l z c = (Err e, c').
Proof.
  unfold write_frame, stream_write_all. munfold.
  destruct (cl_rt_comp c) as [st|]; [destruct (comp_encode st l)|];
    cbn; repeat (case_match; simplify_eq; cbn); eauto.
Qed.

Lemma inner_outcome l z flush comp c :
  exists c', inner l z flush comp c = (Ok tt, c') \/ exists e, inner l z flush comp c = (Err e, c').
Proof.
  unfold inner. munfold. destruct (write_frame_outcome l z c) as (c1 & [->|(e & ->)]); [|eauto].
  destruct flush; [|eauto]. rewrite flush_write_id. destruct comp; [|eauto].
  destruct (write_frame_outcome (ser_msg Msg_NOP) (zlen (ser_msg Msg_NOP)) c1) as (c2 & [->|(e & ->)]); [|eauto].
  rewrite flush_write_id. eauto.
Qed.

Lemma response_msg_outcome tid m flush want hc :
  exists hc', (exists r, response_msg tid m flush want hc = (Ok r, hc')) \/
    exists e, response_msg tid m flush want hc = (Err e, hc').
Proof.
  destruct hc as [h c]. unfold response_msg. case_bool_decide; [eauto|].
  destruct (park_total tid h c) as (a & h' & c' & Hp). rewrite Hp.
  destruct want;
    match goal with |- context [inner ?l ?z ?f ?b ?c] =>
      destruct (inner_outcome l z f b c) as (c2 & [->|(e & ->)]) end; eauto.
Qed.

End ServerSpec.
