(* ===== verification/Ops.v ===== *)
(** * System calls: [fsyncd/src/common/ops_unix.rs] and [fsyncd/src/client/dispatch_unix.rs]

    What the server's handlers and the client's [dispatch] do to a file system.
    The system calls themselves are parameters ([Syscalls]): functions on the
    state of the operating system with the result of the C function, [-1] for a
    failure, whose number [errno] then has. A path is given as the C string the
    code makes of it; names of attributes are bytes. *)

From stdpp Require Import base list numbers option strings.
From Stdlib Require Import ZArith Lia.
From S2P Require Import Prelude Common.

Local Open Scope Z_scope.

Class Syscalls (OS : Type) := {
  sys_errno : OS -> Z;
  sys_mkfifo : path -> Z -> OS -> Z * OS;
  sys_mknod : path -> Z -> Z -> OS -> Z * OS;
  sys_mkdir : path -> Z -> OS -> Z * OS;
  sys_unlink : path -> OS -> Z * OS;
  sys_rmdir : path -> OS -> Z * OS;
  sys_symlink : path -> path -> OS -> Z * OS;
  sys_renameat2 : path -> path -> Z -> OS -> Z * OS;
  sys_link : path -> path -> OS -> Z * OS;
  sys_chmod : path -> Z -> OS -> Z * OS;
  sys_fchmod : Z -> Z -> OS -> Z * OS;
  sys_chown : path -> Z -> Z -> OS -> Z * OS;
  sys_lchown : path -> Z -> Z -> OS -> Z * OS;
  sys_fchown : Z -> Z -> Z -> OS -> Z * OS;
  sys_truncate : path -> Z -> OS -> Z * OS;
  sys_ftruncate : Z -> Z -> OS -> Z * OS;
  sys_open : path -> Z -> Z -> OS -> Z * OS;
  sys_close : Z -> OS -> Z * OS;
  sys_pread : Z -> Z -> Z -> OS -> (Z + list Z) * OS;
  sys_pwrite : Z -> list Z -> Z -> OS -> Z * OS;
  sys_fallocate : Z -> Z -> Z -> Z -> OS -> Z * OS;
  sys_lsetxattr : path -> list Z -> list Z -> Z -> OS -> Z * OS;
  sys_fsetxattr : Z -> list Z -> list Z -> Z -> OS -> Z * OS;
  sys_lremovexattr : path -> list Z -> OS -> Z * OS;
  sys_fremovexattr : Z -> list Z -> OS -> Z * OS;
  sys_utimensat : path -> Timespec * Timespec -> OS -> Z * OS;
  sys_futimens : Z -> Timespec * Timespec -> OS -> Z * OS;
  sys_fsync : Z -> OS -> Z * OS;
  sys_fdatasync : Z -> OS -> Z * OS }.

Section Ops.
Context {OS : Type} {Sys : Syscalls OS}.

Definition syscall (f : OS -> Z * OS) : M OS Z := fun os => let '(r, os) := f os in (Ok r, os).

Definition neg_errno : M OS Z := fun os => (Ok (- sys_errno os), os).

(** [if f == -1 { return neg_errno(); } k]. *)
Definition checked (f : OS -> Z * OS) (k : M OS Z) : M OS Z :=
  res ← syscall f; if res =? -1 then neg_errno else k.

Definition libc_S_IFIFO : Z := 4096.

(** [Either<path, fd>]. *)
Definition path_or_fd : Type := path + Z.

Definition xmp_chown (x : path_or_fd) (uid gid : Z) : M OS Z :=
  checked (match x with inr fd => sys_fchown fd uid gid | inl p => sys_chown p uid gid end) (mret 0).

Definition xmp_mknod (p : path) (mode rdev uid gid : Z) : M OS Z :=
  checked (if Z.land mode libc_S_IFIFO =? libc_S_IFIFO then sys_mkfifo p mode else sys_mknod p mode rdev)
    (xmp_chown (inl p) uid gid).

Definition xmp_mkdir (p : path) (mode uid gid : Z) : M OS Z :=
  checked (sys_mkdir p mode) (xmp_chown (inl p) uid gid).

Definition xmp_unlink (p : path) : M OS Z := checked (sys_unlink p) (mret 0).
Definition xmp_rmdir (p : path) : M OS Z := checked (sys_rmdir p) (mret 0).

Definition xmp_symlink (from to : path) (uid gid : Z) : M OS Z :=
  checked (sys_symlink from to) (checked (sys_lchown to uid gid) (mret 0)).

(** On Linux: the negated result of the system call. *)
Definition xmp_rename (from to : path) (flags : Z) : M OS Z :=
  res ← syscall (sys_renameat2 from to flags); mret (i32 (- res)).

Definition xmp_link (from to : path) (uid gid : Z) : M OS Z :=
  checked (sys_link from to) (xmp_chown (inl to) uid gid).

Definition xmp_chmod (x : path_or_fd) (mode : Z) : M OS Z :=
  checked (match x with inr fd => sys_fchmod fd mode | inl p => sys_chmod p mode end) (mret 0).

Definition xmp_truncate (x : path_or_fd) (size : Z) : M OS Z :=
  checked (match x with inr fd => sys_ftruncate fd size | inl p => sys_truncate p size end) (mret 0).

Definition xmp_write (buf : list Z) (offset fd : Z) : M OS Z :=
  res ← syscall (sys_pwrite fd buf offset);
  if res =? -1 then neg_errno else mret (i32 res).

Definition xmp_fallocate (mode offset length fd : Z) : M OS Z :=
  checked (sys_fallocate fd mode offset length) (mret 0).

Definition xmp_setxattr (x : path_or_fd) (name value : list Z) (flags : Z) : M OS Z :=
  checked (match x with
           | inr fd => sys_fsetxattr fd name value flags
           | inl p => sys_lsetxattr p name value flags
           end) (mret 0).

Definition xmp_removexattr (x : path_or_fd) (name : list Z) : M OS Z :=
  checked (match x with inr fd => sys_fremovexattr fd name | inl p => sys_lremovexattr p name end) (mret 0).

(** The result and the descriptor, which the C code returns by reference. *)
Definition xmp_create (p : path) (mode flags uid gid : Z) : M OS (Z * Z) :=
  fd ← syscall (sys_open p flags mode);
  res ← (if fd =? -1 then neg_errno else xmp_chown (inr fd) uid gid);
  mret (res, fd).

Definition xmp_utimens (x : path_or_fd) (ts : Timespec * Timespec) : M OS Z :=
  checked (match x with inr fd => sys_futimens fd ts | inl p => sys_utimensat p ts end) (mret 0).

Definition xmp_fsync (isdatasync fd : Z) : M OS Z :=
  checked (if negb (isdatasync =? 0) then sys_fdatasync fd else sys_fsync fd) (mret 0).

(** ** [with_file] with [OpenOptions::new().write(true)]

    The descriptor is closed by dropping the file. *)
Definition O_WRONLY_CLOEXEC : Z := 524289.

Definition with_file (p : path) (f : Z -> M OS Z) : M OS (Z + Z) :=
  fd ← syscall (sys_open p O_WRONLY_CLOEXEC 438);
  if fd =? -1 then os ← get; mret (inl (sys_errno os))
  else
    res ← f fd;
    _ ← syscall (sys_close fd);
    mret (inr res).

(** [.map_err(|e| e.raw_os_error().unwrap()).err_or_ok()]. *)
Definition on_file (p : path) (f : Z -> M OS Z) : M OS Z :=
  r ← with_file p f; mret (err_or_ok r).

(** ** [dispatch] *)
Definition dispatch (call : VFSCall) (root : path) : M OS Z :=
  match call with
  | mknod p mode rdev (Unix uid gid) => xmp_mknod (translate_path p root) mode rdev uid gid
  | mkdir p (Unix uid gid) mode => xmp_mkdir (translate_path p root) mode uid gid
  | unlink p => xmp_unlink (translate_path p root)
  | rmdir p => xmp_rmdir (translate_path p root)
  | symlink from to (Unix uid gid) => xmp_symlink from (translate_path to root) uid gid
  | rename from to flags => xmp_rename (translate_path from root) (translate_path to root) flags
  | link from to (Unix uid gid) => xmp_link (translate_path from root) (translate_path to root) uid gid
  | chmod p mode => xmp_chmod (inl (translate_path p root)) mode
  | security p (Unix uid gid) => xmp_chown (inl (translate_path p root)) uid gid
  | truncate p size => xmp_truncate (inl (translate_path p root)) size
  | write p offset buf => on_file (translate_path p root) (xmp_write buf offset)
  | truncating_write p offset buf length =>
    on_file (translate_path p root) (fun fd =>
      res ← xmp_write buf offset fd;
      if res <? 0 then mret res
      else
        tres ← xmp_truncate (inr fd) length;
        if tres <? 0 then mret tres else mret res)
  | fallocate p mode offset length =>
    on_file (translate_path p root) (xmp_fallocate mode offset length)
  | setxattr p name value flags => xmp_setxattr (inl (translate_path p root)) name value flags
  | removexattr p name => xmp_removexattr (inl (translate_path p root)) name
  | create p flags (Unix uid gid) mode =>
    '(res, fd) ← xmp_create (translate_path p root) mode flags uid gid;
    _ ← (if fd =? -1 then mret 0 else syscall (sys_close fd));
    mret res
  | utimens p (t0, t1, _) => xmp_utimens (inl (translate_path p root)) (t0, t1)
  | fsync p isdatasync => on_file (translate_path p root) (xmp_fsync isdatasync)
  | _ => panic
  end.

End Ops.
