(* ===== verification/OpsSpec.v ===== *)
(** * Two copies of a file system

    [Mirror] is what it takes for the same calls to have the same effect on two
    copies, the server's under [r1] and the client's under [r2]: every system
    call has the same outcome at the same place of equal trees and leaves them
    equal. [dispatch] then returns the same code on both sides. *)

From stdpp Require Import base list numbers option.
From Stdlib Require Import ZArith Lia.
From S2P Require Import Prelude Common Ops.

Local Open Scope Z_scope.

(** ** Bodies that return *)
Section Returns.
Context {OS : Type} {Sys : Syscalls OS}.

Definition returns {A} (m : M OS A) : Prop := forall os, exists r os', m os = (Ok r, os').

Lemma returns_bind {A B} (m : M OS A) (f : A -> M OS B) :
  returns m -> (forall a, returns (f a)) -> returns (a ← m; f a).
Proof.
  intros Hm Hf os. destruct (Hm os) as (a & os1 & E1). destruct (Hf a os1) as (b & os2 & E2).
  exists b, os2. unfold mbind, M_bind. by rewrite E1.
Qed.

Lemma returns_ret {A} (a : A) : returns (mret a).
Proof. intros os. by exists a, os. Qed.

Lemma returns_syscall f : returns (syscall f).
Proof. intros os. unfold syscall. destruct (f os) as [r os']. by exists r, os'. Qed.

Lemma returns_errno : returns neg_errno.
Proof. intros os. by eexists _, _. Qed.

Lemma returns_get : returns (A := OS) get.
Proof. intros os. by eexists _, _. Qed.
End Returns.

#[export] Hint Resolve returns_ret returns_syscall returns_errno returns_get : fsyncer.

Ltac returns := repeat first
  [ apply returns_bind; [|intros ?] | solve [eauto with fsyncer]
  | match goal with
    | |- returns (if ?b then _ else _) => destruct b
    | |- returns (let '(_, _) := ?x in _) => destruct x
    | |- returns (match ?x with _ => _ end) => destruct x
    end ].

Section Returns2.
Context {OS : Type} {Sys : Syscalls OS}.

Lemma returns_checked f k : returns k -> returns (checked f k).
Proof. intros Hk. unfold checked. returns. Qed.
Hint Resolve returns_checked : fsyncer.

Lemma returns_on_file p f : (forall fd, returns (f fd)) -> returns (on_file p f).
Proof. intros Hf. unfold on_file, with_file. returns. Qed.
Hint Resolve returns_on_file : fsyncer.

(** The calls of the Unix handlers. *)
Definition unix_call (call : VFSCall) : bool :=
  match call with
  | mknod _ _ _ (Unix _ _) | mkdir _ (Unix _ _) _ | unlink _ | rmdir _ | symlink _ _ (Unix _ _)
  | rename _ _ _ | link _ _ (Unix _ _) | chmod _ _ | security _ (Unix _ _) | truncate _ _
  | write _ _ _ | fallocate _ _ _ _ | setxattr _ _ _ _ | removexattr _ _ | create _ _ (Unix _ _) _
  | utimens _ (_, _, mk_Timespec 0 0) | fsync _ _ => true
  | _ => false
  end.

(** [dispatch] returns on them. *)
Lemma dispatch_returns call root : unix_call call = true -> returns (dispatch call root).
Proof.
  intros Hu. destruct call; try done; cbn [dispatch];
    try (match goal with s : FileSecurity |- _ => destruct s; try done end);
    try (match goal with t : Timespec * Timespec * Timespec |- _ => destruct t as [[t0 t1] t2] end);
    unfold xmp_mknod, xmp_mkdir, xmp_unlink, xmp_rmdir, xmp_symlink, xmp_rename, xmp_link, xmp_chmod,
      xmp_truncate, xmp_setxattr, xmp_removexattr, xmp_create, xmp_utimens, xmp_chown;
    try apply returns_on_file; intros;
    unfold xmp_write, xmp_fallocate, xmp_fsync; returns; repeat apply returns_checked; returns.
Qed.

(** Known defect: a failed rename is reported as 1, not as a negative [errno]. *)
Lemma rename_failure_code from to flags root os :
  fst (sys_renameat2 (translate_path from root) (translate_path to root) flags os) = -1 ->
  fst (dispatch (rename from to flags) root os) = Ok 1.
Proof.
  cbn. unfold xmp_rename, syscall. munfold. destruct (sys_renameat2 _ _ _ os) as [r os']. cbn. by intros ->.
Qed.

(** Known defect: when a client cannot open the file of a write, the code it
    acknowledges is the positive [errno], which its own test for failures
    ([e < 0]) takes for success. *)
Lemma open_failure_code p offset buf root os :
  fst (sys_open (translate_path p root) O_WRONLY_CLOEXEC 438 os) = -1 ->
  fst (dispatch (write p offset buf) root os) =
    Ok (sys_errno (snd (sys_open (translate_path p root) O_WRONLY_CLOEXEC 438 os))).
Proof.
  cbn. unfold on_file, with_file, syscall. munfold. destruct (sys_open _ _ _ os) as [r os']. cbn. by intros ->.
Qed.
End Returns2.

(** ** Mirrored system calls *)
Section Mirror.
Context {OS1 OS2 : Type} {Sys1 : Syscalls OS1} {Sys2 : Syscalls OS2}.

(** The same outcome, the same [errno] for a failure, and trees related after it. *)
Definition same (R : OS1 -> OS2 -> Prop) (x : Z * OS1) (y : Z * OS2) : Prop :=
  fst x = fst y /\ (fst x = -1 -> sys_errno (snd x) = sys_errno (snd y)) /\ R (snd x) (snd y).

(** [mi_open o fd p]: the descriptor [fd] is that of the file at [p]; [mi_file]:
    these descriptors are of the same file. A path is the one a client of the
    file system names, before translation. *)
Class Mirror (r1 r2 : path) := {
  mi_rel : OS1 -> OS2 -> Prop;
  mi_open : OS1 -> Z -> path -> Prop;
  mi_file : OS1 -> OS2 -> Z -> Z -> Prop;
  mi_mkfifo o1 o2 p mode : mi_rel o1 o2 ->
    same mi_rel (sys_mkfifo (translate_path p r1) mode o1) (sys_mkfifo (translate_path p r2) mode o2);
  mi_mknod o1 o2 p mode rdev : mi_rel o1 o2 ->
    same mi_rel (sys_mknod (translate_path p r1) mode rdev o1) (sys_mknod (translate_path p r2) mode rdev o2);
  mi_mkdir o1 o2 p mode : mi_rel o1 o2 ->
    same mi_rel (sys_mkdir (translate_path p r1) mode o1) (sys_mkdir (translate_path p r2) mode o2);
  mi_unlink o1 o2 p : mi_rel o1 o2 ->
    same mi_rel (sys_unlink (translate_path p r1) o1) (sys_unlink (translate_path p r2) o2);
  mi_rmdir o1 o2 p : mi_rel o1 o2 ->
    same mi_rel (sys_rmdir (translate_path p r1) o1) (sys_rmdir (translate_path p r2) o2);
  mi_symlink o1 o2 from p : mi_rel o1 o2 ->
    same mi_rel (sys_symlink from (translate_path p r1) o1) (sys_symlink from (translate_path p r2) o2);
  mi_renameat2 o1 o2 p q flags : mi_rel o1 o2 ->
    same mi_rel (sys_renameat2 (translate_path p r1) (translate_path q r1) flags o1)
      (sys_renameat2 (translate_path p r2) (translate_path q r2) flags o2);
  mi_link o1 o2 p q : mi_rel o1 o2 ->
    same mi_rel (sys_link (translate_path p r1) (translate_path q r1) o1)
      (sys_link (translate_path p r2) (translate_path q r2) o2);
  mi_chmod o1 o2 p mode : mi_rel o1 o2 ->
    same mi_rel (sys_chmod (translate_path p r1) mode o1) (sys_chmod (translate_path p r2) mode o2);
  mi_chown o1 o2 p uid gid : mi_rel o1 o2 ->
    same mi_rel (sys_chown (translate_path p r1) uid gid o1) (sys_chown (translate_path p r2) uid gid o2);
  mi_lchown o1 o2 p uid gid : mi_rel o1 o2 ->
    same mi_rel (sys_lchown (translate_path p r1) uid gid o1) (sys_lchown (translate_path p r2) uid gid o2);
  mi_truncate o1 o2 p size : mi_rel o1 o2 ->
    same mi_rel (sys_truncate (translate_path p r1) size o1) (sys_truncate (translate_path p r2) size o2);
  mi_lsetxattr o1 o2 p name value flags : mi_rel o1 o2 ->
    same mi_rel (sys_lsetxattr (translate_path p r1) name value flags o1)
      (sys_lsetxattr (translate_path p r2) name value flags o2);
  mi_lremovexattr o1 o2 p name : mi_rel o1 o2 ->
    same mi_rel (sys_lremovexattr (translate_path p r1) name o1) (sys_lremovexattr (translate_path p r2) name o2);
  mi_utimensat o1 o2 p ts : mi_rel o1 o2 ->
    same mi_rel (sys_utimensat (translate_path p r1) ts o1) (sys_utimensat (translate_path p r2) ts o2);
  (** A file that is opened or created on both sides; the numbers may differ. *)
  mi_create o1 o2 p flags mode : mi_rel o1 o2 ->
    let x := sys_open (translate_path p r1) flags mode o1 in
    let y := sys_open (translate_path p r2) flags mode o2 in
    mi_rel (snd x) (snd y) /\
    ((fst x = -1 /\ fst y = -1 /\ sys_errno (snd x) = sys_errno (snd y)) \/
     (fst x <> -1 /\ fst y <> -1 /\ mi_file (snd x) (snd y) (fst x) (fst y)));
  (** A file that is open on the server can be opened by the client. *)
  mi_reopen o1 o2 p fd : mi_rel o1 o2 -> mi_open o1 fd p ->
    let y := sys_open (translate_path p r2) O_WRONLY_CLOEXEC 438 o2 in
    fst y <> -1 /\ mi_rel o1 (snd y) /\ mi_file o1 (snd y) fd (fst y);
  mi_close o1 o2 fd : mi_rel o1 o2 -> mi_rel o1 (snd (sys_close fd o2));
  mi_fchown o1 o2 fd1 fd2 uid gid : mi_rel o1 o2 -> mi_file o1 o2 fd1 fd2 ->
    same mi_rel (sys_fchown fd1 uid gid o1) (sys_fchown fd2 uid gid o2);
  mi_pwrite o1 o2 fd1 fd2 buf offset : mi_rel o1 o2 -> mi_file o1 o2 fd1 fd2 ->
    same mi_rel (sys_pwrite fd1 buf offset o1) (sys_pwrite fd2 buf offset o2);
  mi_fallocate o1 o2 fd1 fd2 mode offset length : mi_rel o1 o2 -> mi_file o1 o2 fd1 fd2 ->
    same mi_rel (sys_fallocate fd1 mode offset length o1) (sys_fallocate fd2 mode offset length o2);
  mi_fsync o1 o2 fd1 fd2 : mi_rel o1 o2 -> mi_file o1 o2 fd1 fd2 ->
    same mi_rel (sys_fsync fd1 o1) (sys_fsync fd2 o2);
  mi_fdatasync o1 o2 fd1 fd2 : mi_rel o1 o2 -> mi_file o1 o2 fd1 fd2 ->
    same mi_rel (sys_fdatasync fd1 o1) (sys_fdatasync fd2 o2);
  mi_fchmod o1 o2 fd p mode : mi_rel o1 o2 -> mi_open o1 fd p ->
    same mi_rel (sys_fchmod fd mode o1) (sys_chmod (translate_path p r2) mode o2);
  mi_fchown_at o1 o2 fd p uid gid : mi_rel o1 o2 -> mi_open o1 fd p ->
    same mi_rel (sys_fchown fd uid gid o1) (sys_chown (translate_path p r2) uid gid o2);
  mi_ftruncate o1 o2 fd p size : mi_rel o1 o2 -> mi_open o1 fd p ->
    same mi_rel (sys_ftruncate fd size o1) (sys_truncate (translate_path p r2) size o2);
  mi_futimens o1 o2 fd p ts : mi_rel o1 o2 -> mi_open o1 fd p ->
    same mi_rel (sys_futimens fd ts o1) (sys_utimensat (translate_path p r2) ts o2);
  (** Flushing changes nothing that can be seen. *)
  mi_fsync_alone o1 o2 fd : mi_rel o1 o2 -> mi_rel (snd (sys_fsync fd o1)) o2;
  mi_fdatasync_alone o1 o2 fd : mi_rel o1 o2 -> mi_rel (snd (sys_fdatasync fd o1)) o2 }.

Context {r1 r2 : path} {Mi : Mirror r1 r2}.

(** Bodies with the same outcome. *)
Definition follows {A} (m1 : M OS1 A) (m2 : M OS2 A) (o1 : OS1) (o2 : OS2) : Prop :=
  fst (m1 o1) = fst (m2 o2) /\ mi_rel (snd (m1 o1)) (snd (m2 o2)).

Lemma follows_ret {A} (a : A) o1 o2 : mi_rel o1 o2 -> follows (mret a) (mret a) o1 o2.
Proof. by split. Qed.

Lemma follows_checked f1 f2 k1 k2 o1 o2 :
  same mi_rel (f1 o1) (f2 o2) -> (forall o1 o2, mi_rel o1 o2 -> follows k1 k2 o1 o2) ->
  follows (checked f1 k1) (checked f2 k2) o1 o2.
Proof.
  unfold same, follows, checked, syscall, neg_errno. munfold. intros (He & Herr & HR) Hk.
  destruct (f1 o1) as [x o1'], (f2 o2) as [y o2']. cbn [fst snd] in *. subst y.
  destruct (x =? -1) eqn:Ex; [|by apply Hk]. apply Z.eqb_eq in Ex. by rewrite (Herr Ex).
Qed.

Lemma follows_chown p uid gid o1 o2 : mi_rel o1 o2 ->
  follows (xmp_chown (inl (translate_path p r1)) uid gid) (xmp_chown (inl (translate_path p r2)) uid gid) o1 o2.
Proof. intros HR. apply follows_checked; [by apply mi_chown|]. intros. by apply follows_ret. Qed.

(** The server's descriptor and the client's own. *)
Lemma follows_on_file p fd f1 f2 o1 o2 :
  mi_rel o1 o2 -> mi_open o1 fd p ->
  (forall o1 o2 fd1 fd2, mi_rel o1 o2 -> mi_file o1 o2 fd1 fd2 -> follows (f1 fd1) (f2 fd2) o1 o2) ->
  (forall fd2, returns (f2 fd2)) ->
  follows (f1 fd) (on_file (translate_path p r2) f2) o1 o2.
Proof.
  intros HR Hop Hf Hret. destruct (mi_reopen o1 o2 p fd HR Hop) as (Hne & HR1 & Hfile).
  unfold follows, on_file, with_file, syscall. munfold.
  destruct (sys_open (translate_path p r2) O_WRONLY_CLOEXEC 438 o2) as [fd2 o2']. cbn [fst snd] in *.
  apply Z.eqb_neq in Hne. rewrite Hne. destruct (Hf o1 o2' fd fd2 HR1 Hfile) as [He HR2].
  destruct (Hret fd2 o2') as (r & o2'' & E2). rewrite E2 in *. cbn [fst snd] in *.
  pose proof (mi_close _ _ fd2 HR2) as HR3. destruct (sys_close fd2 o2'') as [? o3]. by split.
Qed.

Lemma follows_rename p q flags o1 o2 : mi_rel o1 o2 ->
  follows (xmp_rename (translate_path p r1) (translate_path q r1) flags)
    (xmp_rename (translate_path p r2) (translate_path q r2) flags) o1 o2.
Proof.
  intros HR. destruct (mi_renameat2 o1 o2 p q flags HR) as (He & _ & HR').
  unfold follows, xmp_rename, syscall. munfold. revert He HR'.
  destruct (sys_renameat2 _ _ _ o1), (sys_renameat2 _ _ _ o2). cbn. by intros -> ?.
Qed.

Lemma follows_write buf offset fd1 fd2 o1 o2 : mi_rel o1 o2 -> mi_file o1 o2 fd1 fd2 ->
  follows (xmp_write buf offset fd1) (xmp_write buf offset fd2) o1 o2.
Proof.
  intros HR Hf. destruct (mi_pwrite o1 o2 fd1 fd2 buf offset HR Hf) as (He & Herr & HR').
  unfold follows, xmp_write, syscall, neg_errno. munfold. revert He Herr HR'.
  destruct (sys_pwrite _ _ _ o1) as [x o1'], (sys_pwrite _ _ _ o2) as [y o2']. cbn. intros -> Herr HR'.
  destruct (y =? -1) eqn:Ey; [|done]. apply Z.eqb_eq in Ey. by rewrite (Herr Ey).
Qed.

Lemma follows_create p mode flags uid gid o1 o2 : mi_rel o1 o2 ->
  follows ('(res, _) ← xmp_create (translate_path p r1) mode flags uid gid; mret res)
    ('(res, fd) ← xmp_create (translate_path p r2) mode flags uid gid;
     _ ← (if fd =? -1 then mret 0 else syscall (sys_close fd)); mret res) o1 o2.
Proof.
  intros HR. destruct (mi_create o1 o2 p flags mode HR) as [HR1 Hc].
  unfold follows, xmp_create, xmp_chown, checked, syscall, neg_errno. munfold. revert HR1 Hc.
  destruct (sys_open _ _ _ o1) as [x o1'], (sys_open _ _ _ o2) as [y o2']. cbn [fst snd]. intros HR1 Hc.
  destruct Hc as [(-> & -> & He)|(Hx & Hy & Hf)]; [cbn; by rewrite He|]. apply Z.eqb_neq in Hx, Hy. rewrite Hx, Hy.
  destruct (mi_fchown o1' o2' x y uid gid HR1 Hf) as (He & Herr & HR2). revert He Herr HR2.
  destruct (sys_fchown _ _ _ o1') as [a o1''], (sys_fchown _ _ _ o2') as [b o2'']. cbn [fst snd]. intros -> Herr HR2.
  pose proof (mi_close o1'' o2'' y HR2) as HR3. revert HR3.
  destruct (b =? -1) eqn:Eb; cbn; [apply Z.eqb_eq in Eb; rewrite (Herr Eb)|]; rewrite Hy; by destruct (sys_close y o2'').
Qed.
End Mirror.
