(* ===== verification/Server.v ===== *)
(** * The server: [fsyncd/src/server/mod.rs]

    Every handler calls [pre_op] before it changes the backing store and
    [post_op] after: [pre_op] sends the call to the clients and journals it,
    [post_op] waits for the acknowledgements it asked for.

    The globals [SYNC_LIST], [CORK], [JOURNAL], [JOURNAL_TYPE] and
    [SERVER_PATH] are the fields of [Server]; the cells of the responses are
    beside them. [tid] is the number of the calling thread, [now] the clock. *)

From stdpp Require Import base list numbers option gmap.
From Stdlib Require Import ZArith Lia.
From S2P Require Import Prelude Common Filestore Store Entries Bilog Net.

Local Open Scope Z_scope.

Section Server.
Context {F : MsgFormat} {C : Compressor} {D : Digest}.
Context {FB : StoreFormat BilogEntry} {FV : StoreFormat VFSCall}.

Record Server := mk_Server {
  sv_corked : bool; sv_clients : list Client; sv_cells : cells;
  sv_journal : option Journal; sv_journal_type : JournalType; sv_path : path }.

Definition sv_set_clients (s : Server) (h : cells) (l : list Client) : Server :=
  mk_Server (sv_corked s) l h (sv_journal s) (sv_journal_type s) (sv_path s).
Definition sv_set_cells (s : Server) (h : cells) : Server := sv_set_clients s h (sv_clients s).
Definition sv_set_journal (s : Server) (j : Journal) : Server :=
  mk_Server (sv_corked s) (sv_clients s) (sv_cells s) (Some j) (sv_journal_type s) (sv_path s).
Definition sv_set_corked (s : Server) (b : bool) : Server :=
  mk_Server b (sv_clients s) (sv_cells s) (sv_journal s) (sv_journal_type s) (sv_path s).

(** What [pre_op] hands to [post_op]; a wait is the address of a response. *)
Record OpRef := mk_OpRef { op_ret : option Z; op_waits : list nat }.

(** ** Sending a call *)
Definition is_fsync (call : VFSCall) : bool :=
  match call with fsync _ _ => true | _ => false end.

(** Nothing for control connections, no flushes for asynchronous ones; else the
    message and whether it is acknowledged. *)
Definition op_message (mode : ClientMode) (call : VFSCall) (tid : Z) : option (FsyncerMsg * bool) :=
  if bool_decide (mode = MODE_CONTROL)
     || (is_fsync call && (bool_decide (mode = MODE_ASYNC) || bool_decide (mode = MODE_SEMISYNC)))
  then None
  else if bool_decide (mode = MODE_SYNC) || bool_decide (mode = MODE_SEMISYNC)
          || (bool_decide (mode = MODE_FLUSHSYNC) && is_fsync call)
  then Some (Msg_SyncOp call tid, true)
  else Some (Msg_AsyncOp call, false).

(** One round of the loop over the clients; an error is only printed. *)
Definition send_op (tid : Z) (call : VFSCall) (hc : cells * Client)
  : outcome (option nat) * (cells * Client) :=
  match op_message (cl_mode (snd hc)) call tid with
  | None => (Ok None, hc)
  | Some (msg, sync) =>
    match response_msg tid msg sync sync hc with
    | (Ok r, hc) => (Ok r, hc)
    | (Err _, hc) => (Ok None, hc)
    | r => r
    end
  end.

Fixpoint send_ops (tid : Z) (call : VFSCall) (h : cells) (l : list Client)
  : outcome (list nat) * (cells * list Client) :=
  match l with
  | [] => (Ok [], (h, []))
  | c :: l =>
    match send_op tid call (h, c) with
    | (Ok w, (h, c)) =>
      let '(r, (h, l)) := send_ops tid call h l in
      (match r with Ok ws => Ok (match w with Some a => a :: ws | None => ws end) | r => r end, (h, c :: l))
    | (Err e, (h, c)) => (Err e, (h, c :: l))
    | (Panic, (h, c)) => (Panic, (h, c :: l))
    | (NoFuel, (h, c)) => (NoFuel, (h, c :: l))
    end
  end.

(** ** Journalling a call

    Every [expect] of the source turns a failure into a panic. *)
Definition must_write {T} {FT : StoreFormat T} (now : Z) (e : T) (s : Server) (j : Journal)
  : outcome unit * Server :=
  match write_entry now e j with
  | (Ok _, j) => (Ok tt, sv_set_journal s j)
  | (NoFuel, j) => (NoFuel, sv_set_journal s j)
  | (_, j) => (Panic, sv_set_journal s j)
  end.

(** The result is [opref.ret]. *)
Definition journal_op (now : Z) (fv : fsview) (call : VFSCall) : M Server (option Z) := fun s =>
  match sv_journal s with
  | None => (Ok None, s)
  | Some j =>
    match sv_journal_type s with
    | JT_Bilog =>
      match bilog_try_from fv call (sv_path s) with
      | Ok bilog =>
        let ret := match bilog with BE_filestore _ _ => Some 0 | _ => None end in
        let '(r, s) := must_write now bilog s j in ((fun _ => ret) <$> r, s)
      | NoFuel => (NoFuel, s)
      | _ => (Panic, s)
      end
    | JT_Forward => let '(r, s) := must_write now call s j in ((fun _ => None) <$> r, s)
    | _ => (Panic, s)
    end
  end.

(** [pre_op]. A thread that finds the server corked waits; here that is
    [WouldBlock], with nothing done. *)
Definition pre_op (tid now : Z) (fv : fsview) (call : VFSCall) : M Server OpRef := fun s =>
  if sv_corked s then (Err WouldBlock, s)
  else
    match send_ops tid call (sv_cells s) (sv_clients s) with
    | (Ok waits, (h, l)) =>
      let '(r, s) := journal_op now fv call (sv_set_clients s h l) in
      ((fun ret => mk_OpRef ret waits) <$> r, s)
    | (Err e, (h, l)) => (Err e, sv_set_clients s h l)
    | (Panic, (h, l)) => (Panic, sv_set_clients s h l)
    | (NoFuel, (h, l)) => (NoFuel, sv_set_clients s h l)
    end.

(** [post_op]: whatever the clients answer, the result is the server's own. *)
Fixpoint wait_all (waits : list nat) : M cells (list (option ClientAck)) :=
  match waits with
  | [] => mret []
  | a :: waits => r ← wait a; rs ← wait_all waits; mret (r :: rs)
  end.

Definition post_op (opref : OpRef) (ret : Z) : M Server Z := fun s =>
  let '(r, h) := wait_all (op_waits opref) (sv_cells s) in ((fun _ => ret) <$> r, sv_set_cells s h).

(** The shape of every handler of [fuse_hl/write_unix.rs]: [act] is what it does
    to the backing store, which is skipped when [pre_op] has decided. Besides
    the result it may leave something behind, which is returned. *)
Definition handler_with {OS A : Type} (tid now : Z) (fv : fsview) (call : VFSCall) (act : M OS (Z * A))
  : M (Server * OS) (Z * option A) := fun '(s, os) =>
  match pre_op tid now fv call s with
  | (Ok opref, s) =>
    match op_ret opref with
    | Some r => (Ok (r, None), (s, os))
    | None =>
      match act os with
      | (Ok (res, a), os) =>
        let '(r, s) := post_op opref res s in ((fun r => (r, Some a)) <$> r, (s, os))
      | (Err e, os) => (Err e, (s, os))
      | (Panic, os) => (Panic, (s, os))
      | (NoFuel, os) => (NoFuel, (s, os))
      end
    end
  | (Err e, s) => (Err e, (s, os))
  | (Panic, s) => (Panic, (s, os))
  | (NoFuel, s) => (NoFuel, (s, os))
  end.

Definition handler {OS : Type} (tid now : Z) (fv : fsview) (call : VFSCall) (act : M OS Z)
  : M (Server * OS) Z :=
  '(r, _) ← handler_with tid now fv call (res ← act; mret (res, tt)); mret r.

(** ** Corking

    [answer] is what the reader thread of this client receives while the
    corking thread waits; [answers] has one per client. *)
Definition cork_client (tid : Z) (answer : list Z) : M (cells * Client) unit := fun '(h, c) =>
  let control := bool_decide (cl_mode c = MODE_CONTROL) in
  match response_msg tid (Msg_Cork tid) true (negb control) (h, c) with
  | (Ok resp, (h, c)) =>
    if control then (Ok tt, (h, c))
    else
      let '(_, (h, c)) := reader (S (length answer)) false answer (h, c) in
      match resp with
      | Some a =>
        match wait a h with
        | (Ok (Some _), h) => (Ok tt, (h, c))
        | (_, h) => (Panic, (h, c))
        end
      | None => (Panic, (h, c))
      end
  | (Err e, hc) => (Err e, hc)
  | (Panic, hc) => (Panic, hc)
  | (NoFuel, hc) => (NoFuel, hc)
  end.

(** The loop of [cork_server]: errors are printed, a panic ends the thread. *)
Fixpoint cork_clients (tid : Z) (h : cells) (l : list (Client * list Z))
  : outcome unit * (cells * list Client) :=
  match l with
  | [] => (Ok tt, (h, []))
  | (c, answer) :: l =>
    match cork_client tid answer (h, c) with
    | (Panic, (h, c)) => (Panic, (h, c :: (fst <$> l)))
    | (NoFuel, (h, c)) => (NoFuel, (h, c :: (fst <$> l)))
    | (_, (h, c)) => let '(r, (h, l)) := cork_clients tid h l in (r, (h, c :: l))
    end
  end.

Definition cork_server (tid : Z) (answers : list (list Z)) : M Server unit := fun s =>
  let s := sv_set_corked s true in
  let '(r, (h, l)) := cork_clients tid (sv_cells s) (imap (fun i c => (c, default [] (answers !! i))) (sv_clients s)) in
  (r, sv_set_clients s h l).

Fixpoint uncork_clients (tid : Z) (h : cells) (l : list Client) : cells * list Client :=
  match l with
  | [] => (h, [])
  | c :: l =>
    let '(_, (h, c)) := client_uncork tid (h, c) in
    let '(h, l) := uncork_clients tid h l in (h, c :: l)
  end.

Definition uncork_server (tid : Z) : M Server unit := fun s =>
  let '(h, l) := uncork_clients tid (sv_cells s) (sv_clients s) in
  (Ok tt, sv_set_corked (sv_set_clients s h l) false).

(** One round of [harvester_thread] and of [flush_thread]. *)
Definition harvest (s : Server) : Server :=
  let dead := List.filter (fun c => bool_decide (cl_status c = DEAD)) (sv_clients s) in
  sv_set_clients s (foldl client_drop (sv_cells s) dead)
    (List.filter (fun c => negb (bool_decide (cl_status c = DEAD))) (sv_clients s)).

Fixpoint flush_clients (tid : Z) (h : cells) (l : list Client) : cells * list Client :=
  match l with
  | [] => (h, [])
  | c :: l =>
    let '(h, c) := if bool_decide (cl_mode c = MODE_ASYNC)
                   then snd (client_flush tid (h, c)) else (h, c) in
    let '(h, l) := flush_clients tid h l in (h, c :: l)
  end.

(** ** Opening the journal *)

(** [open_journal]: [existing] is the file at the path, if there is one. *)
Definition open_journal {T} {FT : StoreFormat T} (existing : option file) (c : JournalConfig) (now : Z)
  (st : outcome FileStore) : outcome Journal :=
  match existing with
  | Some f =>
    if f_len f <? c_journal_size c then Panic
    else Journal_open (set_len f (c_journal_size c)) c now st
  | None => Journal_new (set_len (mk_file 0 (fun _ => 0) 0) (c_journal_size c)) c now st
  end.

End Server.
