(* ===== verification/Handlers.v ===== *)
(** * The server's handlers: [fsyncd/src/fuse_hl/write_unix.rs]

    One definition per callback that changes the file system. [uid] and [gid] are
    those of [fuse_get_context], [fi] is the handle [fi.fh] when [fi] is not
    null. The handlers are run for the thread [tid] with the clock [now] and the
    view [fv] of the backing store that the journal takes. *)

From stdpp Require Import base list numbers option gmap.
From Stdlib Require Import ZArith Lia.
From S2P Require Import Prelude Common Filestore Store Entries Bilog Net Ops Server.

Local Open Scope Z_scope.

Section Handlers.
Context {F : MsgFormat} {C : Compressor} {D : Digest}.
Context {FB : StoreFormat BilogEntry} {FV : StoreFormat VFSCall}.
Context {OS : Type} {Sys : Syscalls OS}.
Context (tid now : Z) (fv : fsview).

Definition do_mknod (p : path) (mode rdev uid gid : Z) : M (Server * OS) Z := fun '(s, os) =>
  let real_path := translate_path p (sv_path s) in
  handler tid now fv (mknod p mode rdev (Unix uid gid)) (xmp_mknod real_path mode rdev uid gid) (s, os).

Definition do_mkdir (p : path) (mode uid gid : Z) : M (Server * OS) Z := fun '(s, os) =>
  let real_path := translate_path p (sv_path s) in
  handler tid now fv (mkdir p (Unix uid gid) mode) (xmp_mkdir real_path mode uid gid) (s, os).

Definition do_unlink (p : path) : M (Server * OS) Z := fun '(s, os) =>
  let real_path := translate_path p (sv_path s) in
  handler tid now fv (unlink p) (xmp_unlink real_path) (s, os).

Definition do_rmdir (p : path) : M (Server * OS) Z := fun '(s, os) =>
  let real_path := translate_path p (sv_path s) in
  handler tid now fv (rmdir p) (xmp_rmdir real_path) (s, os).

Definition do_symlink (from to : path) (uid gid : Z) : M (Server * OS) Z := fun '(s, os) =>
  let real_to := translate_path to (sv_path s) in
  handler tid now fv (symlink from to (Unix uid gid)) (xmp_symlink from real_to uid gid) (s, os).

Definition do_rename (from to : path) (flags : Z) : M (Server * OS) Z := fun '(s, os) =>
  let real_from := translate_path from (sv_path s) in
  let real_to := translate_path to (sv_path s) in
  handler tid now fv (rename from to flags) (xmp_rename real_from real_to flags) (s, os).

Definition do_link (from to : path) (uid gid : Z) : M (Server * OS) Z := fun '(s, os) =>
  let real_from := translate_path from (sv_path s) in
  let real_to := translate_path to (sv_path s) in
  handler tid now fv (link from to (Unix uid gid)) (xmp_link real_from real_to uid gid) (s, os).

(** [Either::Left(real_path)] when [fi] is null. *)
Definition target (p : path) (s : Server) (fi : option Z) : path_or_fd :=
  match fi with None => inl (translate_path p (sv_path s)) | Some fh => inr (i32 fh) end.

Definition do_chmod (p : path) (mode : Z) (fi : option Z) : M (Server * OS) Z := fun '(s, os) =>
  handler tid now fv (chmod p mode) (xmp_chmod (target p s fi) mode) (s, os).

Definition do_chown (p : path) (uid gid : Z) (fi : option Z) : M (Server * OS) Z := fun '(s, os) =>
  handler tid now fv (security p (Unix uid gid)) (xmp_chown (target p s fi) uid gid) (s, os).

Definition do_truncate (p : path) (size : Z) (fi : option Z) : M (Server * OS) Z := fun '(s, os) =>
  handler tid now fv (truncate p size) (xmp_truncate (target p s fi) size) (s, os).

(** [assert!(!fi.is_null)], after [pre_op]. *)
Definition with_fi (fi : option Z) (f : Z -> M OS Z) : M OS Z :=
  match fi with Some fh => f (i32 fh) | None => panic end.

(** *** [do_write] *)
Fixpoint leading_zeroes (l : list Z) : nat :=
  match l with 0 :: l => S (leading_zeroes l) | _ => O end.

(** The call and the buffer after it, which [xor_buf] changes in place; [old] is
    the result of reading the range from the file. *)
Definition diff_call (p : path) (buf : list Z) (offset : Z) (old : Z + list Z)
  : outcome (VFSCall * list Z) :=
  match old with
  | inl _ | inr [] => Ok (write p offset buf, buf)
  | inr old =>
    let diff_len := length old in
    if Nat.ltb (length buf) diff_len then Panic
    else
      let buf := xor_prefix buf old in
      let leading := leading_zeroes buf in
      let trailing := if Nat.eqb diff_len (length buf) then leading_zeroes (rev buf) else O in
      if Nat.ltb (length buf - trailing) leading then Panic
      else Ok (diff_write p (offset + Z.of_nat leading)
                 (take (length buf - trailing - leading) (drop leading buf)), buf)
  end.

Definition do_write (diff_writes : bool) (p : path) (buf : list Z) (offset : Z) (fi : option Z)
  : M (Server * OS) Z := fun '(s, os) =>
  let '(r, os) :=
    if diff_writes then
      match fi with
      | Some fh => let '(old, os) := sys_pread (i32 fh) (zlen buf) offset os in (diff_call p buf offset old, os)
      | None => (Panic, os)
      end
    else (Ok (write p offset buf, buf), os) in
  match r with
  | Ok (call, buf) => handler tid now fv call (with_fi fi (xmp_write buf offset)) (s, os)
  | Err e => (Err e, (s, os))
  | Panic => (Panic, (s, os))
  | NoFuel => (NoFuel, (s, os))
  end.

Definition do_fallocate (p : path) (mode offset length : Z) (fi : option Z) : M (Server * OS) Z := fun '(s, os) =>
  handler tid now fv (fallocate p mode offset length) (with_fi fi (xmp_fallocate mode offset length)) (s, os).

Definition do_setxattr (p : path) (name value : list Z) (flags : Z) : M (Server * OS) Z := fun '(s, os) =>
  let real_path := translate_path p (sv_path s) in
  handler tid now fv (setxattr p name value flags) (xmp_setxattr (inl real_path) name value flags) (s, os).

Definition do_removexattr (p : path) (name : list Z) : M (Server * OS) Z := fun '(s, os) =>
  let real_path := translate_path p (sv_path s) in
  handler tid now fv (removexattr p name) (xmp_removexattr (inl real_path) name) (s, os).

(** Also returns the new [fi.fh]. [flags] is [fi.flags]; a null [fi] is
    refused by an assertion before anything is done. *)
Definition do_create (p : path) (mode flags uid gid : Z) : M (Server * OS) (Z * option Z) := fun '(s, os) =>
  let real_path := translate_path p (sv_path s) in
  handler_with tid now fv (create p flags (Unix uid gid) mode)
    ('(res, fd) ← xmp_create real_path mode flags uid gid; mret (res, u64 fd)) (s, os).

Definition do_utimens (p : path) (t0 t1 : Timespec) (fi : option Z) : M (Server * OS) Z := fun '(s, os) =>
  handler tid now fv (utimens p (t0, t1, mk_Timespec 0 0)) (xmp_utimens (target p s fi) (t0, t1)) (s, os).

Definition do_fsync (p : path) (isdatasync : Z) (fi : option Z) : M (Server * OS) Z := fun '(s, os) =>
  handler tid now fv (fsync p isdatasync) (with_fi fi (xmp_fsync isdatasync)) (s, os).

End Handlers.
