(* ===== verification/ServerSpec.v ===== *)
(** * Operations and answers

    What [pre_op] sends to each client, what a run of operations amounts to, and
    what the reader makes of the answers. *)

From stdpp Require Import base list numbers option gmap.
From Stdlib Require Import ZArith Lia.
From S2P Require Import Prelude Common Filestore Store Entries Bilog Net NetSpec Server.

Local Open Scope Z_scope.

Section ServerSpec.
Context {F : MsgFormat} {L : MsgFormatLaws} {C : Compressor} {D : Digest}.
Context {FB : StoreFormat BilogEntry} {FV : StoreFormat VFSCall}.

(** ** What [pre_op] sends *)

(** The messages a client gets for a call. *)
Definition op_msgs (c : Client) (call : VFSCall) (tid : Z) : list FsyncerMsg :=
  match op_message (cl_mode c) call tid with
  | None => []
  | Some (m, sync) => flushed c sync m
  end.

Definition op_ok (tid : Z) (call : VFSCall) : Prop :=
  sendable (Msg_SyncOp call tid) /\ sendable (Msg_AsyncOp call) /\ sendable Msg_NOP.

(** The state of a connection after some messages: the same but for what was
    written and who is parked. *)
Definition got (c c' : Client) (l : list FsyncerMsg) : Prop :=
  open_client c' /\ cl_mode c' = cl_mode c /\ cl_comp c' = cl_comp c /\
  st_out (cl_write c') = st_out (cl_write c) ++ frames l.

Lemma got_trans c c1 c2 l1 l2 : got c c1 l1 -> got c1 c2 l2 -> got c c2 (l1 ++ l2).
Proof.
  intros (_ & Hm & Hc & Ho) (Hopen & Hm' & Hc' & Ho'). split_and!; [done|congruence|congruence|].
  by rewrite Ho', Ho, frames_app, app_assoc.
Qed.

Lemma send_op_total tid call hc : exists w hc', send_op tid call hc = (Ok w, hc').
Proof.
  unfold send_op. destruct (op_message _ _ _) as [[m sync]|]; [|eauto].
  destruct (response_msg_outcome tid m sync sync hc) as (hc' & [(r & ->)|(e & ->)]); eauto.
Qed.

Lemma send_op_got tid call h c w h' c' :
  send_op tid call (h, c) = (Ok w, (h', c')) -> open_client c -> op_ok tid call ->
  got c c' (op_msgs c call tid).
Proof.
  intros E Ho ([_ Hs] & [_ Ha] & [_ Hn]). unfold send_op in E. cbn [snd] in E. unfold op_msgs.
  destruct (op_message (cl_mode c) call tid) as [[m sync]|] eqn:Em.
  2: { inv E. split_and!; try done. cbn. by rewrite app_nil_r. }
  assert (small m) as Hm.
  { unfold op_message in Em. repeat case_match; by inv Em. }
  destruct sync.
  - destruct (park_total tid h c) as (a & h1 & c1 & Hp).
    rewrite (response_msg_wait tid m true h c a h1 c1 Ho Hm Hn Hp) in E. inv E.
    destruct (park_open _ _ _ _ _ _ Hp Ho) as (Ho1 & Hw & Hc & Hmode & _).
    split_and!; try apply open_sent; try done. cbn. by rewrite Hw.
  - rewrite (response_msg_ok tid m false h c Ho Hm Hn) in E. inv E.
    split_and!; try apply open_sent; try done.
Qed.

Lemma send_ops_got tid call l : forall h,
  exists ws h' l', send_ops tid call h l = (Ok ws, (h', l')) /\
    forall i c, l !! i = Some c -> open_client c -> op_ok tid call ->
      exists c', l' !! i = Some c' /\ got c c' (op_msgs c call tid).
Proof.
  induction l as [|c l IH]; intros h; [by eexists _, _, _|]. cbn [send_ops].
  destruct (send_op_total tid call (h, c)) as (w & [h1 c1] & E1). rewrite E1.
  destruct (IH h1) as (ws & h2 & l2 & -> & Hl). eexists _, _, _. split; [reflexivity|].
  intros [|i] c0 Hi Ho Hok; cbn in Hi |- *; [|by apply Hl].
  injection Hi as <-. exists c1. split; [done|]. by apply (send_op_got tid call h c w h1).
Qed.

Lemma journal_op_keeps now fv call s r s' :
  journal_op now fv call s = (r, s') -> sv_clients s' = sv_clients s /\ sv_corked s' = sv_corked s.
Proof.
  unfold journal_op, must_write. intros E. repeat (case_match; simplify_eq); done.
Qed.

Lemma pre_op_got tid now fv call s opref s' :
  pre_op tid now fv call s = (Ok opref, s') ->
  sv_corked s' = sv_corked s /\
  forall i c, sv_clients s !! i = Some c -> open_client c -> op_ok tid call ->
    exists c', sv_clients s' !! i = Some c' /\ got c c' (op_msgs c call tid).
Proof.
  intros E. unfold pre_op in E. destruct (sv_corked s) eqn:Ec; [done|].
  destruct (send_ops_got tid call (sv_clients s) (sv_cells s)) as (ws & h' & l' & Es & Hl). rewrite Es in E.
  destruct (journal_op now fv call (sv_set_clients s h' l')) as [r s1] eqn:Ej. inv E.
  destruct (journal_op_keeps _ _ _ _ _ _ Ej) as [-> ->]. by split.
Qed.

(** A run of operations of any threads. *)
Record op := mk_op { o_tid : Z; o_now : Z; o_view : fsview; o_call : VFSCall }.

Fixpoint run_ops (l : list op) : M Server unit :=
  match l with
  | [] => mret tt
  | o :: l => _ ← pre_op (o_tid o) (o_now o) (o_view o) (o_call o); run_ops l
  end.

(** The calls of a run that are meant for a client of this mode. *)
Definition reaches (mode : ClientMode) (call : VFSCall) : bool :=
  match mode with
  | MODE_CONTROL => false
  | MODE_ASYNC | MODE_SEMISYNC => negb (is_fsync call)
  | MODE_SYNC | MODE_FLUSHSYNC => true
  end.

Lemma op_msgs_calls c call tid :
  op_msgs c call tid ≫= msg_call = if reaches (cl_mode c) call then [call] else [].
Proof.
  unfold op_msgs, op_message, reaches, flushed.
  destruct (cl_mode c), (is_fsync call);
    repeat first [rewrite bool_decide_true by done | rewrite bool_decide_false by done]; cbn;
    try done; by destruct (flags_intersects _ _).
Qed.

Lemma op_msgs_sendable c call tid : op_ok tid call -> Forall sendable (op_msgs c call tid).
Proof.
  intros (Hs & Ha & Hn). unfold op_msgs, flushed, op_message.
  repeat case_match; simplify_eq; repeat first [apply Forall_nil_2 | apply Forall_cons_2]; done.
Qed.

(** What a client is sent for a run. *)
Definition run_msgs (c : Client) (ops : list op) : list FsyncerMsg :=
  ops ≫= fun o => op_msgs c (o_call o) (o_tid o).

Definition run_ok (ops : list op) : Prop := Forall (fun o => op_ok (o_tid o) (o_call o)) ops.

Lemma op_msgs_got c c' l call tid : got c c' l -> op_msgs c' call tid = op_msgs c call tid.
Proof. intros (_ & Hm & Hc & _). unfold op_msgs, flushed. by rewrite Hm, Hc. Qed.

Lemma run_msgs_got c c' l ops : got c c' l -> run_msgs c' ops = run_msgs c ops.
Proof. intros Hg. apply list_bind_ext; [|done]. intros o. by eapply op_msgs_got. Qed.

Lemma run_msgs_calls c ops :
  run_msgs c ops ≫= msg_call = List.filter (reaches (cl_mode c)) (o_call <$> ops).
Proof.
  unfold run_msgs. induction ops as [|o ops IH]; [done|].
  rewrite bind_cons, bind_app, op_msgs_calls, IH. cbn. by destruct (reaches _ _).
Qed.

Lemma run_msgs_sendable c ops : run_ok ops -> Forall sendable (run_msgs c ops).
Proof.
  unfold run_ok. induction ops as [|o ops IH]; intros Hok; [apply Forall_nil_2|].
  apply Forall_cons in Hok as [Ho Hok]. unfold run_msgs. rewrite bind_cons. apply Forall_app.
  split; [by apply op_msgs_sendable|by apply IH].
Qed.

Lemma got_refl c : open_client c -> got c c [].
Proof. intros Ho. split_and!; try done; try apply Ho. cbn. by rewrite app_nil_r. Qed.

Lemma run_ops_got ops : forall s s' i c,
  run_ops ops s = (Ok tt, s') -> run_ok ops -> sv_clients s !! i = Some c -> open_client c ->
  exists c', sv_clients s' !! i = Some c' /\ got c c' (run_msgs c ops).
Proof.
  induction ops as [|o ops IH]; intros s s' i c E Hok Hi Ho.
  { inv E. exists c. split; [done|by apply got_refl]. }
  apply Forall_cons in Hok as [Ho1 Hok]. cbn [run_ops] in E. unfold mbind, M_bind in E.
  destruct (pre_op _ _ _ _ s) as [[opref| | |] s1] eqn:E1; try done.
  destruct (pre_op_got _ _ _ _ _ _ _ E1) as [_ Hg]. destruct (Hg i c Hi Ho Ho1) as (c1 & Hi1 & Hg1).
  destruct (IH s1 s' i c1 E Hok Hi1 ltac:(apply Hg1)) as (c' & Hi' & Hg').
  exists c'. split; [done|]. rewrite (run_msgs_got c c1 _ ops Hg1) in Hg'. unfold run_msgs. rewrite bind_cons.
  by eapply got_trans.
Qed.

Lemma send_ops_length tid call l : forall h r h' l', send_ops tid call h l = (r, (h', l')) -> length l' = length l.
Proof.
  induction l as [|c l IH]; intros h r h' l' E; [by inv E|]. cbn [send_ops] in E.
  destruct (send_op tid call (h, c)) as [[w| | |] [h1 c1]]; try (by inv E).
  destruct (send_ops tid call h1 l) as [r2 [h2 l2]] eqn:E2. inv E. cbn. by rewrite (IH _ _ _ _ E2).
Qed.

Lemma run_ops_length ops : forall s r s', run_ops ops s = (r, s') -> length (sv_clients s') = length (sv_clients s).
Proof.
  induction ops as [|o ops IH]; intros s r s' E; [by inv E|]. cbn [run_ops] in E. unfold mbind, M_bind in E.
  destruct (pre_op _ _ _ _ s) as [r1 s1] eqn:E1.
  assert (length (sv_clients s1) = length (sv_clients s)) as <-.
  { unfold pre_op in E1. destruct (sv_corked s); [by inv E1|].
    destruct (send_ops _ _ _ _) as [r2 [h2 l2]] eqn:E2. apply send_ops_length in E2.
    destruct r2; try (by inv E1). destruct (journal_op _ _ _ _) as [r3 s3] eqn:E3. inv E1.
    by rewrite (proj1 (journal_op_keeps _ _ _ _ _ _ E3)). }
  destruct r1; [by eapply IH|by inv E..].
Qed.

Lemma frames_length l : (length l <= length (frames l))%nat.
Proof.
  induction l as [|m l IH]; [done|]. unfold frames in *. rewrite bind_cons, length_app.
  unfold frame at 1. rewrite length_app, length_be32. cbn. lia.
Qed.

(** ** Acknowledgements *)

Lemma park_cell tid h c a h' c' :
  park tid (h, c) = (Ok a, (h', c')) -> (forall b, cl_parked c !! tid = Some b -> h !! b = Some None) ->
  h' !! a = Some None.
Proof.
  unfold park, ClientResponse_new. intros E Hc. destruct (cl_parked c !! tid) eqn:Ep; inv E; [by apply Hc|].
  by rewrite list_lookup_middle.
Qed.

(** ** Cells

    A client owns the cells of the threads parked on it. What is done to one
    connection keeps the cells it owns and at most adds new ones. *)
Definition owned (c : Client) : list nat := (map_to_list (cl_parked c)).*2.

Definition parked_ok (h : cells) (c : Client) : Prop := Forall (fun a => a < length h)%nat (owned c).

Definition fresh (h h' : cells) (new : list nat) : Prop :=
  NoDup new /\ Forall (fun a => length h <= a < length h')%nat new.

Definition cells_step (h : cells) (old : list nat) (h' : cells) (new : list nat) : Prop :=
  (length h <= length h')%nat /\ exists added, new ≡ₚ old ++ added /\ fresh h h' added.

Definition conn_step (h : cells) (c : Client) (h' : cells) (c' : Client) : Prop :=
  cells_step h (owned c) h' (owned c').

Lemma elem_of_owned c a : a ∈ owned c <-> exists tid, cl_parked c !! tid = Some a.
Proof.
  unfold owned. rewrite list_elem_of_fmap. split.
  - intros ([t b] & -> & Hin). exists t. by apply elem_of_map_to_list in Hin.
  - intros (t & Ht). exists (t, a). split; [done|]. by apply elem_of_map_to_list.
Qed.

Lemma parked_ok_lookup h c tid a : parked_ok h c -> cl_parked c !! tid = Some a -> (a < length h)%nat.
Proof. unfold parked_ok. rewrite Forall_forall. intros H Ht. apply H, elem_of_owned. by exists tid. Qed.

Lemma cells_step_same h h' l : (length h <= length h')%nat -> cells_step h l h' l.
Proof. intros Hl. split; [done|]. exists []. rewrite app_nil_r. split; [done|]. split; [apply NoDup_nil_2|apply Forall_nil_2]. Qed.

Lemma conn_step_parked h h' c c' :
  cl_parked c' = cl_parked c -> (length h <= length h')%nat -> conn_step h c h' c'.
Proof. intros Hp Hl. unfold conn_step, owned. rewrite Hp. by apply cells_step_same. Qed.

Lemma cells_step_trans h1 l1 h2 l2 h3 l3 :
  cells_step h1 l1 h2 l2 -> cells_step h2 l2 h3 l3 -> cells_step h1 l1 h3 l3.
Proof.
  intros (Ha & n1 & Hp1 & Hn1 & Hf1) (Hb & n2 & Hp2 & Hn2 & Hf2). split; [lia|].
  exists (n1 ++ n2). rewrite Hp2, Hp1, <- app_assoc. split; [done|]. rewrite Forall_forall in Hf1, Hf2. split.
  - apply NoDup_app. split_and!; [done| |done]. intros x H1 H2. specialize (Hf1 x H1). specialize (Hf2 x H2). lia.
  - apply Forall_app. split; apply Forall_forall; intros x Hx; [specialize (Hf1 x Hx)|specialize (Hf2 x Hx)]; lia.
Qed.

Lemma cells_step_bound h l h' l' :
  cells_step h l h' l' -> Forall (fun a => a < length h)%nat l -> Forall (fun a => a < length h')%nat l'.
Proof.
  intros (Hl & n & Hp & _ & Hf) Hok. rewrite Hp. apply Forall_app. split.
  - eapply Forall_impl; [exact Hok|]. intros. cbn in *. lia.
  - eapply Forall_impl; [exact Hf|]. intros. cbn in *. lia.
Qed.

(** Two steps one after the other on different connections. *)
Lemma cells_step_app h1 l1 h2 l1' l2 h3 l2' :
  cells_step h1 l1 h2 l1' -> cells_step h2 l2 h3 l2' -> cells_step h1 (l1 ++ l2) h3 (l1' ++ l2').
Proof.
  intros (Ha & n1 & Hp1 & Hf1) (Hb & n2 & Hp2 & Hf2).
  apply (cells_step_trans _ _ h2 (l1' ++ l2)).
  - split; [done|]. exists n1. split; [|done]. rewrite Hp1. solve_Permutation.
  - split; [done|]. exists n2. split; [|done]. rewrite Hp2. solve_Permutation.
Qed.

Lemma park_step tid h c a h' c' : park tid (h, c) = (Ok a, (h', c')) -> conn_step h c h' c'.
Proof.
  unfold park, ClientResponse_new. intros E. destruct (cl_parked c !! tid) as [b|] eqn:Ep; inv E.
  { by apply conn_step_parked. }
  unfold conn_step, cells_step. rewrite length_app. cbn. split; [lia|]. exists [length h]. split; [|split].
  - unfold owned. cbn. rewrite map_to_list_insert by done. cbn. solve_Permutation.
  - apply NoDup_singleton.
  - rewrite Forall_singleton, length_app. cbn. lia.
Qed.

Lemma write_frame_parked l z c : cl_parked (snd (write_frame l z c)) = cl_parked c.
Proof.
  unfold write_frame. destruct (cl_rt_comp c) as [st|]; [destruct (comp_encode st l)|];
    match goal with |- context [mbind ?f ?m ?w] => by destruct (mbind f m w) end.
Qed.

Lemma inner_parked l z flush comp c : cl_parked (snd (inner l z flush comp c)) = cl_parked c.
Proof.
  unfold inner, mbind, M_bind. pose proof (write_frame_parked l z c) as H1.
  destruct (write_frame l z c) as [[] c1]; cbn [snd] in *; try done.
  destruct flush; [|done]. rewrite flush_write_id. destruct comp; [|done].
  pose proof (write_frame_parked (ser_msg Msg_NOP) (zlen (ser_msg Msg_NOP)) c1) as H2.
  destruct (write_frame _ _ c1) as [[] c2]; cbn [snd] in *; try congruence.
  rewrite flush_write_id. cbn. congruence.
Qed.

Lemma response_msg_step tid m flush want h c r h' c' :
  response_msg tid m flush want (h, c) = (r, (h', c')) -> conn_step h c h' c'.
Proof.
  unfold response_msg. intros E. case_bool_decide; [inv E; by apply conn_step_parked|].
  destruct (park_total tid h c) as (a & h1 & c1 & Hp). rewrite Hp in E. pose proof (park_step _ _ _ _ _ _ Hp) as Hs.
  destruct want;
    match type of E with context [inner ?l ?z ?f ?b ?c0] =>
      pose proof (inner_parked l z f b c0) as Hi; destruct (inner l z f b c0) as [[] c2] end;
    cbn [snd] in Hi; inv E;
    first [by apply conn_step_parked
          |eapply cells_step_trans; [exact Hs|]; by apply conn_step_parked].
Qed.

Lemma send_op_step tid call h c r h' c' :
  send_op tid call (h, c) = (r, (h', c')) -> conn_step h c h' c'.
Proof.
  unfold send_op. cbn [snd]. intros E.
  destruct (op_message _ _ _) as [[m sync]|]; [|inv E; by apply conn_step_parked].
  destruct (response_msg tid m sync sync (h, c)) as [r0 [h0 c0]] eqn:Er.
  pose proof (response_msg_step _ _ _ _ _ _ _ _ _ Er). by destruct r0; inv E.
Qed.

Lemma send_ops_step tid call l : forall h r h' l',
  send_ops tid call h l = (r, (h', l')) -> cells_step h (l ≫= owned) h' (l' ≫= owned).
Proof.
  induction l as [|c l IH]; intros h r h' l' E; [inv E; by apply cells_step_same|]. cbn [send_ops] in E.
  destruct (send_op_total tid call (h, c)) as (w & [h1 c1] & E1). rewrite E1 in E.
  pose proof (send_op_step _ _ _ _ _ _ _ E1) as Hc.
  destruct (send_ops tid call h1 l) as [r2 [h2 l2]] eqn:E2. pose proof (IH h1 r2 h2 l2 E2) as Hl.
  destruct r2; inv E; rewrite !bind_cons; by eapply cells_step_app.
Qed.

(** *** What the reader makes of answers *)
Definition is_answer (m : FsyncerMsg) : Prop :=
  match m with Msg_Ack _ | Msg_AckCork _ => True | _ => False end.

Lemma handle_answers {FS} (dispatch : VFSCall -> FS -> Z * FS) mode l : forall fs,
  Forall is_answer (snd (handle_all dispatch mode l fs)).
Proof.
  induction l as [|m l IH]; intros fs; [apply Forall_nil_2|]. cbn [handle_all].
  assert (Forall is_answer (snd (handle dispatch mode m fs))) as Hm.
  { destruct m; cbn; repeat case_match; repeat first [apply Forall_nil_2 | apply Forall_cons_2]; done. }
  destruct (handle dispatch mode m fs) as [fs1 a]. pose proof (IH fs1) as Hl.
  destruct (handle_all dispatch mode l fs1) as [fs2 b]. by apply Forall_app.
Qed.

(** The reader leaves the connection alone but for the parked threads, none of
    which it takes away. *)
Definition same_conn (c c' : Client) : Prop :=
  c' = cl_set_parked c (cl_parked c') /\
  forall tid a, cl_parked c !! tid = Some a -> cl_parked c' !! tid = Some a.

Lemma same_conn_refl c : same_conn c c.
Proof. split; [by destruct c|done]. Qed.

Lemma same_conn_trans c c1 c2 : same_conn c c1 -> same_conn c1 c2 -> same_conn c c2.
Proof. intros [-> H1] [-> H2]. split; [done|]. intros. by apply H2, H1. Qed.

Lemma park_same tid h c a h' c' :
  park tid (h, c) = (Ok a, (h', c')) -> same_conn c c' /\ cl_parked c' !! tid = Some a.
Proof.
  unfold park, ClientResponse_new. intros E. destruct (cl_parked c !! tid) as [b|] eqn:Ep; inv E.
  { split; [apply same_conn_refl|done]. }
  cbn. rewrite lookup_insert_eq. split; [|done]. split; [done|]. cbn. intros t b Hb.
  rewrite lookup_insert_ne; [done|]. congruence.
Qed.

Lemma notify_step h a d c : conn_step h c (notify h a d) c.
Proof. apply conn_step_parked; [done|]. unfold notify. by rewrite length_insert. Qed.

Lemma reader_msg_step m h c r h' c' :
  reader_msg m (h, c) = (r, (h', c')) -> conn_step h c h' c'.
Proof.
  unfold reader_msg. intros E.
  destruct m as [[ | | |[code tid]| |tid| | ]|]; try (inv E; by apply conn_step_parked).
  - destruct (park_total tid h c) as (a & h1 & c1 & Hp). rewrite Hp in E. pose proof (park_step _ _ _ _ _ _ Hp) as Hs.
    destruct (cl_parked c1 !! tid); inv E; [|done]. eapply cells_step_trans; [exact Hs|apply notify_step].
  - destruct (cl_parked c !! tid); inv E; [apply notify_step|by apply conn_step_parked].
Qed.

Lemma reader_msg_answer m h c :
  is_answer m ->
  exists h' c', reader_msg (Some m) (h, c) = (Ok ReaderGoesOn, (h', c')) /\ same_conn c c'.
Proof.
  intros Hm. destruct m as [ | | |[code tid]| |tid| | ]; try done; unfold reader_msg.
  - destruct (park_total tid h c) as (a & h1 & c1 & Hp). rewrite Hp.
    destruct (park_same _ _ _ _ _ _ Hp) as [Hs ->]. by eexists _, _.
  - destruct (cl_parked c !! tid) as [a|]; eexists _, _; (split; [reflexivity|]); apply same_conn_refl.
Qed.

Lemma reader_next fuel m l hc :
  msg_ok m -> reader (S fuel) false (ser_msg m ++ l) hc =
    (act ← reader_msg (Some m);
     match act with ReaderGoesOn => reader fuel false l | act => mret (act, l) end) hc.
Proof.
  intros Hm. cbn [reader]. rewrite bool_decide_false.
  - cbn [andb]. by rewrite law_msg.
  - pose proof (law_msg_tag m) as Ht. intros H. apply app_eq_nil in H as [H _]. rewrite H in Ht. cbn in Ht. lia.
Qed.

Lemma reader_answers l : forall fuel rest h c,
  Forall is_answer l -> Forall msg_ok l ->
  exists h' c', reader (length l + fuel) false ((l ≫= ser_msg) ++ rest) (h, c) = reader fuel false rest (h', c') /\
    conn_step h c h' c' /\ same_conn c c'.
Proof.
  induction l as [|m l IH]; intros fuel rest h c Ha Hm.
  { eexists _, _. split; [reflexivity|]. split; [by apply conn_step_parked|apply same_conn_refl]. }
  apply Forall_cons in Ha as [Ha Hal]. apply Forall_cons in Hm as [Hm Hml].
  destruct (reader_msg_answer m h c Ha) as (h1 & c1 & E1 & Hs1).
  destruct (IH fuel rest h1 c1 Hal Hml) as (h2 & c2 & E2 & Hst2 & Hs2).
  exists h2, c2. split_and!; [| |by eapply same_conn_trans].
  - rewrite bind_cons, <- app_assoc. cbn [length Nat.add]. rewrite reader_next by done.
    unfold mbind, M_bind. by rewrite E1.
  - eapply cells_step_trans; [by eapply reader_msg_step|exact Hst2].
Qed.

(** The last of the answers is what the thread it is for finds in its cell. *)
Lemma reader_last l d tid m fuel a h c :
  Forall is_answer l -> Forall msg_ok (l ++ [m]) -> parked_ok h c -> cl_parked c !! tid = Some a ->
  (m = Msg_AckCork tid /\ d = Ack \/ m = Msg_Ack (mk_AckMsg d tid)) -> (S (length l) < fuel)%nat ->
  exists h' c', reader fuel false ((l ++ [m]) ≫= ser_msg) (h, c) = (Ok (ReaderGoesOn, []), (h', c')) /\
    h' !! a = Some (Some d) /\ same_conn c c'.
Proof.
  intros Ha Hm Hok Hp Hd Hf. apply Forall_app in Hm as [Hml Hm]. apply Forall_cons in Hm as [Hm _].
  replace fuel with (length l + S (S (fuel - length l - 2)))%nat by lia.
  rewrite bind_app. destruct (reader_answers l (S (S (fuel - length l - 2))) ([m] ≫= ser_msg) h c Ha Hml)
    as (h1 & c1 & -> & Hst & Hs1).
  rewrite bind_singleton, <- (app_nil_r (ser_msg m)), reader_next by done.
  pose proof (proj2 Hs1 _ _ Hp) as Hp1.
  pose proof (parked_ok_lookup h1 c1 tid a (cells_step_bound _ _ _ _ Hst Hok) Hp1) as Ha1.
  exists (notify h1 a d), c1. unfold mbind, M_bind. split_and!.
  - destruct Hd as [[-> ->] | ->]; cbn [reader_msg]; unfold park; rewrite ?Hp1; by cbn.
  - by apply list_lookup_insert_eq.
  - done.
Qed.

End ServerSpec.
