(* ===== verification/HandlerSpec.v ===== *)
(** * The handlers against [dispatch]

    [serve] is the table of callbacks that [fuse_main] registers for the calls
    that change the file system. [act] is what the handler of a call does to
    the backing store: on the server it is what [dispatch] does on a client. *)

From stdpp Require Import base list numbers option gmap.
From Stdlib Require Import ZArith Lia.
From S2P Require Import Prelude Common Filestore Store Entries Bilog Net NetSpec Ops OpsSpec Server Handlers ServerSpec.

Local Open Scope Z_scope.

Section HandlerSpec.
Context {F : MsgFormat} {L : MsgFormatLaws} {C : Compressor} {D : Digest}.
Context {FB : StoreFormat BilogEntry} {FV : StoreFormat VFSCall}.

(** ** What a handler does *)
Section Act.
Context {OS : Type} {Sys : Syscalls OS}.

(** A request of the kernel: the call with the handle of an open file, if any.
    The result of [do_create] also sets the handle. *)
Definition serve (tid now : Z) (fv : fsview) (call : VFSCall) (fi : option Z) : M (Server * OS) Z :=
  match call with
  | mknod p mode rdev (Unix uid gid) => do_mknod tid now fv p mode rdev uid gid
  | mkdir p (Unix uid gid) mode => do_mkdir tid now fv p mode uid gid
  | unlink p => do_unlink tid now fv p
  | rmdir p => do_rmdir tid now fv p
  | symlink from to (Unix uid gid) => do_symlink tid now fv from to uid gid
  | rename from to flags => do_rename tid now fv from to flags
  | link from to (Unix uid gid) => do_link tid now fv from to uid gid
  | chmod p mode => do_chmod tid now fv p mode fi
  | security p (Unix uid gid) => do_chown tid now fv p uid gid fi
  | truncate p size => do_truncate tid now fv p size fi
  | write p offset buf => do_write tid now fv false p buf offset fi
  | fallocate p mode offset length => do_fallocate tid now fv p mode offset length fi
  | setxattr p name value flags => do_setxattr tid now fv p name value flags
  | removexattr p name => do_removexattr tid now fv p name
  | create p flags (Unix uid gid) mode =>
    '(r, _) ← do_create tid now fv p mode flags uid gid; mret r
  | utimens p (t0, t1, mk_Timespec 0 0) => do_utimens tid now fv p t0 t1 fi
  | fsync p isdatasync => do_fsync tid now fv p isdatasync fi
  | _ => panic
  end.

Definition act (call : VFSCall) (root : path) (fi : option Z) : M OS Z :=
  match call, fi with
  | chmod _ mode, Some fh => xmp_chmod (inr (i32 fh)) mode
  | security _ (Unix uid gid), Some fh => xmp_chown (inr (i32 fh)) uid gid
  | truncate _ size, Some fh => xmp_truncate (inr (i32 fh)) size
  | utimens _ (t0, t1, _), Some fh => xmp_utimens (inr (i32 fh)) (t0, t1)
  | write _ offset buf, _ => with_fi fi (xmp_write buf offset)
  | fallocate _ mode offset length, _ => with_fi fi (xmp_fallocate mode offset length)
  | fsync _ isdatasync, _ => with_fi fi (xmp_fsync isdatasync)
  | create p flags (Unix uid gid) mode, _ =>
    '(res, _) ← xmp_create (translate_path p root) mode flags uid gid; mret res
  | _, _ => dispatch call root
  end.

Lemma handler_with_fst {A} tid now fv call (m : M OS (Z * A)) st :
  ('(r, _) ← handler_with tid now fv call m; mret r) st =
    handler tid now fv call ('(r, _) ← m; mret r) st.
Proof.
  destruct st as [s os]. unfold handler, handler_with, mbind, M_bind, mret, M_ret.
  destruct (pre_op tid now fv call s) as [[[op_ret waits]| | |] s1]; cbn; [|done..].
  destruct op_ret; [done|]. destruct (m os) as [[[r a]| | |] os1]; cbn; [|done..].
  unfold post_op. cbn. destruct (wait_all waits (sv_cells s1)) as [[] h]; done.
Qed.

(** Every handler sends its call and then acts on the backing store. *)
Lemma serve_handler tid now fv call fi s os :
  unix_call call = true ->
  serve tid now fv call fi (s, os) = handler tid now fv call (act call (sv_path s) fi) (s, os).
Proof.
  intros Hu. destruct call; try done; cbn [serve act]; try (destruct sec; try done); try by destruct fi.
  - unfold do_create. unfold mbind at 1, M_bind at 1.
    pose proof (handler_with_fst tid now fv (create p flags (Unix uid gid) mode)
      ('(res, fd) ← xmp_create (translate_path p (sv_path s)) mode flags uid gid; mret (res, u64 fd)) (s, os)) as H.
    unfold mbind at 1, M_bind at 1 in H. rewrite H. unfold handler, handler_with, mbind, M_bind, mret, M_ret.
    destruct (pre_op _ _ _ _ s) as [[[op_ret waits]| | |] s1]; cbn; [|done..].
    destruct op_ret; [done|]. by destruct (xmp_create _ _ _ _ _ os) as [[[]| | |] ?].
  - destruct timespec as [[t0 t1] [h l]]. cbn in Hu. destruct h, l; try done. by destruct fi.
Qed.

(** A handler that returns, when [pre_op] does not decide: nothing but the cells
    of the server changes after [pre_op]. *)
Lemma handler_run tid now fv call (m : M OS Z) s os r s' os' :
  handler tid now fv call m (s, os) = (Ok r, (s', os')) -> sv_journal s = None ->
  exists opref s1, pre_op tid now fv call s = (Ok opref, s1) /\ m os = (Ok r, os') /\
    sv_clients s' = sv_clients s1 /\ sv_path s' = sv_path s /\ sv_journal s' = None.
Proof.
  unfold handler, handler_with, mbind, M_bind, mret, M_ret. intros E Hj.
  destruct (pre_op tid now fv call s) as [r1 s1] eqn:E1.
  assert (match r1 with Ok o => op_ret o = None | _ => True end /\ sv_path s1 = sv_path s /\ sv_journal s1 = None) as (Hr1 & Hp & Hj1).
  { unfold pre_op, journal_op in E1. cbn [sv_set_clients sv_journal] in E1. rewrite Hj in E1.
    destruct (sv_corked s); [by inv E1|]. destruct (send_ops _ _ _ _) as [[] [h l]]; by inv E1. }
  destruct r1 as [opref| | |]; try done. rewrite Hr1 in E. destruct (m os) as [[a| | |] os1] eqn:Em; try done.
  unfold post_op in E. destruct (wait_all (op_waits opref) (sv_cells s1)) as [[] h] eqn:Ew; cbn in E; try done.
  inv E. by exists opref, s1.
Qed.
End Act.

(** ** Mirroring *)
Section Mirrored.
Context {OS1 OS2 : Type} {Sys1 : Syscalls OS1} {Sys2 : Syscalls OS2} {r1 r2 : path}.
Context {Mi : Mirror (OS1 := OS1) (OS2 := OS2) r1 r2}.

(** A request that makes sense in this state: a Unix call, on a handle of an
    open file where the call has one. *)
Definition ready (call : VFSCall) (fi : option Z) (os : OS1) : Prop :=
  unix_call call = true /\
  match call, fi with
  | (chmod p _ | security p _ | truncate p _ | utimens p _ | write p _ _ | fallocate p _ _ _ | fsync p _), Some fh =>
    mi_open os (i32 fh) p
  | (write _ _ _ | fallocate _ _ _ _ | fsync _ _), None => False
  | _, _ => True
  end.

Ltac mirrored := first
  [ apply mi_mkfifo | apply mi_mknod | apply mi_mkdir | apply mi_unlink | apply mi_rmdir | apply mi_symlink
  | apply mi_link | apply mi_chmod | apply mi_lchown | apply mi_truncate | apply mi_lsetxattr
  | apply mi_lremovexattr | apply mi_utimensat | apply mi_pwrite | apply mi_fallocate | apply mi_fsync
  | apply mi_fdatasync | eapply mi_fchmod | eapply mi_fchown_at | eapply mi_ftruncate | eapply mi_futimens ];
  eassumption.

Ltac mirror := repeat first
  [ apply follows_checked; [mirrored|intros] | by apply follows_chown | by apply follows_ret ].

Lemma act_follows call fi o1 o2 :
  ready call fi o1 -> mi_rel o1 o2 -> follows (act call r1 fi) (dispatch call r2) o1 o2.
Proof.
  intros [Hu Hr] HR. destruct call; try done; cbn [act dispatch]; try (destruct sec; try done);
    try (destruct timespec as [[t0 t1] t2]); try (destruct fi as [fh|]; try done);
    unfold xmp_mknod, xmp_mkdir, xmp_unlink, xmp_rmdir, xmp_symlink, xmp_link, xmp_chmod,
      xmp_truncate, xmp_setxattr, xmp_removexattr, xmp_utimens;
    try match goal with |- context [Z.land ?m ?x =? ?x] => destruct (Z.land m x =? x) end;
    try solve [mirror | by apply follows_rename | by apply follows_create];
    (match goal with |- follows (with_fi _ ?f) (on_file _ ?g) _ _ =>
       apply (follows_on_file p (i32 fh) f g); [done|exact Hr| |] end);
    [|intros; unfold xmp_write, xmp_fallocate, xmp_fsync, checked; returns..].
  - intros. by apply follows_write.
  - intros. unfold xmp_fallocate. mirror.
  - intros. unfold xmp_fsync. destruct (negb (isdatasync =? 0)); mirror.
Qed.
End Mirrored.
End HandlerSpec.
