(* ===== verification/Converge.v ===== *)
(** * From a request on the server to the copy of a client

    A run of requests is served one after the other; a client with a working
    connection does the same to its copy, with the same codes. *)

From stdpp Require Import base list numbers option gmap.
From Stdlib Require Import ZArith Lia.
From S2P Require Import Prelude Common Filestore Store Entries Bilog Net NetSpec Ops OpsSpec Server Handlers ServerSpec HandlerSpec.

Local Open Scope Z_scope.

Section Converge.
Context {F : MsgFormat} {L : MsgFormatLaws} {C : Compressor} {D : Digest}.
Context {FB : StoreFormat BilogEntry} {FV : StoreFormat VFSCall}.
Context {OS1 OS2 : Type} {Sys1 : Syscalls OS1} {Sys2 : Syscalls OS2} {r1 r2 : path}.
Context {Mi : Mirror (OS1 := OS1) (OS2 := OS2) r1 r2}.

Record req := mk_req { q_tid : Z; q_now : Z; q_view : fsview; q_call : VFSCall; q_fi : option Z }.

Definition op_of (q : req) : op := mk_op (q_tid q) (q_now q) (q_view q) (q_call q).

Definition serve_req (q : req) : M (Server * OS1) Z := serve (q_tid q) (q_now q) (q_view q) (q_call q) (q_fi q).

Fixpoint run_requests (l : list req) : M (Server * OS1) (list Z) :=
  match l with
  | [] => mret []
  | q :: l => r ← serve_req q; rs ← run_requests l; mret (r :: rs)
  end.

(** Every request makes sense when its turn comes. *)
Fixpoint ready_all (l : list req) (st : Server * OS1) : Prop :=
  match l with
  | [] => True
  | q :: l => ready (r1 := r1) (r2 := r2) (OS2 := OS2) (q_call q) (q_fi q) (snd st) /\ ready_all l (snd (serve_req q st))
  end.

(** The client's [dispatch] where it returns. *)
Definition client_dispatch (call : VFSCall) (o2 : OS2) : Z * OS2 :=
  match dispatch call r2 o2 with (Ok r, o2) => (r, o2) | (_, o2) => (0, o2) end.

Lemma client_agrees call :
  unix_call call = true -> agrees client_dispatch (fun call => dispatch call r2) call.
Proof.
  intros Hu o2. unfold returning, client_dispatch. destruct (dispatch_returns call r2 Hu o2) as (r & o2' & E).
  by rewrite E.
Qed.

Lemma act_alone call fi o1 o2 r o1' :
  ready (r1 := r1) (r2 := r2) (OS2 := OS2) call fi o1 -> is_fsync call = true -> mi_rel o1 o2 ->
  act call r1 fi o1 = (r, o1') -> mi_rel o1' o2.
Proof.
  intros [_ Hr] Hf HR E. destruct call; try done. destruct fi as [fh|]; [|done]. cbn in E.
  unfold xmp_fsync, checked, syscall, neg_errno in E. munfold.
  pose proof (mi_fsync_alone o1 o2 (i32 fh) HR) as H1. pose proof (mi_fdatasync_alone o1 o2 (i32 fh) HR) as H2.
  destruct (negb _); [destruct (sys_fdatasync _ o1) as [a ?]|destruct (sys_fsync _ o1) as [a ?]];
    destruct (a =? -1); by inv E.
Qed.

(** What a client of this mode makes of one request. *)
Definition ack_of (q : req) (code : Z) : FsyncerMsg := Msg_Ack (mk_AckMsg (RetCode code) (q_tid q)).

Lemma one_request q s o1 o2 r s' o1' i c :
  serve_req q (s, o1) = (Ok r, (s', o1')) -> ready (r1 := r1) (r2 := r2) (OS2 := OS2) (q_call q) (q_fi q) o1 ->
  sv_journal s = None -> sv_path s = r1 -> op_ok (q_tid q) (q_call q) ->
  sv_clients s !! i = Some c -> open_client c -> cl_mode c <> MODE_CONTROL -> mi_rel o1 o2 ->
  sv_journal s' = None /\ sv_path s' = r1 /\
  exists c', sv_clients s' !! i = Some c' /\ got c c' (op_msgs c (q_call q) (q_tid q)) /\
    mi_rel o1' (fst (handle_all client_dispatch (cl_mode c) (op_msgs c (q_call q) (q_tid q)) o2)) /\
    (cl_mode c = MODE_SYNC ->
     snd (handle_all client_dispatch (cl_mode c) (op_msgs c (q_call q) (q_tid q)) o2) = [ack_of q r]).
Proof.
  intros E Hr Hj Hp Hok Hi Ho Hm HR. unfold serve_req in E. rewrite serve_handler in E by apply Hr. rewrite Hp in E.
  destruct (handler_run _ _ _ _ _ _ _ _ _ _ E Hj) as (opref & s1 & Epre & Eact & Hcl & Hp' & Hj').
  split; [done|]. split; [congruence|].
  destruct (pre_op_got _ _ _ _ _ _ _ Epre) as [_ Hg]. destruct (Hg i c Hi Ho Hok) as (c' & Hi' & Hgot).
  exists c'. split; [by rewrite Hcl|]. split; [done|].
  destruct (act_follows (q_call q) (q_fi q) o1 o2 Hr HR) as [He HR']. rewrite Eact in He, HR'. cbn [fst snd] in He, HR'.
  assert (client_dispatch (q_call q) o2 = (r, snd (dispatch (q_call q) r2 o2))) as Hd.
  { unfold client_dispatch. destruct (dispatch (q_call q) r2 o2) as [r' o2']. cbn in *. by subst r'. }
  split.
  - rewrite handle_all_fs, op_msgs_calls. destruct (reaches (cl_mode c) (q_call q)) eqn:Hre.
    + cbn. by rewrite Hd.
    + cbn. apply (act_alone (q_call q) (q_fi q) o1 o2 (Ok r) o1' Hr); [|done|done].
      unfold reaches in Hre. destruct (cl_mode c); try done; by apply negb_false_iff.
  - intros Hsync. unfold op_msgs, op_message, flushed. rewrite Hsync.
    repeat first [rewrite bool_decide_true by done | rewrite bool_decide_false by done]. rewrite andb_false_r.
    cbn [orb]. unfold ack_of. destruct (_ && _); cbn; by rewrite Hd.
Qed.

Lemma run_requests_mirror l : forall s o1 o2 codes s' o1' i c,
  run_requests l (s, o1) = (Ok codes, (s', o1')) -> ready_all l (s, o1) ->
  sv_journal s = None -> sv_path s = r1 -> run_ok (op_of <$> l) ->
  sv_clients s !! i = Some c -> open_client c -> cl_mode c <> MODE_CONTROL -> mi_rel o1 o2 ->
  exists c', sv_clients s' !! i = Some c' /\ got c c' (run_msgs c (op_of <$> l)) /\
    mi_rel o1' (fst (handle_all client_dispatch (cl_mode c) (run_msgs c (op_of <$> l)) o2)) /\
    (cl_mode c = MODE_SYNC ->
     snd (handle_all client_dispatch (cl_mode c) (run_msgs c (op_of <$> l)) o2) = zip_with ack_of l codes).
Proof.
  induction l as [|q l IH]; intros s o1 o2 codes s' o1' i c E Hr Hj Hp Hok Hi Ho Hm HR.
  { inv E. exists c. split_and!; try done. by apply got_refl. }
  destruct Hr as [Hr Hrl]. apply Forall_cons in Hok as [Hok Hokl]. cbn [run_requests] in E. unfold mbind, M_bind, mret, M_ret in E.
  destruct (serve_req q (s, o1)) as [[r| | |] [s1 o1a]] eqn:E1; try done.
  destruct (run_requests l (s1, o1a)) as [[rs| | |] [s2 o1b]] eqn:E2; try done. inv E.
  destruct (one_request q s o1 o2 r s1 o1a i c E1 Hr Hj Hp Hok Hi Ho Hm HR) as (Hj1 & Hp1 & c1 & Hi1 & Hg1 & HR1 & Ha1).
  set (msgs := op_msgs c (q_call q) (q_tid q)) in *.
  pose proof Hg1 as (Ho1 & Hm1 & _).
  destruct (IH s1 o1a (fst (handle_all client_dispatch (cl_mode c) msgs o2)) rs s' o1' i c1 E2)
    as (c2 & Hi2 & Hg2 & HR2 & Ha2); try done; [congruence|].
  rewrite (run_msgs_got c c1 _ _ Hg1) in Hg2, HR2, Ha2. rewrite Hm1 in HR2, Ha2.
  exists c2. split; [done|]. unfold run_msgs in *. rewrite fmap_cons, bind_cons. cbn [o_call o_tid op_of]. fold msgs.
  split; [by eapply got_trans|]. rewrite handle_all_app. cbn [fst snd]. split; [done|].
  intros Hs. rewrite (Ha1 Hs), (Ha2 Hs). done.
Qed.

Lemma ready_unix l : forall st, ready_all l st -> Forall (fun call => unix_call call = true) (q_call <$> l).
Proof. induction l as [|q l IH]; intros st Hr; [apply Forall_nil_2|]. destruct Hr as [[Hu _] Hr]. apply Forall_cons_2; eauto. Qed.

Lemma run_agrees c l st :
  ready_all l st -> Forall (agrees client_dispatch (fun call => dispatch call r2)) (run_msgs c (op_of <$> l) ≫= msg_call).
Proof.
  intros Hr. rewrite run_msgs_calls. apply ready_unix in Hr. rewrite Forall_forall in Hr. apply Forall_forall.
  intros call Hin. apply client_agrees, Hr. apply list_elem_of_In, filter_In in Hin as [Hin _].
  apply list_elem_of_In in Hin. rewrite <- list_fmap_compose in Hin. exact Hin.
Qed.

(** What the server has written for a client is what the client needs to do the
    same to its copy. *)
Lemma copy_follows l s o1 o2 codes s' o1' i c sc :
  run_requests l (s, o1) = (Ok codes, (s', o1')) -> ready_all l (s, o1) ->
  sv_journal s = None -> sv_path s = r1 -> run_ok (op_of <$> l) ->
  sv_clients s !! i = Some c -> open_client c -> cl_mode c <> MODE_CONTROL -> mi_rel o1 o2 ->
  open_conn sc -> sc_mode sc = cl_mode c ->
  exists c' bytes, sv_clients s' !! i = Some c' /\ st_out (cl_write c') = st_out (cl_write c) ++ bytes /\
    (sc_read sc = bytes -> exists sc' o2',
      process_ops (fun call => dispatch call r2) (S (length bytes)) (sc, o2) = (Err UnexpectedEof, (sc', o2')) /\
      mi_rel o1' o2' /\
      (cl_mode c = MODE_SYNC ->
       st_out (sc_write sc') = st_out (sc_write sc) ++ (zip_with ack_of l codes ≫= ser_msg))).
Proof.
  intros E Hr Hj Hp Hok Hi Ho Hm HR Hsc Hmode.
  destruct (run_requests_mirror l s o1 o2 codes s' o1' i c E Hr Hj Hp Hok Hi Ho Hm HR) as (c' & Hi' & Hg & HR' & Ha).
  set (msgs := run_msgs c (op_of <$> l)) in *. exists c', (frames msgs).
  split; [done|]. split; [apply Hg|]. intros Hread.
  destruct (process_ops_ok client_dispatch (fun call => dispatch call r2) msgs (S (length (frames msgs))) sc o2
    Hsc Hread) as (rcv & Ep);
    [by apply run_msgs_sendable|by apply (run_agrees c l (s, o1))|pose proof (frames_length msgs); lia|].
  rewrite Ep, Hmode. eexists _, _. split; [reflexivity|]. split; [done|]. intros Hs. cbn. by rewrite (Ha Hs).
Qed.

End Converge.
