(* ===== verification/OpsInst.v ===== *)
(** * A small operating system

    Files by their path under a root, open descriptors and [errno]. Opening,
    creating, writing, truncating and unlinking files do what they say, the other
    calls succeed without effect. Two of them with different roots are a
    [Mirror]. *)

From stdpp Require Import base list numbers option gmap strings.
From Stdlib Require Import ZArith Lia.
From S2P Require Import Prelude Common Ops OpsSpec.

Local Open Scope Z_scope.

Record toy := mk_toy {
  t_root : path; t_files : gmap (list string) (list Z); t_fds : gmap Z (list string);
  t_next : Z; t_errno : Z }.

Definition t_at (p : path) (o : toy) : list string := drop (length (p_comps (t_root o))) (p_comps p).

Definition t_set_files (o : toy) (f : gmap (list string) (list Z)) : toy :=
  mk_toy (t_root o) f (t_fds o) (t_next o) (t_errno o).
Definition t_fail (e : Z) (o : toy) : Z * toy := (-1, mk_toy (t_root o) (t_files o) (t_fds o) (t_next o) e).
Definition t_ok (o : toy) : Z * toy := (0, o).

Definition t_resize (n : nat) (l : list Z) : list Z := take n l ++ replicate (n - length l) 0.

Definition t_overlay (off : nat) (buf l : list Z) : list Z :=
  t_resize off l ++ buf ++ drop (off + length buf) l.

Definition t_open (p : path) (flags : Z) (o : toy) : Z * toy :=
  let k := t_at p o in
  if bool_decide (t_files o !! k = None) && (Z.land flags 64 =? 0) then t_fail 2 o
  else (t_next o, mk_toy (t_root o) (<[k := default [] (t_files o !! k)]> (t_files o))
                    (<[t_next o := k]> (t_fds o)) (t_next o + 1) (t_errno o)).

Definition t_pread (fd n off : Z) (o : toy) : (Z + list Z) * toy :=
  match t_fds o !! fd with
  | Some k => (inr (take (Z.to_nat n) (drop (Z.to_nat off) (default [] (t_files o !! k)))), o)
  | None => (inl 9, o)
  end.

Definition t_pwrite (fd : Z) (buf : list Z) (off : Z) (o : toy) : Z * toy :=
  match t_fds o !! fd with
  | Some k => (zlen buf, t_set_files o (alter (t_overlay (Z.to_nat off) buf) k (t_files o)))
  | None => t_fail 9 o
  end.

Definition t_unlink (p : path) (o : toy) : Z * toy :=
  match t_files o !! t_at p o with
  | Some _ => (0, t_set_files o (delete (t_at p o) (t_files o)))
  | None => t_fail 2 o
  end.

Definition t_truncate (p : path) (n : Z) (o : toy) : Z * toy :=
  (0, t_set_files o (alter (t_resize (Z.to_nat n)) (t_at p o) (t_files o))).

Definition t_ftruncate (fd n : Z) (o : toy) : Z * toy :=
  match t_fds o !! fd with
  | Some k => (0, t_set_files o (alter (t_resize (Z.to_nat n)) k (t_files o)))
  | None => t_fail 9 o
  end.

Definition t_close (fd : Z) (o : toy) : Z * toy :=
  (0, mk_toy (t_root o) (t_files o) (delete fd (t_fds o)) (t_next o) (t_errno o)).

Definition toy_sys : Syscalls toy := {|
  sys_errno := t_errno; sys_mkfifo := fun _ _ => t_ok; sys_mknod := fun _ _ _ => t_ok; sys_mkdir := fun _ _ => t_ok;
  sys_unlink := t_unlink; sys_rmdir := fun _ => t_ok; sys_symlink := fun _ _ => t_ok;
  sys_renameat2 := fun _ _ _ => t_ok; sys_link := fun _ _ => t_ok; sys_chmod := fun _ _ => t_ok;
  sys_fchmod := fun _ _ => t_ok; sys_chown := fun _ _ _ => t_ok; sys_lchown := fun _ _ _ => t_ok;
  sys_fchown := fun _ _ _ => t_ok; sys_truncate := t_truncate; sys_ftruncate := t_ftruncate;
  sys_open := fun p flags _ => t_open p flags; sys_close := t_close; sys_pread := t_pread; sys_pwrite := t_pwrite;
  sys_fallocate := fun _ _ _ _ => t_ok; sys_lsetxattr := fun _ _ _ _ => t_ok; sys_fsetxattr := fun _ _ _ _ => t_ok;
  sys_lremovexattr := fun _ _ => t_ok; sys_fremovexattr := fun _ _ => t_ok; sys_utimensat := fun _ _ => t_ok;
  sys_futimens := fun _ _ => t_ok; sys_fsync := fun _ => t_ok; sys_fdatasync := fun _ => t_ok |}.

Definition t_rel (r1 r2 : path) (o1 o2 : toy) : Prop :=
  t_root o1 = r1 /\ t_root o2 = r2 /\ t_files o1 = t_files o2 /\ 0 <= t_next o1 /\ 0 <= t_next o2.

Lemma t_at_translate p o r : t_root o = r -> t_at (translate_path p r) o = p_comps p.
Proof.
  intros <-. unfold t_at, translate_path, path_join, strip_root.
  destruct (p_abs p) eqn:Ep; cbn; rewrite ?Ep; cbn; apply drop_app_length.
Qed.

Ltac toy := unfold same, t_rel in *; cbn in *; intuition auto; cbn; repeat split; try done; try lia.

Lemma t_ok_same r1 r2 o1 o2 : t_rel r1 r2 o1 o2 -> same (Sys1 := toy_sys) (Sys2 := toy_sys) (t_rel r1 r2) (t_ok o1) (t_ok o2).
Proof. toy. Qed.

(** Two of them under different roots. *)
Definition toy_mirror (r1 r2 : path) : Mirror (Sys1 := toy_sys) (Sys2 := toy_sys) r1 r2.
Proof.
  refine (@Build_Mirror toy toy toy_sys toy_sys r1 r2 (t_rel r1 r2)
    (fun o1 fd p => t_fds o1 !! fd = Some (p_comps p) /\ is_Some (t_files o1 !! p_comps p))
    (fun o1 o2 fd1 fd2 => is_Some (t_fds o1 !! fd1) /\ t_fds o1 !! fd1 = t_fds o2 !! fd2)
    _ _ _ _ _ _ _ _ _ _ _ _ _ _ _ _ _ _ _ _ _ _ _ _ _ _ _ _ _);
  try solve [intros; by apply t_ok_same].
  - intros o1 o2 p (H1 & H2 & H3 & H4). cbn. unfold t_unlink, same.
    rewrite (t_at_translate p o1 r1 H1), (t_at_translate p o2 r2 H2), H3.
    destruct (t_files o2 !! p_comps p); toy.
  - intros o1 o2 p n (H1 & H2 & H3 & H4). cbn. unfold t_truncate, same.
    rewrite (t_at_translate p o1 r1 H1), (t_at_translate p o2 r2 H2), H3. toy.
  - intros o1 o2 p flags mode (H1 & H2 & H3 & H4). cbn. unfold t_open.
    rewrite (t_at_translate p o1 r1 H1), (t_at_translate p o2 r2 H2), H3.
    destruct (bool_decide _ && _); cbn; (split; [toy|]).
    + by left.
    + right. rewrite !lookup_insert_eq. split; [lia|split; [lia|split; [by eexists|done]]].
  - intros o1 o2 p fd (H1 & H2 & H3 & H4) (Hfd & Hf). cbn. unfold t_open.
    rewrite (t_at_translate p o2 r2 H2), <- H3, bool_decide_false by (by destruct Hf as [? ->]).
    cbn. toy.
    + destruct Hf as [x Hx]. rewrite Hx. cbn. by rewrite insert_id.
    + by rewrite Hfd, lookup_insert_eq.
  - intros o1 o2 fd1 fd2 buf off (H1 & H2 & H3 & H4) [Hs He]. cbn. unfold t_pwrite, same. rewrite <- He, H3.
    destruct Hs as [k ->]. toy. unfold zlen in *. lia.
  - intros o1 o2 fd p n (H1 & H2 & H3 & H4) [Hfd Hf]. cbn. unfold t_ftruncate, t_truncate, same.
    rewrite (t_at_translate p o2 r2 H2), Hfd, H3. toy.
Defined.
