(* ===== verification/ServerInv.v ===== *)
(** * The server as a state machine

    The threads of the server act on its state one call at a time: operations,
    readers, the flusher, the harvester, and the acceptor of connections.
    [wf] is the invariant of the response cells: every parked thread has a cell
    of its own, which exists. *)

From stdpp Require Import base list numbers option gmap relations.
From Stdlib Require Import ZArith Lia.
From S2P Require Import Prelude Common Filestore Store Entries Bilog Net NetSpec Server ServerSpec.

Local Open Scope Z_scope.

Section ServerInv.
Context {F : MsgFormat} {L : MsgFormatLaws} {C : Compressor} {D : Digest}.
Context {FB : StoreFormat BilogEntry} {FV : StoreFormat VFSCall}.

Definition wf (s : Server) : Prop :=
  NoDup (sv_clients s ≫= owned) /\ Forall (fun a => a < length (sv_cells s))%nat (sv_clients s ≫= owned).

(** ** Steps *)
Inductive server_step : Server -> Server -> Prop :=
| step_pre tid now fv call s r s' :
    pre_op tid now fv call s = (r, s') -> server_step s s'
| step_post opref ret s r s' :
    post_op opref ret s = (r, s') -> server_step s s'
| step_read i c m s r h' c' :
    sv_clients s !! i = Some c -> reader_msg m (sv_cells s, c) = (r, (h', c')) ->
    server_step s (sv_set_clients s h' (<[i := c']> (sv_clients s)))
| step_cork tid answers s r s' :
    cork_server tid answers s = (r, s') -> server_step s s'
| step_uncork tid s r s' :
    uncork_server tid s = (r, s') -> server_step s s'
| step_harvest s : server_step s (harvest s)
| step_flush tid s h' l' :
    flush_clients tid (sv_cells s) (sv_clients s) = (h', l') -> server_step s (sv_set_clients s h' l')
| step_accept input netout dontcheck srchash rsync s c rest :
    from_stream input netout dontcheck srchash rsync = Ok (c, rest) ->
    server_step s (sv_set_clients s (sv_cells s) (sv_clients s ++ [c])).

(** ** The invariant is preserved *)
Lemma wf_step s h' l' :
  wf s -> cells_step (sv_cells s) (sv_clients s ≫= owned) h' (l' ≫= owned) -> wf (sv_set_clients s h' l').
Proof.
  intros [Hn Hb] Hs. split; [|by eapply cells_step_bound]. cbn.
  destruct Hs as (_ & n & -> & Hnd & Hf). apply NoDup_app. split_and!; [done| |done].
  rewrite Forall_forall in Hb, Hf. intros x H1 H2. specialize (Hb x H1). specialize (Hf x H2). lia.
Qed.

Lemma wf_ext s s' : wf s -> sv_clients s' = sv_clients s -> length (sv_cells s') = length (sv_cells s) -> wf s'.
Proof. unfold wf. by intros H -> ->. Qed.

Lemma journal_op_cells now fv call s r s' :
  journal_op now fv call s = (r, s') -> sv_cells s' = sv_cells s.
Proof. unfold journal_op, must_write. intros E. repeat (case_match; simplify_eq); done. Qed.

Lemma pre_op_wf tid now fv call s r s' : pre_op tid now fv call s = (r, s') -> wf s -> wf s'.
Proof.
  unfold pre_op. intros E Hwf. destruct (sv_corked s); [by inv E|].
  destruct (send_ops tid call (sv_cells s) (sv_clients s)) as [r1 [h1 l1]] eqn:E1.
  pose proof (wf_step s h1 l1 Hwf (send_ops_step _ _ _ _ _ _ _ E1)) as Hwf1.
  destruct r1; try (by inv E).
  destruct (journal_op now fv call (sv_set_clients s h1 l1)) as [r2 s2] eqn:E2. inv E.
  eapply wf_ext; [exact Hwf1|by eapply journal_op_keeps|by erewrite journal_op_cells].
Qed.

Lemma wait_all_length waits : forall h r h', wait_all waits h = (r, h') -> length h' = length h.
Proof.
  induction waits as [|a ws IH]; intros h r h' E; [by inv E|]. cbn [wait_all] in E.
  unfold mbind, M_bind in E. assert (exists d, wait a h = (Ok d, snd (wait a h)) /\ length (snd (wait a h)) = length h)
    as (d & Ew & Hl).
  { unfold wait. destruct (h !! a) as [[d|]|]; eexists; (split; [reflexivity|]); cbn; by rewrite ?length_insert. }
  rewrite Ew in E. destruct (wait_all ws (snd (wait a h))) as [r1 h1] eqn:E1. pose proof (IH _ _ _ E1).
  destruct r1; inv E; congruence.
Qed.

Lemma post_op_wf opref ret s r s' : post_op opref ret s = (r, s') -> wf s -> wf s'.
Proof.
  unfold post_op. intros E Hwf. destruct (wait_all (op_waits opref) (sv_cells s)) as [r1 h1] eqn:E1. inv E.
  eapply wf_ext; [exact Hwf|done|]. by apply wait_all_length in E1.
Qed.

(** A step on one of the connections. *)
Lemma insert_step h l h' i c c' :
  l !! i = Some c -> conn_step h c h' c' -> cells_step h (l ≫= owned) h' (<[i := c']> l ≫= owned).
Proof.
  intros Hi (Hl & n & Hp & Hf). split; [done|]. exists n. split; [|done].
  assert (l ≫= owned = (take i l ≫= owned) ++ owned c ++ (drop (S i) l ≫= owned)) as ->
    by (by rewrite <- bind_cons, <- bind_app, (take_drop_middle l i c Hi)).
  rewrite (insert_take_drop l i c' (lookup_lt_Some _ _ _ Hi)), bind_app, bind_cons, Hp. solve_Permutation.
Qed.

Lemma reader_step fuel : forall closed input h c r h' c',
  reader fuel closed input (h, c) = (r, (h', c')) -> conn_step h c h' c'.
Proof.
  induction fuel as [|fuel IH]; intros closed input h c r h' c' E; cbn [reader] in E.
  { inv E. by apply conn_step_parked. }
  destruct (bool_decide _ && negb closed); [inv E; by apply conn_step_parked|].
  destruct (match de_msg input with Some (m, rest) => (Some m, rest) | None => (None, input) end) as [m rest].
  unfold mbind, M_bind in E. destruct (reader_msg m (h, c)) as [r1 [h1 c1]] eqn:E1.
  pose proof (reader_msg_step _ _ _ _ _ _ E1) as Hs.
  destruct r1 as [[]| | |]; try (inv E; exact Hs). eapply cells_step_trans; [exact Hs|]. by eapply IH.
Qed.

Lemma wait_step a h d h' c : wait a h = (d, h') -> conn_step h c h' c.
Proof.
  unfold wait. intros E. apply conn_step_parked; [done|]. case_match; [case_match|]; inv E; by rewrite ?length_insert.
Qed.

Lemma cork_client_step tid answer h c r h' c' :
  cork_client tid answer (h, c) = (r, (h', c')) -> conn_step h c h' c'.
Proof.
  unfold cork_client. intros E.
  destruct (response_msg tid _ true _ (h, c)) as [r1 [h1 c1]] eqn:E1.
  pose proof (response_msg_step _ _ _ _ _ _ _ _ _ E1) as Hs1. destruct r1 as [resp| | |]; try (by inv E).
  destruct (bool_decide _); [by inv E|].
  destruct (reader (S (length answer)) false answer (h1, c1)) as [r2 [h2 c2]] eqn:E2.
  pose proof (cells_step_trans _ _ _ _ _ _ Hs1 (reader_step _ _ _ _ _ _ _ _ E2)) as Hs2.
  destruct resp as [a|]; [|by inv E]. destruct (wait a h2) as [r3 h3] eqn:E3.
  pose proof (cells_step_trans _ _ _ _ _ _ Hs2 (wait_step a h2 r3 h3 c2 E3)) as Hs3.
  by destruct r3 as [[]| | |]; inv E.
Qed.

Lemma cork_clients_step tid l : forall h r h' l',
  cork_clients tid h l = (r, (h', l')) -> cells_step h ((fst <$> l) ≫= owned) h' (l' ≫= owned).
Proof.
  induction l as [|[c answer] l IH]; intros h r h' l' E; [inv E; by apply cells_step_same|].
  cbn [cork_clients] in E. destruct (cork_client tid answer (h, c)) as [r1 [h1 c1]] eqn:E1.
  pose proof (cork_client_step _ _ _ _ _ _ _ E1) as Hc.
  destruct (cork_clients tid h1 l) as [r2 [h2 l2]] eqn:E2. pose proof (IH _ _ _ _ E2) as Hl.
  rewrite fmap_cons, bind_cons.
  destruct r1; inv E; rewrite bind_cons;
    (eapply cells_step_app; [exact Hc|first [exact Hl|by apply cells_step_same]]).
Qed.

Lemma imap_fst (answers : list (list Z)) (l : list Client) :
  fst <$> imap (fun i c => (c, default [] (answers !! i))) l = l.
Proof. apply list_eq. intros i. rewrite list_lookup_fmap, list_lookup_imap. by destruct (l !! i). Qed.

Lemma cork_server_wf tid answers s r s' : cork_server tid answers s = (r, s') -> wf s -> wf s'.
Proof.
  unfold cork_server. intros E Hwf. cbn zeta in E.
  destruct (cork_clients _ _ _) as [r1 [h1 l1]] eqn:E1. inv E. apply cork_clients_step in E1.
  rewrite imap_fst in E1. by apply wf_step.
Qed.

(** The rounds over all clients that send something and wait for nothing. *)
Lemma client_send_step tid m flush h c r h' c' :
  client_send_msg tid m flush (h, c) = (r, (h', c')) -> conn_step h c h' c'.
Proof.
  unfold client_send_msg, mbind, M_bind. intros E.
  destruct (response_msg tid m flush false (h, c)) as [r1 [h1 c1]] eqn:E1.
  pose proof (response_msg_step _ _ _ _ _ _ _ _ _ E1). by destruct r1; inv E.
Qed.

Lemma uncork_clients_step tid l : forall h h' l',
  uncork_clients tid h l = (h', l') -> cells_step h (l ≫= owned) h' (l' ≫= owned).
Proof.
  induction l as [|c l IH]; intros h h' l' E; [inv E; by apply cells_step_same|]. cbn [uncork_clients] in E.
  destruct (client_uncork tid (h, c)) as [r1 [h1 c1]] eqn:E1. apply client_send_step in E1.
  destruct (uncork_clients tid h1 l) as [h2 l2] eqn:E2. inv E. rewrite !bind_cons.
  eapply cells_step_app; [exact E1|by apply IH].
Qed.

Lemma client_flush_step tid h c r h' c' :
  client_flush tid (h, c) = (r, (h', c')) -> conn_step h c h' c'.
Proof.
  unfold client_flush. intros E. destruct (flags_intersects _ _); [by eapply client_send_step|].
  rewrite flush_write_id in E. inv E. by apply conn_step_parked.
Qed.

Lemma flush_clients_step tid l : forall h h' l',
  flush_clients tid h l = (h', l') -> cells_step h (l ≫= owned) h' (l' ≫= owned).
Proof.
  induction l as [|c l IH]; intros h h' l' E; [inv E; by apply cells_step_same|]. cbn [flush_clients] in E.
  assert (exists h1 c1, (if bool_decide (cl_mode c = MODE_ASYNC) then snd (client_flush tid (h, c)) else (h, c)) = (h1, c1)
    /\ conn_step h c h1 c1) as (h1 & c1 & E1 & Hs).
  { case_bool_decide; [|eexists _, _; split; [reflexivity|by apply conn_step_parked]].
    destruct (client_flush tid (h, c)) as [r [h1 c1]] eqn:Ef. eexists _, _. split; [reflexivity|by eapply client_flush_step]. }
  rewrite E1 in E. destruct (flush_clients tid h1 l) as [h2 l2] eqn:E2. inv E. rewrite !bind_cons.
  eapply cells_step_app; [exact Hs|by apply IH].
Qed.

Lemma client_drop_length c : forall h, length (client_drop h c) = length h.
Proof.
  unfold client_drop. induction (map_to_list (cl_parked c)) as [|e l IH]; intros h; [done|]. cbn.
  rewrite IH. unfold notify. by rewrite length_insert.
Qed.

Lemma harvest_wf s : wf s -> wf (harvest s).
Proof.
  intros [Hn Hb]. unfold harvest. cbn zeta. unfold wf.
  set (dead := List.filter (fun c => bool_decide (cl_status c = DEAD)) (sv_clients s)).
  set (alive := List.filter (fun c => negb (bool_decide (cl_status c = DEAD))) (sv_clients s)).
  change (sv_cells (sv_set_clients s (foldl client_drop (sv_cells s) dead) alive))
    with (foldl client_drop (sv_cells s) dead).
  assert (length (foldl client_drop (sv_cells s) dead) = length (sv_cells s)) as ->.
  { generalize (sv_cells s). induction dead as [|c l IH]; intros h; [done|]. cbn. by rewrite IH, client_drop_length. }
  assert (alive ≫= owned `sublist_of` sv_clients s ≫= owned) as Hsub.
  { unfold alive. clear. induction (sv_clients s) as [|c l IH]; [done|]. cbn [List.filter].
    rewrite bind_cons. case_match; [rewrite bind_cons; by apply sublist_app|by apply sublist_inserts_l]. }
  split; [by eapply sublist_NoDup|].
  apply Forall_forall. intros x Hx. rewrite Forall_forall in Hb. by apply Hb, (elem_of_sublist _ _ _ Hx Hsub).
Qed.

Lemma from_stream_owns input netout dontcheck srchash rsync c rest :
  from_stream input netout dontcheck srchash rsync = Ok (c, rest) -> owned c = [].
Proof.
  unfold from_stream. intros E. destruct (de_msg input) as [[[init| | | | | | | ] rest']|]; try done.
  destruct (if _ || _ || _ then _ else _) as [[]| | |]; try done. cbn in E.
  destruct (if flags_contains _ _ then _ else _) as [[]| | |]; try done. cbn in E. inv E.
  done.
Qed.

Lemma step_wf s s' : server_step s s' -> wf s -> wf s'.
Proof.
  intros Hstep Hwf.
  destruct Hstep as [ | |i c m s r h' c' Hi E| |tid s r s' E| |tid s h' l' E|? ? ? ? ? s c rest E].
  - by eapply pre_op_wf.
  - by eapply post_op_wf.
  - apply wf_step; [done|]. eapply insert_step; [done|by eapply reader_msg_step].
  - by eapply cork_server_wf.
  - unfold uncork_server in E. destruct (uncork_clients _ _ _) as [h1 l1] eqn:E1. inv E.
    eapply wf_ext; [apply (wf_step s h1 l1 Hwf); by eapply uncork_clients_step|done|done].
  - by apply harvest_wf.
  - apply wf_step; [done|by eapply flush_clients_step].
  - eapply wf_step; [done|]. rewrite bind_app, bind_singleton, (from_stream_owns _ _ _ _ _ _ _ E), app_nil_r.
    by apply cells_step_same.
Qed.

Lemma run_ops_wf ops : forall s r s', run_ops ops s = (r, s') -> wf s -> wf s'.
Proof.
  induction ops as [|o ops IH]; intros s r s' E Hwf; [by inv E|]. cbn [run_ops] in E. unfold mbind, M_bind in E.
  destruct (pre_op _ _ _ _ s) as [r1 s1] eqn:E1. pose proof (pre_op_wf _ _ _ _ _ _ _ E1 Hwf).
  destruct r1; [by eapply IH|by inv E..].
Qed.

Lemma wf_parked_ok s i c : wf s -> sv_clients s !! i = Some c -> parked_ok (sv_cells s) c.
Proof.
  intros [_ Hb] Hi. apply Forall_forall. intros a Ha. rewrite Forall_forall in Hb. apply Hb, list_elem_of_bind.
  exists c. split; [done|by eapply list_elem_of_lookup_2].
Qed.

Definition initial (s : Server) : Prop := sv_clients s = [] /\ sv_cells s = [].

Lemma reachable_wf s0 s : initial s0 -> rtc server_step s0 s -> wf s.
Proof.
  intros [Hc Hh] H. assert (wf s0) as H0.
  { unfold wf. rewrite Hc. split; [apply NoDup_nil_2|apply Forall_nil_2]. }
  clear Hc Hh. induction H as [|s0 s1 s2 H1 _ IH]; [done|]. by apply IH, (step_wf s0).
Qed.

(** ** What an answer changes *)
Lemma owned_distinct s i j c d t u a :
  wf s -> sv_clients s !! i = Some c -> sv_clients s !! j = Some d ->
  cl_parked c !! t = Some a -> cl_parked d !! u = Some a -> i = j /\ t = u.
Proof.
  intros [Hn _] Hi Hj Ht Hu.
  assert (NoDup (owned c)) as Hc.
  { rewrite <- (take_drop_middle _ i c Hi), bind_app, bind_cons in Hn.
    apply NoDup_app in Hn as (_ & _ & Hn). by apply NoDup_app in Hn as [Hn _]. }
  assert (i = j) as <-.
  { destruct (decide (i = j)) as [|Hne]; [done|exfalso]. revert Hn Hi Hj Hne.
    assert (a ∈ owned c) as Hac by (apply elem_of_owned; eauto).
    assert (a ∈ owned d) as Had by (apply elem_of_owned; eauto). clear Ht Hu Hc.
    generalize (sv_clients s). intros l. revert i j.
    induction l as [|x l IH]; intros [|i] [|j] Hn Hi Hj Hne; try done; rewrite bind_cons in Hn;
      apply NoDup_app in Hn as (Hx & Hdis & Hn); cbn in Hi, Hj.
    - injection Hi as ->. apply (Hdis a Hac), list_elem_of_bind. exists d. split; [done|by eapply list_elem_of_lookup_2].
    - injection Hj as ->. apply (Hdis a Had), list_elem_of_bind. exists c. split; [done|by eapply list_elem_of_lookup_2].
    - apply (IH i j); try done. congruence. }
  split; [done|]. rewrite Hi in Hj. injection Hj as <-.
  destruct (decide (t = u)) as [|Hne]; [done|exfalso]. revert Hc. unfold owned.
  rewrite <- (insert_delete_id (cl_parked c) t a Ht), map_to_list_insert by apply lookup_delete_eq.
  cbn. intros Hc. apply NoDup_cons in Hc as [Hc _]. apply Hc, list_elem_of_fmap. exists (u, a).
  split; [done|]. apply elem_of_map_to_list. by rewrite lookup_delete_ne.
Qed.

End ServerInv.
