(* ===== verification/NetCork.v ===== *)
(** * Corking

    [cork_server] stops new operations and asks every client to acknowledge;
    since a client answers in order, its acknowledgement means that everything
    sent before has been applied. *)

From stdpp Require Import base list numbers option gmap.
From Stdlib Require Import ZArith Lia.
From S2P Require Import Prelude Common Filestore Store Entries Bilog Net NetSpec Server ServerSpec ServerInv.

Local Open Scope Z_scope.

Section Cork.
Context {F : MsgFormat} {L : MsgFormatLaws} {C : Compressor} {D : Digest}.
Context {FB : StoreFormat BilogEntry} {FV : StoreFormat VFSCall}.
Context {FS : Type} (dispatch : VFSCall -> FS -> Z * FS).

(** The answers to this thread can be encoded. *)
Definition answerable (tid : Z) : Prop :=
  msg_ok (Msg_AckCork tid) /\ msg_ok (Msg_Ack (mk_AckMsg Ack tid)) /\
  forall call fs, msg_ok (Msg_Ack (mk_AckMsg (RetCode (fst (dispatch call fs))) tid)).

Definition asks (m : FsyncerMsg) : Prop :=
  match m with Msg_SyncOp _ tid | Msg_Cork tid => answerable tid | _ => True end.

Lemma handle_ok mode m fs : asks m -> Forall msg_ok (snd (handle dispatch mode m fs)).
Proof.
  unfold asks, answerable. intros Hm. destruct m; cbn; try apply Forall_nil_2.
  - destruct Hm as (_ & Ha & Hr). specialize (Hr call fs). destruct (dispatch call fs) as [code fs'].
    destruct mode; cbn; repeat first [apply Forall_nil_2 | apply Forall_cons_2]; done.
  - apply Forall_cons_2; [apply Hm|apply Forall_nil_2].
Qed.

Lemma handle_all_ok mode l : forall fs, Forall asks l -> Forall msg_ok (snd (handle_all dispatch mode l fs)).
Proof.
  induction l as [|m l IH]; intros fs Hl; [apply Forall_nil_2|]. apply Forall_cons in Hl as [Hm Hl].
  cbn [handle_all]. pose proof (handle_ok mode m fs Hm) as H1. destruct (handle dispatch mode m fs) as [fs1 a].
  pose proof (IH fs1 Hl) as H2. destruct (handle_all dispatch mode l fs1) as [fs2 b]. by apply Forall_app.
Qed.

Lemma run_asks c ops : Forall (fun o => answerable (o_tid o)) ops -> Forall asks (run_msgs c ops).
Proof.
  induction ops as [|o ops IH]; intros Ha; [apply Forall_nil_2|]. apply Forall_cons in Ha as [Ho Ha].
  unfold run_msgs. rewrite bind_cons. apply Forall_app. split; [|by apply IH].
  unfold op_msgs, op_message, flushed.
  repeat case_match; simplify_eq; repeat first [apply Forall_nil_2 | apply Forall_cons_2]; done.
Qed.

(** ** One client *)
Lemma answers_length l : (length l <= length (l ≫= ser_msg))%nat.
Proof.
  induction l as [|m l IH]; [done|]. rewrite bind_cons, length_app. pose proof (law_msg_tag m). cbn. lia.
Qed.

Lemma cork_client_ok tid l h c :
  open_client c -> parked_ok h c -> small (Msg_Cork tid) -> small Msg_NOP ->
  (cl_mode c <> MODE_CONTROL -> Forall is_answer l /\ Forall msg_ok (l ++ [Msg_AckCork tid])) ->
  exists h' c', cork_client tid ((l ++ [Msg_AckCork tid]) ≫= ser_msg) (h, c) = (Ok tt, (h', c')) /\
    (length h <= length h')%nat /\ got c c' (flushed c true (Msg_Cork tid)).
Proof.
  intros Ho Hok Hc Hn Hl. unfold cork_client. case_bool_decide as Hctl; cbn [negb].
  { rewrite response_msg_ok by done. eexists _, _. split; [reflexivity|]. split; [done|].
    split_and!; [by apply open_sent|done..]. }
  destruct (Hl Hctl) as [Ha Hm].
  destruct (park_total tid h c) as (a & h1 & c1 & Hp). rewrite (response_msg_wait _ _ _ _ _ _ _ _ Ho Hc Hn Hp).
  destruct (park_open _ _ _ _ _ _ Hp Ho) as (Ho1 & Hw1 & Hcomp1 & Hmode1 & Hp1).
  pose proof (park_step _ _ _ _ _ _ Hp) as Hst.
  set (c2 := sent c1 (flushed c true (Msg_Cork tid))).
  destruct (reader_last l Ack tid (Msg_AckCork tid) (S (length ((l ++ [Msg_AckCork tid]) ≫= ser_msg))) a h1 c2)
    as (h3 & c3 & Er & Ha3 & Hs3 & Hpk3); try done.
  { exact (cells_step_bound _ _ _ _ Hst Hok). }
  { by left. }
  { pose proof (answers_length (l ++ [Msg_AckCork tid])) as Hlen. rewrite length_app in Hlen. cbn in Hlen |- *. lia. }
  pose proof (reader_step _ _ _ _ _ _ _ _ Er) as [Hlen3 _]. rewrite Er. unfold wait. rewrite Ha3.
  eexists _, _. split; [reflexivity|]. rewrite length_insert. split; [destruct Hst; lia|].
  rewrite Hs3. destruct Ho1 as (? & ? & ?). split_and!; try done. cbn. by rewrite Hw1.
Qed.

(** ** All of them *)
Lemma cork_clients_ok tid l : forall h,
  small (Msg_Cork tid) -> small Msg_NOP ->
  (forall c answer, (c, answer) ∈ l -> open_client c /\ parked_ok h c /\
     (cl_mode c <> MODE_CONTROL -> exists a, answer = (a ++ [Msg_AckCork tid]) ≫= ser_msg /\
        Forall is_answer a /\ Forall msg_ok (a ++ [Msg_AckCork tid]))) ->
  exists h' l', cork_clients tid h l = (Ok tt, (h', l')) /\
    forall i c answer, l !! i = Some (c, answer) ->
      exists c', l' !! i = Some c' /\ got c c' (flushed c true (Msg_Cork tid)).
Proof.
  induction l as [|[c answer] l IH]; intros h Hc Hn Hl; [by eexists _, _|]. cbn [cork_clients].
  destruct (Hl c answer ltac:(left)) as (Ho & Hok & Hans).
  assert (exists h1 c1, cork_client tid answer (h, c) = (Ok tt, (h1, c1)) /\ (length h <= length h1)%nat /\
    got c c1 (flushed c true (Msg_Cork tid))) as (h1 & c1 & E1 & Hlen & Hg).
  { destruct (decide (cl_mode c = MODE_CONTROL)) as [Hctl|Hctl].
    - unfold cork_client. rewrite bool_decide_true by done. cbn [negb]. rewrite response_msg_ok by done.
      eexists _, _. split; [reflexivity|]. split; [done|]. split_and!; [by apply open_sent|done..].
    - destruct (Hans Hctl) as (a & -> & Ha & Hm). by apply cork_client_ok. }
  rewrite E1. destruct (IH h1 Hc Hn) as (h2 & l2 & -> & Hl2).
  { intros c0 a0 Hin. destruct (Hl c0 a0 ltac:(by right)) as (? & Hp & ?). split_and!; [done| |done].
    eapply Forall_impl; [exact Hp|]. intros. cbn in *. lia. }
  eexists _, _. split; [reflexivity|]. intros [|i] c0 a0 Hi; cbn in Hi |- *; [|by eapply Hl2].
  injection Hi as <- <-. by exists c1.
Qed.

(** ** The client's side *)

(** Everything the client is sent by a run and the cork after it. *)
Definition cork_bytes (c : Client) (ops : list op) (tid : Z) : list Z :=
  frames (run_msgs c ops ++ flushed c true (Msg_Cork tid)).

(** What the client makes of it. *)
Definition exchange (c : Client) (ops : list op) (tid : Z) (peer : ServerConnection * FS)
  : outcome unit * (ServerConnection * FS) :=
  let bytes := cork_bytes c ops tid in
  process_ops (returning dispatch) (S (length bytes)) (sc_left (fst peer) bytes (sc_rcv_buf (fst peer)), snd peer).

Definition answer_of (c : Client) (ops : list op) (tid : Z) (peer : ServerConnection * FS) : list Z :=
  st_out (sc_write (fst (snd (exchange c ops tid peer)))).

(** A peer whose connection works and that has not answered anything yet. *)
Definition fresh_peer (c : Client) (peer : ServerConnection * FS) : Prop :=
  open_conn (fst peer) /\ sc_mode (fst peer) = cl_mode c /\ st_out (sc_write (fst peer)) = [].

Lemma exchange_ok c ops tid peer :
  fresh_peer c peer -> run_ok ops -> sendable (Msg_Cork tid) -> sendable Msg_NOP ->
  snd (snd (exchange c ops tid peer)) =
    dispatch_all dispatch (List.filter (reaches (cl_mode c)) (o_call <$> ops)) (snd peer) /\
  answer_of c ops tid peer =
    (snd (handle_all dispatch (cl_mode c) (run_msgs c ops) (snd peer)) ++ [Msg_AckCork tid]) ≫= ser_msg.
Proof.
  intros (Ho & Hm & Hout) Hok Hc Hn. unfold answer_of, exchange, cork_bytes. cbn zeta. destruct peer as [sc fs].
  cbn [fst snd] in *. set (msgs := run_msgs c ops ++ _).
  assert (Forall sendable msgs) as Hs.
  { apply Forall_app. split; [by apply run_msgs_sendable|]. unfold flushed.
    destruct (_ && _); repeat first [apply Forall_nil_2 | apply Forall_cons_2]; done. }
  destruct (process_ops_ok dispatch (returning dispatch) msgs (S (length (frames msgs))) (sc_left sc (frames msgs) (sc_rcv_buf sc)) fs)
    as (rcv & Ep); [by destruct Ho|done|done|apply returning_agrees|pose proof (frames_length msgs); lia|].
  rewrite Ep. cbn [fst snd sc_left sc_wrote sc_write sc_mode st_out]. rewrite Hout, Hm.
  split.
  - rewrite handle_all_fs. unfold msgs. rewrite bind_app, run_msgs_calls. unfold flushed.
    destruct (_ && _); cbn; by rewrite app_nil_r.
  - unfold msgs. rewrite handle_all_app.
    destruct (handle_all dispatch (cl_mode c) (run_msgs c ops) fs) as [fs1 a]. unfold flushed.
    by destruct (_ && _).
Qed.

(** After a run every client is ready to be corked. *)
Lemma run_cork_ready ops tid s s' peers :
  run_ops ops s = (Ok tt, s') -> Forall open_client (sv_clients s) ->
  run_ok ops -> Forall (fun o => answerable (o_tid o)) ops ->
  sendable (Msg_Cork tid) -> sendable Msg_NOP -> answerable tid ->
  Forall2 fresh_peer (sv_clients s) peers -> wf s' ->
  exists h l, cork_clients tid (sv_cells s')
      (imap (fun i c => (c, default [] (zip_with (fun c => answer_of c ops tid) (sv_clients s) peers !! i)))
        (sv_clients s')) = (Ok tt, (h, l)) /\
    forall i c peer, sv_clients s !! i = Some c -> peers !! i = Some peer ->
      exists c', l !! i = Some c' /\ got c c' (run_msgs c ops ++ flushed c true (Msg_Cork tid)).
Proof.
  intros E Hopen Hok Hans Hc Hn Ht Hpeers Hwf.
  set (answers := zip_with _ _ _).
  assert (forall i c', sv_clients s' !! i = Some c' -> exists c peer, sv_clients s !! i = Some c /\
    peers !! i = Some peer /\ got c c' (run_msgs c ops) /\ fresh_peer c peer /\
    answers !! i = Some (answer_of c ops tid peer)) as Hcl.
  { intros i c' Hi'. pose proof (lookup_lt_Some _ _ _ Hi') as Hlt. rewrite (run_ops_length _ _ _ _ E) in Hlt.
    destruct (lookup_lt_is_Some_2 _ _ Hlt) as [c Hi].
    destruct (Forall2_lookup_l _ _ _ _ _ Hpeers Hi) as (peer & Hp & Hf).
    destruct (run_ops_got ops s s' i c E Hok Hi (Forall_lookup_1 _ _ _ _ Hopen Hi)) as (c1 & Hi1 & Hg).
    rewrite Hi' in Hi1. injection Hi1 as <-. exists c, peer. split_and!; try done; try apply Hg.
    unfold answers. by rewrite lookup_zip_with, Hi, Hp. }
  destruct (cork_clients_ok tid (imap (fun i c => (c, default [] (answers !! i))) (sv_clients s')) (sv_cells s'))
    as (h & l & Ec & Hl); [apply Hc|apply Hn| |].
  - intros c' answer Hin. apply list_elem_of_lookup in Hin as [i Hi]. rewrite list_lookup_imap in Hi.
    destruct (sv_clients s' !! i) as [c1|] eqn:Hi'; [|done]. cbn in Hi. injection Hi as -> Ha.
    destruct (Hcl i c' Hi') as (c & peer & Hi & Hp & Hg & Hf & Ea). rewrite Ea in Ha. cbn in Ha. subst answer.
    split; [apply Hg|]. split; [by eapply wf_parked_ok|]. intros _.
    destruct (exchange_ok c ops tid peer Hf Hok Hc Hn) as [_ ->]. eexists. split; [reflexivity|].
    split; [apply handle_answers|]. apply Forall_app. split; [by apply handle_all_ok, run_asks|].
    apply Forall_cons_2; [apply Ht|apply Forall_nil_2].
  - exists h, l. split; [done|]. intros i c peer Hi Hp.
    destruct (run_ops_got ops s s' i c E Hok Hi (Forall_lookup_1 _ _ _ _ Hopen Hi)) as (c1 & Hi1 & Hg).
    destruct (Hl i c1 (default [] (answers !! i))) as (c2 & Hi2 & Hg2); [by rewrite list_lookup_imap, Hi1|].
    exists c2. split; [done|]. eapply got_trans; [exact Hg|]. destruct Hg as (_ & _ & Hcomp & _).
    unfold flushed in *. by rewrite Hcomp in Hg2.
Qed.

End Cork.
