(* ===== verification/NetProps.v ===== *)
(** * What replication promises

    The properties of the server's and the client's side of a connection, of the
    cells of the answers, of corking and of [pre_op]. *)

From stdpp Require Import base list numbers option gmap strings relations.
From Stdlib Require Import ZArith Lia.
From S2P Require Import Prelude Common Filestore Store Entries Bilog Net NetSpec Server ServerSpec ServerInv NetCork StoreInst NetInst.

Local Open Scope Z_scope.

Section Props.
Context {F : MsgFormat} {L : MsgFormatLaws} {C : Compressor} {D : Digest}.
Context {FB : StoreFormat BilogEntry} {FV : StoreFormat VFSCall}.

(** ** Replication *)

(** C2. Whatever several threads of the server do and whatever happens to other
    clients, a client whose connection works applies to its copy exactly the
    calls meant for its mode, in the order the server sent them. *)
Theorem replication_in_order {FS} (dispatch : VFSCall -> FS -> Z * FS) ops s s' i c :
  run_ops ops s = (Ok tt, s') -> run_ok ops -> sv_clients s !! i = Some c -> open_client c ->
  exists c' bytes, sv_clients s' !! i = Some c' /\
    st_out (cl_write c') = st_out (cl_write c) ++ bytes /\
    forall sc fs, open_conn sc -> sc_mode sc = cl_mode c -> sc_read sc = bytes ->
      exists sc', process_ops (returning dispatch) (S (length bytes)) (sc, fs) =
        (Err UnexpectedEof,
         (sc', dispatch_all dispatch (List.filter (reaches (cl_mode c)) (o_call <$> ops)) fs)).
Proof.
  intros E Hok Hi Ho. destruct (run_ops_got ops s s' i c E Hok Hi Ho) as (c' & Hi' & Hg).
  exists c', (frames (run_msgs c ops)). split; [done|]. split; [apply Hg|]. intros sc fs Hsc Hmode Hread.
  destruct (process_ops_ok dispatch (returning dispatch) (run_msgs c ops) (S (length (frames (run_msgs c ops)))) sc fs Hsc Hread)
    as (rcv & Ep); [by apply run_msgs_sendable|apply returning_agrees|pose proof (frames_length (run_msgs c ops)); lia|].
  eexists. rewrite Ep. by rewrite handle_all_fs, run_msgs_calls.
Qed.

(** C5. A cork is a barrier for clients that work and take their messages one at a
    time, as [process_ops] does on a single thread: when [cork_server] returns,
    each client that is not a control connection has applied every call sent
    to it before, and no further call is sent until the server is uncorked. A
    client with several dispatch threads is not covered: it may acknowledge the
    cork while calls still run ([pool_cork_overtakes] in PoolProps). *)
Theorem cork_is_barrier {FS} (dispatch : VFSCall -> FS -> Z * FS) ops tid s s' peers :
  run_ops ops s = (Ok tt, s') -> wf s -> Forall open_client (sv_clients s) ->
  run_ok ops -> Forall (fun o => answerable dispatch (o_tid o)) ops ->
  sendable (Msg_Cork tid) -> sendable Msg_NOP -> answerable dispatch tid ->
  Forall2 fresh_peer (sv_clients s) peers ->
  exists s'', cork_server tid (zip_with (fun c => answer_of dispatch c ops tid) (sv_clients s) peers) s' = (Ok tt, s'') /\
    (forall tid' now fv call, pre_op tid' now fv call s'' = (Err WouldBlock, s'')) /\
    forall i c peer, sv_clients s !! i = Some c -> peers !! i = Some peer ->
      exists c'', sv_clients s'' !! i = Some c'' /\
        st_out (cl_write c'') = st_out (cl_write c) ++ cork_bytes c ops tid /\
        snd (snd (exchange dispatch c ops tid peer)) =
          dispatch_all dispatch (List.filter (reaches (cl_mode c)) (o_call <$> ops)) (snd peer).
Proof.
  intros E Hwf Hopen Hok Hans Hc Hn Ht Hpeers.
  assert (wf s') as Hwf' by (by eapply run_ops_wf).
  destruct (run_cork_ready dispatch ops tid s s' peers E Hopen Hok Hans Hc Hn Ht Hpeers Hwf') as (h & l & Ec & Hl).
  unfold cork_server. cbn zeta. cbn [sv_set_corked sv_cells sv_clients]. rewrite Ec.
  eexists. split; [reflexivity|]. split; [done|]. intros i c peer Hi Hp. destruct (Hl i c peer Hi Hp) as (c'' & Hi'' & Hg).
  exists c''. split; [done|]. split; [apply Hg|]. apply (exchange_ok dispatch c ops tid peer); try done.
  by eapply Forall2_lookup_lr.
Qed.

(** ** Acknowledgements *)

(** A synchronous call and its answer: the client dispatches the call once and
    the thread that waits gets the code of that dispatch. *)
Theorem sync_op_answered {FS} (dispatch : VFSCall -> FS -> Z * FS) tid call h c fs sc :
  open_client c -> parked_ok h c -> op_ok tid call ->
  open_conn sc -> (sc_mode sc = MODE_SYNC \/ sc_mode sc = MODE_FLUSHSYNC) -> st_out (sc_write sc) = [] ->
  msg_ok (Msg_Ack (mk_AckMsg (RetCode (fst (dispatch call fs))) tid)) ->
  exists a h' c' bytes, response_msg tid (Msg_SyncOp call tid) true true (h, c) = (Ok (Some a), (h', c')) /\
    st_out (cl_write c') = st_out (cl_write c) ++ bytes /\
    (sc_read sc = bytes -> exists sc',
       process_ops (returning dispatch) (S (length bytes)) (sc, fs) = (Err UnexpectedEof, (sc', snd (dispatch call fs))) /\
       exists h'' c'', reader 2 false (st_out (sc_write sc')) (h', c') = (Ok (ReaderGoesOn, []), (h'', c'')) /\
         fst (wait a h'') = Ok (Some (RetCode (fst (dispatch call fs))))).
Proof.
  intros Ho Hok (Hs & _ & Hn) Hsc Hmode Hout Hack.
  destruct (park_total tid h c) as (a & h1 & c1 & Hp).
  destruct (park_open _ _ _ _ _ _ Hp Ho) as (_ & Hw & _ & _ & Hpa).
  pose proof (cells_step_bound _ _ _ _ (park_step _ _ _ _ _ _ Hp) Hok) as Hok1.
  set (msgs := flushed c true (Msg_SyncOp call tid)).
  exists a, h1, (sent c1 msgs), (frames msgs).
  split; [apply response_msg_wait; try done; [apply Hs|apply Hn]|]. split; [cbn; by rewrite Hw|].
  intros Hread.
  assert (Forall sendable msgs) as Hsend.
  { unfold msgs, flushed. destruct (_ && _); repeat first [apply Forall_nil_2 | apply Forall_cons_2]; done. }
  destruct (process_ops_ok dispatch (returning dispatch) msgs (S (length (frames msgs))) sc fs Hsc Hread Hsend
    (returning_agrees _ _)) as (rcv & Ep).
  { pose proof (frames_length msgs). lia. }
  assert (handle_all dispatch (sc_mode sc) msgs fs = (snd (dispatch call fs),
    [Msg_Ack (mk_AckMsg (RetCode (fst (dispatch call fs))) tid)])) as Hh.
  { unfold msgs, flushed. destruct (_ && _); cbn; destruct (dispatch call fs); destruct Hmode as [-> | ->]; done. }
  rewrite Ep, Hh. cbn [fst snd]. eexists. split; [reflexivity|].
  cbn [sc_left sc_wrote sc_write st_out]. rewrite Hout. cbn [app].
  destruct (reader_last [] (RetCode (fst (dispatch call fs))) tid
    (Msg_Ack (mk_AckMsg (RetCode (fst (dispatch call fs))) tid)) 2 a h1 (sent c1 msgs)) as (h2 & c2 & Er & Hh2 & _);
    try done; [by apply Forall_cons_2|by right|cbn; lia|].
  exists h2, c2. split; [exact Er|]. unfold wait. by rewrite Hh2.
Qed.

(** C10. However the threads of the server interleave, an answer for one thread of
    one client reaches no other thread that is parked, of this or of any other
    client. *)
Theorem answers_isolated s0 s i c code tid r h' c' j d u a :
  initial s0 -> rtc server_step s0 s -> sv_clients s !! i = Some c ->
  reader_msg (Some (Msg_Ack (mk_AckMsg code tid))) (sv_cells s, c) = (r, (h', c')) ->
  sv_clients s !! j = Some d -> cl_parked d !! u = Some a -> (j <> i \/ u <> tid) ->
  h' !! a = sv_cells s !! a.
Proof.
  intros H0 Hr Hi E Hj Hu Hne. pose proof (reachable_wf s0 s H0 Hr) as Hwf.
  assert (a < length (sv_cells s))%nat as Ha.
  { apply (parked_ok_lookup (sv_cells s) d u a); [by eapply wf_parked_ok|done]. }
  unfold reader_msg, park, ClientResponse_new, notify in E. destruct (cl_parked c !! tid) as [b|] eqn:Eb.
  - rewrite Eb in E. inv E. apply list_lookup_insert_ne. intros ->.
    destruct (owned_distinct s i j _ d tid u a Hwf Hi Hj Eb Hu) as [-> ->]. by destruct Hne.
  - cbn [cl_set_parked cl_parked] in E. rewrite lookup_insert_eq in E. inv E.
    rewrite list_lookup_insert_ne by lia. by rewrite lookup_app_l.
Qed.

(** Known defect: a thread's cell is used again for its next call. An answer
    that arrives after the wait for it has timed out is taken for the answer to
    the next call, before the client has even read that call. *)
Theorem late_ack_answers_next_op tid a code m h c :
  open_client c -> sendable m -> sendable Msg_NOP ->
  cl_parked c !! tid = Some a -> h !! a = Some None ->
  wait a h = (Ok None, h) /\
  exists h1 c1 h2 c2, reader_msg (Some (Msg_Ack (mk_AckMsg code tid))) (h, c) = (Ok ReaderGoesOn, (h1, c1)) /\
    response_msg tid m true true (h1, c1) = (Ok (Some a), (h2, c2)) /\
    fst (wait a h2) = Ok (Some code).
Proof.
  intros Ho Hm Hn Hp Ha. split; [unfold wait; by rewrite Ha|].
  assert (park tid (<[a:=Some code]> h, c) = (Ok a, (<[a:=Some code]> h, c))) as Hpark
    by (unfold park; by rewrite Hp).
  eexists _, _, _, _. split; [unfold reader_msg, park, notify; by rewrite !Hp|].
  split; [apply response_msg_wait; [done|apply Hm|apply Hn|exact Hpark]|].
  unfold wait. by rewrite (list_lookup_insert_eq h a (Some code) (lookup_lt_Some _ _ _ Ha)).
Qed.

(** ** Packet compression *)

(** Known defect: with a packet compressor the client hands the packet to the
    decompressor without its first four bytes, so what it reads does not depend
    on them; a packet shorter than that makes it panic. *)
Theorem rt_comp_skips_first_word sc st nbuf rest :
  sc_rt_comp sc = Some st -> zlen nbuf < 2 ^ 32 -> sc_read sc = be32 (zlen nbuf) ++ nbuf ++ rest ->
  fst (read_msg sc) =
    if zlen nbuf <? 4 then Panic
    else match de_msg (snd (comp_decode st (drop 4 nbuf))) with
         | Some (m, _) => Ok m
         | None => Err OtherError
         end.
Proof.
  intros Hrt Hlen Hin. unfold read_msg, sc_read_exact. munfold. rewrite Hin.
  replace (4 <=? zlen _) with true
    by (symmetry; apply Z.leb_le; unfold zlen; rewrite length_app, length_be32; lia).
  change (Z.to_nat 4) with 4%nat.
  rewrite (take_app_length' (be32 _)), (drop_app_length' (be32 _)) by (by rewrite length_be32).
  cbn [sc_read sc_write sc_rcv_buf sc_mode sc_rt_comp].
  rewrite be32_val by (unfold zlen in *; lia).
  replace (zlen nbuf <=? zlen (nbuf ++ rest)) with true
    by (symmetry; apply Z.leb_le; unfold zlen; rewrite length_app; lia).
  cbn [sc_read sc_write sc_rcv_buf sc_mode sc_rt_comp]. rewrite Hrt.
  destruct (zlen nbuf <? 4); [done|]. unfold zlen. rewrite !Nat2Z.id, !take_app_length.
  destruct (comp_decode st (drop 4 nbuf)) as [st' dbuf]. cbn [snd]. by destruct (de_msg dbuf) as [[? ?]|].
Qed.

End Props.

(** ** Instances

    A table of two calls, a client that works and a copy of the file system that
    records the calls dispatched to it. *)
Definition demo_path : path := mk_path true ["a"%string].
Definition demo_calls : list VFSCall := [unlink demo_path; fsync demo_path 0].

#[local] Instance demo_msgs : MsgFormat := table_msgs demo_calls.
#[local] Instance demo_laws : MsgFormatLaws := table_msgs_laws demo_calls.
#[local] Instance demo_compressor : Compressor := no_compressor.
#[local] Instance demo_digest : Digest := byte_sum.
#[local] Instance demo_bilogs : StoreFormat BilogEntry := mapped_format (fun _ => []) (fun _ => BE_filestore demo_path 0).
#[local] Instance demo_vfscalls : StoreFormat VFSCall := mapped_format (fun _ => []) (fun _ => unlink demo_path).

Definition demo_dispatch (call : VFSCall) (fs : list VFSCall) : Z * list VFSCall := (-2, fs ++ [call]).
Definition demo_client : Client := mk_Client MODE_SYNC 0 (mk_stream [] None) None ∅ ALIVE.
Definition demo_server (c : list Client) : Server := mk_Server false c [] None JT_Invalid (mk_path true []).
Definition demo_fsview : fsview :=
  mk_fsview (fun _ => inr (mk_stat 33188 0 0 5 0 1 7 0 0 0 0)) (fun _ => inl 2) (fun _ _ => inl 2) (fun _ => Panic) (fun _ => []).
Definition demo_ops : list op :=
  [mk_op 1 0 demo_fsview (unlink demo_path); mk_op 2 0 demo_fsview (fsync demo_path 0)].
Definition demo_conn (bytes : list Z) : ServerConnection :=
  mk_ServerConnection (mk_stream [] None) bytes [] MODE_SYNC None.

Lemma demo_sendable m :
  m ∈ [Msg_SyncOp (unlink demo_path) 1; Msg_SyncOp (unlink demo_path) 2; Msg_SyncOp (fsync demo_path 0) 2;
       Msg_AsyncOp (unlink demo_path); Msg_AsyncOp (fsync demo_path 0); Msg_NOP; Msg_Cork 3] -> sendable m.
Proof.
  rewrite !elem_of_cons. intros Hm.
  repeat (destruct Hm as [-> | Hm]); [split; ground..|by apply elem_of_nil in Hm].
Qed.

Lemma demo_op_ok tid call :
  (tid, call) ∈ [(1, unlink demo_path); (2, unlink demo_path); (2, fsync demo_path 0)] -> op_ok tid call.
Proof.
  rewrite !elem_of_cons. intros Hm.
  repeat (destruct Hm as [[= -> ->] | Hm]); [split_and!; apply demo_sendable; set_solver..|by apply elem_of_nil in Hm].
Qed.

Lemma demo_run_ok : run_ok demo_ops.
Proof. repeat apply Forall_cons_2; [apply demo_op_ok; set_solver..|apply Forall_nil_2]. Qed.

Lemma demo_answerable tid : 0 <= tid < 2 ^ 64 -> answerable demo_dispatch tid.
Proof.
  intros Ht. assert (0 <= tid < 2 ^ 128) by (assert (2 ^ 64 < 2 ^ 128) by ground; lia).
  split; [|split]; [| |intros; by apply ack_code_ok]; split; done.
Qed.

Lemma demo_open : open_client demo_client.
Proof. by split_and!. Qed.

Lemma replication_in_order_witness :
  exists s' c' bytes, run_ops demo_ops (demo_server [demo_client]) = (Ok tt, s') /\ sv_clients s' !! 0%nat = Some c' /\
    st_out (cl_write c') = bytes /\
    forall sc fs, open_conn sc -> sc_mode sc = MODE_SYNC -> sc_read sc = bytes ->
      exists sc', process_ops (returning demo_dispatch) (S (length bytes)) (sc, fs) = (Err UnexpectedEof,
        (sc', dispatch_all demo_dispatch (List.filter (reaches MODE_SYNC) (o_call <$> demo_ops)) fs)).
Proof.
  destruct (run_ops demo_ops (demo_server [demo_client])) as [r s'] eqn:E.
  assert (r = Ok tt) as -> by (change r with (fst (r, s')); rewrite <- E; vm_compute; reflexivity).
  destruct (replication_in_order demo_dispatch demo_ops (demo_server [demo_client]) s' 0 demo_client E
    demo_run_ok eq_refl demo_open) as (c' & bytes & Hc & Hb & H).
  exists s', c', bytes. exact (conj eq_refl (conj Hc (conj Hb H))).
Defined.

Lemma demo_fresh : fresh_peer demo_client (demo_conn [], @nil VFSCall).
Proof. split_and!; [by split|done|done]. Qed.

Lemma demo_wf : wf (demo_server [demo_client]).
Proof. split; [apply NoDup_nil_2|apply Forall_nil_2]. Qed.

Lemma cork_is_barrier_witness :
  exists s' s'', run_ops demo_ops (demo_server [demo_client]) = (Ok tt, s') /\
    cork_server 3 [answer_of demo_dispatch demo_client demo_ops 3 (demo_conn [], [])] s' = (Ok tt, s'') /\
    pre_op 1 0 demo_fsview (unlink demo_path) s'' = (Err WouldBlock, s'') /\
    snd (snd (exchange demo_dispatch demo_client demo_ops 3 (demo_conn [], []))) = demo_calls.
Proof.
  destruct (run_ops demo_ops (demo_server [demo_client])) as [r s'] eqn:E.
  assert (r = Ok tt) as -> by (change r with (fst (r, s')); rewrite <- E; vm_compute; reflexivity).
  destruct (cork_is_barrier demo_dispatch demo_ops 3 (demo_server [demo_client]) s' [(demo_conn [], [])] E
    demo_wf (Forall_cons_2 _ _ _ demo_open (Forall_nil_2 _)) demo_run_ok) as (s'' & Hc & Hb & H).
  - repeat apply Forall_cons_2; [apply demo_answerable; done..|apply Forall_nil_2].
  - apply demo_sendable. set_solver.
  - apply demo_sendable. set_solver.
  - by apply demo_answerable.
  - apply Forall2_cons_2; [apply demo_fresh|apply Forall2_nil_2].
  - exists s', s''. destruct (H 0%nat demo_client (demo_conn [], []) eq_refl eq_refl) as (_ & _ & _ & Hx).
    exact (conj eq_refl (conj Hc (conj (Hb 1 0 demo_fsview (unlink demo_path)) Hx))).
Defined.

Lemma sync_op_answered_witness :
  exists a h' c' bytes,
    response_msg 1 (Msg_SyncOp (unlink demo_path) 1) true true ([], demo_client) = (Ok (Some a), (h', c')) /\
    st_out (cl_write c') = bytes /\ exists sc',
       process_ops (returning demo_dispatch) (S (length bytes)) (demo_conn (frames [Msg_SyncOp (unlink demo_path) 1]), []) =
         (Err UnexpectedEof, (sc', [unlink demo_path])) /\
       exists h'' c'', reader 2 false (st_out (sc_write sc')) (h', c') = (Ok (ReaderGoesOn, []), (h'', c'')) /\
         fst (wait a h'') = Ok (Some (RetCode (-2))).
Proof.
  destruct (sync_op_answered demo_dispatch 1 (unlink demo_path) [] demo_client []
    (demo_conn (frames [Msg_SyncOp (unlink demo_path) 1])) demo_open (Forall_nil_2 _))
    as (a & h' & c' & bytes & Er & Hb & H); [apply demo_op_ok; set_solver|by split|by left|done|split; ground|].
  assert (bytes = frames [Msg_SyncOp (unlink demo_path) 1]) as Hbytes.
  { cbn in Hb. rewrite <- Hb. vm_compute in Er. injection Er as _ _ <-. vm_compute. reflexivity. }
  exists a, h', c', bytes. exact (conj Er (conj Hb (H (eq_sym Hbytes)))).
Defined.

(** A client that connects, and two threads that wait for it. *)
Definition demo_init : list Z := ser_msg (Msg_InitMsg (mk_InitMsg MODE_SYNC 0 0 0 0)).
Definition busy_server : Server :=
  snd (pre_op 2 0 demo_fsview (fsync demo_path 0)
    (snd (pre_op 1 0 demo_fsview (unlink demo_path)
      (sv_set_clients (demo_server []) [] ([] ++ [demo_client]))))).

Lemma busy_reachable : rtc server_step (demo_server []) busy_server.
Proof.
  eapply rtc_l; [apply (step_accept demo_init (mk_stream [] None) true (Ok 0) (Ok tt) (demo_server []) demo_client []);
    vm_compute; reflexivity|].
  eapply rtc_l; [|apply rtc_once];
    (eapply step_pre; match goal with |- ?f ?s = _ => rewrite (surjective_pairing (f s)); reflexivity end).
Qed.

Lemma answers_isolated_witness :
  exists c h' c', sv_clients busy_server !! 0%nat = Some c /\
    reader_msg (Some (Msg_Ack (mk_AckMsg (RetCode 0) 1))) (sv_cells busy_server, c) = (Ok ReaderGoesOn, (h', c')) /\
    cl_parked c !! 2 = Some 1%nat /\ h' !! 1%nat = sv_cells busy_server !! 1%nat.
Proof.
  eexists _, _, _. split; [vm_compute; reflexivity|]. split; [vm_compute; reflexivity|].
  split; [vm_compute; reflexivity|].
  eapply (answers_isolated (demo_server []) busy_server 0 _ (RetCode 0) 1 _ _ _ 0 _ 2 1 (conj eq_refl eq_refl) busy_reachable);
    [vm_compute; reflexivity..|by right].
Defined.

Lemma late_ack_answers_next_op_witness :
  let c := mk_Client MODE_SYNC 0 (mk_stream [] None) None {[1 := 0%nat]} ALIVE in
  wait 0 [None] = (Ok None, [None]) /\
  exists h1 c1 h2 c2,
    reader_msg (Some (Msg_Ack (mk_AckMsg (RetCode 7) 1))) ([None], c) = (Ok ReaderGoesOn, (h1, c1)) /\
    response_msg 1 (Msg_SyncOp (unlink demo_path) 1) true true (h1, c1) = (Ok (Some 0%nat), (h2, c2)) /\
    fst (wait 0 h2) = Ok (Some (RetCode 7)).
Proof.
  intros c. exact (late_ack_answers_next_op 1 0 (RetCode 7) (Msg_SyncOp (unlink demo_path) 1) [None] c
    ltac:(by split_and!) ltac:(apply demo_sendable; set_solver) ltac:(apply demo_sendable; set_solver) eq_refl eq_refl).
Defined.

Lemma rt_comp_skips_first_word_witness :
  fst (read_msg (mk_ServerConnection (mk_stream [] None) (frame Msg_NOP) [] MODE_SYNC (Some comp_zstd))) = Err OtherError.
Proof.
  rewrite (rt_comp_skips_first_word (mk_ServerConnection (mk_stream [] None) (frame Msg_NOP) [] MODE_SYNC (Some comp_zstd))
    comp_zstd (ser_msg Msg_NOP) []); [reflexivity|reflexivity|ground|reflexivity].
Defined.
