(* ===== verification/HandlerProps.v ===== *)
(** * What the handlers promise

    The handlers against the clients' [dispatch], and the copies of the file
    system after a run of requests. *)

From stdpp Require Import base list numbers option gmap strings.
From Stdlib Require Import ZArith Lia.
From S2P Require Import Prelude Common Filestore Store StoreInst Entries Bilog Net NetSpec NetInst Ops OpsSpec OpsInst Server Handlers ServerSpec HandlerSpec Converge.

Local Open Scope Z_scope.

Section Props.
Context {F : MsgFormat} {L : MsgFormatLaws} {C : Compressor} {D : Digest}.
Context {FB : StoreFormat BilogEntry} {FV : StoreFormat VFSCall}.

(** ** Zeroes of a difference *)
Lemma xor_prefix_same l : xor_prefix l l = replicate (length l) 0.
Proof. induction l as [|x l IH]; [done|]. cbn. by rewrite Z.lxor_nilpotent, IH. Qed.

Lemma xor_prefix_replicate l : xor_prefix (replicate (length l) 0) l = l.
Proof. induction l as [|x l IH]; [done|]. cbn. by rewrite IH. Qed.

Lemma xor_prefix_zero a b : length b = length a -> xor_prefix a b = replicate (length a) 0 -> a = b.
Proof. intros Hl Hz. by rewrite <- (xor_prefix_cancel a b), Hz, <- Hl, xor_prefix_replicate. Qed.

Lemma leading_zeroes_replicate n : leading_zeroes (replicate n 0) = n.
Proof. induction n as [|n IH]; [done|]. cbn. by rewrite IH. Qed.

Lemma rev_zeroes n : rev (replicate n 0) = replicate n 0.
Proof. rewrite rev_alt. apply reverse_replicate. Qed.

Lemma leading_zeroes_before a x b : x <> 0 -> (leading_zeroes (a ++ x :: b) <= length a)%nat.
Proof.
  intros Hx. induction a as [|y a IH]; cbn; [by destruct x|]. destruct y; cbn; lia.
Qed.

Lemma leading_zeroes_split l :
  l = replicate (length l) 0 \/ exists x b, x <> 0 /\ l = replicate (leading_zeroes l) 0 ++ x :: b.
Proof.
  induction l as [|y l IH]; [by left|]. destruct (decide (y = 0)) as [->|Hy].
  - destruct IH as [IH|(x & b & Hx & IH)]; [left; cbn; by f_equal|]. right. exists x, b. split; [done|]. cbn. by f_equal.
  - right. exists y, l. split; [done|]. by destruct y.
Qed.

Lemma zeroes_bound l :
  l <> replicate (length l) 0 -> (leading_zeroes l + leading_zeroes (rev l) <= length l)%nat.
Proof.
  intros Hne. destruct (leading_zeroes_split l) as [Hz|(x & b & Hx & Hl)]; [done|].
  pose proof (leading_zeroes_before (rev b) x (rev (replicate (leading_zeroes l) 0)) Hx) as Hb.
  assert (rev l = rev b ++ x :: rev (replicate (leading_zeroes l) 0)) as Hr.
  { rewrite Hl at 1. rewrite rev_app_distr. cbn. by rewrite <- app_assoc. }
  rewrite Hr. rewrite length_rev in Hb. assert (length l = leading_zeroes l + S (length b))%nat as ->.
  { rewrite Hl at 1. by rewrite length_app, length_replicate. }
  lia.
Qed.

(** ** Convergence *)

(** Replicas converge: the requests served one after the other on the server's
    tree leave a client with a working connection with the same tree, if they
    had the same before; and a synchronous client answers every request with the
    code the server returned for it. *)
Theorem replicas_converge {OS1 OS2} `{Sys1 : Syscalls OS1} `{Sys2 : Syscalls OS2} r1 r2
  `{Mi : !Mirror (OS1 := OS1) (OS2 := OS2) r1 r2} l s o1 o2 codes s' o1' i c sc :
  run_requests l (s, o1) = (Ok codes, (s', o1')) -> ready_all (r1 := r1) (r2 := r2) (OS2 := OS2) l (s, o1) ->
  sv_journal s = None -> sv_path s = r1 -> run_ok (op_of <$> l) ->
  sv_clients s !! i = Some c -> open_client c -> cl_mode c <> MODE_CONTROL -> mi_rel o1 o2 ->
  open_conn sc -> sc_mode sc = cl_mode c ->
  exists c' bytes, sv_clients s' !! i = Some c' /\ st_out (cl_write c') = st_out (cl_write c) ++ bytes /\
    (sc_read sc = bytes -> exists sc' o2',
      process_ops (fun call => dispatch call r2) (S (length bytes)) (sc, o2) = (Err UnexpectedEof, (sc', o2')) /\
      mi_rel o1' o2' /\
      (cl_mode c = MODE_SYNC ->
       st_out (sc_write sc') = st_out (sc_write sc) ++ (zip_with ack_of l codes ≫= ser_msg))).
Proof. apply copy_follows. Qed.

(** ** One request *)

(** Serving a request without an open file is sending the call to the clients
    and then doing what they do: the same [dispatch], under the server's root. *)
Theorem serve_is_dispatch {OS} `{Sys : Syscalls OS} tid now fv call s os :
  unix_call call = true ->
  match call with write _ _ _ | fallocate _ _ _ _ | fsync _ _ | create _ _ _ _ => False | _ => True end ->
  serve tid now fv call None (s, os) = handler tid now fv call (dispatch call (sv_path s)) (s, os).
Proof.
  intros Hu Hc. rewrite serve_handler by done.
  by destruct call as [? ? ? []|? []| | |? ? []| |? ? []| | | | | | | |? ? []|? [[]]| | |? []].
Qed.

(** Known defect: a write with [DIFF_WRITES] over as many bytes as the file has
    there replaces the caller's buffer by its difference to the old bytes, and
    that is what the server then writes to its own file. If the bytes are the
    same as the old ones the handler panics. *)
Theorem diff_writes_store_difference {OS} `{Sys : Syscalls OS} tid now fv p buf old offset fh s os os1 :
  sys_pread (i32 fh) (zlen buf) offset os = (inr old, os1) -> length old = length buf -> buf <> [] ->
  if bool_decide (buf = old) then do_write tid now fv true p buf offset (Some fh) (s, os) = (Panic, (s, os1))
  else exists call, do_write tid now fv true p buf offset (Some fh) (s, os) =
    handler tid now fv call (xmp_write (xor_prefix buf old) offset (i32 fh)) (s, os1).
Proof.
  intros Hread Hl Hne. unfold do_write. rewrite Hread. unfold diff_call.
  destruct old as [|b0 old']; [by destruct buf|]. set (old := b0 :: old') in *.
  assert (length (xor_prefix buf old) = length buf) as Hx by apply length_xor_prefix.
  rewrite Hl, Nat.ltb_irrefl, Hx, Nat.eqb_refl.
  case_bool_decide as Heq.
  - subst buf. assert (xor_prefix old old = replicate (length old) 0) as Hz by apply xor_prefix_same.
    rewrite Hz, rev_zeroes, leading_zeroes_replicate.
    replace (Nat.ltb (length old - length old) (length old)) with true; [done|].
    symmetry. apply Nat.ltb_lt. cbn. lia.
  - replace (Nat.ltb _ _) with false; [by eexists|]. symmetry. apply Nat.ltb_ge.
    pose proof (zeroes_bound (xor_prefix buf old)) as Hb. rewrite Hx in Hb.
    enough (xor_prefix buf old <> replicate (length buf) 0) as Hn by (specialize (Hb Hn); lia).
    intros Hz. by apply Heq, xor_prefix_zero.
Qed.

(** ** Unlinking with a two-way journal *)

(** Known defect: with a two-way journal, unlinking a file that has to be kept
    for undoing succeeds without the file being stored or unlinked. The journal
    entry has the token 0 it was made with, the backing store is as before, and
    every client is told to unlink its copy. *)
Theorem bilog_unlink_keeps_file {OS} `{Sys : Syscalls OS} tid now fv p s os j j' st i c :
  sv_corked s = false -> sv_journal s = Some j -> sv_journal_type s = JT_Bilog ->
  fv_lstat fv (translate_path p (sv_path s)) = inr st ->
  is_type (st_mode st) S_IFREG = true -> st_nlink st <= 1 -> st_size st <> 0 ->
  write_entry now (BE_filestore p 0) j = (Ok tt, j') ->
  sv_clients s !! i = Some c -> open_client c -> op_ok tid (unlink p) ->
  exists s', do_unlink tid now fv p (s, os) = (Ok 0, (s', os)) /\ sv_journal s' = Some j' /\
    exists c', sv_clients s' !! i = Some c' /\ got c c' (op_msgs c (unlink p) tid).
Proof.
  intros Hc Hj Hty Hst Hreg Hl Hsz Hw Hi Ho Hok.
  destruct (send_ops_got tid (unlink p) (sv_clients s) (sv_cells s)) as (ws & h & l & Es & Hg).
  destruct (Hg i c Hi Ho Hok) as (c' & Hi' & Hgot).
  assert (bilog_try_from fv (unlink p) (sv_path s) = Ok (BE_filestore p 0)) as Hb.
  { cbn [bilog_try_from]. unfold log_unlink, translate_and_stat. rewrite Hst. cbn.
    rewrite Hreg. replace (is_type (st_mode st) S_IFLNK) with false.
    - replace (1 <? st_nlink st) with false by (symmetry; apply Z.ltb_ge; lia).
      by replace (st_size st =? 0) with false by (symmetry; apply Z.eqb_neq; lia).
    - unfold is_type in *. apply Z.eqb_eq in Hreg. by rewrite Hreg. }
  unfold do_unlink, handler, handler_with, mbind, M_bind, pre_op. cbn zeta. rewrite Hc, Es. unfold journal_op.
  cbn [sv_set_clients sv_journal sv_journal_type sv_path]. rewrite Hj, Hty, Hb.
  unfold must_write. rewrite Hw. cbn. eexists. split; [reflexivity|]. split; [done|]. by exists c'.
Qed.

End Props.

(** ** Instances

    A server and a client of the small system, under different roots, with one
    synchronous client connected. *)
Definition demo_path : path := mk_path true ["a"%string].
Definition demo_calls : list VFSCall :=
  [unlink demo_path; write demo_path 0 [1]; write demo_path 0 [2]; create demo_path 65 (Unix 0 0) 420].

#[local] Instance demo_msgs : MsgFormat := table_msgs demo_calls.
#[local] Instance demo_laws : MsgFormatLaws := table_msgs_laws demo_calls.
#[local] Instance demo_compressor : Compressor := no_compressor.
#[local] Instance demo_digest : Digest := byte_sum.
#[local] Instance demo_bilogs : StoreFormat BilogEntry := mapped_format (fun _ => []) (fun _ => BE_filestore demo_path 0).
#[local] Instance demo_vfscalls : StoreFormat VFSCall := mapped_format (fun _ => []) (fun _ => unlink demo_path).
#[local] Instance demo_sys : Syscalls toy := toy_sys.

Definition demo_root (x : string) : path := mk_path true [x].
#[local] Instance demo_mirror : Mirror (demo_root "srv") (demo_root "cli") := toy_mirror (demo_root "srv") (demo_root "cli").

Definition demo_client : Client := mk_Client MODE_SYNC 0 (mk_stream [] None) None ∅ ALIVE.
Definition demo_server : Server := mk_Server false [demo_client] [] None JT_Invalid (demo_root "srv").
Definition demo_conn (bytes : list Z) : ServerConnection :=
  mk_ServerConnection (mk_stream [] None) bytes [] MODE_SYNC None.
Definition demo_os (x : string) (files : gmap (list string) (list Z)) (fds : gmap Z (list string)) : toy :=
  mk_toy (demo_root x) files fds 5 0.
Definition demo_view : fsview :=
  mk_fsview (fun _ => inr (mk_stat 33188 0 0 5 0 1 7 0 0 0 0)) (fun _ => inl 2) (fun _ _ => inl 2) (fun _ => Panic) (fun _ => []).

Lemma demo_call_ok tid call : (tid, call) ∈ [(1, unlink demo_path); (1, write demo_path 0 [1]); (1, create demo_path 65 (Unix 0 0) 420)] ->
  op_ok tid call.
Proof.
  rewrite !elem_of_cons. intros Hm.
  repeat (destruct Hm as [[= -> ->] | Hm]); [split_and!; split; ground..|by apply elem_of_nil in Hm].
Qed.

Definition demo_requests : list req :=
  [mk_req 1 0 demo_view (create demo_path 65 (Unix 0 0) 420) None; mk_req 1 0 demo_view (write demo_path 0 [1]) (Some 5)].
Lemma demo_requests_ok : run_ok (op_of <$> demo_requests).
Proof. repeat apply Forall_cons_2; [apply demo_call_ok; set_solver..|apply Forall_nil_2]. Qed.

Definition demo_final := run_requests demo_requests (demo_server, demo_os "srv" ∅ ∅).
Definition demo_bytes : list Z :=
  match sv_clients (fst (snd demo_final)) !! 0%nat with Some c => st_out (cl_write c) | None => [] end.

Lemma replicas_converge_witness :
  exists sc' o2',
    run_requests demo_requests (demo_server, demo_os "srv" ∅ ∅) = (Ok [0; 1], snd demo_final) /\
    process_ops (fun call => dispatch call (demo_root "cli")) (S (length demo_bytes)) (demo_conn demo_bytes, demo_os "cli" ∅ ∅) =
      (Err UnexpectedEof, (sc', o2')) /\
    t_files (snd (snd demo_final)) = t_files o2' /\
    st_out (sc_write sc') = zip_with ack_of demo_requests [0; 1] ≫= ser_msg.
Proof.
  assert (run_requests demo_requests (demo_server, demo_os "srv" ∅ ∅) =
    (Ok [0; 1], (fst (snd demo_final), snd (snd demo_final)))) as E by (vm_compute; reflexivity).
  destruct (replicas_converge (demo_root "srv") (demo_root "cli") demo_requests demo_server (demo_os "srv" ∅ ∅)
    (demo_os "cli" ∅ ∅) [0; 1] (fst (snd demo_final)) (snd (snd demo_final)) 0 demo_client (demo_conn demo_bytes) E)
    as (c' & bytes & Hi & Hb & H).
  - split; [by split|split; [|exact I]]. split; [done|]. split; vm_compute; [done|by eexists].
  - done.
  - done.
  - exact demo_requests_ok.
  - done.
  - by split_and!.
  - done.
  - repeat split; done.
  - by split.
  - done.
  - assert (demo_bytes = bytes) as Hbytes by (unfold demo_bytes; rewrite Hi; exact Hb).
    destruct (H Hbytes) as (sc' & o2' & Ep & (_ & _ & Hf & _) & Ha). exists sc', o2'.
    rewrite <- Hbytes in Ep. exact (conj E (conj Ep (conj Hf (Ha eq_refl)))).
Defined.

Lemma serve_is_dispatch_witness :
  serve 1 0 demo_view (unlink demo_path) None (demo_server, demo_os "srv" {[ ["a"%string] := [7] ]} ∅) =
    handler 1 0 demo_view (unlink demo_path) (dispatch (unlink demo_path) (demo_root "srv"))
      (demo_server, demo_os "srv" {[ ["a"%string] := [7] ]} ∅).
Proof. exact (serve_is_dispatch 1 0 demo_view (unlink demo_path) demo_server _ eq_refl I). Defined.

(** The file holds 7, the caller writes 5: the server's file then holds 2. *)
Lemma diff_writes_store_difference_witness :
  let os := demo_os "srv" {[ ["a"%string] := [7] ]} {[ 3 := ["a"%string] ]} in
  (exists call, do_write 1 0 demo_view true demo_path [5] 0 (Some 3) (demo_server, os) =
    handler 1 0 demo_view call (xmp_write [2] 0 3) (demo_server, os)) /\
  t_files (snd (xmp_write [2] 0 3 os)) !! ["a"%string] = Some [2].
Proof.
  intros os. split; [|vm_compute; reflexivity].
  exact (diff_writes_store_difference 1 0 demo_view demo_path [5] [7] 0 3 demo_server os os eq_refl eq_refl ltac:(done)).
Defined.

Definition demo_bilog : Journal :=
  mk_Journal (mk_JournalHeader 0 0 0 JT_Bilog) (2 * BLOCK_SIZE) (mk_file (3 * BLOCK_SIZE) (fun _ => 0) 0) false [] 0
    (mk_FileStore 0 0 0 0 (mk_path true []) FilestoreEntry).

Lemma bilog_unlink_keeps_file_witness :
  let s := mk_Server false [demo_client] [] (Some demo_bilog) JT_Bilog (demo_root "srv") in
  let os := demo_os "srv" {[ ["a"%string] := [7] ]} ∅ in
  exists j' s', write_entry 5 (BE_filestore demo_path 0) demo_bilog = (Ok tt, j') /\
    do_unlink 1 5 demo_view demo_path (s, os) = (Ok 0, (s', os)) /\ sv_journal s' = Some j'.
Proof.
  intros s os. destruct (write_entry 5 (BE_filestore demo_path 0) demo_bilog) as [r j'] eqn:E.
  assert (r = Ok tt) as -> by (change r with (fst (r, j')); rewrite <- E; vm_compute; reflexivity).
  destruct (bilog_unlink_keeps_file 1 5 demo_view demo_path s os demo_bilog j'
    (mk_stat 33188 0 0 5 0 1 7 0 0 0 0) 0 demo_client eq_refl eq_refl eq_refl eq_refl eq_refl
    ltac:(done) ltac:(done) E eq_refl ltac:(by split_and!) ltac:(apply demo_call_ok; set_solver)) as (s' & Hu & Hj & _).
  exists j', s'. exact (conj eq_refl (conj Hu Hj)).
Defined.

(** ** Two threads *)

(** Serving one request after the other is needed for that: the code itself does
    not do the calls of two threads to the backing store in the order in which
    [pre_op] sent them. Here the first call is sent first and done last, and the
    client ends with another file than the server. *)
Theorem interleaved_writes_diverge :
  let os x := demo_os x {[ ["a"%string] := [0] ]} {[ 3 := ["a"%string] ]} in
  let a := write demo_path 0 [1] in
  let b := write demo_path 0 [2] in
  exists opref1 opref2 s1 s2 os1 os2 c sc os',
    pre_op 1 0 demo_view a demo_server = (Ok opref1, s1) /\
    pre_op 2 0 demo_view b s1 = (Ok opref2, s2) /\
    act b (demo_root "srv") (Some 3) (os "srv"%string) = (Ok 1, os1) /\
    act a (demo_root "srv") (Some 3) os1 = (Ok 1, os2) /\
    sv_clients s2 !! 0%nat = Some c /\
    process_ops (fun call => dispatch call (demo_root "cli")) (S (length (st_out (cl_write c))))
      (demo_conn (st_out (cl_write c)), os "cli"%string) = (Err UnexpectedEof, (sc, os')) /\
    t_files os2 !! ["a"%string] = Some [1] /\ t_files os' !! ["a"%string] = Some [2].
Proof.
  intros os a b. do 9 eexists. do 7 (split; [vm_compute; reflexivity|]). vm_compute. reflexivity.
Qed.
