(* ===== verification/Viewer.v ===== *)
(** * Viewing and replaying a journal: [fsyncd/src/journal/viewer.rs]

    [view] and [replay] run over one of the journal's iterators, filtered by the
    paths an entry affects; [replay] applies each payload to a backing store. A
    compiled [Regex] is what it says of a path; [look] is how an entry sees the
    backing store. What is printed is not modelled: [view] returns the entries
    it shows. *)

From stdpp Require Import base list numbers option.
From Stdlib Require Import ZArith Lia.
From S2P Require Import Prelude Common Filestore Store Entries Bilog Ops.

Local Open Scope Z_scope.

Section Loop.
Context {T : Type} {FT : StoreFormat T} {JE : JournalEntry T}.
Context {OS : Type} {Sys : Syscalls OS} (look : OS -> fsview).
Context (next : M (JournalIterator T) (option (StoreEntry T))).
Context (filter : option (path -> bool)) (inverse : bool).

(** The closure of [filter_journal]. *)
Definition keeps (e : StoreEntry T) : bool :=
  match filter with
  | None => true
  | Some is_match =>
    match e_inner e with
    | Payload e =>
      let has_match := existsb is_match (je_affected_paths e) in
      (negb has_match && inverse) || (has_match && negb inverse)
    | Time _ => true
    end
  end.

(** The next entry of [filter_journal]; an entry that cannot be read panics. *)
Fixpoint filter_journal (fuel : nat) : M (JournalIterator T) (option (StoreEntry T)) := fun it =>
  match fuel with
  | O => (NoFuel, it)
  | S fuel =>
    match next it with
    | (Ok None, it) => (Ok None, it)
    | (Ok (Some e), it) => if keeps e then (Ok (Some e), it) else filter_journal fuel it
    | (NoFuel, it) => (NoFuel, it)
    | (_, it) => (Panic, it)
    end
  end.

(** What [view] shows. *)
Fixpoint view (fuel : nat) : M (JournalIterator T) (list (StoreEntry T)) :=
  match fuel with
  | O => lift NoFuel
  | S fuel =>
    e ← filter_journal (S fuel);
    match e with
    | None => mret []
    | Some e => es ← view fuel; mret (e :: es)
    end
  end.

(** The body of the loop of [replay]: a failure to make the call or a negative
    code panics. *)
Definition replay_entry (e : StoreEntry T) (p : path) : M OS unit := fun os =>
  match e_inner e with
  | Time _ => (Ok tt, os)
  | Payload e =>
    match je_apply (look os) e p with
    | Ok vfscall =>
      match dispatch vfscall p os with
      | (Ok res, os) => (if res <? 0 then Panic else Ok tt, os)
      | (r, os) => ((fun _ => tt) <$> r, os)
      end
    | NoFuel => (NoFuel, os)
    | _ => (Panic, os)
    end
  end.

Fixpoint replay (fuel : nat) (p : path) : M (JournalIterator T * OS) unit := fun '(it, os) =>
  match fuel with
  | O => (NoFuel, (it, os))
  | S fuel' =>
    match filter_journal fuel it with
    | (Ok None, it) => (Ok tt, (it, os))
    | (Ok (Some e), it) =>
      match replay_entry e p os with
      | (Ok _, os) => replay fuel' p (it, os)
      | (r, os) => (r, (it, os))
      end
    | (r, it) => ((fun _ => tt) <$> r, (it, os))
    end
  end.

(** ** Without a filter every entry is replayed, in the order of the iterator. *)
Fixpoint replay_all (es : list (StoreEntry T)) (p : path) : M OS unit :=
  match es with
  | [] => mret tt
  | e :: es => _ ← replay_entry e p; replay_all es p
  end.

Lemma replay_collect fuel p : filter = None -> forall it os es it',
  collect next fuel it = (Ok es, it') ->
  exists it'', replay fuel p (it, os) = let '(r, os') := replay_all es p os in (r, (it'', os')).
Proof.
  intros Hf. induction fuel as [|fuel IH]; intros it os es it' E; cbn [collect] in E; [done|].
  unfold mbind, M_bind in E. cbn [replay filter_journal]. destruct (next it) as [[o| | |] it1]; try done.
  destruct o as [e|]; [|inv E; by exists it'].
  assert (keeps e = true) as -> by (unfold keeps; by rewrite Hf).
  destruct (collect next fuel it1) as [[es1| | |] it2] eqn:E1; inv E.
  cbn [replay_all]. unfold mbind, M_bind. destruct (replay_entry e p os) as [[[]| | |] os1]; try by exists it1.
  by eapply IH.
Qed.

End Loop.

(** ** [viewer_main] for [replay]

    The type of the entries is the journal's. *)
Section Main.
Context {D : Digest} {FB : StoreFormat BilogEntry} {FV : StoreFormat VFSCall}.
Context {OS : Type} {Sys : Syscalls OS} (look : OS -> fsview) (recover : Z -> path -> outcome VFSCall).

Definition replay_as {T} {FT : StoreFormat T} (JE : JournalEntry T) (reverse : bool)
  (filter : option (path -> bool)) (inverse : bool) (fuel : nat) (j : Journal) (p : path) : M OS unit := fun os =>
  let '(r, (_, os)) :=
    if reverse then replay look next_reverse filter inverse fuel p (read_reverse j, os)
    else replay look next_forward filter inverse fuel p (read_forward j, os) in
  (r, os).

Definition replay_main (reverse : bool) (filter : option (path -> bool)) (inverse : bool) (fuel : nat)
  (j : Journal) (p : path) : M OS unit :=
  match h_ty (j_header j) with
  | JT_Forward => if reverse then panic else replay_as forward_entry reverse filter inverse fuel j p
  | JT_Undo => if negb reverse then panic else mret tt
  | JT_Bilog => replay_as (bilog_entry recover) reverse filter inverse fuel j p
  | JT_Invalid => panic
  end.
End Main.
