(* ===== verification/ViewerProps.v ===== *)
(** * Recovering a copy from a journal

    A server with a forward journal serves requests; replaying that journal on
    another copy does the same calls there. *)

From stdpp Require Import base list numbers option gmap strings.
From Stdlib Require Import ZArith Lia.
From S2P Require Import Prelude Common Filestore Store StoreSpec StoreInst StoreRecovery Entries Bilog Net NetSpec NetInst Ops OpsSpec OpsInst Server Handlers ServerSpec HandlerSpec Converge HandlerProps Viewer.

Local Open Scope Z_scope.

Section Recovery.
Context {F : MsgFormat} {L : MsgFormatLaws} {C : Compressor} {D : Digest}.
Context {FB : StoreFormat BilogEntry} {FV : StoreFormat VFSCall} {LV : StoreFormatLaws VFSCall}.
Context {OS1 OS2 : Type} {Sys1 : Syscalls OS1} {Sys2 : Syscalls OS2} {r1 r2 : path}.
Context {Mi : Mirror (OS1 := OS1) (OS2 := OS2) r1 r2}.

(** ** The journal of a run *)
Lemma handler_journal tid now fv call (m : M OS1 Z) s os r s' os' j :
  handler tid now fv call m (s, os) = (Ok r, (s', os')) -> sv_journal s = Some j -> sv_journal_type s = JT_Forward ->
  m os = (Ok r, os') /\ sv_path s' = sv_path s /\ sv_journal_type s' = JT_Forward /\
  exists j', write_entry now call j = (Ok tt, j') /\ sv_journal s' = Some j'.
Proof.
  unfold handler, handler_with, mbind, M_bind, mret, M_ret, pre_op, journal_op, must_write.
  intros E Hj Ht. destruct (sv_corked s); [done|].
  destruct (send_ops tid call (sv_cells s) (sv_clients s)) as [[ws| | |] [h l]]; try done.
  cbn [sv_set_clients sv_journal sv_journal_type] in E. rewrite Hj, Ht in E.
  destruct (write_entry now call j) as [[[]| | |] j'] eqn:Ew; try done. cbn in E.
  destruct (m os) as [[a| | |] os1] eqn:Em; try done. unfold post_op in E. cbn in E.
  destruct (wait_all ws h) as [[] h']; cbn in E; try done. inv E. split_and!; try done. by exists j'.
Qed.

Definition logged (q : req) : Z * VFSCall := (q_now q, q_call q).

(** [dispatch] of the calls of a run, with their codes. *)
Fixpoint dispatch_calls (l : list VFSCall) : M OS2 (list Z) :=
  match l with
  | [] => mret []
  | call :: l => r ← dispatch call r2; rs ← dispatch_calls l; mret (r :: rs)
  end.

Lemma run_requests_journal l : forall s o1 o2 codes s' o1' j,
  run_requests l (s, o1) = (Ok codes, (s', o1')) -> ready_all (r1 := r1) (r2 := r2) (OS2 := OS2) l (s, o1) ->
  sv_journal s = Some j -> sv_journal_type s = JT_Forward -> sv_path s = r1 -> mi_rel o1 o2 ->
  exists j' o2', write_entries (logged <$> l) j = (Ok tt, j') /\ sv_journal s' = Some j' /\
    dispatch_calls (q_call <$> l) o2 = (Ok codes, o2') /\ mi_rel o1' o2'.
Proof.
  induction l as [|q l IH]; intros s o1 o2 codes s' o1' j E Hr Hj Ht Hp HR.
  { inv E. by exists j, o2. }
  destruct Hr as [Hr Hrl]. cbn [run_requests] in E. unfold mbind, M_bind, mret, M_ret in E.
  destruct (serve_req q (s, o1)) as [[r| | |] [s1 o1a]] eqn:E1; try done.
  destruct (run_requests l (s1, o1a)) as [[rs| | |] [s2 o1b]] eqn:E2; try done. inv E.
  unfold serve_req in E1. rewrite serve_handler in E1 by apply Hr.
  destruct (handler_journal _ _ _ _ _ _ _ _ _ _ _ E1 Hj Ht) as (Ea & Hp1 & Ht1 & j1 & Hw & Hj1).
  destruct (act_follows (q_call q) (q_fi q) o1 o2 Hr HR) as [He HR1]. rewrite Ea in He, HR1. cbn [fst snd] in He, HR1.
  destruct (IH s1 o1a (snd (dispatch (q_call q) r2 o2)) rs s' o1' j1 E2 Hrl Hj1 Ht1 ltac:(congruence) HR1)
    as (j' & o2' & Hws & Hj' & Hd & HR').
  exists j', o2'. cbn [fmap list_fmap write_entries dispatch_calls]. unfold mbind, M_bind, mret, M_ret. cbn [logged].
  rewrite Hw. split; [done|]. split; [done|]. split; [|done].
  destruct (dispatch (q_call q) r2 o2) as [r' o2a]. cbn [fst snd] in *. subst r'. by rewrite Hd.
Qed.

(** ** Replaying it *)
Definition payload (e : EntryContent VFSCall) : list VFSCall :=
  match e with Payload call => [call] | Time _ => [] end.

Lemma history_payloads l : forall last ctr, (history last ctr l ≫= fun r => payload (snd r)) = snd <$> l.
Proof.
  induction l as [|[now call] l IH]; intros last ctr; [done|]. cbn [history]. rewrite bind_app, IH.
  unfold entry_records. by destruct (1000000000 <? now - last).
Qed.

Lemma replay_payloads look (rs : list (Z * EntryContent VFSCall)) p : forall os,
  replay_all look (stored <$> rs) p os = replay_all look (stored <$> ((fun call => (0, Payload call)) <$> (rs ≫= fun r => payload (snd r)))) p os.
Proof.
  induction rs as [|[ctr c] rs IH]; intros os; [done|]. rewrite bind_cons, fmap_app, fmap_app, fmap_cons. cbn [replay_all].
  unfold mbind, M_bind. destruct c as [call|t]; cbn [payload snd fmap list_fmap app replay_all];
    unfold mbind, M_bind; [|apply IH].
  unfold replay_entry. cbn. destruct (dispatch call p os) as [[r| | |] os1]; try done.
  destruct (r <? 0); [done|]. apply IH.
Qed.

Lemma replay_dispatched look l : forall o2 codes o2',
  dispatch_calls l o2 = (Ok codes, o2') ->
  if forallb (fun r => 0 <=? r) codes
  then replay_all look (stored <$> ((fun call => (0, Payload call)) <$> l)) r2 o2 = (Ok tt, o2')
  else fst (replay_all look (stored <$> ((fun call => (0, Payload call)) <$> l)) r2 o2) = Panic.
Proof.
  induction l as [|call l IH]; intros o2 codes o2' E; [by inv E|]. cbn [dispatch_calls] in E. unfold mbind, M_bind in E.
  destruct (dispatch call r2 o2) as [[r| | |] o2a] eqn:Ed; try done.
  destruct (dispatch_calls l o2a) as [[rs| | |] o2b] eqn:El; inv E. pose proof (IH _ _ _ El) as Hl.
  cbn [forallb fmap list_fmap replay_all]. unfold mbind, M_bind.
  assert (replay_entry look (stored (0, Payload call)) r2 o2 = (if r <? 0 then Panic else Ok tt, o2a)) as ->
    by (unfold replay_entry; cbn; by rewrite Ed).
  destruct (Z.ltb_spec r 0) as [Hneg|Hpos].
  - by replace (0 <=? r) with false by (symmetry; apply Z.leb_gt; lia).
  - by replace (0 <=? r) with true by (symmetry; apply Z.leb_le; lia).
Qed.

(** Replaying a forward journal from which the calls of a run are read. *)
Lemma replay_run look recover inverse j now ctr l fuel it o2 codes o2' :
  h_ty (j_header j) = JT_Forward ->
  collect next_forward fuel (read_forward j) = (Ok (stored <$> history now ctr (logged <$> l)), it) ->
  dispatch_calls (q_call <$> l) o2 = (Ok codes, o2') ->
  if forallb (fun r => 0 <=? r) codes then replay_main look recover false None inverse fuel j r2 o2 = (Ok tt, o2')
  else fst (replay_main look recover false None inverse fuel j r2 o2) = Panic.
Proof.
  intros Hty Hc Hd. unfold replay_main, replay_as. rewrite Hty.
  destruct (replay_collect look next_forward None inverse fuel r2 eq_refl (read_forward j) o2 _ _ Hc) as (it' & ->).
  rewrite replay_payloads, history_payloads.
  assert (snd <$> (logged <$> l) = q_call <$> l) as -> by (by rewrite <- list_fmap_compose).
  pose proof (replay_dispatched look (q_call <$> l) o2 codes o2' Hd) as Hre.
  destruct (forallb _ codes); [by rewrite Hre|]. by destruct (replay_all _ _ r2 o2).
Qed.

(** Recovery: the journal of a server that served requests with a new forward
    journal, none of which it has dropped, brings a copy of the tree as it was
    before to the tree of the server. This needs that no request failed: a call
    is journalled before it is tried, and a failed one makes the replay panic. *)
Theorem journal_replay_recovers look recover f c st now k l s j o1 o2 codes s' o1' :
  0 < k -> HEADER_SIZE + k * BLOCK_SIZE <= f_len f < HEADER_SIZE + (k + 1) * BLOCK_SIZE -> f_len f < 2 ^ 63 ->
  c_journal_type c = JT_Forward -> Journal_new f c now (Ok st) = Ok j ->
  let rs := history now 0 (logged <$> l) in
  clock_ok now (logged <$> l) -> Forall rec_ok rs -> never_full k [] rs -> 2 * BLOCK_SIZE * (zlen rs + 1) < 2 ^ 63 ->
  mjoin (spec_history k rs) = rs ->
  run_requests l (s, o1) = (Ok codes, (s', o1')) -> ready_all (r1 := r1) (r2 := r2) (OS2 := OS2) l (s, o1) ->
  sv_journal s = Some j -> sv_journal_type s = JT_Forward -> sv_path s = r1 -> mi_rel o1 o2 ->
  exists j', sv_journal s' = Some j' /\
    if forallb (fun r => 0 <=? r) codes
    then exists o2', replay_main look recover false None false (S (length rs)) j' r2 o2 = (Ok tt, o2') /\ mi_rel o1' o2'
    else fst (replay_main look recover false None false (S (length rs)) j' r2 o2) = Panic.
Proof.
  intros Hk Hf Hlen Hty Hnew rs Hclk Hok Hnf Hb Hkept E Hr Hj Ht Hp HR.
  destruct (Journal_new_Repr f c now st k Hk Hf Hlen) as (j0 & Hnew0 & HRep & Hl & Hh).
  rewrite Hnew in Hnew0. injection Hnew0 as <-.
  destruct (run_requests_journal l s o1 o2 codes s' o1' j E Hr Hj Ht Hp HR) as (j' & o2' & Hw & Hj' & Hd & HR').
  destruct (write_entries_refines k (logged <$> l) 0 j []) as (q & j1 & Hw1 & HRep1 & _); rewrite ?Hl, ?Hh; try done.
  rewrite Hw in Hw1. injection Hw1 as <-. rewrite Hl, Hh in HRep1. cbn [h_trans_ctr] in HRep1. fold rs in HRep1.
  exists j'. split; [done|].
  destruct (collect_forward_at k q j' (foldl (spec_write k) [] rs) (read_forward j')
    (mjoin (spec_history k rs)) (S (length rs))) as (it & Hc);
    [exact HRep1|done|by apply at_forward_start|rewrite Hkept; lia|]. rewrite Hkept in Hc.
  assert (h_ty (j_header j') = JT_Forward) as Hty'.
  { rewrite (write_entries_type _ _ _ _ Hw), Hh. done. }
  pose proof (replay_run look recover false j' now 0 l (S (length rs)) it o2 codes o2' Hty' Hc Hd) as Hre.
  destruct (forallb _ codes); [by exists o2'|done].
Qed.

End Recovery.

(** ** An instance

    The server of [HandlerProps] with a journal of two blocks, and another copy. *)
#[local] Existing Instance demo_msgs.
#[local] Existing Instance demo_laws.
#[local] Existing Instance demo_compressor.
#[local] Existing Instance demo_digest.
#[local] Existing Instance demo_bilogs.
#[local] Existing Instance demo_sys.
#[local] Existing Instance demo_mirror.

Definition call_bytes (call : VFSCall) : list Z := [call_index demo_calls call].
Definition bytes_call (l : list Z) : VFSCall :=
  match l with [n] => default (unlink demo_path) (demo_calls !! Z.to_nat n) | _ => unlink demo_path end.
#[local] Instance log_format : StoreFormat VFSCall := mapped_format call_bytes bytes_call.
#[local] Instance log_laws : StoreFormatLaws VFSCall := mapped_format_laws call_bytes bytes_call.

Definition log_file : file := mk_file (24 + 2 * BLOCK_SIZE) (fun _ => 0) 0.
Definition log_store : FileStore := mk_FileStore 0 0 0 0 (mk_path true []) FilestoreEntry.
Definition log_journal : Journal :=
  mk_Journal (mk_JournalHeader 0 0 0 JT_Forward) (2 * BLOCK_SIZE) log_file false [] 0 log_store.
Definition log_server : Server := mk_Server false [demo_client] [] (Some log_journal) JT_Forward (demo_root "srv").
Definition log_final := run_requests demo_requests (log_server, demo_os "srv" ∅ ∅).
Definition log_view (o : toy) : fsview := demo_view.

Lemma journal_replay_recovers_witness :
  exists j' o2', sv_journal (fst (snd log_final)) = Some j' /\
    replay_main log_view (fun _ p => Ok (unlink p)) false None false 3 j' (demo_root "cli") (demo_os "cli" ∅ ∅) = (Ok tt, o2') /\
    t_files (snd (snd log_final)) = t_files o2' /\ t_files o2' !! ["a"%string] = Some [1].
Proof.
  assert (run_requests demo_requests (log_server, demo_os "srv" ∅ ∅) =
    (Ok [0; 1], (fst (snd log_final), snd (snd log_final)))) as E by (vm_compute; reflexivity).
  destruct (journal_replay_recovers (r1 := demo_root "srv") (r2 := demo_root "cli") log_view (fun _ p => Ok (unlink p)) log_file
    (mk_JournalConfig false (24 + 2 * BLOCK_SIZE) 0 (mk_path true []) JT_Forward) log_store 0 2 demo_requests
    log_server log_journal (demo_os "srv" ∅ ∅) (demo_os "cli" ∅ ∅) [0; 1] (fst (snd log_final)) (snd (snd log_final)))
    as (j' & Hj & o2' & Hr & _ & _ & Hf & _); [ground|ground|ground|done|reflexivity|ground| |ground|ground| |exact E| |done|done|done| |].
  - repeat constructor; ground.
  - vm_compute. reflexivity.
  - split; [by split|split; [|exact I]]. split; [done|]. split; vm_compute; [done|by eexists].
  - repeat split; done.
  - exists j', o2'. split; [exact Hj|]. split; [exact Hr|]. split; [exact Hf|]. rewrite <- Hf. vm_compute. reflexivity.
Defined.
