(* ===== verification/Iolimit.v ===== *)
(** * The bandwidth limiter: [iolimit/src/lib.rs]

    A writer that lets [bps] bytes through at once and then [bps / 1000] bytes
    for every millisecond. The inner writer, the clock and [sleep] are
    parameters; instants and durations are nanoseconds. *)

From stdpp Require Import base list numbers option.
From Stdlib Require Import ZArith Lia.
From S2P Require Import Prelude.

Local Open Scope Z_scope.

(** [cl_now] is [Instant::now], [cl_sleep] is [thread::sleep]. *)
Class Clock (W : Type) := {
  cl_now : W -> Z * W;
  cl_sleep : Z -> W -> W }.

(** [cl_floor w] is a time before every reading to come. The documented behaviour
    of the clock: readings do not go back, and a sleep takes at least its
    duration; and that some time passes between two readings. *)
Class ClockLaws {W} (Cl : Clock W) := {
  cl_floor : W -> Z;
  law_now w : cl_floor w <= fst (cl_now w) < cl_floor (snd (cl_now w));
  law_sleep d w : 0 <= d -> cl_floor w + d <= cl_floor (cl_sleep d w) }.

(** [Write::write] of the inner writer: how many bytes it took. *)
Class Writer (W : Type) := inner_write : list Z -> M W Z.
Class WriterLaws {W} (Wr : Writer W) {Cl : Clock W} (CL : ClockLaws Cl) := {
  law_taken buf w n w' : inner_write buf w = (Ok n, w') -> 0 <= n <= zlen buf;
  law_time buf w : cl_floor w <= cl_floor (snd (inner_write buf w)) }.

Record LimitWriter := mk_LimitWriter {
  bytes_left : Z; bps : Z; last_updated : Z; blocking : bool; partial_writes : bool }.

Definition set_left (l : LimitWriter) (n : Z) : LimitWriter :=
  mk_LimitWriter n (bps l) (last_updated l) (blocking l) (partial_writes l).
Definition set_updated (l : LimitWriter) (t : Z) : LimitWriter :=
  mk_LimitWriter (bytes_left l) (bps l) t (blocking l) (partial_writes l).

(** [set_blocking] and [set_partial_writes]. *)
Definition set_blocking (l : LimitWriter) (b : bool) : LimitWriter :=
  mk_LimitWriter (bytes_left l) (bps l) (last_updated l) b (partial_writes l).
Definition set_partial_writes (l : LimitWriter) (b : bool) : LimitWriter :=
  mk_LimitWriter (bytes_left l) (bps l) (last_updated l) (blocking l) b.

Section Limit.
Context {W : Type} {Cl : Clock W} {Wr : Writer W}.

Definition now : M W Z := fun w => let '(t, w) := cl_now w in (Ok t, w).
Definition sleep (d : Z) : M W unit := fun w => (Ok tt, cl_sleep d w).

Definition LimitWriter_new (b : Z) : M W LimitWriter :=
  t ← now; mret (mk_LimitWriter b b t true false).

(** [sleep_until]: the loop from [now] on. *)
Fixpoint sleep_from (fuel : nat) (i t : Z) : M W Z :=
  match fuel with
  | O => lift NoFuel
  | S fuel =>
    if i <? t then mret t
    else _ ← sleep (i - t); t ← now; sleep_from fuel i t
  end.

Definition sleep_until (fuel : nat) (i : Z) : M W Z := t ← now; sleep_from fuel i t.

Definition MILLI : Z := 1000000.

(** [u / v] panics for [v = 0]. *)
Definition checked_div (u v : Z) : outcome Z := if v =? 0 then Panic else Ok (u / v).

(** An action of the clock. *)
Definition timed {A} (m : M W A) : M (LimitWriter * W) A := fun '(l, w) => let '(r, w) := m w in (r, (l, w)).
Definition update (f : LimitWriter -> LimitWriter) : M (LimitWriter * W) unit := modify (fun '(l, w) => (f l, w)).
Definition limiter : M (LimitWriter * W) LimitWriter := '(l, _) ← get; mret l.

(** The quota after some time without writing. *)
Definition refill (len t : Z) (l : LimitWriter) : LimitWriter :=
  let add := Z.min (u64 (u64 ((t - last_updated l) / MILLI) * (bps l / 1000)))
               (Z.max (len - bytes_left l) (bps l)) in
  set_updated (set_left l (u64 (bytes_left l + add))) t.

(** The loop used as a goto: the bytes to write. *)
Definition throttle (fuel : nat) (buf : list Z) : M (LimitWriter * W) (list Z) :=
  l ← limiter;
  if bps l =? 0 then mret buf
  else if zlen buf <=? bytes_left l then mret buf
  else if partial_writes l && negb (bytes_left l =? 0)
  then mret (take (Z.to_nat (Z.min (bytes_left l) (zlen buf))) buf)
  else
    t ← timed now;
    if t <? last_updated l then panic
    else
      _ ← update (refill (zlen buf) t);
      l ← limiter;
      if zlen buf <=? bytes_left l then mret buf
      else if blocking l then
        ms ← lift (checked_div (zlen buf - bytes_left l) (bps l / 1000));
        t ← timed (sleep_until fuel (t + ms * MILLI));
        _ ← update (fun l => set_updated l t);
        mret buf
      else throw WouldBlock.

Definition limit_write (fuel : nat) (buf : list Z) : M (LimitWriter * W) Z :=
  buf ← throttle fuel buf;
  written ← timed (inner_write buf);
  _ ← update (fun l => set_left l (bytes_left l - Z.min written (bytes_left l)));
  mret written.

(** ** Sleeping *)
Context {CL : ClockLaws Cl} {WL : WriterLaws Wr CL}.

Lemma now_spec w : exists t w', now w = (Ok t, w') /\ cl_floor w <= t < cl_floor w'.
Proof. unfold now. pose proof (law_now w). destruct (cl_now w) as [t w']. by exists t, w'. Qed.

Lemma sleep_until_spec fuel i w :
  (2 <= fuel)%nat -> exists t w', sleep_until fuel i w = (Ok t, w') /\ i < t < cl_floor w' /\ cl_floor w <= t.
Proof.
  intros Hf. destruct fuel as [|[|fuel]]; [lia|lia|]. unfold sleep_until.
  destruct (now_spec w) as (t & w1 & E & Ht). unfold mbind, M_bind. rewrite E. cbn [sleep_from].
  destruct (Z.ltb_spec i t) as [Hit|Hit]; [exists t, w1; by repeat split; try lia|].
  unfold sleep, mbind, M_bind. pose proof (law_sleep (i - t) w1 ltac:(lia)) as Hs.
  destruct (now_spec (cl_sleep (i - t) w1)) as (t' & w2 & E2 & Ht2). rewrite E2.
  destruct (Z.ltb_spec i t'); [|lia]. exists t', w2. repeat split; try lia.
Qed.

End Limit.
