(* ===== verification/IolimitProps.v ===== *)
(** * What the limiter promises *)

From stdpp Require Import base list numbers option.
From Stdlib Require Import ZArith Lia.
From S2P Require Import Prelude Iolimit.

Local Open Scope Z_scope.

Section Props.
Context {W : Type} {Cl : Clock W} {Wr : Writer W} {CL : ClockLaws Cl} {WL : WriterLaws Wr CL}.

(** Sleeping ends, after at most two readings of the clock, and not before its
    time. *)
Theorem sleep_until_returns fuel i w :
  (2 <= fuel)%nat -> exists t w', sleep_until fuel i w = (Ok t, w') /\ i < t < cl_floor w' /\ cl_floor w <= t.
Proof. apply sleep_until_spec. Qed.

(** ** The quota

    [quota t0 n l written]: [written] bytes after [n] writes are within the
    quota of the time up to the last update, with one millisecond more for each
    write for the rounding of its wait. *)
Definition quota (t0 n written : Z) (l : LimitWriter) : Prop :=
  0 <= bytes_left l /\
  MILLI * (written + bytes_left l) <= MILLI * (bps l + n * (bps l / 1000)) + (bps l / 1000) * (last_updated l - t0).

Lemma u64_le z : 0 <= z -> 0 <= u64 z <= z.
Proof. intros Hz. split; [apply u64_range|]. unfold u64, wrap. apply Z.mod_le; lia. Qed.

Lemma refill_quota len t l t0 n written :
  1000 <= bps l -> quota t0 n written l -> last_updated l <= t -> bytes_left l < len ->
  quota t0 n written (refill len t l) /\ bps (refill len t l) = bps l /\ last_updated (refill len t l) = t.
Proof.
  intros Hb [H0 Hq] Ht Hlen. unfold refill. set (rate := bps l / 1000) in *.
  assert (1 <= rate) as Hrate by (unfold rate; apply Z.div_le_lower_bound; lia).
  set (ms := (t - last_updated l) / MILLI).
  assert (0 <= ms /\ MILLI * ms <= t - last_updated l) as [Hms Hms'].
  { unfold ms, MILLI. split; [apply Z.div_pos; lia|apply Z.mul_div_le; lia]. }
  pose proof (u64_le ms Hms) as Hu. pose proof (u64_le (u64 ms * rate) ltac:(nia)) as Hu2.
  set (add := Z.min _ _). assert (0 <= add /\ add <= ms * rate) as [Ha Ha'] by (unfold add; nia).
  pose proof (u64_le (bytes_left l + add) ltac:(lia)) as Hu3.
  split; [|done]. unfold quota, set_updated, set_left; cbn [bytes_left bps last_updated]. fold rate.
  split; [lia|]. unfold MILLI in *. nia.
Qed.

(** What a write does before the inner writer. *)
Lemma throttle_quota fuel buf l w r l' w' t0 n written :
  (2 <= fuel)%nat -> 1000 <= bps l -> partial_writes l = false -> blocking l = true ->
  quota t0 n written l -> last_updated l <= cl_floor w -> throttle fuel buf (l, w) = (r, (l', w')) ->
  r = Ok buf /\ bps l' = bps l /\ partial_writes l' = false /\ blocking l' = true /\ last_updated l' <= cl_floor w' /\
  cl_floor w <= cl_floor w' /\ 0 <= bytes_left l' /\
  MILLI * (written + Z.max (zlen buf) (bytes_left l')) <=
    MILLI * (bps l + (n + 1) * (bps l / 1000)) + (bps l / 1000) * (last_updated l' - t0).
Proof.
  intros Hf Hb Hp Hbl Hq Hlast. unfold throttle, limiter. munfold.
  assert (1 <= bps l / 1000) as Hrate by (apply Z.div_le_lower_bound; lia).
  rewrite (proj2 (Z.eqb_neq (bps l) 0)) by lia. pose proof Hq as [H0 Hq'].
  destruct (Z.leb_spec (zlen buf) (bytes_left l)) as [Hle|Hgt].
  { intros [= <- <- <-]. split_and!; try done; try lia. unfold MILLI in *. nia. }
  rewrite Hp. cbn [andb]. unfold timed. destruct (now_spec w) as (t & w1 & -> & Ht).
  rewrite (proj2 (Z.ltb_ge t (last_updated l))) by lia. unfold update. munfold.
  destruct (refill_quota (zlen buf) t l t0 n written Hb Hq ltac:(lia) Hgt) as ([H1 Hq1] & Hb1 & Hl1).
  rewrite Hb1, Hl1 in Hq1. set (l1 := refill (zlen buf) t l) in *.
  assert (blocking l1 = true /\ partial_writes l1 = false) as [Hbl1 Hp1] by done.
  destruct (Z.leb_spec (zlen buf) (bytes_left l1)) as [Hle1|Hgt1].
  { intros [= <- <- <-]. rewrite Hl1. split_and!; try done; try lia. unfold MILLI in *. nia. }
  rewrite Hbl1, Hb1. unfold checked_div. rewrite (proj2 (Z.eqb_neq (bps l / 1000) 0)) by lia.
  set (ms := (zlen buf - bytes_left l1) / (bps l / 1000)).
  destruct (sleep_until_spec fuel (t + ms * MILLI) w1 Hf) as (t' & w2 & -> & Ht' & Hw2).
  intros [= <- <- <-]. cbn [set_updated bps partial_writes blocking last_updated bytes_left].
  assert (zlen buf - bytes_left l1 < (ms + 1) * (bps l / 1000)) as Hms.
  { unfold ms. pose proof (Z.mul_succ_div_gt (zlen buf - bytes_left l1) (bps l / 1000) ltac:(lia)). lia. }
  split_and!; try done; try lia. unfold MILLI in *. nia.
Qed.

Fixpoint write_run (fuel : nat) (bufs : list (list Z)) : M (LimitWriter * W) Z :=
  match bufs with
  | [] => mret 0
  | buf :: bufs => n ← limit_write fuel buf; m ← write_run fuel bufs; mret (n + m)
  end.

Lemma write_run_quota fuel bufs : forall l w t0 n written total l' w',
  (2 <= fuel)%nat -> 1000 <= bps l -> partial_writes l = false -> blocking l = true ->
  quota t0 n written l -> last_updated l <= cl_floor w -> write_run fuel bufs (l, w) = (Ok total, (l', w')) ->
  bps l' = bps l /\ last_updated l' <= cl_floor w' /\ quota t0 (n + zlen bufs) (written + total) l'.
Proof.
  induction bufs as [|buf bufs IH]; intros l w t0 n written total l' w' Hf Hb Hp Hbl Hq Hlast E.
  { inv E. change (zlen []) with 0. by rewrite !Z.add_0_r. }
  cbn [write_run] in E. unfold mbind, M_bind, mret, M_ret in E. unfold limit_write in E.
  unfold mbind at 1, M_bind at 1 in E.
  destruct (throttle fuel buf (l, w)) as [r [l1 w1]] eqn:Et.
  destruct (throttle_quota _ _ _ _ _ _ _ t0 n written Hf Hb Hp Hbl Hq Hlast Et)
    as (-> & Hb1 & Hp1 & Hbl1 & Hl1 & Hw1 & H1 & Hq1).
  unfold mbind, M_bind, mret, M_ret, timed, update, modify in E.
  destruct (inner_write buf w1) as [[k| | |] w2] eqn:Ei; try done.
  pose proof (law_taken _ _ _ _ Ei) as Hk. pose proof (law_time buf w1) as Htm. rewrite Ei in Htm. cbn [snd] in Htm.
  set (l2 := set_left l1 (bytes_left l1 - Z.min k (bytes_left l1))) in E.
  destruct (write_run fuel bufs (l2, w2)) as [[m| | |] [l3 w3]] eqn:Er; inv E.
  assert (quota t0 (n + 1) (written + k) l2) as Hq2.
  { unfold quota, l2. cbn [set_left bytes_left bps last_updated]. rewrite Hb1. split; [lia|]. unfold MILLI in *. nia. }
  destruct (IH l2 w2 t0 (n + 1) (written + k) m l' w' Hf) as (Hb3 & Hl3 & Hq3); try done; cbn; try lia.
  rewrite zlen_cons. replace (n + (1 + zlen bufs)) with (n + 1 + zlen bufs) by lia.
  replace (written + (k + m)) with (written + k + m) by lia. cbn in Hb3. split_and!; [congruence|done|done].
Qed.

(** C34. The rate: with the default settings, a run of writes puts through at most
    [bps] bytes, [bps / 1000] bytes for every millisecond since the limiter was
    made, and as much again for every write. *)
Theorem limiter_rate fuel b w bufs l0 w0 total l w' :
  (2 <= fuel)%nat -> 1000 <= b -> LimitWriter_new b w = (Ok l0, w0) ->
  write_run fuel bufs (l0, w0) = (Ok total, (l, w')) ->
  MILLI * total <= MILLI * (b + zlen bufs * (b / 1000)) + (b / 1000) * (cl_floor w' - cl_floor w).
Proof.
  intros Hf Hb Hn E. unfold LimitWriter_new in Hn. unfold mbind, M_bind, mret, M_ret in Hn.
  destruct (now_spec w) as (t0 & w1 & Et & Ht). rewrite Et in Hn. injection Hn as <- <-.
  destruct (write_run_quota fuel bufs (mk_LimitWriter b b t0 true false) w1 t0 0 0 total l w' Hf) as (Hb' & Hl & H0 & Hq);
    try done; cbn [bps last_updated]; [|lia|].
  { split; cbn; [lia|]. unfold MILLI. lia. }
  cbn [bps] in Hb'. rewrite Hb' in Hq. rewrite !Z.add_0_l in Hq.
  assert (1 <= b / 1000) by (apply Z.div_le_lower_bound; lia). unfold MILLI in *. nia.
Qed.

(** Known defect: with a limit below 1000 bytes the first write that has to wait
    divides by zero. *)
Lemma small_limit_panics fuel buf l w :
  0 < bps l < 1000 -> partial_writes l = false -> blocking l = true -> 0 <= bytes_left l < zlen buf -> bytes_left l < 2 ^ 64 ->
  last_updated l <= cl_floor w -> fst (throttle fuel buf (l, w)) = Panic.
Proof.
  intros Hb Hp Hbl Hl Hl' Hlast. unfold throttle, limiter. munfold.
  rewrite (proj2 (Z.eqb_neq (bps l) 0)) by lia. rewrite (proj2 (Z.leb_gt (zlen buf) (bytes_left l))) by lia.
  rewrite Hp. cbn [andb]. unfold timed. destruct (now_spec w) as (t & w1 & -> & Ht).
  rewrite (proj2 (Z.ltb_ge t (last_updated l))) by lia. unfold update. munfold.
  unfold refill. rewrite (Z.div_small (bps l) 1000) by lia. rewrite Z.mul_0_r. change (u64 0) with 0.
  rewrite Z.min_l, Z.add_0_r, (u64_small (bytes_left l)) by lia. cbn [set_updated set_left bytes_left blocking bps].
  rewrite (proj2 (Z.leb_gt (zlen buf) (bytes_left l))) by lia. rewrite Hbl.
  by rewrite (Z.div_small (bps l) 1000) by lia.
Qed.

End Props.

(** ** Instances

    A clock of which every reading takes a nanosecond, and a writer that takes
    everything. *)
Definition demo_world : Type := Z * list Z.

#[local] Instance demo_clock : Clock demo_world := {|
  cl_now := fun w => (fst w, (fst w + 1, snd w)); cl_sleep := fun d w => (fst w + d, snd w) |}.
#[local] Instance demo_clock_laws : ClockLaws demo_clock.
Proof.
  refine (Build_ClockLaws _ demo_clock fst _ _).
  - intros w. cbn. lia.
  - intros d w Hd. cbn. lia.
Defined.
#[local] Instance demo_writer : Writer demo_world := fun buf w => (Ok (zlen buf), (fst w, snd w ++ buf)).
#[local] Instance demo_writer_laws : WriterLaws demo_writer demo_clock_laws.
Proof.
  constructor.
  - intros buf w n w' [= <- _]. unfold zlen. lia.
  - intros buf w. cbn. lia.
Defined.

Lemma sleep_until_returns_witness : exists t w', sleep_until 2 5 (0, []) = (Ok t, w') /\ 5 < t < fst w' /\ 0 <= t.
Proof. exact (sleep_until_returns 2 5 (0, []) (le_n 2)). Defined.

(** Three writes of 3000 bytes at 2000 bytes a second take more than 3 s. *)
Definition demo_bufs : list (list Z) := replicate 3 (replicate (Z.to_nat 3000) 0).

Lemma limiter_rate_witness :
  exists l w', write_run 2 demo_bufs (mk_LimitWriter 2000 2000 0 true false, (1, [])) = (Ok 9000, (l, w')) /\
    MILLI * 9000 <= MILLI * (2000 + 3 * 2) + 2 * fst w'.
Proof.
  destruct (write_run 2 demo_bufs (mk_LimitWriter 2000 2000 0 true false, (1, []))) as [r [l w']] eqn:E.
  assert (r = Ok 9000) as -> by (change r with (fst (r, (l, w'))); rewrite <- E; vm_compute; reflexivity).
  exists l, w'. split; [reflexivity|]. rewrite <- (Z.sub_0_r (fst w')).
  exact (limiter_rate 2 2000 (0, []) demo_bufs _ _ 9000 l w' (le_n 2) ltac:(lia) eq_refl E).
Defined.
