(* ===== verification/Sockets.v ===== *)
(** * The socket of a client: [fsyncd/src/server/net.rs]

    What [Client::from_stream] writes to, without a compressed stream, is a
    [LimitWriter] around [NagleFlush], which sends every write with [MSG_MORE] and
    lets go of the rest in [flush]. [Net] takes all of this for a [stream]; here
    is why it may. [write_all] is the standard library's. *)

From stdpp Require Import base list numbers option.
From Stdlib Require Import ZArith Lia.
From S2P Require Import Prelude Common Net Iolimit IolimitProps.

Local Open Scope Z_scope.

(** [send] with [MSG_MORE], [setsockopt] of [TCP_CORK] to 0, and [errno]. *)
Class TcpStack (W : Type) := {
  tcp_send : list Z -> W -> Z * W;
  tcp_push : W -> W;
  tcp_errno : W -> Z }.

Section Sockets.
Context {W : Type} {Cl : Clock W} {Tcp : TcpStack W}.

(** [impl Write for NagleFlush]. *)
Definition NagleFlush_write (buf : list Z) : M W Z := fun w =>
  let '(res, w) := tcp_send buf w in
  (if res =? -1 then Err (OsError (tcp_errno w)) else Ok res, w).

Definition NagleFlush_flush : M W unit := fun w => (Ok tt, tcp_push w).

#[local] Instance NagleFlush_writer : Writer W := NagleFlush_write.

(** [Write::write_all] and [flush] of the limiter; no signal interrupts [send]. *)
Fixpoint write_all (fuel : nat) (buf : list Z) : M (LimitWriter * W) unit :=
  match fuel with
  | O => lift NoFuel
  | S fuel =>
    match buf with
    | [] => mret tt
    | _ => n ← limit_write 2 buf; if n =? 0 then throw OtherError else write_all fuel (drop (Z.to_nat n) buf)
    end
  end.

Definition limit_flush : M (LimitWriter * W) unit := timed NagleFlush_flush.

(** What a client does to its writer: it writes a buffer or flushes. *)
Fixpoint run_writes {A} (wr : list Z -> M A unit) (fl : M A unit) (ops : list (option (list Z))) : M A unit :=
  match ops with
  | [] => mret tt
  | Some buf :: ops => _ ← wr buf; run_writes wr fl ops
  | None :: ops => _ ← fl; run_writes wr fl ops
  end.

(** ** What the system promises

    [sent] are the bytes it has taken, in order, and [released] those of them that
    it does not hold back for more to come; it may let go of more at any time. *)
Class TcpLaws {CL : ClockLaws Cl} := {
  sent : W -> list Z;
  released : W -> list Z;
  law_send buf w n w' : tcp_send buf w = (n, w') ->
    sent w' = sent w ++ take (Z.to_nat n) buf /\ (n = -1 \/ 0 <= n <= zlen buf) /\ (buf <> [] -> n <> 0) /\
    cl_floor w <= cl_floor w';
  law_push w : sent (tcp_push w) = sent w /\ released (tcp_push w) = sent w /\ cl_floor w <= cl_floor (tcp_push w);
  law_now_sent w : sent (snd (cl_now w)) = sent w;
  law_sleep_sent d w : sent (cl_sleep d w) = sent w }.

Context {CL : ClockLaws Cl} {TL : TcpLaws (CL := CL)}.

#[local] Instance NagleFlush_laws : WriterLaws NagleFlush_writer CL.
Proof.
  constructor.
  - intros buf w n w'. unfold inner_write, NagleFlush_writer, NagleFlush_write. destruct (tcp_send buf w) as [res w1] eqn:E.
    destruct (law_send _ _ _ _ E) as (_ & Hn & _). destruct (Z.eqb_spec res (-1)); [done|]. intros [= <- <-]. lia.
  - intros buf w. unfold inner_write, NagleFlush_writer, NagleFlush_write. destruct (tcp_send buf w) as [res w1] eqn:E.
    by destruct (law_send _ _ _ _ E) as (_ & _ & _ & Hc).
Defined.

(** A limiter as [from_stream] makes it, with a limit that can be divided by
    1000 or none. *)
Definition ready (l : LimitWriter) (w : W) : Prop :=
  (bps l = 0 \/ 1000 <= bps l) /\ partial_writes l = false /\ blocking l = true /\ 0 <= bytes_left l /\
  last_updated l <= cl_floor w.

Lemma new_ready b w l w' : b = 0 \/ 1000 <= b -> LimitWriter_new b w = (Ok l, w') -> ready l w' /\ sent w' = sent w.
Proof.
  intros Hb. unfold LimitWriter_new, now. munfold. pose proof (law_now w). pose proof (law_now_sent w).
  destruct (cl_now w) as [t w1]. intros [= <- <-]. split; [|done]. split_and!; cbn in *; try done; lia.
Qed.

(** Waiting sends nothing. *)
Lemma sleep_from_sent fuel i : forall t w, sent (snd (sleep_from fuel i t w)) = sent w.
Proof.
  induction fuel as [|fuel IH]; intros t w; cbn [sleep_from]; [done|]. destruct (i <? t); [done|].
  unfold sleep, now. munfold. pose proof (law_now_sent (cl_sleep (i - t) w)) as Hn. rewrite law_sleep_sent in Hn.
  destruct (cl_now _) as [t' w']. cbn [snd] in Hn. by rewrite IH.
Qed.

Lemma throttle_sent fuel buf l w : sent (snd (snd (throttle fuel buf (l, w)))) = sent w.
Proof.
  unfold throttle, limiter, timed, update, sleep_until, now. munfold.
  destruct (bps l =? 0); [done|]. destruct (zlen buf <=? bytes_left l); [done|].
  destruct (partial_writes l && _); [done|]. pose proof (law_now_sent w) as Hn. destruct (cl_now w) as [t w1]. cbn [snd] in Hn.
  destruct (t <? last_updated l); [done|]. set (l1 := refill _ _ _). destruct (zlen buf <=? bytes_left l1); [done|].
  destruct (blocking l1); [|done]. destruct (checked_div _ _) as [ms| | |]; try done. cbn.
  pose proof (law_now_sent w1) as Hn1. destruct (cl_now w1) as [t1 w2]. cbn [snd] in Hn1.
  pose proof (sleep_from_sent fuel (t + ms * MILLI) t1 w2) as Hs.
  destruct (sleep_from fuel (t + ms * MILLI) t1 w2) as [[t2| | |] w3]; cbn in *; congruence.
Qed.

Lemma throttle_ready buf l w : ready l w ->
  exists l' w', throttle 2 buf (l, w) = (Ok buf, (l', w')) /\ ready l' w' /\ sent w' = sent w.
Proof.
  intros (Hb & Hp & Hbl & H0 & Hlast). pose proof (throttle_sent 2 buf l w) as Hs. destruct Hb as [Hb|Hb].
  - exists l, w. unfold throttle, limiter. munfold. rewrite Hb. split; [done|]. split; [|done]. split_and!; try done. by left.
  - destruct (throttle 2 buf (l, w)) as [r [l' w']] eqn:E.
    assert (1 <= bps l / 1000) by (apply Z.div_le_lower_bound; lia).
    destruct (throttle_quota 2 buf l w r l' w' (last_updated l) 0 (- bytes_left l) ltac:(lia) Hb Hp Hbl)
      as (-> & Hb' & Hp' & Hbl' & Hlast' & _ & H0' & _); [split; [done|rewrite Z.sub_diag, Z.mul_0_r; unfold MILLI; lia]|done..|].
    exists l', w'. split; [done|]. split; [|done]. split_and!; try done. right. by rewrite Hb'.
Qed.

(** One write of the limiter: the first bytes, at least one, or an error. *)
Lemma limit_write_ready buf l w : ready l w -> buf <> [] ->
  exists r l' w' n, limit_write 2 buf (l, w) = (r, (l', w')) /\ sent w' = sent w ++ take (Z.to_nat n) buf /\
    ((exists e, r = Err e /\ n = 0) \/ (r = Ok n /\ 0 < n <= zlen buf /\ ready l' w')).
Proof.
  intros Hr Hbuf. destruct (throttle_ready buf l w Hr) as (l1 & w1 & Et & Hr1 & Hs1).
  unfold limit_write. munfold. rewrite Et. unfold timed, inner_write, NagleFlush_writer, NagleFlush_write.
  destruct (tcp_send buf w1) as [res w2] eqn:Es. destruct (law_send _ _ _ _ Es) as (Hs & Hn & Hne & Hc).
  destruct (Z.eqb_spec res (-1)) as [->|Hres].
  - eexists _, _, _, 0. split; [reflexivity|]. split; [by rewrite Hs, Hs1|]. left. by eexists.
  - eexists _, _, _, res. split; [reflexivity|]. split; [by rewrite Hs, Hs1|]. right. specialize (Hne Hbuf).
    split; [done|]. split; [lia|]. destruct Hr1 as (? & ? & ? & ? & ?). split_and!; cbn; try done; lia.
Qed.

Lemma write_all_ready fuel : forall buf l w, ready l w -> (length buf < fuel)%nat ->
  exists r l' w', write_all fuel buf (l, w) = (r, (l', w')) /\
    ((r = Ok tt /\ sent w' = sent w ++ buf /\ ready l' w') \/
     (exists e n, r = Err e /\ (n < length buf)%nat /\ sent w' = sent w ++ take n buf)).
Proof.
  induction fuel as [|fuel IH]; intros buf l w Hr Hf; [lia|]. cbn [write_all]. destruct buf as [|b buf].
  { exists (Ok tt), l, w. split; [done|]. left. by rewrite app_nil_r. }
  destruct (limit_write_ready (b :: buf) l w Hr ltac:(done)) as (r & l1 & w1 & n & E & Hs & Hn). munfold. rewrite E.
  destruct Hn as [(e & -> & ->)|(-> & Hn & Hr1)].
  { eexists _, _, _. split; [reflexivity|]. right. exists e, 0%nat. split; [done|]. split; [cbn; lia|done]. }
  rewrite (proj2 (Z.eqb_neq n 0)) by lia. unfold zlen in Hn.
  assert (length (drop (Z.to_nat n) (b :: buf)) < fuel)%nat as Hlen by (rewrite length_drop; lia).
  destruct (IH _ l1 w1 Hr1 Hlen) as (r & l2 & w2 & E2 & H). exists r, l2, w2. split; [exact E2|].
  assert (forall k, take k (b :: buf) = take (Z.to_nat n) (take k (b :: buf)) ++ drop (Z.to_nat n) (take k (b :: buf))) as Hsplit
    by (intros k; by rewrite take_drop).
  destruct H as [(-> & Hs2 & Hr2)|(e & k & -> & Hk & Hs2)].
  - left. split; [done|]. split; [|done]. by rewrite Hs2, Hs, <- app_assoc, take_drop.
  - right. exists e, (Z.to_nat n + k)%nat. split; [done|]. rewrite length_drop in Hk. split; [lia|].
    rewrite Hs2, Hs, <- app_assoc. f_equal. rewrite (Hsplit (Z.to_nat n + k)%nat), take_take, Nat.min_l by lia.
    f_equal. rewrite skipn_firstn_comm. f_equal. lia.
Qed.

Lemma run_writes_stream fuel ops l w :
  ready l w -> Forall (fun o => match o with Some buf => (length buf < fuel)%nat | None => True end) ops ->
  exists r l' w' r' room room',
    run_writes (write_all fuel) limit_flush ops (l, w) = (r, (l', w')) /\
    run_writes stream_write_all stream_flush ops (mk_stream (sent w) room) = (r', mk_stream (sent w') room') /\
    (r = Ok tt /\ r' = Ok tt \/ (exists e, r = Err e) /\ r' = Err OtherError) /\
    (r = Ok tt -> list.last ops = Some None -> released w' = sent w').
Proof.
  intros Hr Hops. revert l w Hr. induction Hops as [|[buf|] ops Ho _ IH]; intros l w Hr; cbn [run_writes]; munfold.
  - exists (Ok tt), l, w, (Ok tt), None, None. split_and!; [done|done|by left|done].
  - destruct (write_all_ready fuel buf l w Hr Ho) as (r & l1 & w1 & E & [(-> & Hs & Hr1)|(e & n & -> & Hn & Hs)]); rewrite E.
    + destruct (IH l1 w1 Hr1) as (r & l' & w' & r' & room & room' & E1 & E2 & Hrr & Hl).
      exists r, l', w', r', ((Nat.add (length buf)) <$> room), room'. split; [done|]. rewrite Hs in E2.
      split; [|split; [done|]].
      * destruct room as [n|]; cbn [fmap option_fmap option_map stream_write_all st_room st_out]; [|done].
        rewrite (proj2 (Nat.leb_le _ _)) by lia. by replace (length buf + n - length buf)%nat with n by lia.
      * intros Hok Hlast. apply Hl; [done|]. destruct ops; [done|exact Hlast].
    + exists (Err e), l1, w1, (Err OtherError), (Some n), (Some 0%nat). split; [done|]. split; [|split; [|done]].
      * cbn [stream_write_all st_room st_out]. rewrite (proj2 (Nat.leb_gt _ _)) by lia. by rewrite Hs.
      * right. split; [by eexists|done].
  - unfold limit_flush, timed, NagleFlush_flush. destruct (law_push w) as (Hs & Hrel & Hc).
    assert (ready l (tcp_push w)) as Hr1 by (destruct Hr as (? & ? & ? & ? & ?); split_and!; try done; lia).
    destruct (IH l (tcp_push w) Hr1) as (r & l' & w' & r' & room & room' & E1 & E2 & Hrr & Hl).
    exists r, l', w', r', room, room'. rewrite Hs in E2. split; [exact E1|]. split; [exact E2|]. split; [done|].
    intros Hok Hlast. destruct ops as [|o ops]; [|by apply Hl]. cbn [run_writes] in E1. injection E1 as <- <- <-. by rewrite Hs.
Qed.

(** C14. The limited socket of a client is the stream of the model. Whatever is
    written to it and flushed, until the first error, there is a stream that
    gives the same results and has the same bytes: nothing is lost, doubled or
    put in another order by partial sends, waiting or flushing, and an error
    comes after a prefix. After a flush nothing is held back. *)
Theorem limited_socket_is_stream fuel ops l w :
  ready l w -> Forall (fun o => match o with Some buf => (length buf < fuel)%nat | None => True end) ops ->
  exists r l' w' r' room room',
    run_writes (write_all fuel) limit_flush ops (l, w) = (r, (l', w')) /\
    run_writes stream_write_all stream_flush ops (mk_stream (sent w) room) = (r', mk_stream (sent w') room') /\
    (r = Ok tt /\ r' = Ok tt \/ (exists e, r = Err e) /\ r' = Err OtherError) /\
    (r = Ok tt -> list.last ops = Some None -> released w' = sent w').
Proof. apply run_writes_stream. Qed.

(** The bytes of some writes. *)
Definition written (ops : list (option (list Z))) : list Z := ops ≫= fun o => default [] o.

Lemma stream_writes ops : forall s s', run_writes stream_write_all stream_flush ops s = (Ok tt, s') -> st_out s' = st_out s ++ written ops.
Proof.
  induction ops as [|[buf|] ops IH]; intros s s' E; cbn [run_writes] in E; munfold.
  - injection E as <-. cbn. by rewrite app_nil_r.
  - assert (forall room, run_writes stream_write_all stream_flush ops (mk_stream (st_out s ++ buf) room) = (Ok tt, s') ->
      st_out s' = st_out s ++ written (Some buf :: ops)) as H.
    { intros room Er. rewrite (IH _ _ Er). cbn. by rewrite <- app_assoc. }
    unfold stream_write_all in E. destruct (st_room s) as [n|]; [|by apply (H None)].
    destruct (Nat.leb _ _); [by eapply H|done].
  - by rewrite (IH _ _ E).
Qed.

(** Writes that all succeed: all bytes are taken, and after a last flush all are
    let go. *)
Lemma run_writes_sent fuel ops l w l' w' :
  ready l w -> Forall (fun o => match o with Some buf => (length buf < fuel)%nat | None => True end) ops ->
  run_writes (write_all fuel) limit_flush ops (l, w) = (Ok tt, (l', w')) ->
  sent w' = sent w ++ written ops /\ (list.last ops = Some None -> released w' = sent w').
Proof.
  intros Hr Hf E. destruct (run_writes_stream fuel ops l w Hr Hf) as (r & l1 & w1 & r' & room & room' & E1 & E2 & Hrr & Hl).
  rewrite E in E1. injection E1 as <- <- <-. split; [|by apply Hl].
  destruct Hrr as [[_ ->]|[[e ?] _]]; [|done]. apply stream_writes in E2. exact E2.
Qed.

End Sockets.

(** ** An instance

    A stack that takes at most two bytes at a time. *)
Record toy_net := mk_toy_net { tn_time : Z; tn_sent : list Z; tn_released : list Z }.

#[local] Instance toy_net_clock : Clock toy_net := {|
  cl_now := fun w => (tn_time w, mk_toy_net (tn_time w + 1) (tn_sent w) (tn_released w));
  cl_sleep := fun d w => mk_toy_net (tn_time w + d) (tn_sent w) (tn_released w) |}.
#[local] Instance toy_net_clock_laws : ClockLaws toy_net_clock.
Proof.
  refine (Build_ClockLaws _ toy_net_clock tn_time _ _).
  - intros w. cbn. lia.
  - intros d w Hd. cbn. lia.
Defined.

#[local] Instance toy_net_stack : TcpStack toy_net := {|
  tcp_send := fun buf w => (Z.min 2 (zlen buf), mk_toy_net (tn_time w) (tn_sent w ++ take 2 buf) (tn_released w));
  tcp_push := fun w => mk_toy_net (tn_time w) (tn_sent w) (tn_sent w);
  tcp_errno := fun _ => 0 |}.
#[local] Instance toy_net_laws : TcpLaws.
Proof.
  refine {| sent := tn_sent; released := tn_released |}.
  - intros buf w n w' [= <- <-]. cbn. pose proof (zlen_nonneg buf). split_and!; [|lia| |lia].
    + f_equal. destruct (Z.min_spec 2 (zlen buf)) as [[_ ->]|[Hl ->]]; [done|].
      unfold zlen in *. rewrite Nat2Z.id, !take_ge by lia. done.
    + destruct buf; [done|]. rewrite zlen_cons in *. pose proof (zlen_nonneg buf). lia.
  - done.
  - done.
  - done.
Defined.

Lemma limited_socket_is_stream_witness :
  exists l' w', run_writes (write_all 9) limit_flush [Some [1; 2; 3]; Some [4]; None] (mk_LimitWriter 0 0 0 true false, mk_toy_net 0 [] []) =
    (Ok tt, (l', w')) /\ tn_released w' = [1; 2; 3; 4].
Proof.
  destruct (limited_socket_is_stream 9 [Some [1; 2; 3]; Some [4]; None] (mk_LimitWriter 0 0 0 true false) (mk_toy_net 0 [] []))
    as (r & l' & w' & r' & room & room' & E & _ & _ & Hl).
  - split_and!; cbn; try reflexivity. by left.
  - repeat apply Forall_cons_2; try apply Forall_nil_2; cbn; try lia; exact I.
  - exists l', w'. vm_compute in E. injection E as <- <- <-. split; [vm_compute; reflexivity|]. exact (Hl eq_refl eq_refl).
Defined.
