(* ===== verification/LowLevel.v ===== *)
(** * The low-level handlers: [fsyncd/src/fuse_ll/mod.rs] and [fuse/src/lib.rs]

    The handlers that work on inodes instead of paths. An inode is a [Box]
    whose address is the number the kernel knows it by; the table [inodes]
    finds the box of a file of the backing store. Memory is a map from
    addresses to inodes that holds the boxes and the root. System calls and
    libfuse's own functions are parameters; the handlers give their calls as
    data ([lowcall]). *)

From stdpp Require Import base list numbers option strings gmap pretty.
From Stdlib Require Import ZArith Lia.
From S2P Require Import Prelude Common.

Local Open Scope Z_scope.

(** ** C structures *)
Record stat := mk_stat {
  st_ino : Z; st_dev : Z; st_mode : Z; st_uid : Z; st_gid : Z; st_size : Z; st_atime : Z; st_mtime : Z }.

Record fuse_file_info := mk_fi { fi_flags : Z; fh : Z; keep_cache : bool; cache_readdir : bool }.

Record fuse_entry_param := mk_entry { e_ino : Z; e_attr : stat; e_timeout : Z }.

Record dirent := mk_dirent { d_ino : Z; d_off : Z; d_type : Z; d_name : string }.

(** What [fuse_add_direntry] and [fuse_add_direntry_plus] put into a buffer. *)
Inductive direntry :=
| entry_plain (name : string) (attr : stat) (off : Z)
| entry_plus (name : string) (e : fuse_entry_param) (off : Z).

(** [FuseReply]. A buffer is a list of bytes or, for a directory, the list of
    the entries added to it; an [iovec] is an address and a length. *)
Definition iovec : Type := Z * Z.

Inductive FuseReply :=
| reply_attr (attr : stat) (timeout : Z)
| reply_bmap (idx : Z)
| reply_buf (buf : list Z) (size : Z)
| reply_dir (es : list direntry) (size : Z)
| reply_create (e : fuse_entry_param) (fi : fuse_file_info)
| reply_data (fd off size : Z)
| reply_entry (e : fuse_entry_param)
| reply_err (e : Z)
| reply_ioctl (result : Z) (buf : list Z) (size : Z)
| reply_ioctl_iov (result : Z) (iov : iovec) (count : Z)
| reply_ioctl_retry (in_iov : iovec) (in_count : Z) (out_iov : iovec) (out_count : Z)
| reply_iov (iov : iovec) (count : Z)
| reply_lock (lock : list Z)
| reply_none
| reply_open (fi : fuse_file_info)
| reply_poll (revents : Z)
| reply_readlink (link : list Z)
| reply_statfs (st : list Z)
| reply_write (count : Z)
| reply_xattr (count : Z).

(** ** System calls *)
Inductive lowcall :=
| c_openat (fd : Z) (name : string) (flags mode : Z)
| c_open (p : path) (flags : Z)
| c_close (fd : Z)
| c_dup (fd : Z)
| c_fdatasync (fd : Z)
| c_fsync (fd : Z)
| c_fdopendir (fd : Z)
| c_closedir (dp : Z)
| c_dirfd (dp : Z)
| c_seekdir (dp off : Z)
| c_mknodat (fd : Z) (name : string) (mode rdev : Z)
| c_mkdirat (fd : Z) (name : string) (mode : Z)
| c_symlinkat (link : string) (fd : Z) (name : string)
| c_linkat_empty (fd newdir : Z) (newname : string)
| c_linkat_follow (p : path) (newdir : Z) (newname : string)
| c_renameat (olddir : Z) (oldname : string) (newdir : Z) (newname : string)
| c_unlinkat (fd : Z) (name : string) (flags : Z)
| c_buf_copy (fd off : Z) (buf : list Z)
| c_posix_fallocate (fd offset length : Z)
| c_setxattr (p : path) (name : string) (value : list Z) (flags : Z)
| c_removexattr (p : path) (name : string)
| c_fchmod (fd mode : Z)
| c_chmod (p : path) (mode : Z)
| c_fchownat_empty (fd uid gid : Z)
| c_ftruncate (fd size : Z)
| c_truncate (p : path) (size : Z)
| c_futimens (fd : Z) (ts : Timespec * Timespec)
| c_utimensat_empty (fd : Z) (ts : Timespec * Timespec)
| c_utimensat (p : path) (ts : Timespec * Timespec).

(** Calls that fill a buffer. *)
Inductive datacall :=
| c_listxattr (p : path) (size : Z)
| c_getxattr (p : path) (name : string) (size : Z)
| c_readlinkat (fd size : Z)
| c_fstatvfs (fd : Z).

(** [low_stat fd None] is [fstatat] with an empty path and [AT_EMPTY_PATH]; the
    calls return what the C function returns, with what it put into its
    buffer. [dir_size] is the room an entry takes in a buffer. *)
Class LowSys (OS : Type) := {
  low_errno : OS -> Z;
  low_call : lowcall -> OS -> Z * OS;
  low_data : datacall -> OS -> (Z * list Z) * OS;
  low_stat : Z -> option string -> OS -> option stat * OS;
  low_readdir : Z -> OS -> option dirent * OS;
  dir_size : direntry -> Z }.

(** ** Inodes *)
Record Inode := mk_Inode {
  i_fd : Z; is_symlink : bool; src_dev : Z; src_ino : Z; nlookup : Z; i_path : option (Z * string) }.

Definition SrcId : Type := Z * Z.
Definition src_id (i : Inode) : SrcId := (src_ino i, src_dev i).

(** [mem] holds the boxes and, at [root_ptr], the inode of the root. The
    timeout, a double, is only compared with zero and handed on. *)
Record Fs := mk_Fs {
  inodes : gmap SrcId Z; mem : gmap Z Inode; root_ptr : Z; fs_dev : Z; timeout : Z }.

Definition fs_set_inodes (fs : Fs) (t : gmap SrcId Z) : Fs := mk_Fs t (mem fs) (root_ptr fs) (fs_dev fs) (timeout fs).
Definition fs_set_mem (fs : Fs) (m : gmap Z Inode) : Fs := mk_Fs (inodes fs) m (root_ptr fs) (fs_dev fs) (timeout fs).
Definition i_set_nlookup (i : Inode) (n : Z) : Inode :=
  mk_Inode (i_fd i) (is_symlink i) (src_dev i) (src_ino i) n (i_path i).
Definition i_set_path (i : Inode) (p : option (Z * string)) : Inode :=
  mk_Inode (i_fd i) (is_symlink i) (src_dev i) (src_ino i) (nlookup i) p.

(** [Box::new]: an address that is not in use, which is neither the number of
    the root nor the address of the root's inode. *)
Class Allocator := {
  alloc : gmap Z Inode -> Z;
  alloc_fresh m : m !! alloc m = None;
  alloc_not_root m : alloc m <> 1 }.

Definition FUSE_ROOT_ID : Z := 1.
Definition ENOENT : Z := 2.
Definition EIO : Z := 5.
Definition EINVAL : Z := 22.
Definition EPERM : Z := 1.
Definition ENOTSUP : Z := 95.
Definition EOPNOTSUPP : Z := 95.
Definition O_ACCMODE : Z := 3.
Definition O_WRONLY : Z := 1.
Definition O_RDWR : Z := 2.
Definition O_CREAT : Z := 64.
Definition O_APPEND : Z := 1024.
Definition O_NOFOLLOW : Z := 131072.
Definition O_PATH : Z := 2097152.
Definition S_IFLNK : Z := 40960.
Definition AT_REMOVEDIR : Z := 512.
Definition PATH_BUF_SIZE : Z := 4097.

Section Handlers.
Context {OS : Type} {Sys : LowSys OS} {Alloc : Allocator}.

Notation LL := (M (Fs * OS)).

Definition call (c : lowcall) : LL Z := fun '(fs, os) => let '(r, os) := low_call c os in (Ok r, (fs, os)).
Definition data (c : datacall) : LL (Z * list Z) := fun '(fs, os) => let '(r, os) := low_data c os in (Ok r, (fs, os)).
Definition fstat (fd : Z) (name : option string) : LL (option stat) := fun '(fs, os) =>
  let '(r, os) := low_stat fd name os in (Ok r, (fs, os)).
Definition readdir (dp : Z) : LL (option dirent) := fun '(fs, os) =>
  let '(r, os) := low_readdir dp os in (Ok r, (fs, os)).
Definition errno : LL Z := fun '(fs, os) => (Ok (low_errno os), (fs, os)).
Definition this : LL Fs := fun '(fs, os) => (Ok fs, (fs, os)).
Definition fail : LL FuseReply := e ← errno; mret (reply_err e).

(** [FuseReply::err(if res == -1 { errno() } else { 0 })]. *)
Definition status (res : Z) : LL FuseReply := if res =? -1 then fail else mret (reply_err 0).

(** ** Memory

    [Err] marks an access to memory that holds no inode, which is undefined
    behaviour: the handlers have no [Err] of their own. *)
Definition deref (a : Z) : LL Inode := fs ← this; match mem fs !! a with Some i => mret i | None => throw OtherError end.
Definition store (a : Z) (i : Inode) : LL unit := modify (fun '(fs, os) => (fs_set_mem fs (<[a := i]> (mem fs)), os)).

Definition self_path (fd : Z) : path := mk_path true ["proc"%string; "self"%string; "fd"%string; pretty fd].

Definition is_dot_or_dotdot (name : string) : bool := (name =? ".")%string || (name =? "..")%string.

(** A reference to an inode is its address. *)
Definition get_inode (ino : Z) : LL Z :=
  if ino =? FUSE_ROOT_ID then fs ← this; mret (root_ptr fs)
  else i ← deref ino; if i_fd i =? -1 then panic else mret ino.

Definition get_fs_fd (ino : Z) : LL Z := a ← get_inode ino; i ← deref a; mret (i_fd i).

(** [*inode.nlookup.lock().unwrap() += 1]. *)
Definition bump (a : Z) : LL unit := i ← deref a; store a (i_set_nlookup i (u64 (nlookup i + 1))).

Definition get_child (self : Z) (name : string) : LL (Z + Z) :=
  s ← deref self;
  attr ← fstat (i_fd s) (Some name);
  match attr with
  | None => e ← errno; mret (inl e)
  | Some attr =>
    fs ← this;
    a ← expect (inodes fs !! (st_ino attr, st_dev attr));
    mret (inr a)
  end.

(** The result is an errno or the path that was replaced. *)
Definition replace_path (parent : Z) (name : string) (newpath : option (Z * string)) : LL (Z + (Z * string)) :=
  r ← get_child parent name;
  match r with
  | inl e => mret (inl e)
  | inr ino =>
    i ← deref ino;
    match i_path i with
    | Some (p, n) =>
      if (p =? parent) && (n =? name)%string
      then _ ← store ino (i_set_path i newpath); mret (inr (p, n))
      else mret (inl 0)
    | None => mret (inl 0)
    end
  end.

(** The box is freed when the table gives it up; the guard of its own lock is
    released after that. *)
Definition remove (id : SrcId) : LL unit := modify (fun '(fs, os) =>
  match inodes fs !! id with
  | Some b => (fs_set_mem (fs_set_inodes fs (delete id (inodes fs))) (delete b (mem fs)), os)
  | None => (fs, os)
  end).

Definition forget (ino n : Z) : LL unit :=
  a ← get_inode ino;
  i ← deref a;
  if negb (n <=? nlookup i) then panic
  else
    _ ← store a (i_set_nlookup i (nlookup i - n));
    _ ← (if nlookup i - n =? 0 then remove (src_id i) else mret tt);
    _ ← deref a;
    mret tt.

Definition forget_multi (forgets : list (Z * Z)) : LL unit :=
  foldr (fun '(ino, n) k => _ ← forget ino n; k) (mret tt) forgets.

(** [inodes.entry(id).or_insert_with(..)]: the address of the box. *)
Definition or_insert (id : SrcId) (i : Inode) : LL Z := fun '(fs, os) =>
  match inodes fs !! id with
  | Some a => (Ok a, (fs, os))
  | None =>
    let a := alloc (mem fs) in
    (Ok a, (fs_set_mem (fs_set_inodes fs (<[id := a]> (inodes fs))) (<[a := i]> (mem fs)), os))
  end.

Definition lookup (parent : Z) (name : string) : LL FuseReply :=
  fd ← get_fs_fd parent;
  newfd ← call (c_openat fd name (Z.lor O_PATH O_NOFOLLOW) 0);
  if newfd =? -1 then fail
  else
    attr ← fstat newfd None;
    match attr with
    | None => fail
    | Some attr =>
      fs ← this;
      if negb (st_dev attr =? fs_dev fs) then mret (reply_err ENOTSUP)
      else if st_ino attr =? FUSE_ROOT_ID then mret (reply_err EIO)
      else
        a ← or_insert (st_ino attr, st_dev attr)
          (mk_Inode newfd (Z.land (st_mode attr) S_IFLNK =? S_IFLNK) (st_dev attr) (st_ino attr) 1 (Some (parent, name)));
        _ ← bump a;
        _ ← call (c_close newfd);
        mret (reply_entry (mk_entry a attr (timeout fs)))
    end.

(** ** Reads *)
Definition release (fd : Z) : LL FuseReply := _ ← call (c_close fd); mret (reply_err 0).
Definition read (size off : Z) (fi : fuse_file_info) : LL FuseReply := mret (reply_data (fh fi) off size).

Definition fsync (datasync : Z) (fi : fuse_file_info) : LL FuseReply :=
  res ← call (if negb (datasync =? 0) then c_fdatasync (fh fi) else c_fsync (fh fi)); status res.

Definition flush (fi : fuse_file_info) : LL FuseReply :=
  fd ← call (c_dup (fh fi)); res ← call (c_close fd); status res.

Definition statfs (ino : Z) : LL FuseReply :=
  fd ← get_fs_fd ino;
  '(res, stbuf) ← data (c_fstatvfs fd);
  mret (if res <? 0 then reply_err (- res) else reply_statfs stbuf).

Definition getattr (ino : Z) : LL FuseReply :=
  a ← get_inode ino;
  i ← deref a;
  attr ← fstat (i_fd i) None;
  match attr with
  | None => fail
  | Some attr => fs ← this; mret (reply_attr attr (timeout fs))
  end.

(** [CString::new] fails on a buffer with a zero byte. *)
Definition CString_new (buf : list Z) : option (list Z) := if existsb (Z.eqb 0) buf then None else Some buf.

Definition readlink (ino : Z) : LL FuseReply :=
  fd ← get_fs_fd ino;
  '(res, buf) ← data (c_readlinkat fd PATH_BUF_SIZE);
  if res =? -1 then fail
  else if negb (res <? PATH_BUF_SIZE) then panic
  else
    s ← expect (CString_new (take (Z.to_nat res) buf ++ [0]));
    mret (reply_readlink s).

Definition open (ino : Z) (fi : fuse_file_info) : LL FuseReply :=
  fs ← this;
  let cached := negb (timeout fs =? 0) in
  let fl := fi_flags fi in
  let fl := if cached && (Z.land fl O_ACCMODE =? O_WRONLY) then Z.lor (Z.land fl (Z.lnot O_ACCMODE)) O_RDWR else fl in
  let fl := if cached then Z.land fl (Z.lnot O_APPEND) else fl in
  ifd ← get_fs_fd ino;
  fd ← call (c_open (self_path ifd) (Z.land fl (Z.lnot O_NOFOLLOW)));
  if fd =? -1 then fail else mret (reply_open (mk_fi fl fd cached (cache_readdir fi))).

Definition opendir (ino : Z) (fi : fuse_file_info) : LL FuseReply :=
  ifd ← get_fs_fd ino;
  fd ← call (c_openat ifd "." 0 0);
  if fd =? -1 then fail
  else
    dp ← call (c_fdopendir fd);
    if dp =? 0 then fail
    else
      fs ← this;
      mret (reply_open (if negb (timeout fs =? 0) then mk_fi (fi_flags fi) dp true true
                        else mk_fi (fi_flags fi) dp (keep_cache fi) (cache_readdir fi))).

Definition releasedir (fi : fuse_file_info) : LL FuseReply := _ ← call (c_closedir (fh fi)); mret (reply_err 0).

Definition fsyncdir (datasync : Z) (fi : fuse_file_info) : LL FuseReply :=
  fd ← call (c_dirfd (fh fi));
  res ← call (if negb (datasync =? 0) then c_fdatasync fd else c_fsync fd);
  status res.

(** [listxattr] and [getxattr]: [f size] is the call. *)
Definition xattr_call (ino : Z) (f : path -> datacall) (size : Z) : LL FuseReply :=
  a ← get_inode ino;
  i ← deref a;
  if is_symlink i then mret (reply_err ENOTSUP)
  else
    '(ret, value) ← data (f (self_path (i_fd i)));
    if ret =? -1 then fail
    else if negb (size =? 0)
    then mret (if ret =? 0 then reply_err 0 else reply_buf value ret)
    else mret (reply_xattr ret).

Definition listxattr (ino size : Z) : LL FuseReply := xattr_call ino (fun p => c_listxattr p size) size.
Definition getxattr (ino : Z) (name : string) (size : Z) : LL FuseReply :=
  xattr_call ino (fun p => c_getxattr p name size) size.

(** The loop of [readdir_common]: [es] are the entries so far, [c_size] the room
    they take. *)
Fixpoint readdir_loop (fuel : nat) (ino dp size : Z) (plus : bool) (es : list direntry) (c_size : Z) : LL FuseReply :=
  match fuel with
  | O => lift NoFuel
  | S fuel =>
    entry ← readdir dp;
    match entry with
    | None => e ← errno; mret (if negb (e =? 0) then reply_err e else reply_dir es c_size)
    | Some d =>
      if is_dot_or_dotdot (d_name d) then readdir_loop fuel ino dp size plus es c_size
      else if plus then
        r ← lookup ino (d_name d);
        match r with
        | reply_err e => mret (reply_err e)
        | reply_entry e =>
          let x := entry_plus (d_name d) e (d_off d) in
          if size - c_size <? dir_size x then _ ← forget (e_ino e) 1; mret (reply_dir es c_size)
          else readdir_loop fuel ino dp size plus (es ++ [x]) (c_size + dir_size x)
        | _ => panic
        end
      else
        let x := entry_plain (d_name d) (mk_stat (d_ino d) 0 (u32 (Z.shiftl (d_type d) 12)) 0 0 0 0 0) (d_off d) in
        if size - c_size <? dir_size x then mret (reply_dir es c_size)
        else readdir_loop fuel ino dp size plus (es ++ [x]) (c_size + dir_size x)
    end
  end.

Definition readdir_common (fuel : nat) (ino size off : Z) (fi : fuse_file_info) (plus : bool) : LL FuseReply :=
  a ← get_inode ino;
  _ ← deref a;
  _ ← call (c_seekdir (fh fi) off);
  readdir_loop fuel ino (fh fi) size plus [] 0.

(** ** Writes *)
Definition write_buf (bufv : list Z) (off : Z) (fi : fuse_file_info) : LL FuseReply :=
  res ← call (c_buf_copy (fh fi) off bufv);
  mret (if res <? 0 then reply_err (i32 (- res)) else reply_write res).

Definition fallocate (mode offset length : Z) (fi : fuse_file_info) : LL FuseReply :=
  if negb (mode =? 0) then mret (reply_err EOPNOTSUPP)
  else res ← call (c_posix_fallocate (fh fi) offset length); mret (reply_err res).

(** [mknod], [mkdir] and [symlink]: the call, then a lookup of what it made. *)
Definition make (parent : Z) (name : string) (c : Z -> lowcall) : LL FuseReply :=
  fd ← get_fs_fd parent;
  res ← call (c fd);
  if res <? 0 then fail else lookup parent name.

Definition mknod (parent : Z) (name : string) (mode rdev : Z) : LL FuseReply :=
  make parent name (fun fd => c_mknodat fd name mode rdev).
Definition mkdir (parent : Z) (name : string) (mode : Z) : LL FuseReply :=
  make parent name (fun fd => c_mkdirat fd name mode).
Definition symlink (link : string) (parent : Z) (name : string) : LL FuseReply :=
  make parent name (fun fd => c_symlinkat link fd name).

Definition create (parent : Z) (name : string) (mode : Z) (fi : fuse_file_info) : LL FuseReply :=
  pfd ← get_fs_fd parent;
  fd ← call (c_openat pfd name (Z.land (Z.lor (fi_flags fi) O_CREAT) (Z.lnot O_NOFOLLOW)) mode);
  if fd =? -1 then fail
  else
    r ← lookup parent name;
    match r with
    | reply_err e => mret (reply_err e)
    | reply_entry e => mret (reply_create e (mk_fi (fi_flags fi) fd (keep_cache fi) (cache_readdir fi)))
    | _ => panic
    end.

Definition link (ino newparent : Z) (newname : string) : LL FuseReply :=
  a ← get_inode ino;
  p_fd ← get_fs_fd newparent;
  i ← deref a;
  fs ← this;
  res ← call (if is_symlink i then c_linkat_empty (i_fd i) p_fd newname
              else c_linkat_follow (self_path (i_fd i)) p_fd newname);
  no ← errno;
  if is_symlink i && (res =? -1) && ((no =? ENOENT) || (no =? EINVAL)) then mret (reply_err EOPNOTSUPP)
  else if res =? -1 then fail
  else
    attr ← fstat (i_fd i) None;
    match attr with
    | None => fail
    | Some attr => _ ← bump a; mret (reply_entry (mk_entry ino attr (timeout fs)))
    end.

(** [setxattr] and [removexattr]. *)
Definition set_attribute (ino : Z) (c : path -> lowcall) : LL FuseReply :=
  a ← get_inode ino;
  i ← deref a;
  if is_symlink i then mret (reply_err ENOTSUP)
  else res ← call (c (self_path (i_fd i))); status res.

Definition setxattr (ino : Z) (name : string) (value : list Z) (flags : Z) : LL FuseReply :=
  set_attribute ino (fun p => c_setxattr p name value flags).
Definition removexattr (ino : Z) (name : string) : LL FuseReply :=
  set_attribute ino (fun p => c_removexattr p name).

(** [fi] is [None] for a null pointer. *)
Definition chmod (ino mode : Z) (fi : option fuse_file_info) : LL FuseReply :=
  res ← match fi with
        | Some fi => call (c_fchmod (fh fi) mode)
        | None => fd ← get_fs_fd ino; call (c_chmod (self_path fd) mode)
        end;
  status res.

Definition chown (ino uid gid : Z) : LL FuseReply :=
  fd ← get_fs_fd ino; res ← call (c_fchownat_empty fd uid gid); status res.

Definition truncate (ino size : Z) (fi : option fuse_file_info) : LL FuseReply :=
  res ← match fi with
        | Some fi => call (c_ftruncate (fh fi) size)
        | None => fd ← get_fs_fd ino; call (c_truncate (self_path fd) size)
        end;
  status res.

Definition utimens (ino : Z) (ts : Timespec * Timespec) (fi : option fuse_file_info) : LL FuseReply :=
  match fi with
  | Some fi => res ← call (c_futimens (fh fi) ts); status res
  | None =>
    a ← get_inode ino;
    i ← deref a;
    if is_symlink i then
      res ← call (c_utimensat_empty (i_fd i) ts);
      no ← errno;
      if (res =? -1) && (no =? EINVAL) then mret (reply_err EPERM) else status res
    else res ← call (c_utimensat (self_path (i_fd i)) ts); status res
  end.

(** ** Path changers *)
Definition is_failure (r : Z + (Z * string)) (allowed : list Z) : option Z :=
  match r with
  | inl e => if existsb (Z.eqb e) (0 :: allowed) then None else Some e
  | inr _ => None
  end.

Definition rename (parent : Z) (name : string) (newparent : Z) (newname : string) (flags : Z) : LL FuseReply :=
  if negb (flags =? 0) then mret (reply_err EINVAL)
  else
    ino_op ← get_inode parent;
    r ← replace_path ino_op name (Some (newparent, name));
    match is_failure r [] with
    | Some e => mret (reply_err e)
    | None =>
      ino_np ← get_inode parent;
      r ← replace_path ino_np newname None;
      match is_failure r [ENOENT] with
      | Some e => mret (reply_err e)
      | None =>
        op ← deref ino_op;
        np ← deref ino_np;
        res ← call (c_renameat (i_fd op) name (i_fd np) newname);
        status res
      end
    end.

Definition unlink (parent : Z) (name : string) : LL FuseReply :=
  ino_p ← get_inode parent;
  r ← replace_path ino_p name None;
  match is_failure r [] with
  | Some e => mret (reply_err e)
  | None => p ← deref ino_p; res ← call (c_unlinkat (i_fd p) name 0); status res
  end.

Definition rmdir (parent : Z) (name : string) : LL FuseReply :=
  ino_p ← get_inode parent;
  r ← replace_path ino_p name None;
  match r with
  | inr _ => p ← deref ino_p; res ← call (c_unlinkat (i_fd p) name AT_REMOVEDIR); status res
  | inl e => if e =? 0 then panic else mret (reply_err e)
  end.

(** ** [setattr], the default of the trait [FilesystemLL] *)
Definition SET_MODE : Z := 1.
Definition SET_UID : Z := 2.
Definition SET_GID : Z := 4.
Definition SET_SIZE : Z := 8.
Definition SET_ATIME : Z := 16.
Definition SET_MTIME : Z := 32.
Definition SET_ATIME_NOW : Z := 128.
Definition SET_MTIME_NOW : Z := 256.
Definition UTIME_NOW : Z := 1073741823.
Definition UTIME_OMIT : Z := 1073741822.
Definition has (to_set bits : Z) : bool := negb (Z.land (u32 to_set) bits =? 0).

(** [if let FuseReply::err(e) = m { return FuseReply::err(e) } k]. *)
Definition unless_err (b : bool) (m k : LL FuseReply) : LL FuseReply :=
  if b then r ← m; match r with reply_err e => mret (reply_err e) | _ => k end else k.

Definition setattr (ino : Z) (attr : stat) (to_set : Z) (fi : option fuse_file_info) : LL FuseReply :=
  let uid := if has to_set SET_UID then st_uid attr else u32 (-1) in
  let gid := if has to_set SET_GID then st_gid attr else u32 (-1) in
  let time now omit t := mk_Timespec 0 (if has to_set now then UTIME_NOW else if has to_set omit then t else UTIME_OMIT) in
  let ts := (time SET_ATIME_NOW SET_ATIME (st_atime attr), time SET_MTIME_NOW SET_MTIME (st_mtime attr)) in
  unless_err (has to_set SET_MODE) (chmod ino (st_mode attr) fi) (
  unless_err (has to_set (Z.lor SET_UID SET_GID)) (chown ino uid gid) (
  unless_err (has to_set SET_SIZE) (truncate ino (st_size attr) fi) (
  unless_err (has to_set (Z.lor SET_ATIME SET_MTIME)) (utimens ino ts fi) (
  getattr ino)))).

End Handlers.
