(* ===== verification/LowLevelInv.v ===== *)
(** * The table of inodes

    The invariant of the low-level handlers' memory, relative to the references
    [refs] the kernel holds by the replies it got: every box is in the table
    under its file, and its count is above the kernel's. [wp] is the weakest
    precondition of a handler over any operating system. *)

From stdpp Require Import base list numbers option strings gmap.
From Stdlib Require Import ZArith Lia.
From S2P Require Import Prelude Common LowLevel.

Local Open Scope Z_scope.

Section Inv.
Context {OS : Type} {Sys : LowSys OS} {Alloc : Allocator} {PA : Prop}.

(** ** Weakest preconditions

    [PA] is what is asked of a handler that panics or runs out of fuel; an
    access to memory without an inode satisfies nothing. *)
Definition wp {A} (m : M (Fs * OS) A) (Q : A -> Fs -> Prop) (fs : Fs) : Prop :=
  forall os, match m (fs, os) with
             | (Ok a, (fs', _)) => Q a fs'
             | (Err _, _) => False
             | _ => PA
             end.

Lemma wp_ret {A} (a : A) (Q : A -> Fs -> Prop) fs : Q a fs -> wp (mret a) Q fs.
Proof. by intros H os. Qed.

Lemma wp_bind {A B} (m : M (Fs * OS) A) (f : A -> M (Fs * OS) B) Q fs :
  wp m (fun a => wp (f a) Q) fs -> wp (mbind f m) Q fs.
Proof.
  intros H os. specialize (H os). unfold mbind, M_bind.
  destruct (m (fs, os)) as [[a| | |] [fs' os']]; try done. apply H.
Qed.

Lemma wp_mono {A} (m : M (Fs * OS) A) (Q Q' : A -> Fs -> Prop) fs :
  wp m Q fs -> (forall a fs', Q a fs' -> Q' a fs') -> wp m Q' fs.
Proof.
  intros H HQ os. specialize (H os). destruct (m (fs, os)) as [[a| | |] [fs' os']]; auto.
Qed.

Lemma wp_call c (Q : Z -> Fs -> Prop) fs : (forall r, Q r fs) -> wp (call c) Q fs.
Proof. intros H os. unfold call. destruct (low_call c os). apply H. Qed.
Lemma wp_data c (Q : Z * list Z -> Fs -> Prop) fs : (forall r, Q r fs) -> wp (data c) Q fs.
Proof. intros H os. unfold data. destruct (low_data c os). apply H. Qed.
Lemma wp_fstat fd n (Q : option stat -> Fs -> Prop) fs : (forall r, Q r fs) -> wp (fstat fd n) Q fs.
Proof. intros H os. unfold fstat. destruct (low_stat fd n os). apply H. Qed.
Lemma wp_readdir dp (Q : option dirent -> Fs -> Prop) fs : (forall r, Q r fs) -> wp (readdir dp) Q fs.
Proof. intros H os. unfold readdir. destruct (low_readdir dp os). apply H. Qed.
Lemma wp_errno (Q : Z -> Fs -> Prop) fs : (forall r, Q r fs) -> wp errno Q fs.
Proof. intros H os. apply H. Qed.
Lemma wp_this (Q : Fs -> Fs -> Prop) fs : Q fs fs -> wp this Q fs.
Proof. intros H os. apply H. Qed.
Lemma wp_expect {A} (o : option A) (Q : A -> Fs -> Prop) fs : PA -> (forall a, o = Some a -> Q a fs) -> wp (expect o) Q fs.
Proof. intros HP H os. unfold expect. destruct o; [by apply H|done]. Qed.
Lemma wp_panic {A} (Q : A -> Fs -> Prop) fs : PA -> wp panic Q fs.
Proof. by intros H os. Qed.
Lemma wp_nofuel {A} (Q : A -> Fs -> Prop) fs : PA -> wp (lift NoFuel) Q fs.
Proof. by intros H os. Qed.
Lemma wp_store a i (Q : unit -> Fs -> Prop) fs : Q tt (fs_set_mem fs (<[a := i]> (mem fs))) -> wp (store a i) Q fs.
Proof. intros H os. apply H. Qed.

Lemma wp_deref a i (Q : Inode -> Fs -> Prop) fs : mem fs !! a = Some i -> Q i fs -> wp (deref a) Q fs.
Proof. intros H HQ os. unfold deref, this, mbind, M_bind. by rewrite H. Qed.

(** ** The inodes the kernel may name *)
Definition known (fs : Fs) (ino : Z) : Prop := ino = FUSE_ROOT_ID \/ (ino <> root_ptr fs /\ is_Some (mem fs !! ino)).

(** Where the inode of a number is. *)
Definition addr (fs : Fs) (ino : Z) : Z := if ino =? FUSE_ROOT_ID then root_ptr fs else ino.

Record inv (b : Z) (refs : Z -> Z) (fs : Fs) : Prop := {
  inv_root : exists r, mem fs !! root_ptr fs = Some r /\ 1 + refs FUSE_ROOT_ID <= nlookup r;
  inv_table id a : inodes fs !! id = Some a -> a <> root_ptr fs /\ exists i, mem fs !! a = Some i /\ src_id i = id;
  inv_box a i : mem fs !! a = Some i -> a <> root_ptr fs -> inodes fs !! src_id i = Some a /\ 1 + refs a <= nlookup i /\ i_fd i <> -1;
  inv_bound a i : mem fs !! a = Some i -> nlookup i <= b;
  inv_refs a : 0 <= refs a /\ (0 < refs a -> known fs a);
  inv_one : mem fs !! FUSE_ROOT_ID = None;
  inv_path a i p n : mem fs !! a = Some i -> i_path i = Some (p, n) -> p <> root_ptr fs }.

(** Nothing is freed: every inode stays where it is, for the same file. *)
Definition grows (fs fs' : Fs) : Prop :=
  root_ptr fs' = root_ptr fs /\
  forall a i, mem fs !! a = Some i -> exists i', mem fs' !! a = Some i' /\ src_id i' = src_id i.

#[export] Instance grows_refl : Reflexive grows.
Proof. split; [done|]. intros a i H. by exists i. Qed.
#[export] Instance grows_trans : Transitive grows.
Proof.
  intros f1 f2 f3 [R1 H1] [R2 H2]. split; [congruence|]. intros a i H.
  destruct (H1 a i H) as (i' & H' & E'). destruct (H2 a i' H') as (i'' & H'' & E''). exists i''. split; congruence.
Qed.

Lemma grows_known fs fs' ino : grows fs fs' -> known fs ino -> known fs' ino.
Proof.
  intros [R H] [->|[Hn [i Hi]]]; [by left|right]. destruct (H _ _ Hi) as (i' & Hi' & _).
  rewrite R. split; [done|by eexists].
Qed.

Lemma inv_mono b b' refs refs' fs :
  inv b refs fs -> b <= b' -> (forall a, 0 <= refs' a <= refs a) -> inv b' refs' fs.
Proof.
  intros [(r & Hr & Hn) Ht Hb Hbd Hrf Ho Hp] Hbb Hle. constructor; try done.
  - exists r. specialize (Hle FUSE_ROOT_ID). split; [done|lia].
  - intros a i Ha Hne. destruct (Hb a i Ha Hne) as (? & ? & ?). specialize (Hle a). repeat split; [done|lia|done].
  - intros a i Ha. specialize (Hbd a i Ha). lia.
  - intros a. specialize (Hle a). split; [lia|]. intros. apply Hrf. lia.
Qed.

(** Counts of references. *)
Definition add_ref (a : Z) (refs : Z -> Z) : Z -> Z := fun x => if x =? a then refs x + 1 else refs x.
Definition add_refs (l : list Z) (refs : Z -> Z) : Z -> Z := foldr add_ref refs l.
Definition sub_ref (a n : Z) (refs : Z -> Z) : Z -> Z := fun x => if x =? a then refs x - n else refs x.

Lemma known_addr b refs fs ino : inv b refs fs -> known fs ino -> exists i, mem fs !! addr fs ino = Some i.
Proof.
  intros H. unfold addr. destruct (Z.eqb_spec ino FUSE_ROOT_ID) as [->|]; intros Hk.
  - destruct (inv_root _ _ _ H) as (r & Hr & _). by exists r.
  - destruct Hk as [|[_ [i Hi]]]; [done|by exists i].
Qed.

Lemma wp_get_inode b refs fs ino (Q : Z -> Fs -> Prop) :
  inv b refs fs -> known fs ino -> Q (addr fs ino) fs -> wp (get_inode ino) Q fs.
Proof.
  intros H Hk HQ. unfold get_inode, addr in *. destruct (Z.eqb_spec ino FUSE_ROOT_ID) as [->|Hne].
  - apply wp_bind, wp_this, wp_ret, HQ.
  - destruct Hk as [|[Hr [i Hi]]]; [done|]. apply wp_bind. eapply wp_deref; [exact Hi|].
    destruct (inv_box _ _ _ H _ _ Hi Hr) as (_ & _ & Hfd). rewrite (proj2 (Z.eqb_neq _ _) Hfd). by apply wp_ret.
Qed.

Lemma wp_deref_known b refs fs ino (Q : Inode -> Fs -> Prop) :
  inv b refs fs -> known fs ino -> (forall i, mem fs !! addr fs ino = Some i -> Q i fs) -> wp (deref (addr fs ino)) Q fs.
Proof. intros H Hk HQ. destruct (known_addr _ _ _ _ H Hk) as [i Hi]. eapply wp_deref; [exact Hi|by apply HQ]. Qed.

Lemma wp_get_fs_fd b refs fs ino (Q : Z -> Fs -> Prop) :
  inv b refs fs -> known fs ino -> (forall fd, Q fd fs) -> wp (get_fs_fd ino) Q fs.
Proof.
  intros H Hk HQ. unfold get_fs_fd. apply wp_bind. eapply wp_get_inode; [done..|].
  apply wp_bind. eapply wp_deref_known; [done..|]. intros i _. apply wp_ret, HQ.
Qed.

(** ** Changing an inode *)
Lemma inv_update b b' refs refs' fs a i i' :
  inv b refs fs -> mem fs !! a = Some i -> src_id i' = src_id i -> i_fd i' = i_fd i -> b <= b' ->
  (forall x, x <> (if a =? root_ptr fs then FUSE_ROOT_ID else a) -> refs' x = refs x) ->
  (let x := if a =? root_ptr fs then FUSE_ROOT_ID else a in 0 <= refs' x /\ 1 + refs' x <= nlookup i' <= b') ->
  (forall p n, i_path i' = Some (p, n) -> p <> root_ptr fs) ->
  inv b' refs' (fs_set_mem fs (<[a := i']> (mem fs))).
Proof.
  intros [(r & Hr & Hn) Ht Hb Hbd Hrf Ho Hp] Ha Hid Hfd Hbb Hrefs Hcnt Hpath.
  assert (a <> FUSE_ROOT_ID) as Ha1 by congruence.
  assert (forall x j, (<[a := i']> (mem fs)) !! x = Some j -> (x = a /\ j = i') \/ (x <> a /\ mem fs !! x = Some j)) as Hlk.
  { intros x j [[<- <-]|[? ?]]%lookup_insert_Some; [by left|right; by split]. }
  constructor; cbn [fs_set_mem mem root_ptr inodes].
  - destruct (Z.eqb_spec a (root_ptr fs)) as [->|Hne]; cbn zeta in Hcnt.
    + exists i'. rewrite lookup_insert_eq. split; [done|lia].
    + exists r. rewrite lookup_insert_ne by done. rewrite Hrefs by done. done.
  - intros id x Hx. destruct (Ht id x Hx) as (Hne & j & Hj & Hidj). split; [done|].
    destruct (decide (x = a)) as [->|Hxa].
    + exists i'. rewrite lookup_insert_eq. split; [done|congruence].
    + exists j. by rewrite lookup_insert_ne.
  - intros x j Hx Hne. destruct (Hlk x j Hx) as [[-> ->]|[Hxa Hj]].
    + destruct (Hb a i Ha Hne) as (Hi & _ & Hf). rewrite (proj2 (Z.eqb_neq _ _) Hne) in Hcnt. cbn in Hcnt.
      rewrite Hid, Hfd. repeat split; [done|lia|done].
    + destruct (Hb x j Hj Hne) as (Hi & Hc & Hf). rewrite Hrefs; [done|].
      destruct (a =? root_ptr fs); [|done]. intros ->. congruence.
  - intros x j Hx. destruct (Hlk x j Hx) as [[-> ->]|[Hxa Hj]]; [cbn zeta in Hcnt; lia|]. specialize (Hbd x j Hj). lia.
  - intros x. assert (forall y, known fs y -> known (fs_set_mem fs (<[a := i']> (mem fs))) y) as Hkn.
    { intros y [->|[Hy [j Hj]]]; [by left|right]. split; [done|]. cbn [fs_set_mem mem].
      rewrite lookup_insert. case_decide; by eexists. }
    destruct (decide (x = if a =? root_ptr fs then FUSE_ROOT_ID else a)) as [->|Hx].
    + split; [apply Hcnt|]. intros _. apply Hkn. destruct (Z.eqb_spec a (root_ptr fs)); [by left|right]. by split; [|eexists].
    + rewrite Hrefs by done. destruct (Hrf x) as [H0 Hk]. split; [done|auto].
  - by rewrite lookup_insert_ne.
  - intros x j p n Hx. destruct (Hlk x j Hx) as [[-> ->]|[Hxa Hj]]; eauto.
Qed.

Lemma grows_update fs a i i' :
  mem fs !! a = Some i -> src_id i' = src_id i -> grows fs (fs_set_mem fs (<[a := i']> (mem fs))).
Proof.
  intros Ha Hid. split; [done|]. intros x j Hj. cbn [fs_set_mem mem]. rewrite lookup_insert. case_decide as Hx.
  - exists i'. split; [done|congruence].
  - by exists j.
Qed.

Lemma addr_back b refs fs ino :
  inv b refs fs -> known fs ino -> (if addr fs ino =? root_ptr fs then FUSE_ROOT_ID else addr fs ino) = ino.
Proof.
  intros H Hk. unfold addr. destruct (Z.eqb_spec ino FUSE_ROOT_ID) as [->|Hne]; [by rewrite Z.eqb_refl|].
  destruct Hk as [|[Hr _]]; [done|]. by rewrite (proj2 (Z.eqb_neq _ _) Hr).
Qed.

Lemma wp_bump b refs fs ino (Q : unit -> Fs -> Prop) :
  inv b refs fs -> known fs ino -> 0 <= b < 2 ^ 64 - 1 ->
  (forall fs', inv (b + 1) (add_ref ino refs) fs' -> grows fs fs' -> Q tt fs') -> wp (bump (addr fs ino)) Q fs.
Proof.
  intros H Hk Hb HQ. unfold bump. apply wp_bind. eapply wp_deref_known; [done..|]. intros i Hi. apply wp_store, HQ.
  - pose proof (inv_bound _ _ _ H _ _ Hi) as Hbd.
    assert (0 <= refs ino /\ 1 + refs ino <= nlookup i) as [H0 Hn].
    { split; [apply (inv_refs _ _ _ H)|]. unfold addr in Hi. destruct (Z.eqb_spec ino FUSE_ROOT_ID) as [->|Hne].
      - destruct (inv_root _ _ _ H) as (r & Hr & Hn). congruence.
      - destruct Hk as [|[Hr _]]; [done|]. by apply (inv_box _ _ _ H). }
    eapply inv_update; [exact H|exact Hi|done|done|lia|..|exact (fun p n => inv_path _ _ _ H _ i p n Hi)].
    + rewrite (addr_back _ _ _ _ H Hk). intros x Hx. unfold add_ref. by rewrite (proj2 (Z.eqb_neq _ _) Hx).
    + rewrite (addr_back _ _ _ _ H Hk). cbn zeta. unfold add_ref. rewrite Z.eqb_refl. cbn [i_set_nlookup nlookup].
      rewrite u64_small by lia. lia.
  - by eapply grows_update.
Qed.

(** ** Forgetting *)
Lemma wp_forget b refs fs ino n (Q : unit -> Fs -> Prop) :
  inv b refs fs -> known fs ino -> 0 <= n <= refs ino ->
  (forall fs', inv b (sub_ref ino n refs) fs' -> grows fs fs' -> Q tt fs') -> wp (forget ino n) Q fs.
Proof.
  intros H Hk Hn HQ. unfold forget. apply wp_bind. eapply wp_get_inode; [done..|].
  apply wp_bind. eapply wp_deref_known; [done..|]. intros i Hi.
  assert (1 + refs ino <= nlookup i) as Hc.
  { unfold addr in Hi. destruct (Z.eqb_spec ino FUSE_ROOT_ID) as [->|Hne].
    - destruct (inv_root _ _ _ H) as (r & Hr & ?). congruence.
    - destruct Hk as [|[Hr _]]; [done|]. by apply (inv_box _ _ _ H). }
  rewrite (proj2 (Z.leb_le n (nlookup i))) by lia. cbn [negb]. apply wp_bind, wp_store.
  rewrite (proj2 (Z.eqb_neq (nlookup i - n) 0)) by lia. apply wp_bind, wp_ret, wp_bind.
  eapply wp_deref; [apply lookup_insert_eq|]. apply wp_ret, HQ.
  - pose proof (inv_bound _ _ _ H _ _ Hi).
    eapply inv_update; [exact H|exact Hi|done|done|lia|..|exact (fun p n => inv_path _ _ _ H _ i p n Hi)];
      rewrite (addr_back _ _ _ _ H Hk).
    + intros x Hx. unfold sub_ref. by rewrite (proj2 (Z.eqb_neq _ _) Hx).
    + cbn zeta. unfold sub_ref. rewrite Z.eqb_refl. cbn [i_set_nlookup nlookup]. lia.
  - by eapply grows_update.
Qed.

(** ** A new inode *)
Lemma wp_or_insert b refs fs id i (Q : Z -> Fs -> Prop) :
  inv b refs fs -> 1 <= b -> src_id i = id -> nlookup i = 1 -> i_fd i <> -1 ->
  (forall p n, i_path i = Some (p, n) -> p <> root_ptr fs) ->
  (forall a fs', inv b refs fs' -> grows fs fs' -> known fs' a -> a <> FUSE_ROOT_ID -> Q a fs') -> wp (or_insert id i) Q fs.
Proof.
  intros H Hb Hid Hn Hfd Hp HQ os. unfold or_insert. destruct (inodes fs !! id) as [a|] eqn:Ea.
  { destruct (inv_table _ _ _ H _ _ Ea) as (Hr & j & Hj & _). apply HQ; [done|reflexivity|right; by split; [|eexists]|].
    intros ->. pose proof (inv_one _ _ _ H). congruence. }
  pose proof (alloc_fresh (mem fs)) as Hf. pose proof (alloc_not_root (mem fs)) as H1. set (a := alloc (mem fs)) in *.
  destruct H as [(r & Hr & Hrn) Ht Hbx Hbd Hrf Ho Hpa].
  assert (a <> root_ptr fs) as Har by congruence.
  assert (forall x j, (<[a := i]> (mem fs)) !! x = Some j -> (x = a /\ j = i) \/ (x <> a /\ mem fs !! x = Some j)) as Hlk.
  { intros x j [[<- <-]|[? ?]]%lookup_insert_Some; [by left|right; by split]. }
  assert (refs a = 0) as Hra.
  { destruct (Hrf a) as [H0 Hk]. destruct (Z.eq_dec (refs a) 0); [done|]. destruct Hk as [|[_ [j Hj]]]; [lia|done|congruence]. }
  apply HQ; [|split; [done|]| |done].
  - constructor; cbn [fs_set_mem fs_set_inodes mem root_ptr inodes].
    + exists r. by rewrite lookup_insert_ne.
    + intros id' x. rewrite lookup_insert_Some. intros [[<- <-]|[Hne Hx]].
      * split; [done|]. exists i. by rewrite lookup_insert_eq.
      * destruct (Ht _ _ Hx) as (? & j & Hj & ?). split; [done|]. exists j. rewrite lookup_insert_ne by congruence. done.
    + intros x j Hx Hne. destruct (Hlk x j Hx) as [[-> ->]|[Hxa Hj]].
      * rewrite Hid, lookup_insert_eq. repeat split; [lia|done].
      * destruct (Hbx x j Hj Hne) as (Hi & ? & ?). rewrite lookup_insert_ne by congruence. done.
    + intros x j Hx. destruct (Hlk x j Hx) as [[-> ->]|[Hxa Hj]]; [lia|eauto].
    + intros x. destruct (Hrf x) as [H0 Hk]. split; [done|]. intros Hx. destruct (Hk Hx) as [->|[Hy [j Hj]]]; [by left|right].
      split; [done|]. cbn [fs_set_mem fs_set_inodes mem]. rewrite lookup_insert. case_decide; by eexists.
    + by rewrite lookup_insert_ne.
    + intros x j p n Hx. destruct (Hlk x j Hx) as [[-> ->]|[Hxa Hj]]; eauto.
  - intros x j Hj. cbn [fs_set_mem fs_set_inodes mem]. exists j. rewrite lookup_insert_ne by congruence. done.
  - right. split; [done|]. cbn [fs_set_mem fs_set_inodes mem]. rewrite lookup_insert_eq. by eexists.
Qed.

End Inv.
