(* ===== verification/LowLevelSpec.v ===== *)
(** * Requests of the kernel to the low-level handlers

    [handle] is the table of the low-level operations ([op_list] of
    [fuse/src/lib.rs]); [handle_spec] is what a request that the kernel may
    make does to the memory of the handlers. *)

From stdpp Require Import base list numbers option strings gmap.
From Stdlib Require Import ZArith Lia.
From S2P Require Import Prelude Common LowLevel LowLevelInv.

Local Open Scope Z_scope.

Inductive request :=
| q_lookup (parent : Z) (name : string)
| q_forget (ino n : Z)
| q_forget_multi (l : list (Z * Z))
| q_release (fd : Z)
| q_read (size off : Z) (fi : fuse_file_info)
| q_fsync (datasync : Z) (fi : fuse_file_info)
| q_flush (fi : fuse_file_info)
| q_statfs (ino : Z)
| q_getattr (ino : Z)
| q_setattr (ino : Z) (attr : stat) (to_set : Z) (fi : option fuse_file_info)
| q_readlink (ino : Z)
| q_open (ino : Z) (fi : fuse_file_info)
| q_opendir (ino : Z) (fi : fuse_file_info)
| q_releasedir (fi : fuse_file_info)
| q_fsyncdir (datasync : Z) (fi : fuse_file_info)
| q_readdir (ino size off : Z) (fi : fuse_file_info) (plus : bool)
| q_listxattr (ino size : Z)
| q_getxattr (ino : Z) (name : string) (size : Z)
| q_setxattr (ino : Z) (name : string) (value : list Z) (flags : Z)
| q_removexattr (ino : Z) (name : string)
| q_write_buf (bufv : list Z) (off : Z) (fi : fuse_file_info)
| q_fallocate (mode offset length : Z) (fi : fuse_file_info)
| q_mknod (parent : Z) (name : string) (mode rdev : Z)
| q_mkdir (parent : Z) (name : string) (mode : Z)
| q_symlink (to : string) (parent : Z) (name : string)
| q_create (parent : Z) (name : string) (mode : Z) (fi : fuse_file_info)
| q_link (ino newparent : Z) (newname : string)
| q_rename (parent : Z) (name : string) (newparent : Z) (newname : string) (flags : Z)
| q_unlink (parent : Z) (name : string)
| q_rmdir (parent : Z) (name : string).

Section Spec.
Context {OS : Type} {Sys : LowSys OS} {Alloc : Allocator}.

Definition handle (fuel : nat) (q : request) : M (Fs * OS) FuseReply :=
  match q with
  | q_lookup parent name => lookup parent name
  | q_forget ino n => _ ← forget ino n; mret reply_none
  | q_forget_multi l => _ ← forget_multi l; mret reply_none
  | q_release fd => release fd
  | q_read size off fi => read size off fi
  | q_fsync datasync fi => fsync datasync fi
  | q_flush fi => flush fi
  | q_statfs ino => statfs ino
  | q_getattr ino => getattr ino
  | q_setattr ino attr to_set fi => setattr ino attr to_set fi
  | q_readlink ino => readlink ino
  | q_open ino fi => open ino fi
  | q_opendir ino fi => opendir ino fi
  | q_releasedir fi => releasedir fi
  | q_fsyncdir datasync fi => fsyncdir datasync fi
  | q_readdir ino size off fi plus => readdir_common fuel ino size off fi plus
  | q_listxattr ino size => listxattr ino size
  | q_getxattr ino name size => getxattr ino name size
  | q_setxattr ino name value flags => setxattr ino name value flags
  | q_removexattr ino name => removexattr ino name
  | q_write_buf bufv off fi => write_buf bufv off fi
  | q_fallocate mode offset length fi => fallocate mode offset length fi
  | q_mknod parent name mode rdev => mknod parent name mode rdev
  | q_mkdir parent name mode => mkdir parent name mode
  | q_symlink to parent name => symlink to parent name
  | q_create parent name mode fi => create parent name mode fi
  | q_link ino newparent newname => link ino newparent newname
  | q_rename parent name newparent newname flags => rename parent name newparent newname flags
  | q_unlink parent name => unlink parent name
  | q_rmdir parent name => rmdir parent name
  end.

(** The inodes a request names and the references it gives back. *)
Definition q_inos (q : request) : list Z :=
  match q with
  | q_forget_multi l => l.*1
  | q_lookup i _ | q_forget i _ | q_statfs i | q_getattr i | q_setattr i _ _ _ | q_readlink i | q_open i _
  | q_opendir i _ | q_readdir i _ _ _ _ | q_listxattr i _ | q_getxattr i _ _ | q_setxattr i _ _ _ | q_removexattr i _
  | q_mknod i _ _ _ | q_mkdir i _ _ | q_symlink _ i _ | q_create i _ _ _ | q_unlink i _ | q_rmdir i _ => [i]
  | q_link i j _ | q_rename i _ j _ _ => [i; j]
  | _ => []
  end.

Definition q_forgets (q : request) : list (Z * Z) :=
  match q with q_forget i n => [(i, n)] | q_forget_multi l => l | _ => [] end.

Fixpoint sub_refs (l : list (Z * Z)) (refs : Z -> Z) : Z -> Z :=
  match l with [] => refs | (a, n) :: l => sub_refs l (sub_ref a n refs) end.

Fixpoint forgets_ok (l : list (Z * Z)) (refs : Z -> Z) : Prop :=
  match l with [] => True | (a, n) :: l => 0 <= n <= refs a /\ forgets_ok l (sub_ref a n refs) end.

(** The references a reply hands out. *)
Definition plus_ino (x : direntry) : list Z := match x with entry_plus _ e _ => [e_ino e] | entry_plain _ _ _ => [] end.
Definition reply_inos (r : FuseReply) : list Z :=
  match r with
  | reply_entry e | reply_create e _ => [e_ino e]
  | reply_dir es _ => es ≫= plus_ino
  | _ => []
  end.

Lemma wp_fail (Q : FuseReply -> Fs -> Prop) fs : (forall e, Q (reply_err e) fs) -> wp (PA := True) (OS := OS) fail Q fs.
Proof. intros H. apply wp_bind, wp_errno. intros e. apply wp_ret, H. Qed.

Lemma wp_status res (Q : FuseReply -> Fs -> Prop) fs :
  (forall e, Q (reply_err e) fs) -> wp (PA := True) (OS := OS) (status res) Q fs.
Proof. intros H. unfold status. destruct (res =? -1); [by apply wp_fail|apply wp_ret, H]. Qed.

(** ** Handlers that leave the memory alone *)
Ltac quiet :=
  repeat first
    [ apply wp_fail; intros ?
    | apply wp_status; intros ?
    | eapply wp_get_fs_fd; [eassumption|assumption|intros ?]
    | eapply wp_get_inode; [eassumption|assumption|]
    | eapply wp_deref_known; [eassumption|assumption|intros ? ?]
    | apply wp_panic; exact I
    | apply wp_call; intros ?
    | apply wp_data; intros [? ?]
    | apply wp_fstat; intros ?
    | apply wp_errno; intros ?
    | apply wp_this
    | apply wp_expect; [exact I|intros ? _]
    | apply wp_ret
    | case_match
    | apply wp_bind ].

Definition is_quiet (q : request) : bool :=
  match q with
  | q_lookup _ _ | q_forget _ _ | q_forget_multi _ | q_readdir _ _ _ _ _ | q_mknod _ _ _ _ | q_mkdir _ _ _
  | q_symlink _ _ _ | q_create _ _ _ _ | q_link _ _ _ | q_rename _ _ _ _ _ | q_unlink _ _ | q_rmdir _ _ => false
  | _ => true
  end.

(** The memory stays and no reference is handed out. *)
Definition untouched (fs : Fs) (r : FuseReply) (fs' : Fs) : Prop := reply_inos r = [] /\ fs' = fs.

Lemma unless_err_spec (c : bool) (m k : M (Fs * OS) FuseReply) fs :
  wp (PA := True) m (untouched fs) fs -> wp (PA := True) k (untouched fs) fs ->
  wp (PA := True) (unless_err c m k) (untouched fs) fs.
Proof.
  intros Hm Hk. unfold unless_err. destruct c; [|done]. apply wp_bind. eapply wp_mono; [exact Hm|].
  intros r fs' [_ ->]. destruct r; first [exact Hk|by apply wp_ret].
Qed.

Lemma setattr_spec b refs fs ino attr to_set fi :
  inv b refs fs -> known fs ino -> wp (PA := True) (setattr ino attr to_set fi) (untouched fs) fs.
Proof.
  intros H Hk. unfold setattr. cbn zeta. repeat apply unless_err_spec.
  - unfold chmod. quiet; done.
  - unfold chown. quiet; done.
  - unfold truncate. quiet; done.
  - unfold utimens. quiet; done.
  - unfold getattr. quiet; done.
Qed.

Lemma quiet_spec fuel b refs fs q :
  inv b refs fs -> Forall (known fs) (q_inos q) -> is_quiet q = true ->
  wp (PA := True) (handle fuel q) (untouched fs) fs.
Proof.
  intros H Hk Hq. destruct q; try discriminate Hq; cbn [handle q_inos] in *; clear Hq;
    repeat match goal with Hk : Forall _ (_ :: _) |- _ => apply Forall_cons in Hk as [? Hk] end;
    try (by eapply setattr_spec);
    unfold release, read, fsync, flush, statfs, getattr, readlink, open, opendir, releasedir, fsyncdir,
      listxattr, getxattr, xattr_call, setxattr, removexattr, set_attribute, write_buf, fallocate; cbn zeta; quiet; done.
Qed.

(** ** Handlers that look up *)
Definition gives (b : Z) (refs : Z -> Z) (fs : Fs) (r : FuseReply) (fs' : Fs) : Prop :=
  inv b (add_refs (reply_inos r) refs) fs' /\ grows fs fs'.

Definition entry_or_err (r : FuseReply) : Prop :=
  match r with reply_entry _ | reply_err _ => True | _ => False end.

Lemma inv_weaken b b' refs fs : inv b refs fs -> b <= b' -> inv b' refs fs.
Proof. intros H Hb. eapply inv_mono; [exact H|done|]. intros a. destruct (inv_refs _ _ _ H a). lia. Qed.

Lemma known_not_root b refs fs ino : inv b refs fs -> known fs ino -> ino <> root_ptr fs.
Proof.
  intros H [->|[? _]]; [|done]. intros E. destruct (inv_root _ _ _ H) as (r & Hr & _).
  rewrite <- E, (inv_one _ _ _ H) in Hr. done.
Qed.

Lemma gives_err b b' refs fs e : inv b refs fs -> b <= b' -> gives b' refs fs (reply_err e) fs.
Proof. intros H Hb. split; [by eapply inv_weaken|reflexivity]. Qed.

Lemma lookup_spec b refs fs parent name :
  inv b refs fs -> known fs parent -> 1 <= b < 2 ^ 64 - 1 ->
  wp (PA := True) (lookup parent name) (fun r fs' => gives (b + 1) refs fs r fs' /\ entry_or_err r) fs.
Proof.
  intros H Hk Hb. unfold lookup.
  assert (forall e, gives (b + 1) refs fs (reply_err e) fs /\ entry_or_err (reply_err e)) as Herr
    by (intros e; split; [eapply gives_err; [exact H|lia]|exact I]).
  apply wp_bind. eapply wp_get_fs_fd; [done..|intros fd].
  apply wp_bind, wp_call. intros newfd. destruct (Z.eqb_spec newfd (-1)) as [_|Hfd];
    [by apply wp_fail|].
  apply wp_bind, wp_fstat. intros [attr|]; [|by apply wp_fail].
  apply wp_bind, wp_this. destruct (negb _); [by apply wp_ret|]. destruct (_ =? FUSE_ROOT_ID); [by apply wp_ret|].
  apply wp_bind. eapply wp_or_insert; [exact H|lia|done|done|done| |].
  { intros p n [= <- <-]. by eapply known_not_root. }
  intros a fs1 H1 Hg Hka Ha. apply wp_bind.
  assert (a = addr fs1 a) as Haddr by (unfold addr; by rewrite (proj2 (Z.eqb_neq _ _) Ha)). rewrite Haddr at 1.
  eapply wp_bump; [exact H1|done|lia|]. intros fs2 H2 Hg2. apply wp_bind, wp_call. intros _. apply wp_ret.
  split; [split; [exact H2|by transitivity fs1]|exact I].
Qed.

Lemma make_spec b refs fs parent name c :
  inv b refs fs -> known fs parent -> 1 <= b < 2 ^ 64 - 1 ->
  wp (PA := True) (make parent name c) (gives (b + 1) refs fs) fs.
Proof.
  intros H Hk Hb. unfold make. apply wp_bind. eapply wp_get_fs_fd; [done..|intros fd].
  apply wp_bind, wp_call. intros res. destruct (res <? 0).
  - apply wp_fail. intros e. eapply gives_err; [exact H|lia].
  - eapply wp_mono; [by eapply lookup_spec|]. by intros r fs' [Hr _].
Qed.

Lemma create_spec b refs fs parent name mode fi :
  inv b refs fs -> known fs parent -> 1 <= b < 2 ^ 64 - 1 ->
  wp (PA := True) (create parent name mode fi) (gives (b + 1) refs fs) fs.
Proof.
  intros H Hk Hb. unfold create. apply wp_bind. eapply wp_get_fs_fd; [done..|intros pfd].
  apply wp_bind, wp_call. intros fd. destruct (fd =? -1).
  - apply wp_fail. intros e. eapply gives_err; [exact H|lia].
  - apply wp_bind. eapply wp_mono; [by eapply lookup_spec|]. intros r fs' [Hr Hs]. destruct r; try done; by apply wp_ret.
Qed.

Lemma link_spec b refs fs ino newparent newname :
  inv b refs fs -> known fs ino -> known fs newparent -> 1 <= b < 2 ^ 64 - 1 ->
  wp (PA := True) (link ino newparent newname) (gives (b + 1) refs fs) fs.
Proof.
  intros H Hk Hk' Hb. unfold link.
  assert (forall e, gives (b + 1) refs fs (reply_err e) fs) as Herr by (intros e; eapply gives_err; [exact H|lia]).
  apply wp_bind. eapply wp_get_inode; [done..|]. apply wp_bind. eapply wp_get_fs_fd; [done..|intros p_fd].
  apply wp_bind. eapply wp_deref_known; [done..|intros i _]. apply wp_bind, wp_this.
  apply wp_bind, wp_call. intros res. apply wp_bind, wp_errno. intros no.
  case_match; [by apply wp_ret|]. case_match; [by apply wp_fail|].
  apply wp_bind, wp_fstat. intros [attr|]; [|by apply wp_fail].
  apply wp_bind. eapply wp_bump; [done..|lia|]. intros fs' H' Hg. apply wp_ret. by split.
Qed.

(** ** Reading a directory *)
Fixpoint count_refs (x : Z) (l : list Z) : Z :=
  match l with [] => 0 | a :: l => (if x =? a then 1 else 0) + count_refs x l end.

Lemma add_refs_count l refs x : add_refs l refs x = refs x + count_refs x l.
Proof.
  induction l as [|a l IH]; cbn [add_refs foldr count_refs]; [lia|]. unfold add_ref at 1.
  fold (add_refs l refs). destruct (x =? a); lia.
Qed.

Lemma count_refs_nonneg x l : 0 <= count_refs x l.
Proof. induction l as [|a l IH]; cbn [count_refs]; [lia|]. destruct (x =? a); lia. Qed.

Lemma count_refs_app x k l : count_refs x (k ++ l) = count_refs x k + count_refs x l.
Proof. induction k as [|a k IH]; cbn [count_refs app]; lia. Qed.

Lemma inv_same b refs refs' fs : inv b refs fs -> (forall x, refs' x = refs x) -> inv b refs' fs.
Proof. intros H E. eapply inv_mono; [exact H|lia|]. intros a. rewrite E. destruct (inv_refs _ _ _ H a). lia. Qed.

(** Giving up references only weakens the invariant. *)
Lemma inv_drop b l refs fs : inv b (add_refs l refs) fs -> (forall x, 0 <= refs x) -> inv b refs fs.
Proof.
  intros H H0. eapply inv_mono; [exact H|lia|]. intros a. rewrite add_refs_count.
  pose proof (count_refs_nonneg a l). specialize (H0 a). lia.
Qed.

Lemma readdir_loop_spec fuel ino dp size plus refs (H0 : forall x, 0 <= refs x) : forall b es c_size fs,
  inv b (add_refs (es ≫= plus_ino) refs) fs -> known fs ino -> 1 <= b -> b + Z.of_nat fuel < 2 ^ 64 ->
  wp (PA := True) (readdir_loop fuel ino dp size plus es c_size) (gives (b + Z.of_nat fuel) refs fs) fs.
Proof.
  induction fuel as [|fuel IH]; intros b es c_size fs H Hk Hb Hb'; cbn [readdir_loop]; [by apply wp_nofuel|].
  assert (forall e fs' b', inv b' (add_refs (es ≫= plus_ino) refs) fs' -> grows fs fs' -> b' <= b + Z.of_nat (S fuel) ->
    gives (b + Z.of_nat (S fuel)) refs fs (reply_err e) fs' /\
    gives (b + Z.of_nat (S fuel)) refs fs (reply_dir es c_size) fs') as Hend.
  { intros e fs' b' H' Hg Hle. split; (split; [|done]); (eapply inv_weaken; [|exact Hle]); [|done].
    by eapply inv_drop. }
  apply wp_bind, wp_readdir. intros [d|].
  2: { apply wp_bind, wp_errno. intros e. apply wp_ret. destruct (Hend e fs b H (grows_refl fs) ltac:(lia)).
       by destruct (negb _). }
  assert (forall es' c', inv (b + 1) (add_refs (es' ≫= plus_ino) refs) fs ->
    wp (PA := True) (readdir_loop fuel ino dp size plus es' c') (gives (b + Z.of_nat (S fuel)) refs fs) fs) as Hnext.
  { intros es' c' H'. eapply wp_mono; [apply (IH (b + 1)); [done|done|lia|lia]|].
    intros r fs'. by replace (b + 1 + Z.of_nat fuel) with (b + Z.of_nat (S fuel)) by lia. }
  destruct (is_dot_or_dotdot _); [apply Hnext; eapply inv_weaken; [exact H|lia]|].
  destruct plus.
  2: { case_match; [apply wp_ret; by apply (Hend 0 fs b H (grows_refl fs) ltac:(lia))|]. apply Hnext.
       rewrite bind_app. cbn [plus_ino mbind list_bind]. rewrite app_nil_r. eapply inv_weaken; [exact H|lia]. }
  apply wp_bind. eapply wp_mono; [eapply lookup_spec; [exact H|done|lia]|].
  intros r fs1 [[H1 Hg] Hs]. destruct r; try done.
  2: { apply wp_ret. by apply (Hend e fs1 (b + 1) H1 Hg ltac:(lia)). }
  assert (known fs1 (e_ino e)) as Hke.
  { apply (inv_refs _ _ _ H1). cbn [reply_inos]. rewrite add_refs_count. cbn [count_refs]. rewrite Z.eqb_refl.
    pose proof (inv_refs _ _ _ H (e_ino e)) as [? _]. lia. }
  cbn [reply_inos] in H1. destruct (size - c_size <? _).
  - apply wp_bind. eapply wp_forget; [exact H1|done| |].
    { rewrite add_refs_count. cbn [count_refs]. rewrite Z.eqb_refl.
      pose proof (inv_refs _ _ _ H (e_ino e)) as [? _]. lia. }
    intros fs2 H2 Hg2. apply wp_ret. apply (Hend 0 fs2 (b + 1)); [|by transitivity fs1|lia].
    eapply inv_same; [exact H2|]. intros x. unfold sub_ref. rewrite !add_refs_count. cbn [count_refs].
    destruct (x =? e_ino e); lia.
  - eapply wp_mono; [apply (IH (b + 1)); [|by eapply grows_known|lia|lia]|].
    + eapply inv_same; [exact H1|]. intros x. rewrite bind_app. cbn [mbind list_bind plus_ino app].
      rewrite !add_refs_count, count_refs_app. cbn [count_refs]. destruct (x =? e_ino e); lia.
    + intros r fs' [H' Hg']. split; [|by transitivity fs1].
      by replace (b + Z.of_nat (S fuel)) with (b + 1 + Z.of_nat fuel) by lia.
Qed.

Lemma readdir_common_spec fuel b refs fs ino size off fi plus :
  inv b refs fs -> known fs ino -> 1 <= b -> b + Z.of_nat fuel < 2 ^ 64 ->
  wp (PA := True) (readdir_common fuel ino size off fi plus) (gives (b + Z.of_nat fuel) refs fs) fs.
Proof.
  intros H Hk Hb Hb'. unfold readdir_common. apply wp_bind. eapply wp_get_inode; [done..|].
  apply wp_bind. eapply wp_deref_known; [done..|intros i _]. apply wp_bind, wp_call. intros _.
  eapply readdir_loop_spec; try done. intros x. apply (inv_refs _ _ _ H).
Qed.

(** ** Forgetting *)
Lemma forget_multi_spec {PA : Prop} b l : forall refs fs,
  inv b refs fs -> Forall (known fs) l.*1 -> forgets_ok l refs ->
  wp (PA := PA) (forget_multi l : M (Fs * OS) unit) (fun _ fs' => inv b (sub_refs l refs) fs' /\ grows fs fs') fs.
Proof.
  induction l as [|[a n] l IH]; intros refs fs H Hk Hf; cbn [forget_multi foldr].
  { apply wp_ret. split; [done|reflexivity]. }
  apply Forall_cons in Hk as [Ha Hk]. destruct Hf as [Hn Hf]. apply wp_bind. eapply wp_forget; [done..|].
  intros fs1 H1 Hg. eapply wp_mono; [apply (IH _ _ H1); [|done]|].
  - eapply Forall_impl; [exact Hk|]. intros x. by apply grows_known.
  - intros _ fs' [H' Hg']. split; [done|by transitivity fs1].
Qed.

(** ** Changing paths *)
Lemma addr_grows fs fs' ino : grows fs fs' -> addr fs' ino = addr fs ino.
Proof. intros [R _]. unfold addr. by rewrite R. Qed.

Lemma replace_path_spec b refs fs parent name newpath :
  inv b refs fs -> known fs parent -> (forall p n, newpath = Some (p, n) -> p <> root_ptr fs) ->
  wp (PA := True) (replace_path (addr fs parent) name newpath)
    (fun r fs' => inv b refs fs' /\ grows fs fs' /\ (parent = FUSE_ROOT_ID -> exists e, r = inl e /\ fs' = fs)) fs.
Proof.
  intros H Hk Hp. unfold replace_path, get_child. apply wp_bind, wp_bind.
  eapply wp_deref_known; [done..|intros s _]. apply wp_bind, wp_fstat.
  assert (forall (x : Z), inv b refs fs /\ grows fs fs /\ (parent = FUSE_ROOT_ID ->
    exists e, @inl Z (Z * string) x = inl e /\ fs = fs)) as Hinl by (intros x; split_and!; [done|reflexivity|by exists x]).
  intros [attr|]; [|apply wp_bind, wp_errno; intros e; by do 2 apply wp_ret].
  apply wp_bind, wp_this, wp_bind, wp_expect; [done|]. intros a Ha. apply wp_ret, wp_bind.
  destruct (inv_table _ _ _ H _ _ Ha) as (Hr & i & Hi & Hid). eapply wp_deref; [exact Hi|].
  destruct (i_path i) as [[p n]|] eqn:Ei; [|by apply wp_ret].
  destruct (Z.eqb_spec p (addr fs parent)) as [Hpp|]; [|by apply wp_ret]. cbn [andb].
  destruct (n =? name)%string; [|by apply wp_ret]. apply wp_bind, wp_store, wp_ret. split_and!.
  - pose proof (inv_box _ _ _ H _ _ Hi Hr) as (_ & Hc & _). pose proof (inv_bound _ _ _ H _ _ Hi).
    eapply inv_update; [exact H|exact Hi|done|done|lia| | |exact Hp].
    + done.
    + rewrite (proj2 (Z.eqb_neq _ _) Hr). cbn. destruct (inv_refs _ _ _ H a). lia.
  - by eapply grows_update.
  - intros ->. unfold addr in Hpp. cbn in Hpp. by destruct (inv_path _ _ _ H _ _ _ _ Hi Ei).
Qed.

Lemma rename_spec b refs fs parent name newparent newname flags :
  inv b refs fs -> known fs parent -> known fs newparent ->
  wp (PA := True) (rename parent name newparent newname flags) (gives b refs fs) fs.
Proof.
  intros H Hk Hk'. unfold rename. destruct (negb _); [apply wp_ret; by eapply gives_err|].
  apply wp_bind. eapply wp_get_inode; [done..|]. apply wp_bind.
  eapply wp_mono; [eapply replace_path_spec; [exact H|done|]|].
  { intros p n [= <- <-]. by eapply known_not_root. }
  intros r fs1 (H1 & Hg & _). destruct (is_failure r []); [apply wp_ret; by split|].
  assert (known fs1 parent) as Hk1 by by eapply grows_known.
  apply wp_bind. eapply wp_get_inode; [done..|]. apply wp_bind.
  eapply wp_mono; [eapply replace_path_spec; [exact H1|done|done]|].
  intros r2 fs2 (H2 & Hg2 & _). assert (grows fs fs2) as Hg' by by transitivity fs1.
  destruct (is_failure r2 _); [apply wp_ret; by split|].
  rewrite <- (addr_grows fs fs2 parent Hg'), <- (addr_grows fs1 fs2 parent Hg2).
  assert (known fs2 parent) as Hk2 by by eapply grows_known.
  apply wp_bind. eapply wp_deref_known; [done..|intros op _]. apply wp_bind. rewrite (addr_grows fs1 fs2 parent Hg2).
  rewrite <- (addr_grows fs1 fs2 parent Hg2). eapply wp_deref_known; [done..|intros np _].
  apply wp_bind, wp_call. intros res. apply wp_status. by split.
Qed.

Lemma unlink_spec b refs fs parent name :
  inv b refs fs -> known fs parent -> wp (PA := True) (unlink parent name) (gives b refs fs) fs.
Proof.
  intros H Hk. unfold unlink. apply wp_bind. eapply wp_get_inode; [done..|]. apply wp_bind.
  eapply wp_mono; [eapply replace_path_spec; [exact H|done|done]|].
  intros r fs1 (H1 & Hg & _). destruct (is_failure r []); [apply wp_ret; by split|].
  apply wp_bind. rewrite <- (addr_grows fs fs1 parent Hg). eapply wp_deref_known; [done|by eapply grows_known|intros p _].
  apply wp_bind, wp_call. intros res. apply wp_status. by split.
Qed.

Lemma rmdir_spec b refs fs parent name :
  inv b refs fs -> known fs parent -> wp (PA := True) (rmdir parent name) (gives b refs fs) fs.
Proof.
  intros H Hk. unfold rmdir. apply wp_bind. eapply wp_get_inode; [done..|]. apply wp_bind.
  eapply wp_mono; [eapply replace_path_spec; [exact H|done|done]|].
  intros r fs1 (H1 & Hg & _). destruct r as [e|].
  { destruct (e =? 0); [by apply wp_panic|apply wp_ret; by split]. }
  apply wp_bind. rewrite <- (addr_grows fs fs1 parent Hg). eapply wp_deref_known; [done|by eapply grows_known|intros j _].
  apply wp_bind, wp_call. intros res. apply wp_status. by split.
Qed.

(** ** Every request *)
Theorem handle_spec fuel b refs fs q :
  inv b refs fs -> Forall (known fs) (q_inos q) -> forgets_ok (q_forgets q) refs ->
  1 <= b -> b + Z.of_nat (S fuel) < 2 ^ 64 ->
  wp (PA := True) (handle fuel q) (gives (b + Z.of_nat (S fuel)) (sub_refs (q_forgets q) refs) fs) fs.
Proof.
  intros H Hk Hf Hb Hb'.
  assert (forall b' refs' r fs', gives b' refs' fs r fs' -> b' <= b + Z.of_nat (S fuel) ->
    gives (b + Z.of_nat (S fuel)) refs' fs r fs') as Hw.
  { intros b' refs' r fs' [H' Hg] Hle. split; [by eapply inv_weaken|done]. }
  destruct (is_quiet q) eqn:Eq.
  { eapply wp_mono; [by eapply quiet_spec|]. intros r fs' [Hr ->].
    assert (q_forgets q = []) as -> by by destruct q. split; [|reflexivity]. rewrite Hr.
    eapply inv_weaken; [exact H|lia]. }
  destruct q; try discriminate Eq; cbn [handle q_inos q_forgets sub_refs forgets_ok] in *;
    repeat match goal with Hk : Forall _ (_ :: _) |- _ => apply Forall_cons in Hk as [? Hk] end;
    try (eapply wp_mono; [first
      [ eapply make_spec; [exact H|assumption|lia] | eapply create_spec; [exact H|assumption|lia]
      | eapply link_spec; [exact H|assumption|assumption|lia] | eapply rename_spec; [exact H|assumption|assumption]
      | eapply unlink_spec; [exact H|assumption] | eapply rmdir_spec; [exact H|assumption]
      | eapply readdir_common_spec; [exact H|assumption|lia|lia] ]
      | intros r fs' Hr; eapply Hw; [exact Hr|lia] ]).
  - eapply wp_mono; [eapply lookup_spec; [exact H|done|lia]|]. intros r fs' [Hr _]. eapply Hw; [exact Hr|lia].
  - apply wp_bind. eapply wp_forget; [exact H|done|tauto|]. intros fs' H' Hg. apply wp_ret.
    split; [|done]. eapply inv_weaken; [exact H'|lia].
  - apply wp_bind. eapply wp_mono; [by eapply forget_multi_spec|]. intros _ fs' [H' Hg]. apply wp_ret.
    split; [|done]. eapply inv_weaken; [exact H'|lia].
Qed.

End Spec.
