(* ===== verification/LowLevelProps.v ===== *)
(** * What the low-level handlers promise, and what they break *)

From stdpp Require Import base list numbers option strings gmap.
From Stdlib Require Import ZArith Lia.
From S2P Require Import Prelude Common LowLevel LowLevelInv LowLevelSpec.

Local Open Scope Z_scope.

(** Documented behaviour of descriptors: [close] closes, and a call on a
    descriptor that is not open fails. *)
Class FdLaws {OS} (Sys : LowSys OS) := {
  fd_open : OS -> Z -> Prop;
  law_close fd os : ~ fd_open (snd (low_call (c_close fd) os)) fd;
  law_closed fd os : ~ fd_open os fd -> fst (low_stat fd None os) = None }.

(** Documented behaviour of directory streams: [readdir] uses an entry up, and
    only it and [seekdir] move the stream. *)
Class DirLaws {OS} (Sys : LowSys OS) := {
  dir_left : Z -> OS -> nat;
  law_readdir dp os d : fst (low_readdir dp os) = Some d -> (dir_left dp (snd (low_readdir dp os)) < dir_left dp os)%nat;
  law_stays c dp os : (forall off, c <> c_seekdir dp off) -> (dir_left dp (snd (low_call c os)) <= dir_left dp os)%nat;
  law_stat dp fd name os : (dir_left dp (snd (low_stat fd name os)) <= dir_left dp os)%nat }.

Section Props.
Context {OS : Type} {Sys : LowSys OS} {Alloc : Allocator}.

(** ** Runs of the kernel

    A kernel names only the root and inodes it holds references to, and gives
    back no more references than it holds. *)
Definition legal (refs : Z -> Z) (q : request) : Prop :=
  Forall (fun i => i = FUSE_ROOT_ID \/ 0 < refs i) (q_inos q) /\ forgets_ok (q_forgets q) refs.

Definition after (q : request) (r : FuseReply) (refs : Z -> Z) : Z -> Z :=
  add_refs (reply_inos r) (sub_refs (q_forgets q) refs).

Inductive kernel_run (fuel : nat) : nat -> (Z -> Z) -> Fs * OS -> (Z -> Z) -> Fs * OS -> Prop :=
| run_none refs s : kernel_run fuel 0 refs s refs s
| run_request n refs s q r s1 refs' s' :
    legal refs q -> handle fuel q s = (Ok r, s1) -> kernel_run fuel n (after q r refs) s1 refs' s' ->
    kernel_run fuel (S n) refs s refs' s'.

Lemma run_handle fuel n refs s q r refs' s' :
  legal refs q -> fst (handle fuel q s) = Ok r -> kernel_run fuel n (after q r refs) (snd (handle fuel q s)) refs' s' ->
  kernel_run fuel (S n) refs s refs' s'.
Proof. intros Hl E Hr. eapply run_request; [exact Hl| |exact Hr]. rewrite <- E. by destruct (handle fuel q s). Qed.

Lemma legal_known b refs fs q : inv b refs fs -> legal refs q -> Forall (known fs) (q_inos q).
Proof.
  intros H [Hk _]. eapply Forall_impl; [exact Hk|]. intros i [->|Hi]; [by left|]. by apply (inv_refs _ _ _ H).
Qed.

Lemma run_inv fuel n refs s refs' s' : kernel_run fuel n refs s refs' s' -> forall b,
  inv b refs (fst s) -> 1 <= b -> b + Z.of_nat n * Z.of_nat (S fuel) < 2 ^ 64 ->
  inv (b + Z.of_nat n * Z.of_nat (S fuel)) refs' (fst s') /\ grows (fst s) (fst s').
Proof.
  induction 1 as [refs s|n refs [fs os] q r [fs1 os1] refs' s' Hl E _ IH]; intros b H Hb Hbd; cbn [fst] in *.
  { split; [|reflexivity]. eapply inv_weaken; [exact H|lia]. }
  pose proof (handle_spec fuel b refs fs q H (legal_known _ _ _ _ H Hl) (proj2 Hl) Hb ltac:(nia) os) as Hs.
  rewrite E in Hs. destruct Hs as [H1 Hg]. destruct (IH _ H1 ltac:(lia) ltac:(nia)) as [H2 Hg2].
  split; [|by transitivity fs1]. eapply inv_weaken; [exact H2|nia].
Qed.

(** C16. The memory the kernel refers to is safe. After any run of requests no
    inode has been freed, no further request touches memory without an inode,
    and giving references back succeeds. The reason is a leak: the count of
    an inode starts at one more than the kernel was told, so it never gets to
    zero. *)
Theorem inodes_outlive_kernel fuel n b refs fs os refs' fs' os' q :
  inv b refs fs -> 1 <= b -> b + Z.of_nat (S n) * Z.of_nat (S fuel) < 2 ^ 64 ->
  kernel_run fuel n refs (fs, os) refs' (fs', os') -> legal refs' q ->
  grows fs fs' /\ (forall e, fst (handle fuel q (fs', os')) <> Err e) /\
  (forall ino m, q = q_forget ino m -> fst (handle fuel q (fs', os')) = Ok reply_none).
Proof.
  intros H Hb Hbd Hr Hl. destruct (run_inv _ _ _ _ _ _ Hr b H Hb ltac:(nia)) as [H' Hg]. cbn [fst] in *.
  split; [done|]. pose proof (legal_known _ _ _ _ H' Hl) as Hk. destruct Hl as [_ Hf]. split.
  - pose proof (handle_spec fuel _ _ _ q H' Hk Hf ltac:(lia) ltac:(nia) os') as Hs.
    destruct (handle fuel q (fs', os')) as [[r| | |] [fs2 os2]]; try done.
  - intros ino m ->. cbn [q_inos q_forgets forgets_ok] in *. apply Forall_cons in Hk as [Hk _].
    assert (wp (PA := False) (handle fuel (q_forget ino m)) (fun r _ => r = reply_none) fs') as Hs.
    { cbn [handle]. apply wp_bind. eapply wp_forget; [exact H'|done|tauto|]. intros fs2 _ _. by apply wp_ret. }
    specialize (Hs os'). destruct (handle fuel (q_forget ino m) (fs', os')) as [[r| | |] [fs2 os2]]; try done. by subst.
Qed.

(** ** Reading a directory ends *)
Section Dir.
Context {DL : DirLaws Sys}.

(** A step that ends and does not move a stream back. *)
Definition calm {A} (dp : Z) (m : M (Fs * OS) A) : Prop := forall s,
  fst (m s) <> NoFuel /\ (dir_left dp (snd (snd (m s))) <= dir_left dp (snd s))%nat.

Lemma calm_bind {A B} dp (m : M (Fs * OS) A) (f : A -> M (Fs * OS) B) :
  calm dp m -> (forall a, calm dp (f a)) -> calm dp (mbind f m).
Proof.
  intros Hm Hf s. specialize (Hm s). unfold mbind, M_bind. destruct Hm as [Hn Hd].
  destruct (m s) as [[a| | |] s1]; cbn [fst snd] in *; try done. specialize (Hf a s1). split; [tauto|lia].
Qed.
Lemma calm_ret {A} dp (a : A) : calm dp (mret a).
Proof. intros s. split; [done|cbn; lia]. Qed.
Lemma calm_panic {A} dp : calm dp (@panic (Fs * OS) A).
Proof. intros s. split; [done|cbn; lia]. Qed.
Lemma calm_throw {A} dp e : calm dp (@throw (Fs * OS) A e).
Proof. intros s. split; [done|cbn; lia]. Qed.
Lemma calm_call dp c : (forall off, c <> c_seekdir dp off) -> calm dp (call c).
Proof.
  intros Hc [fs os]. unfold call. pose proof (law_stays c dp os Hc). destruct (low_call c os). by split.
Qed.
Lemma calm_fstat dp fd name : calm dp (fstat fd name).
Proof. intros [fs os]. unfold fstat. pose proof (law_stat dp fd name os). destruct (low_stat fd name os). by split. Qed.
Lemma calm_errno dp : calm dp errno.
Proof. intros [fs os]. split; [done|cbn; lia]. Qed.
Lemma calm_this dp : calm dp this.
Proof. intros [fs os]. split; [done|cbn; lia]. Qed.
Lemma calm_store dp a i : calm dp (store a i).
Proof. intros [fs os]. split; [done|cbn; lia]. Qed.
Lemma calm_remove dp id : calm dp (remove id).
Proof. intros [fs os]. unfold remove, modify. case_match; (split; [done|cbn; lia]). Qed.
Lemma calm_or_insert dp id i : calm dp (or_insert id i).
Proof. intros [fs os]. unfold or_insert. case_match; (split; [done|cbn; lia]). Qed.

Ltac calm :=
  repeat first
    [ apply calm_bind; [|intros ?]
    | apply calm_ret | apply calm_panic | apply calm_throw | apply calm_fstat | apply calm_errno | apply calm_this
    | apply calm_store | apply calm_remove | apply calm_or_insert | apply calm_call; discriminate | case_match ].

Lemma calm_deref dp a : calm dp (deref a).
Proof. unfold deref. calm. Qed.
Lemma calm_get_inode dp ino : calm dp (get_inode ino).
Proof. unfold get_inode. case_match; calm; apply calm_deref. Qed.
Lemma calm_forget dp ino n : calm dp (forget ino n).
Proof. unfold forget. calm; auto using calm_get_inode, calm_deref. Qed.
Lemma calm_lookup dp parent name : calm dp (lookup parent name).
Proof. unfold lookup, fail, get_fs_fd, bump. calm; auto using calm_get_inode, calm_deref. Qed.

Lemma readdir_loop_returns fuel ino dp size plus : forall es c_size s,
  (dir_left dp (snd s) < fuel)%nat -> fst (readdir_loop fuel ino dp size plus es c_size s) <> NoFuel.
Proof.
  induction fuel as [|fuel IH]; intros es c_size [fs os] Hf; [lia|]. cbn [readdir_loop]. unfold mbind at 1, M_bind at 1.
  unfold readdir at 1. pose proof (law_readdir dp os) as Hrd. cbn [snd] in Hf.
  destruct (low_readdir dp os) as [[d|] os1] eqn:E; [|done]. specialize (Hrd d eq_refl). cbn [snd] in Hrd.
  destruct (is_dot_or_dotdot _); [apply IH; cbn; lia|]. destruct plus; [|case_match; [done|apply IH; cbn; lia]].
  unfold mbind at 1, M_bind at 1. destruct (calm_lookup dp ino (d_name d) (fs, os1)) as [Hn Hl].
  destruct (lookup ino (d_name d) (fs, os1)) as [[r| | |] s1]; cbn [fst snd] in *; try done.
  destruct r; try done. case_match; [|apply IH; lia].
  unfold mbind, M_bind. destruct (calm_forget dp (e_ino e) 1 s1) as [Hn2 _].
  by destruct (forget (e_ino e) 1 s1) as [[| | |] s2].
Qed.

(** Reading a directory ends, whatever room the buffer has: one step for each
    entry the stream has left after it was positioned. *)
Theorem readdir_terminates fuel ino size off fi plus fs os :
  (dir_left (fh fi) (snd (low_call (c_seekdir (fh fi) off) os)) < fuel)%nat ->
  fst (readdir_common fuel ino size off fi plus (fs, os)) <> NoFuel.
Proof.
  intros Hf. unfold readdir_common.
  unfold mbind at 1, M_bind at 1. destruct (get_inode ino (fs, os)) as [[a| | |] s1] eqn:E; try done.
  2: { pose proof (proj1 (calm_get_inode 0 ino (fs, os))) as Hn. by rewrite E in Hn. }
  assert (s1 = (fs, os)) as ->.
  { revert E. unfold get_inode, deref, this. munfold. repeat case_match; intros; by simplify_eq. }
  unfold mbind at 1, M_bind at 1. unfold deref, this. munfold. destruct (mem fs !! a) as [i|]; [|done].
  unfold call. destruct (low_call (c_seekdir (fh fi) off) os) as [res os1]. by apply readdir_loop_returns.
Qed.
End Dir.

(** ** Known defects *)

(** Steps that leave the memory alone. *)
Lemma call_same c r fs os fs' os' : call c (fs, os) = (Ok r, (fs', os')) -> fs' = fs /\ os' = snd (low_call c os).
Proof. unfold call. destruct (low_call c os). by intros [= _ <- <-]. Qed.
Lemma fstat_same fd name r fs os fs' os' : fstat fd name (fs, os) = (Ok r, (fs', os')) -> fs' = fs.
Proof. unfold fstat. destruct (low_stat fd name os). by intros [= _ <- _]. Qed.
Lemma deref_same a i fs (os : OS) fs' os' : deref a (fs, os) = (Ok i, (fs', os')) -> mem fs !! a = Some i /\ fs' = fs /\ os' = os.
Proof. unfold deref, this, mbind, M_bind. destruct (mem fs !! a); by intros [= <- <- <-]. Qed.
Lemma get_inode_same ino a fs (os : OS) fs' os' :
  get_inode ino (fs, os) = (Ok a, (fs', os')) -> a = addr fs ino /\ fs' = fs /\ os' = os.
Proof.
  unfold get_inode, addr. destruct (ino =? FUSE_ROOT_ID).
  - by intros [= <- <- <-].
  - intros (i & [fs1 os1] & E & E2)%bind_ok. apply deref_same in E as (_ & -> & ->).
    destruct (i_fd i =? -1); [done|]. by injection E2 as <- <- <-.
Qed.
Lemma get_fs_fd_same ino fd fs (os : OS) fs' os' : get_fs_fd ino (fs, os) = (Ok fd, (fs', os')) -> fs' = fs.
Proof.
  intros (a & [fs1 os1] & E & E2)%bind_ok. apply get_inode_same in E as (_ & -> & _).
  apply bind_ok in E2 as (i & [fs2 os2] & E & E2). apply deref_same in E as (_ & -> & _). by injection E2 as _ <- _.
Qed.
Lemma fail_not_entry e (s s' : Fs * OS) : fail s <> (Ok (reply_entry e), s').
Proof. destruct s. by intros [=]. Qed.

Lemma getattr_closed {FL : FdLaws Sys} a i fs os :
  a <> FUSE_ROOT_ID -> mem fs !! a = Some i -> i_fd i <> -1 -> ~ fd_open os (i_fd i) ->
  exists err s, getattr a (fs, os) = (Ok (reply_err err), s).
Proof.
  intros Ha Hi Hfd Hcl. unfold getattr, get_inode, deref, this, fail. munfold.
  rewrite (proj2 (Z.eqb_neq _ _) Ha), Hi, (proj2 (Z.eqb_neq _ _) Hfd), Hi. unfold fstat.
  pose proof (law_closed (i_fd i) os Hcl) as Hst. destruct (low_stat (i_fd i) None os) as [st os2].
  cbn [fst] in Hst. subst st. by do 2 eexists.
Qed.

(** The first lookup of a file stores a descriptor in its inode and closes it:
    reading the attributes of the new inode fails. *)
Theorem lookup_closes_fd {FL : FdLaws Sys} parent name fs (os : OS) e fs' os' :
  lookup parent name (fs, os) = (Ok (reply_entry e), (fs', os')) ->
  inodes fs !! ((st_ino (e_attr e), st_dev (e_attr e)) : SrcId) = None ->
  exists err s, getattr (e_ino e) (fs', os') = (Ok (reply_err err), s).
Proof.
  intros E Hnew. unfold lookup in E.
  apply bind_ok in E as (fd & [fs1 os1] & E1 & E). pose proof (get_fs_fd_same _ _ _ _ _ _ E1) as ->. clear E1.
  apply bind_ok in E as (newfd & [fs1 os2] & E1 & E). apply call_same in E1 as [-> _].
  destruct (Z.eqb_spec newfd (-1)) as [_|Hfd]; [by apply fail_not_entry in E|].
  apply bind_ok in E as (attr & [fs1 os3] & E1 & E). apply fstat_same in E1 as ->.
  destruct attr as [attr|]; [|by apply fail_not_entry in E].
  apply bind_ok in E as (? & ? & [= <- <-] & E). case_match; [done|]. case_match; [done|].
  apply bind_ok in E as (a & [fs2 os4] & Ei & E). apply bind_ok in E as ([] & [fs3 os5] & Eb & E).
  apply bind_ok in E as (r & [fs4 os6] & Ec & E). injection E as <- -> ->. cbn [e_attr e_ino] in *.
  apply call_same in Ec as [-> ->]. unfold or_insert in Ei. rewrite Hnew in Ei. injection Ei as <- <- <-.
  apply bind_ok in Eb as (i & [fs5 os7] & Ed & Es). apply deref_same in Ed as (Hi & -> & ->).
  cbn [fs_set_mem mem] in Hi. rewrite lookup_insert_eq in Hi. injection Hi as <-. injection Es as <- <-.
  eapply getattr_closed; [apply alloc_not_root|apply lookup_insert_eq|exact Hfd|exact (law_close newfd os3)].
Qed.

(** A handler without a loop. *)
Definition total {A} (m : M (Fs * OS) A) : Prop := forall s, fst (m s) <> NoFuel.

Lemma total_bind {A B} (m : M (Fs * OS) A) (f : A -> M (Fs * OS) B) :
  total m -> (forall a, total (f a)) -> total (mbind f m).
Proof.
  intros Hm Hf s. specialize (Hm s). unfold mbind, M_bind. destruct (m s) as [[a| | |] s1]; try done. apply Hf.
Qed.

Lemma rmdir_total parent name : total (rmdir parent name).
Proof.
  unfold rmdir, replace_path, get_child, get_inode, deref, status, fail.
  repeat first [apply total_bind; [|intros ?] | case_match]; intros [fs os];
    unfold this, fstat, errno, call, store, modify, throw, panic, expect, mret, M_ret; repeat case_match; simplify_eq; done.
Qed.

(** A directory directly below the root cannot be removed: the inode keeps the
    number of its parent, which for the root is not the address that [rmdir]
    compares it with. *)
Theorem rmdir_in_root_fails b refs fs (os : OS) name :
  inv b refs fs ->
  match rmdir FUSE_ROOT_ID name (fs, os) with
  | (Ok r, (fs', _)) => fs' = fs /\ exists e, r = reply_err e /\ e <> 0
  | (r, _) => r = Panic
  end.
Proof.
  intros H.
  assert (wp (PA := True) (rmdir FUSE_ROOT_ID name) (fun r fs' => fs' = fs /\ exists e, r = reply_err e /\ e <> 0) fs) as Hw.
  { unfold rmdir. apply wp_bind. eapply wp_get_inode; [exact H|by left|]. apply wp_bind.
    eapply wp_mono; [eapply replace_path_spec; [exact H|by left|done]|]. intros r fs1 (_ & _ & Hr).
    destruct (Hr eq_refl) as (e & -> & ->). destruct (Z.eqb_spec e 0); [by apply wp_panic|].
    apply wp_ret. split; [done|by exists e]. }
  specialize (Hw os). pose proof (rmdir_total FUSE_ROOT_ID name (fs, os)) as Hn.
  destruct (rmdir FUSE_ROOT_ID name (fs, os)) as [[r| | |] [fs' os']]; done.
Qed.

(** [setattr] stops after its first change: [chmod] and the others answer with
    the status 0 when they succeed, which [setattr] takes for a failure. *)
Theorem setattr_stops_after_chmod ino attr to_set fi (s : Fs * OS) :
  has to_set SET_MODE = true -> setattr ino attr to_set fi s = chmod ino (st_mode attr) fi s.
Proof.
  intros H. unfold setattr. cbn zeta. unfold unless_err at 1. rewrite H. unfold mbind at 1, M_bind at 1.
  destruct (chmod ino (st_mode attr) fi s) as [[r| | |] s'] eqn:E; try done.
  assert (exists e, r = reply_err e) as [e ->]; [|done].
  revert E. unfold chmod, status, fail, errno, mbind, M_bind, mret, M_ret. destruct s, fi; intros E.
  - repeat case_match; simplify_eq; by eexists.
  - repeat case_match; simplify_eq; by eexists.
Qed.

(** [readlink] appends a zero byte and builds a C string of the whole, which
    fails: no link is ever read. *)
Theorem readlink_never_answers ino (s : Fs * OS) l : fst (readlink ino s) <> Ok (reply_readlink l).
Proof.
  assert (forall buf, CString_new (buf ++ [0]) = None) as Hc.
  { intros buf. unfold CString_new. rewrite existsb_app. cbn. by rewrite orb_true_r. }
  destruct (readlink ino s) as [[r| | |] s'] eqn:E; [|done..]. intros [= ->]. destruct s as [fs os], s' as [fs' os'].
  apply bind_ok in E as (fd & [fs1 os1] & _ & E). apply bind_ok in E as ([res buf] & [fs2 os2] & _ & E).
  destruct (res =? -1); [by injection E|]. destruct (negb _); [done|].
  apply bind_ok in E as (v & s3 & Ev & _). by rewrite Hc in Ev.
Qed.

(** *** Renaming *)

(** Descriptors do not change. *)
Definition same_fds (fs fs' : Fs) : Prop :=
  root_ptr fs' = root_ptr fs /\ forall a i, mem fs' !! a = Some i -> exists j, mem fs !! a = Some j /\ i_fd j = i_fd i.

Lemma replace_path_fds parent name newpath fs (os : OS) r fs' os' :
  replace_path parent name newpath (fs, os) = (Ok r, (fs', os')) -> same_fds fs fs'.
Proof.
  assert (same_fds fs fs) as Hrefl by (split; [done|]; intros a i Hi; by exists i).
  unfold replace_path, get_child. intros E. apply bind_ok in E as (c & [fs1 os1] & E1 & E).
  apply bind_ok in E1 as (s & [fs2 os2] & Ed & E1). apply deref_same in Ed as (_ & -> & ->).
  apply bind_ok in E1 as (attr & [fs2 os2] & Ef & E1). apply fstat_same in Ef as ->.
  destruct attr as [attr|]; [|injection E1 as <- <- <-; by injection E as _ <- _].
  apply bind_ok in E1 as (? & ? & [= <- <-] & E1). apply bind_ok in E1 as (a & [fs2 os3] & Ee & E1).
  injection E1 as <- <- <-. unfold expect in Ee. case_match; [|done]. injection Ee as -> <- <-.
  apply bind_ok in E as (i & [fs3 os3] & Ed & E). apply deref_same in Ed as (Hi & -> & ->).
  destruct (i_path i) as [[p n]|]; [|by injection E as _ <- _]. destruct (_ && _); [|by injection E as _ <- _].
  injection E as _ <- _. split; [done|]. cbn [fs_set_mem mem]. intros x j. rewrite lookup_insert. case_decide as Hx.
  - intros [= <-]. subst x. by exists i.
  - intros Hj. by exists j.
Qed.

Lemma is_failure_nonzero r l : is_failure r l <> Some 0.
Proof. unfold is_failure. destruct r as [e|]; [|done]. cbn [existsb]. destruct (Z.eqb_spec e 0); [done|]. case_match; congruence. Qed.

Lemma status_same res r fs (os : OS) fs' os' : status res (fs, os) = (Ok r, (fs', os')) -> os' = os.
Proof. unfold status. destruct (res =? -1); by intros [= _ _ <-]. Qed.

(** A rename that succeeds has renamed within the old parent, whatever the new
    parent was. *)
Theorem rename_ignores_newparent parent name newparent newname flags fs (os : OS) fs' os' :
  rename parent name newparent newname flags (fs, os) = (Ok (reply_err 0), (fs', os')) ->
  exists p os1, mem fs !! addr fs parent = Some p /\
    os' = snd (low_call (c_renameat (i_fd p) name (i_fd p) newname) os1).
Proof.
  unfold rename. destruct (negb _); [by intros [=]|]. intros E.
  apply bind_ok in E as (a1 & [fs1 os1] & E1 & E). apply get_inode_same in E1 as (-> & -> & ->).
  apply bind_ok in E as (r1 & [fs1 os1] & E1 & E). apply replace_path_fds in E1 as [R1 H1].
  destruct (is_failure r1 []) as [e|] eqn:Ef; [injection E as ->; by apply is_failure_nonzero in Ef|].
  apply bind_ok in E as (a2 & [fs2 os2] & E2 & E). apply get_inode_same in E2 as (-> & -> & ->).
  apply bind_ok in E as (r2 & [fs2 os2] & E2 & E). apply replace_path_fds in E2 as [R2 H2].
  destruct (is_failure r2 _) as [e|] eqn:Ef2; [injection E as ->; by apply is_failure_nonzero in Ef2|].
  assert (addr fs1 parent = addr fs parent) as Ha by (unfold addr; by rewrite R1). rewrite Ha in E.
  apply bind_ok in E as (op & [fs3 os3] & E3 & E). apply deref_same in E3 as (Hop & -> & ->).
  apply bind_ok in E as (np & [fs3 os3] & E3 & E). apply deref_same in E3 as (Hnp & -> & ->).
  rewrite Hop in Hnp. injection Hnp as <-.
  destruct (H2 _ _ Hop) as (j & Hj & Hij). destruct (H1 _ _ Hj) as (p & Hp & Hpj).
  apply bind_ok in E as (res & [fs3 os3] & E3 & E). apply call_same in E3 as [-> ->].
  exists p, os2. split; [exact Hp|]. rewrite Hpj, Hij. by apply status_same in E.
Qed.

End Props.

(** ** Instances

    A system with one file, number 7 of device 1, below a root whose
    descriptor is 0. *)
Record desk := mk_desk { d_fds : gset Z; d_dir : list dirent }.
Definition demo_stat : stat := mk_stat 7 1 16877 0 0 0 0 0.

#[local] Instance demo_low : LowSys desk := {|
  low_errno := fun _ => 9;
  low_call := fun c os =>
    match c with
    | c_openat _ _ _ _ => let fd := Z.of_nat (size (d_fds os)) in (fd, mk_desk ({[fd]} ∪ d_fds os) (d_dir os))
    | c_close fd => (0, mk_desk (d_fds os ∖ {[fd]}) (d_dir os))
    | _ => (0, os)
    end;
  low_data := fun _ os => ((0, []), os);
  low_stat := fun fd _ os => (if decide (fd ∈ d_fds os) then Some demo_stat else None, os);
  low_readdir := fun _ os =>
    match d_dir os with [] => (None, os) | d :: l => (Some d, mk_desk (d_fds os) l) end;
  dir_size := fun _ => 32 |}.

#[local] Instance demo_fds : FdLaws demo_low.
Proof.
  refine (Build_FdLaws _ demo_low (fun os fd => fd ∈ d_fds os) _ _).
  - intros fd os. cbn. set_solver.
  - intros fd os Hc. cbn. by rewrite decide_False by exact Hc.
Defined.

#[local] Instance demo_dirs : DirLaws demo_low.
Proof.
  refine (Build_DirLaws _ demo_low (fun _ os => length (d_dir os)) _ _ _).
  - intros dp os d. cbn. destruct (d_dir os); cbn; [done|lia].
  - intros c dp os _. destruct c; cbn; lia.
  - intros dp fd name os. cbn. lia.
Defined.

Definition top (m : gmap Z Inode) : Z := map_fold (fun k _ n => Z.max k n) 1 m.

Lemma top_bound m : 1 <= top m /\ forall a i, m !! a = Some i -> a <= top m.
Proof.
  unfold top. apply (map_fold_weak_ind (fun r m => 1 <= r /\ forall a i, m !! a = Some i -> a <= r)).
  - split; [lia|]. by intros a i H.
  - intros k x m' r _ [H1 H2]. split; [lia|]. intros a i [[<- _]|[_ Ha]]%lookup_insert_Some; [lia|].
    specialize (H2 _ _ Ha). lia.
Qed.

#[local] Instance demo_alloc : Allocator.
Proof.
  refine {| alloc := fun m => top m + 1 |}.
  - intros m. destruct (m !! (top m + 1)) eqn:E; [|done]. apply top_bound in E. lia.
  - intros m. pose proof (top_bound m). lia.
Defined.

Definition demo_root : Inode := mk_Inode 0 false 1 2 1 None.
Definition demo_fs : Fs := mk_Fs ∅ {[5 := demo_root]} 5 1 0.
Definition demo_desk : desk := mk_desk {[0]} [mk_dirent 7 1 4 "a"; mk_dirent 7 2 4 "b"].

Lemma demo_mem a i : mem demo_fs !! a = Some i -> a = 5 /\ i = demo_root.
Proof. unfold demo_fs. cbn [mem]. by intros [<- <-]%lookup_singleton_Some. Qed.

Lemma demo_inv : inv 1 (fun _ => 0) demo_fs.
Proof.
  constructor.
  - by eexists.
  - by intros id a H.
  - intros a i [-> _]%demo_mem H. by destruct H.
  - by intros a i [_ ->]%demo_mem.
  - intros a. split; [done|lia].
  - done.
  - by intros a i p n [_ ->]%demo_mem.
Qed.

(** The only reference to a file is given back, and its inode stays. *)
Definition demo_box : Z := 6.
Definition looked_up : Fs * desk := snd (handle 0 (q_lookup FUSE_ROOT_ID "a") (demo_fs, demo_desk)).
Definition forgotten : Fs * desk := snd (handle 0 (q_forget demo_box 1) looked_up).

(** The states are compared by name: only the results are computed. *)
Lemma run_pair {A} (x : outcome A * (Fs * desk)) r : fst x = Ok r -> x = (Ok r, (fst (snd x), snd (snd x))).
Proof. destruct x as [o [fs os]]. cbn. by intros ->. Qed.

Definition refs0 : Z -> Z := fun _ => 0.
Definition refs1 : Z -> Z := after (q_lookup FUSE_ROOT_ID "a") (reply_entry (mk_entry demo_box demo_stat 0)) refs0.
Definition refs2 : Z -> Z := after (q_forget demo_box 1) reply_none refs1.

Lemma demo_run1 : kernel_run 0 1 refs0 (demo_fs, demo_desk) refs1 looked_up.
Proof.
  eapply run_handle; [| |apply run_none]; [|vm_compute; reflexivity].
  split; [by repeat constructor|exact I].
Qed.

Lemma demo_run2 : kernel_run 0 1 refs1 looked_up refs2 forgotten.
Proof.
  eapply run_handle; [| |apply run_none]; [|vm_compute; reflexivity].
  split; [by repeat constructor|]. split; [ground|exact I].
Qed.

Lemma inodes_outlive_kernel_witness :
  grows (fst looked_up) (fst forgotten) /\ nlookup <$> (mem (fst forgotten) !! demo_box) = Some 1 /\
  forall e, fst (handle 0 (q_lookup FUSE_ROOT_ID "a") forgotten) <> Err e.
Proof.
  pose proof (proj1 (run_inv _ _ _ _ _ _ demo_run1 1 demo_inv ltac:(lia) ltac:(lia))) as Hi.
  assert (legal refs2 (q_lookup FUSE_ROOT_ID "a")) as Hl by (split; [by repeat constructor|exact I]).
  pose proof demo_run2 as Hr. rewrite (surjective_pairing looked_up), (surjective_pairing forgotten) in Hr.
  destruct (inodes_outlive_kernel 0 1 2 refs1 _ _ refs2 _ _ _ Hi ltac:(lia) ltac:(lia) Hr Hl) as (Hg & He & _).
  split; [exact Hg|]. split; [vm_compute; reflexivity|]. intros e. rewrite (surjective_pairing forgotten). apply He.
Defined.

Definition demo_fi : fuse_file_info := mk_fi 0 0 false false.

Lemma readdir_terminates_witness :
  fst (readdir_common 3 FUSE_ROOT_ID 100 0 demo_fi true (demo_fs, demo_desk)) <> NoFuel.
Proof. apply readdir_terminates. cbn. lia. Defined.

Lemma lookup_closes_fd_witness : exists err s, getattr demo_box looked_up = (Ok (reply_err err), s).
Proof.
  rewrite (surjective_pairing looked_up).
  refine (lookup_closes_fd FUSE_ROOT_ID "a" demo_fs demo_desk (mk_entry demo_box demo_stat 0) _ _ _ eq_refl).
  unfold looked_up. cbn [handle]. apply run_pair. vm_compute. reflexivity.
Defined.

(** A rename from the root to the directory 6 stays in the root. *)
Definition renamed : Fs * desk := snd (rename FUSE_ROOT_ID "a" demo_box "b" 0 looked_up).
Lemma rename_ignores_newparent_witness :
  exists p os1, mem (fst looked_up) !! 5 = Some p /\
    snd renamed = snd (low_call (c_renameat (i_fd p) "a" (i_fd p) "b") os1).
Proof.
  apply (rename_ignores_newparent FUSE_ROOT_ID "a" demo_box "b" 0 (fst looked_up) (snd looked_up) (fst renamed)).
  unfold renamed. rewrite <- (surjective_pairing looked_up). apply run_pair. vm_compute. reflexivity.
Defined.

Lemma rmdir_in_root_fails_witness : fst (rmdir FUSE_ROOT_ID "a" (demo_fs, demo_desk)) = Panic.
Proof.
  pose proof (rmdir_in_root_fails 1 (fun _ => 0) demo_fs demo_desk "a" demo_inv) as H.
  destruct (rmdir FUSE_ROOT_ID "a" (demo_fs, demo_desk)) as [[r| | |] s] eqn:E; try done.
Defined.
