(* ===== verification/Mount.v ===== *)
(** * Mounting low-level handlers: [fuse/src/lib.rs] and [fuse/src/ops.rs]

    The operations of the kernel with their arguments ([op_args], [op_list]),
    the trait [FilesystemLL] with its defaults, the callbacks that forward to the
    file system in [FS] and send its reply, and [mount], whose session is taken
    down when it goes out of scope. The C library of FUSE is a parameter. *)

From stdpp Require Import base list numbers option strings gmap.
From Stdlib Require Import ZArith Lia Ascii String.
From S2P Require Import Prelude Common LowLevel LowLevelSpec.

Local Open Scope string_scope.
Local Open Scope list_scope.
Local Open Scope Z_scope.

(** ** The operations *)

(** A pointer to a [fuse_file_info] may be null. *)
Abbreviation file_info := (option fuse_file_info).

(** [op_args], for the operations that answer with a [FuseReply]. Pointers to
    what the model has no structure for are addresses. *)
Inductive LLOp :=
| o_readdir (ino size off : Z) (fi : file_info)
| o_readdirplus (ino size off : Z) (fi : file_info)
| o_poll (ino : Z) (fi : file_info) (ph : Z)
| o_chmod (ino mode : Z) (fi : file_info)
| o_chown (ino uid gid : Z) (fi : file_info)
| o_truncate (ino size : Z) (fi : file_info)
| o_utimens (ino : Z) (ts : Timespec * Timespec) (fi : file_info)
| o_lookup (parent : Z) (name : string)
| o_getattr (ino : Z) (fi : file_info)
| o_readlink (ino : Z)
| o_mknod (parent : Z) (name : string) (mode rdev : Z)
| o_mkdir (parent : Z) (name : string) (mode : Z)
| o_unlink (parent : Z) (name : string)
| o_rmdir (parent : Z) (name : string)
| o_symlink (link : string) (parent : Z) (name : string)
| o_rename (parent : Z) (name : string) (newparent : Z) (newname : string) (flags : Z)
| o_link (ino newparent : Z) (newname : string)
| o_open (ino : Z) (fi : file_info)
| o_read (ino size off : Z) (fi : file_info)
| o_write (ino : Z) (buf : list Z) (size off : Z) (fi : file_info)
| o_flush (ino : Z) (fi : file_info)
| o_release (ino : Z) (fi : file_info)
| o_fsync (ino datasync : Z) (fi : file_info)
| o_fsyncdir (ino datasync : Z) (fi : file_info)
| o_opendir (ino : Z) (fi : file_info)
| o_releasedir (ino : Z) (fi : file_info)
| o_statfs (ino : Z)
| o_setxattr (ino : Z) (name : string) (value : list Z) (size flags : Z)
| o_getxattr (ino : Z) (name : string) (size : Z)
| o_listxattr (ino size : Z)
| o_removexattr (ino : Z) (name : string)
| o_access (ino mask : Z)
| o_ioctl (ino cmd arg : Z) (fi : file_info) (flags : Z) (in_buf : list Z) (in_bufsz out_bufsz : Z)
| o_retrieve_reply (cookie ino offset : Z) (bufv : list Z)
| o_create (parent : Z) (name : string) (mode : Z) (fi : file_info)
| o_getlk (ino : Z) (fi : file_info) (lock : Z)
| o_setlk (ino : Z) (fi : file_info) (lock sleep : Z)
| o_bmap (ino blocksize idx : Z)
| o_write_buf (ino : Z) (bufv : list Z) (off : Z) (fi : file_info)
| o_flock (ino : Z) (fi : file_info) (op : Z)
| o_fallocate (ino mode offset length : Z) (fi : file_info)
| o_copy_file_range (ino_in off_in : Z) (fi_in : file_info) (ino_out off_out : Z) (fi_out : file_info) (len flags : Z).

(** The other callbacks: [fsmut], [nonereply] and [setattr]. *)
Inductive Request :=
| r_init (userdata conn : Z)
| r_destroy (userdata : Z)
| r_forget (ino n : Z)
| r_forget_multi (forgets : list (Z * Z))
| r_setattr (ino : Z) (attr : stat) (to_set : Z) (fi : file_info)
| r_op (o : LLOp).

(** The names, in the order of [op_list]. *)
Definition generic : list string :=
  ["lookup"; "getattr"; "readlink"; "mknod"; "mkdir"; "unlink"; "rmdir"; "symlink"; "rename"; "link"; "open"; "read";
   "write"; "flush"; "release"; "fsync"; "fsyncdir"; "opendir"; "releasedir"; "statfs"; "setxattr"; "getxattr";
   "listxattr"; "removexattr"; "access"; "ioctl"; "retrieve_reply"; "create"; "getlk"; "setlk"; "bmap"; "write_buf";
   "flock"; "fallocate"; "copy_file_range"].
Definition withreq : list string := ["readdir"; "readdirplus"; "poll"].
Definition fsmut : list string := ["init"; "destroy"].
Definition nonereply : list string := ["forget"; "forget_multi"].
Definition attr_ops : list string := ["chmod"; "chown"; "truncate"; "utimens"].
Definition all_ops : list string := fsmut ++ nonereply ++ withreq ++ generic.

Definition op_name (o : LLOp) : string :=
  match o with
  | o_readdir _ _ _ _ => "readdir" | o_readdirplus _ _ _ _ => "readdirplus" | o_poll _ _ _ => "poll"
  | o_chmod _ _ _ => "chmod" | o_chown _ _ _ _ => "chown" | o_truncate _ _ _ => "truncate" | o_utimens _ _ _ => "utimens"
  | o_lookup _ _ => "lookup" | o_getattr _ _ => "getattr" | o_readlink _ => "readlink" | o_mknod _ _ _ _ => "mknod"
  | o_mkdir _ _ _ => "mkdir" | o_unlink _ _ => "unlink" | o_rmdir _ _ => "rmdir" | o_symlink _ _ _ => "symlink"
  | o_rename _ _ _ _ _ => "rename" | o_link _ _ _ => "link" | o_open _ _ => "open" | o_read _ _ _ _ => "read"
  | o_write _ _ _ _ _ => "write" | o_flush _ _ => "flush" | o_release _ _ => "release" | o_fsync _ _ _ => "fsync"
  | o_fsyncdir _ _ _ => "fsyncdir" | o_opendir _ _ => "opendir" | o_releasedir _ _ => "releasedir" | o_statfs _ => "statfs"
  | o_setxattr _ _ _ _ _ => "setxattr" | o_getxattr _ _ _ => "getxattr" | o_listxattr _ _ => "listxattr"
  | o_removexattr _ _ => "removexattr" | o_access _ _ => "access" | o_ioctl _ _ _ _ _ _ _ _ => "ioctl"
  | o_retrieve_reply _ _ _ _ => "retrieve_reply" | o_create _ _ _ _ => "create" | o_getlk _ _ _ => "getlk"
  | o_setlk _ _ _ _ => "setlk" | o_bmap _ _ _ => "bmap" | o_write_buf _ _ _ _ => "write_buf" | o_flock _ _ _ => "flock"
  | o_fallocate _ _ _ _ _ => "fallocate" | o_copy_file_range _ _ _ _ _ _ _ _ => "copy_file_range"
  end.

Definition request_name (r : Request) : string :=
  match r with
  | r_init _ _ => "init" | r_destroy _ => "destroy" | r_forget _ _ => "forget" | r_forget_multi _ => "forget_multi"
  | r_setattr _ _ _ _ => "setattr" | r_op o => op_name o
  end.

(** ** [FilesystemLL] *)
Record FilesystemLL (S : Type) := mk_FilesystemLL {
  ll_init : Z -> Z -> M S unit;
  ll_destroy : Z -> M S unit;
  ll_forget : Z -> Z -> M S unit;
  ll_forget_multi : list (Z * Z) -> M S unit;
  ll_setattr : Z -> stat -> Z -> file_info -> M S FuseReply;
  ll_op : LLOp -> M S FuseReply }.
Arguments ll_init {S}. Arguments ll_destroy {S}. Arguments ll_forget {S}. Arguments ll_forget_multi {S}.
Arguments ll_setattr {S}. Arguments ll_op {S}.

Section Trait.
Context {S : Type}.

(** The defaults. *)
Definition not_supported : M S FuseReply := mret (reply_err EOPNOTSUPP).

Definition default_forget_multi (forget : Z -> Z -> M S unit) (forgets : list (Z * Z)) : M S unit :=
  foldr (fun '(ino, n) k => _ ← forget ino n; k) (mret tt) forgets.

Definition or_reply (b : bool) (m k : M S FuseReply) : M S FuseReply :=
  if b then r ← m; match r with reply_err e => mret (reply_err e) | _ => k end else k.

Definition default_setattr (op : LLOp -> M S FuseReply) (ino : Z) (attr : stat) (to_set : Z) (fi : file_info) : M S FuseReply :=
  let uid := if has to_set SET_UID then st_uid attr else u32 (-1) in
  let gid := if has to_set SET_GID then st_gid attr else u32 (-1) in
  let time now omit t := mk_Timespec 0 (if has to_set now then UTIME_NOW else if has to_set omit then t else UTIME_OMIT) in
  let ts := (time SET_ATIME_NOW SET_ATIME (st_atime attr), time SET_MTIME_NOW SET_MTIME (st_mtime attr)) in
  or_reply (has to_set SET_MODE) (op (o_chmod ino (st_mode attr) fi)) (
  or_reply (has to_set (Z.lor SET_UID SET_GID)) (op (o_chown ino uid gid fi)) (
  or_reply (has to_set SET_SIZE) (op (o_truncate ino (st_size attr) fi)) (
  or_reply (has to_set (Z.lor SET_ATIME SET_MTIME)) (op (o_utimens ino ts fi)) (
  op (o_getattr ino fi))))).

(** A file system that implements only what it is given here. *)
Definition with_defaults (init : Z -> Z -> M S unit) (forget : Z -> Z -> M S unit) (op : LLOp -> M S FuseReply) : FilesystemLL S :=
  mk_FilesystemLL S init (fun _ => mret tt) forget (default_forget_multi forget) (default_setattr op) op.

Definition NopFs : FilesystemLL S := with_defaults (fun _ _ => mret tt) (fun _ _ => mret tt) (fun _ => not_supported).

(** [proxy_generic], [proxy_nonereply] and [proxy_fsmut]: the reply that is sent.
    [FS] is [None] before [mount]. *)
Definition proxy (FS : option (FilesystemLL S)) (r : Request) : M S (option FuseReply) :=
  fs ← lift (match FS with Some fs => Ok fs | None => Panic end);
  match r with
  | r_init userdata conn => _ ← ll_init fs userdata conn; mret None
  | r_destroy userdata => _ ← ll_destroy fs userdata; mret None
  | r_forget ino n => _ ← ll_forget fs ino n; mret (Some reply_none)
  | r_forget_multi l => _ ← ll_forget_multi fs l; mret (Some reply_none)
  | r_setattr ino attr to_set fi => a ← ll_setattr fs ino attr to_set fi; mret (Some a)
  | r_op o => a ← ll_op fs o; mret (Some a)
  end.

End Trait.

(** *** The inodes as a [FilesystemLL]: [impl FilesystemLL for Fs] *)
Section Fs.
Context {OS : Type} {Sys : LowSys OS} {Alloc : Allocator}.

(** The handlers that read the file info do so without a check: [Err] is the
    access through a null pointer. *)
Definition at_fi (fi : file_info) (f : fuse_file_info -> M (Fs * OS) FuseReply) : M (Fs * OS) FuseReply :=
  match fi with Some fi => f fi | None => throw OtherError end.

Definition fs_op (fuel : nat) (o : LLOp) : M (Fs * OS) FuseReply :=
  match o with
  | o_release _ fi => at_fi fi (fun fi => release (fh fi))
  | o_lookup parent name => lookup parent name
  | o_read _ size off fi => at_fi fi (read size off)
  | o_fsync _ datasync fi => at_fi fi (fsync datasync)
  | o_flush _ fi => at_fi fi flush
  | o_statfs ino => statfs ino
  | o_getattr ino _ => getattr ino
  | o_readlink ino => readlink ino
  | o_open ino fi => at_fi fi (open ino)
  | o_opendir ino fi => at_fi fi (opendir ino)
  | o_releasedir _ fi => at_fi fi releasedir
  | o_readdirplus ino size off fi => at_fi fi (fun fi => readdir_common fuel ino size off fi true)
  | o_readdir ino size off fi => at_fi fi (fun fi => readdir_common fuel ino size off fi false)
  | o_fsyncdir _ datasync fi => at_fi fi (fsyncdir datasync)
  | o_listxattr ino size => listxattr ino size
  | o_getxattr ino name size => getxattr ino name size
  | o_write_buf _ bufv off fi => at_fi fi (write_buf bufv off)
  | o_fallocate _ mode offset length fi => at_fi fi (fallocate mode offset length)
  | o_mknod parent name mode rdev => mknod parent name mode rdev
  | o_mkdir parent name mode => mkdir parent name mode
  | o_symlink link parent name => symlink link parent name
  | o_create parent name mode fi => at_fi fi (create parent name mode)
  | o_link ino newparent newname => link ino newparent newname
  | o_setxattr ino name value _ flags => setxattr ino name value flags
  | o_removexattr ino name => removexattr ino name
  | o_chmod ino mode fi => chmod ino mode fi
  | o_chown ino uid gid _ => chown ino uid gid
  | o_truncate ino size fi => truncate ino size fi
  | o_utimens ino ts fi => utimens ino ts fi
  | o_rename parent name newparent newname flags => rename parent name newparent newname flags
  | o_unlink parent name => unlink parent name
  | o_rmdir parent name => rmdir parent name
  | _ => not_supported
  end.

Definition fs_handlers (fuel : nat) : FilesystemLL (Fs * OS) :=
  with_defaults (fun _ _ => mret tt) (fun ino n => forget ino n) (fs_op fuel).

End Fs.

(** ** [mount] *)

(** Calls of the C library: a session is its address. *)
Inductive fuse_call :=
| f_parse_cmdline (args : list string)
| f_session_new (args : list string) (ops : list string)
| f_set_signal_handlers (se : Z)
| f_umask (mask : Z)
| f_session_mount (se : Z) (mountpoint : string)
| f_session_loop (se : Z)
| f_session_loop_mt (se : Z) (clone_fd max_idle_threads : Z)
| f_session_unmount (se : Z)
| f_remove_signal_handlers (se : Z)
| f_session_destroy (se : Z).

(** What the library returns, and the requests that it takes from the kernel and
    calls back with while a call runs. *)
Class LibFuse (W : Type) := {
  lib_call : fuse_call -> W -> Z * W;
  lib_requests : fuse_call -> W -> list Request }.

Record FuseSession := mk_FuseSession { ptr : Z; signals : bool; mounted : bool }.

Section Mount.
Context {W : Type} {Lib : LibFuse W} {S : Type}.

(** The static [FS], the state of the file system, the library, and what was
    called with what result, and replied, so far. *)
Record Mounts := mk_Mounts {
  FS : option (FilesystemLL S); ms_state : S; ms_lib : W;
  ms_calls : list (fuse_call * Z); ms_replies : list (Request * option FuseReply) }.

Definition set_FS (fs : FilesystemLL S) : M Mounts unit := modify (fun m =>
  mk_Mounts (Some fs) (ms_state m) (ms_lib m) (ms_calls m) (ms_replies m)).

(** A callback. *)
Definition call_back (r : Request) : M Mounts unit := fun m =>
  let '(a, s) := proxy (FS m) r (ms_state m) in
  let m' replies := mk_Mounts (FS m) s (ms_lib m) (ms_calls m) replies in
  match a with
  | Ok reply => (Ok tt, m' (ms_replies m ++ [(r, reply)]))
  | Err e => (Err e, m' (ms_replies m))
  | Panic => (Panic, m' (ms_replies m))
  | NoFuel => (NoFuel, m' (ms_replies m))
  end.

Definition call_back_all (l : list Request) : M Mounts unit := foldr (fun r k => _ ← call_back r; k) (mret tt) l.

Definition lib (c : fuse_call) : M Mounts Z :=
  m ← get;
  let '(r, w) := lib_call c (ms_lib m) in
  let requests := lib_requests c (ms_lib m) in
  _ ← put (mk_Mounts (FS m) (ms_state m) w (ms_calls m ++ [(c, r)]) (ms_replies m));
  _ ← call_back_all requests;
  mret r.

(** [CString::new(..).unwrap()]: a string with a zero character panics. *)
Definition CString_of (s : string) : outcome string :=
  if existsb (fun c => bool_decide (c = zero)) (list_ascii_of_string s) then Panic else Ok s.

Fixpoint CStrings_of (l : list string) : outcome (list string) :=
  match l with
  | [] => Ok []
  | s :: l => s ← CString_of s; l ← CStrings_of l; Ok (s :: l)
  end.

(** [Drop for FuseSession]. *)
Definition drop_session (se : FuseSession) : M Mounts unit :=
  _ ← (if mounted se then lib (f_session_unmount (ptr se)) else mret 0);
  _ ← (if signals se then lib (f_remove_signal_handlers (ptr se)) else mret 0);
  _ ← lib (f_session_destroy (ptr se));
  mret tt.

(** Leaving the scope of the session, also by a panic. *)
Definition in_session {A} (body : M (FuseSession * Mounts) A) (se : FuseSession) : M Mounts A := fun m =>
  let '(r, (se, m)) := body (se, m) in
  let '(d, m) := drop_session se m in
  (match r, d with Ok _, Panic => Panic | Ok _, Err e => Err e | Ok _, NoFuel => NoFuel | r, _ => r end, m).

Definition outside {A} (m : M Mounts A) : M (FuseSession * Mounts) A := fun '(se, s) => let '(r, s) := m s in (r, (se, s)).

Definition run_session (cpath : string) (threads : Z) : M (FuseSession * Mounts) Z :=
  '(se, _) ← get;
  if ptr se =? 0 then panic
  else
    r ← outside (lib (f_set_signal_handlers (ptr se)));
    if negb (r =? 0) then panic
    else
      _ ← modify (fun '(se, m) => (mk_FuseSession (ptr se) true (mounted se), m));
      _ ← outside (lib (f_umask 0));
      r ← outside (lib (f_session_mount (ptr se) cpath));
      if negb (r =? 0) then panic
      else
        _ ← modify (fun '(se, m) => (mk_FuseSession (ptr se) (signals se) true, m));
        outside (lib (if threads =? 1 then f_session_loop (ptr se) else f_session_loop_mt (ptr se) 0 threads)).

(** [path] is what [to_str] gives. The file system [fs] is handed to the session
    as its user data. *)
Definition mount (path : option string) (fs : FilesystemLL S) (extra_args : list string) (threads : Z) : M Mounts Z :=
  path ← lift (match path with Some p => Ok p | None => Panic end);
  cpath ← lift (CString_of path);
  _ ← set_FS NopFs;
  args ← lift (CStrings_of (["fsyncd"; path; "-o"; "default_permissions"] ++ extra_args));
  r ← lib (f_parse_cmdline args);
  if negb (r =? 0) then panic
  else
    p ← lib (f_session_new args (all_ops ++ ["setattr"]));
    in_session (run_session cpath threads) (mk_FuseSession p false false).

End Mount.
