(* ===== verification/MountProps.v ===== *)
(** * Mounting: theorems

    What the kernel gets for an answer, that every session is taken down, and
    that the callbacks are the handlers of [LowLevelSpec]. *)

From stdpp Require Import base list numbers option strings gmap.
From Stdlib Require Import ZArith Lia Ascii String.
From S2P Require Import Prelude Common LowLevel LowLevelSpec LowLevelInv LowLevelProps Mount.

Local Open Scope string_scope.
Local Open Scope list_scope.
Local Open Scope Z_scope.

(** ** The callbacks and the handlers *)
Section Callbacks.
Context {OS : Type} {Sys : LowSys OS} {Alloc : Allocator}.

(** What a callback comes to for the inodes: the request with what is looked at
    of its arguments; [inl] is an access through a null pointer, and [None] an
    operation that is not implemented. *)
Definition nonnull (fi : option fuse_file_info) (q : fuse_file_info -> request) : unit + option request :=
  match fi with Some fi => inr (Some (q fi)) | None => inl tt end.

Definition request_of (r : Request) : unit + option request :=
  match r with
  | r_init _ _ | r_destroy _ => inr None
  | r_forget ino n => inr (Some (q_forget ino n))
  | r_forget_multi l => inr (Some (q_forget_multi l))
  | r_setattr ino attr to_set fi => inr (Some (q_setattr ino attr to_set fi))
  | r_op o =>
    match o with
    | o_release _ fi => nonnull fi (fun fi => q_release (fh fi))
    | o_lookup parent name => inr (Some (q_lookup parent name))
    | o_read _ size off fi => nonnull fi (q_read size off)
    | o_fsync _ datasync fi => nonnull fi (q_fsync datasync)
    | o_flush _ fi => nonnull fi q_flush
    | o_statfs ino => inr (Some (q_statfs ino))
    | o_getattr ino _ => inr (Some (q_getattr ino))
    | o_readlink ino => inr (Some (q_readlink ino))
    | o_open ino fi => nonnull fi (q_open ino)
    | o_opendir ino fi => nonnull fi (q_opendir ino)
    | o_releasedir _ fi => nonnull fi q_releasedir
    | o_readdirplus ino size off fi => nonnull fi (fun fi => q_readdir ino size off fi true)
    | o_readdir ino size off fi => nonnull fi (fun fi => q_readdir ino size off fi false)
    | o_fsyncdir _ datasync fi => nonnull fi (q_fsyncdir datasync)
    | o_listxattr ino size => inr (Some (q_listxattr ino size))
    | o_getxattr ino name size => inr (Some (q_getxattr ino name size))
    | o_write_buf _ bufv off fi => nonnull fi (q_write_buf bufv off)
    | o_fallocate _ mode offset length fi => nonnull fi (q_fallocate mode offset length)
    | o_mknod parent name mode rdev => inr (Some (q_mknod parent name mode rdev))
    | o_mkdir parent name mode => inr (Some (q_mkdir parent name mode))
    | o_symlink link parent name => inr (Some (q_symlink link parent name))
    | o_create parent name mode fi => nonnull fi (q_create parent name mode)
    | o_link ino newparent newname => inr (Some (q_link ino newparent newname))
    | o_setxattr ino name value _ flags => inr (Some (q_setxattr ino name value flags))
    | o_removexattr ino name => inr (Some (q_removexattr ino name))
    | o_rename parent name newparent newname flags => inr (Some (q_rename parent name newparent newname flags))
    | o_unlink parent name => inr (Some (q_unlink parent name))
    | o_rmdir parent name => inr (Some (q_rmdir parent name))
    | _ => inr None
    end
  end.

(** The operations the kernel can call: the attribute operations are reached
    through [setattr] only. *)
Definition callable (r : Request) : bool := existsb (String.eqb (request_name r)) (all_ops ++ ["setattr"]).

Lemma nonnull_at fuel fi (q : fuse_file_info -> request) f s :
  (forall fi, f fi = handle fuel (q fi)) ->
  (a ← at_fi fi f; mret (Some a)) s =
  match nonnull fi q with
  | inl _ => (Err OtherError, s)
  | inr (Some q) => (a ← handle fuel q; mret (Some a)) s
  | inr None => (Ok (Some (reply_err EOPNOTSUPP)), s)
  end.
Proof. intros Hf. destruct fi as [fi|]; [cbn; by rewrite Hf|done]. Qed.

(** With the inodes in [FS], a callback sends the one reply that the handler
    of its request gives; operations that the inodes do not implement are
    answered with [EOPNOTSUPP]; [init] and [destroy] have no reply. *)
Theorem callbacks_handle fuel r q (s : Fs * OS) :
  callable r = true -> request_of r = inr q ->
  proxy (Some (fs_handlers fuel)) r s =
  match q with
  | Some q => (a ← handle fuel q; mret (Some a)) s
  | None => (Ok (match r with r_init _ _ | r_destroy _ => None | _ => Some (reply_err EOPNOTSUPP) end), s)
  end.
Proof.
  intros Hc Hq. enough (proxy (Some (fs_handlers fuel)) r s = match request_of r with
    | inl _ => (Err OtherError, s)
    | inr (Some q) => (a ← handle fuel q; mret (Some a)) s
    | inr None => (Ok (match r with r_init _ _ | r_destroy _ => None | _ => Some (reply_err EOPNOTSUPP) end), s)
    end) as -> by (by rewrite Hq). clear Hq.
  destruct r as [| |ino n|l| |o]; [done|done| | |done|].
  - change (proxy (Some (fs_handlers fuel)) (r_forget ino n) s) with ((_ ← forget ino n; mret (Some reply_none)) s).
    cbn. unfold mbind, M_bind, mret, M_ret. by destruct (forget ino n s) as [[] ?].
  - change (proxy (Some (fs_handlers fuel)) (r_forget_multi l) s) with ((_ ← forget_multi l; mret (Some reply_none)) s).
    cbn. unfold mbind, M_bind, mret, M_ret. by destruct (forget_multi l s) as [[] ?].
  - change (proxy (Some (fs_handlers fuel)) (r_op o) s) with ((a ← fs_op fuel o; mret (Some a)) s).
    destruct o; try (vm_compute in Hc; discriminate Hc); try reflexivity;
      cbn [fs_op request_of]; by apply (nonnull_at fuel).
Qed.

End Callbacks.

(** ** A mounted session *)
Section Session.
Context {W : Type} {Lib : LibFuse W} {S : Type}.

Abbreviation Mounts := (Mounts (W := W) (S := S)).

(** What the file system that implements nothing replies. *)
Definition nop_reply (r : Request) : option FuseReply :=
  match r with
  | r_init _ _ | r_destroy _ => None
  | r_forget _ _ | r_forget_multi _ => Some reply_none
  | _ => Some (reply_err EOPNOTSUPP)
  end.

Lemma proxy_nop r (s : S) : proxy (Some NopFs) r s = (Ok (nop_reply r), s).
Proof.
  destruct r as [| | |l|ino attr to_set fi|]; try reflexivity.
  - change (proxy (Some NopFs) (r_forget_multi l) s) with
      ((_ ← default_forget_multi (fun _ _ => mret tt) l; mret (Some reply_none)) s).
    enough (default_forget_multi (fun _ _ => mret tt) l s = (Ok tt, s)) as E by (unfold mbind, M_bind; by rewrite E).
    by induction l as [|[ino n] l IH].
  - change (proxy (Some NopFs) (r_setattr ino attr to_set fi) s) with
      ((a ← default_setattr (fun _ => not_supported) ino attr to_set fi; mret (Some a)) s).
    unfold default_setattr, or_reply. by repeat case_match.
Qed.

(** From one moment to a later one: the library was called like this, and
    whoever asked got the answers of [NopFs]. *)
Record later (m m' : Mounts) (calls : list (fuse_call * Z)) : Prop := mk_later {
  later_FS : FS m' = Some NopFs;
  later_state : ms_state m' = ms_state m;
  later_calls : ms_calls m' = ms_calls m ++ calls;
  later_replies : exists new, ms_replies m' = ms_replies m ++ new /\ Forall (fun '(r, a) => a = nop_reply r) new }.

Lemma later_refl m : FS m = Some NopFs -> later m m [].
Proof. intros Hf. split; [done|done|by rewrite app_nil_r|]. exists []. by rewrite app_nil_r. Qed.

Lemma later_trans m1 m2 m3 c1 c2 : later m1 m2 c1 -> later m2 m3 c2 -> later m1 m3 (c1 ++ c2).
Proof.
  intros [_ Hs1 Hc1 (n1 & Hr1 & Hn1)] [Hf Hs2 Hc2 (n2 & Hr2 & Hn2)]. split; [done|congruence| |].
  - by rewrite Hc2, Hc1, app_assoc.
  - exists (n1 ++ n2). rewrite Hr2, Hr1, app_assoc. split; [done|]. by apply Forall_app_2.
Qed.

Lemma call_back_all_later l : forall m, FS m = Some NopFs -> exists m', call_back_all l m = (Ok tt, m') /\ later m m' [].
Proof.
  induction l as [|r l IH]; intros m Hf; [exists m; split; [done|by apply later_refl]|].
  set (m1 := mk_Mounts (FS m) (ms_state m) (ms_lib m) (ms_calls m) (ms_replies m ++ [(r, nop_reply r)])).
  assert (call_back r m = (Ok tt, m1)) as Ha by (unfold call_back; by rewrite Hf, proxy_nop, <- Hf).
  assert (later m m1 []) as Hl.
  { split; [done|done|cbn; by rewrite app_nil_r|]. exists [(r, nop_reply r)]. split; [done|by constructor]. }
  destruct (IH m1 Hf) as (m' & E & Hl'). exists m'. split; [|exact (later_trans _ _ _ _ _ Hl Hl')].
  change (call_back_all (r :: l) m) with ((_ ← call_back r; call_back_all l) m). unfold mbind, M_bind. by rewrite Ha.
Qed.

Lemma lib_later c m : FS m = Some NopFs -> exists r m', lib c m = (Ok r, m') /\ later m m' [(c, r)].
Proof.
  intros Hf. unfold lib. munfold. destruct (lib_call c (ms_lib m)) as [r w].
  set (m1 := mk_Mounts (FS m) (ms_state m) w (ms_calls m ++ [(c, r)]) (ms_replies m)).
  destruct (call_back_all_later (lib_requests c (ms_lib m)) m1 Hf) as (m' & -> & Hl). exists r, m'. split; [done|].
  apply (later_trans m m1 m' [(c, r)] []); [|done]. split; [done|done|done|]. exists []. by rewrite app_nil_r.
Qed.

(** ** Taking down *)
Definition teardown (se : FuseSession) : list fuse_call :=
  (if mounted se then [f_session_unmount (ptr se)] else []) ++
  (if signals se then [f_remove_signal_handlers (ptr se)] else []) ++ [f_session_destroy (ptr se)].

Lemma drop_later se m : FS m = Some NopFs ->
  exists m' calls, drop_session se m = (Ok tt, m') /\ later m m' calls /\ calls.*1 = teardown se.
Proof.
  intros Hf. unfold drop_session, teardown.
  assert (exists r m1 c1, (if mounted se then lib (f_session_unmount (ptr se)) else mret 0) m = (Ok r, m1) /\ later m m1 c1 /\
    c1.*1 = if mounted se then [f_session_unmount (ptr se)] else []) as (r1 & m1 & c1 & E1 & L1 & H1).
  { destruct (mounted se); [destruct (lib_later (f_session_unmount (ptr se)) m Hf) as (r & m' & E & L); by exists r, m', [(f_session_unmount (ptr se), r)]|].
    exists 0, m, []. split; [done|]. split; [by apply later_refl|done]. }
  pose proof (later_FS _ _ _ L1) as Hf1.
  assert (exists r m2 c2, (if signals se then lib (f_remove_signal_handlers (ptr se)) else mret 0) m1 = (Ok r, m2) /\ later m1 m2 c2 /\
    c2.*1 = if signals se then [f_remove_signal_handlers (ptr se)] else []) as (r2 & m2 & c2 & E2 & L2 & H2).
  { destruct (signals se); [destruct (lib_later (f_remove_signal_handlers (ptr se)) m1 Hf1) as (r & m' & E & L); by exists r, m', [(f_remove_signal_handlers (ptr se), r)]|].
    exists 0, m1, []. split; [done|]. split; [by apply later_refl|done]. }
  destruct (lib_later (f_session_destroy (ptr se)) m2 (later_FS _ _ _ L2)) as (r3 & m3 & E3 & L3).
  exists m3, (c1 ++ c2 ++ [(f_session_destroy (ptr se), r3)]). unfold mbind, M_bind. rewrite E1, E2, E3. split; [done|]. split.
  - eapply later_trans; [exact L1|]. by eapply later_trans.
  - by rewrite !fmap_app, H1, H2.
Qed.

(** What [mount] did with its session before it took it down. *)
Inductive progress (p : Z) (cpath : string) (threads : Z) : outcome Z -> FuseSession -> list (fuse_call * Z) -> Prop :=
| no_session : p = 0 -> progress p cpath threads Panic (mk_FuseSession p false false) []
| no_signals r : p <> 0 -> r <> 0 ->
    progress p cpath threads Panic (mk_FuseSession p false false) [(f_set_signal_handlers p, r)]
| not_mounted u r : p <> 0 -> r <> 0 ->
    progress p cpath threads Panic (mk_FuseSession p true false)
      [(f_set_signal_handlers p, 0); (f_umask 0, u); (f_session_mount p cpath, r)]
| looped u r : p <> 0 ->
    progress p cpath threads (Ok r) (mk_FuseSession p true true)
      [(f_set_signal_handlers p, 0); (f_umask 0, u); (f_session_mount p cpath, 0);
       (if threads =? 1 then f_session_loop p else f_session_loop_mt p 0 threads, r)].

Lemma run_session_progress p cpath threads m : FS m = Some NopFs ->
  exists r se m' calls, run_session cpath threads (mk_FuseSession p false false, m) = (r, (se, m')) /\
    later m m' calls /\ progress p cpath threads r se calls.
Proof.
  intros Hf. unfold run_session. munfold. cbn [ptr signals mounted]. destruct (Z.eqb_spec p 0) as [Hp|Hp].
  { eexists _, _, m, []. split; [done|]. split; [by apply later_refl|by constructor]. }
  unfold outside. destruct (lib_later (f_set_signal_handlers p) m Hf) as (r1 & m1 & -> & L1).
  destruct (Z.eqb_spec r1 0) as [->|Hr]; cbn [negb];
    [|eexists _, _, m1, _; split; [done|]; split; [exact L1|by constructor]].
  cbn [ptr signals mounted].
  destruct (lib_later (f_umask 0) m1 (later_FS _ _ _ L1)) as (u & m2 & -> & L2). cbn [ptr signals mounted].
  destruct (lib_later (f_session_mount p cpath) m2 (later_FS _ _ _ L2)) as (r3 & m3 & -> & L3).
  pose proof (later_trans _ _ _ _ _ L1 (later_trans _ _ _ _ _ L2 L3)) as L.
  destruct (Z.eqb_spec r3 0) as [->|Hr]; cbn [negb];
    [|eexists _, _, m3, _; split; [done|]; split; [exact L|by constructor]].
  cbn [ptr signals mounted].
  destruct (lib_later (if threads =? 1 then f_session_loop p else f_session_loop_mt p 0 threads) m3 (later_FS _ _ _ L3))
    as (r4 & m4 & -> & L4).
  eexists _, _, m4, _. split; [done|]. split; [exact (later_trans _ _ _ _ _ L L4)|by constructor].
Qed.

(** All that [mount] can do. *)
Inductive mounting (cpath : string) (args : list string) (threads : Z) : outcome Z -> list (fuse_call * Z) -> Prop :=
| bad_cmdline r : r <> 0 -> mounting cpath args threads Panic [(f_parse_cmdline args, r)]
| session p r se calls down :
    progress p cpath threads r se calls -> down.*1 = teardown se ->
    mounting cpath args threads r
      ((f_parse_cmdline args, 0) :: (f_session_new args (all_ops ++ ["setattr"]), p) :: calls ++ down).

Lemma mount_later cpath fs extra_args threads args m :
  CString_of cpath = Ok cpath -> CStrings_of (["fsyncd"; cpath; "-o"; "default_permissions"] ++ extra_args) = Ok args ->
  exists r m' calls, mount (Some cpath) fs extra_args threads m = (r, m') /\ mounting cpath args threads r calls /\
    later (mk_Mounts (Some NopFs) (ms_state m) (ms_lib m) (ms_calls m) (ms_replies m)) m' calls.
Proof.
  intros Hc Ha. unfold mount. munfold. rewrite Hc, Ha.
  set (m0 := mk_Mounts (Some NopFs) (ms_state m) (ms_lib m) (ms_calls m) (ms_replies m)).
  assert (FS m0 = Some NopFs) as Hf by done.
  change (set_FS NopFs m) with (Ok tt, m0). cbn match.
  destruct (lib_later (f_parse_cmdline args) m0 Hf) as (r1 & m1 & -> & L1).
  destruct (Z.eqb_spec r1 0) as [->|Hr]; cbn [negb];
    [|eexists _, m1, _; split; [done|]; split; [by constructor|exact L1]].
  destruct (lib_later (f_session_new args (all_ops ++ ["setattr"])) m1 (later_FS _ _ _ L1)) as (p & m2 & -> & L2).
  unfold in_session. destruct (run_session_progress p cpath threads m2 (later_FS _ _ _ L2)) as (r & se & m3 & calls & -> & L3 & Hp).
  destruct (drop_later se m3 (later_FS _ _ _ L3)) as (m4 & down & -> & L4 & Hd).
  exists r, m4, ((f_parse_cmdline args, 0) :: (f_session_new args (all_ops ++ ["setattr"]), p) :: calls ++ down).
  split; [by destruct r|]. split; [by econstructor|].
  exact (later_trans _ _ _ _ _ L1 (later_trans _ _ _ _ _ L2 (later_trans _ _ _ _ _ L3 L4))).
Qed.

Lemma CString_of_ok s : CString_of s = Ok s \/ CString_of s = Panic.
Proof. unfold CString_of. destruct (existsb _ _); auto. Qed.

Lemma CStrings_of_ok l : CStrings_of l = Ok l \/ CStrings_of l = Panic.
Proof.
  induction l as [|s l IH]; [by left|]. cbn [CStrings_of]. destruct (CString_of_ok s) as [->| ->]; [|by right].
  destruct IH as [->| ->]; [by left|by right].
Qed.

(** Every run of [mount]. *)
Definition ran (m : Mounts) (threads : Z) (r : outcome Z) (m' : Mounts) : Prop :=
  exists calls new, ms_calls m' = ms_calls m ++ calls /\ ms_state m' = ms_state m /\
    ms_replies m' = ms_replies m ++ new /\ Forall (fun '(q, a) => a = nop_reply q) new /\
    (calls = [] /\ r = Panic \/ exists cpath args, mounting cpath args threads r calls).

Lemma mount_runs path fs extra_args threads m r m' : mount path fs extra_args threads m = (r, m') -> ran m threads r m'.
Proof.
  intros E. assert (forall m1 : Mounts, ms_calls m1 = ms_calls m -> ms_state m1 = ms_state m -> ms_replies m1 = ms_replies m ->
    (@Panic Z, m1) = (r, m') -> ran m threads r m') as Hearly.
  { intros m1 H1 H2 H3 [= <- <-]. exists [], []. rewrite !app_nil_r. split_and!; auto. }
  destruct path as [cpath|]; [|by apply (Hearly m)].
  destruct (CString_of_ok cpath) as [Hc|Hc]; [|unfold mount in E; munfold; rewrite Hc in E; by apply (Hearly m)].
  set (l := ["fsyncd"; cpath; "-o"; "default_permissions"] ++ extra_args) in *.
  destruct (CStrings_of_ok l) as [Ha|Ha].
  - destruct (mount_later cpath fs extra_args threads l m Hc Ha) as (r0 & m1 & calls & E1 & Hm & L).
    rewrite E1 in E. injection E as <- <-. destruct L as [_ Hs Hcs (new & Hr & Hn)].
    exists calls, new. split_and!; [done..|]. right. by exists cpath, l.
  - unfold mount in E. munfold. fold l in E. rewrite Hc, Ha in E.
    by apply (Hearly (mk_Mounts (Some NopFs) (ms_state m) (ms_lib m) (ms_calls m) (ms_replies m))).
Qed.

(** The calls that take a session down, and those that make one. *)
Definition is_down (c : fuse_call) : bool :=
  match c with f_session_unmount _ | f_remove_signal_handlers _ | f_session_destroy _ => true | _ => false end.
Definition is_setup (c : fuse_call) : bool :=
  match c with f_parse_cmdline _ | f_session_new _ _ => true | _ => false end.

Lemma teardown_down se c : c ∈ teardown se -> is_down c = true.
Proof. unfold teardown. destruct (mounted se), (signals se); cbn; rewrite !elem_of_cons, elem_of_nil; intros; by destruct_or?; subst. Qed.

Lemma progress_calls p cpath threads r se calls : progress p cpath threads r se calls ->
  forall c v, (c, v) ∈ calls -> is_down c = false /\ is_setup c = false.
Proof.
  intros Hp c v Hin. destruct Hp; rewrite ?elem_of_cons, ?elem_of_nil in Hin; destruct_or? Hin; simplify_eq; try done.
  by destruct (threads =? 1).
Qed.

(** Of the calls of a run, those that neither make nor take down are those of
    the session. *)
Lemma mounting_body p se body down args c v :
  down.*1 = teardown se -> is_down c = false -> is_setup c = false ->
  (c, v) ∈ (f_parse_cmdline args, 0) :: (f_session_new args (all_ops ++ ["setattr"]), p) :: body ++ down <-> (c, v) ∈ body.
Proof.
  intros Hd Hc Hs. rewrite !elem_of_cons, elem_of_app. split; [|by auto].
  intros [[= -> _]|[[= -> _]|[?|Hin]]]; try done. apply (list_elem_of_fmap_2 fst) in Hin. rewrite Hd in Hin.
  apply teardown_down in Hin. cbn in Hin. congruence.
Qed.

Lemma mounting_new p p' cpath threads r se body down args a ops :
  progress p cpath threads r se body -> down.*1 = teardown se ->
  (f_session_new a ops, p') ∈ (f_parse_cmdline args, 0) :: (f_session_new args (all_ops ++ ["setattr"]), p) :: body ++ down -> p' = p.
Proof.
  intros Hp Hd. rewrite !elem_of_cons, elem_of_app. intros [?|[?|[Hin|Hin]]]; [done|congruence| |].
  - by apply (progress_calls _ _ _ _ _ _ Hp) in Hin as [_ ?].
  - apply (list_elem_of_fmap_2 fst) in Hin. rewrite Hd in Hin. by apply teardown_down in Hin.
Qed.

(** How far a session got can be read off its calls. *)
Lemma progress_flags p cpath threads r se body : progress p cpath threads r se body ->
  ptr se = p /\ (mounted se = true <-> exists mp, (f_session_mount p mp, 0) ∈ body) /\
  (signals se = true <-> (f_set_signal_handlers p, 0) ∈ body).
Proof.
  assert (forall x, (if threads =? 1 then f_session_loop p else f_session_loop_mt p 0 threads) <> f_session_mount p x) as Hl
    by (intros x; by destruct (threads =? 1)).
  assert ((if threads =? 1 then f_session_loop p else f_session_loop_mt p 0 threads) <> f_set_signal_handlers p) as Hs
    by by destruct (threads =? 1).
  intros []; (split; [done|]); cbn [signals mounted]; split; split; try done;
    repeat setoid_rewrite elem_of_cons; try setoid_rewrite elem_of_nil;
    try (intros [mp Hin]); try (intros Hin); destruct_or?; simplify_eq; eauto 6.
Qed.

Lemma progress_ok p cpath threads r se body code : progress p cpath threads r se body -> r = Ok code ->
  (f_session_mount p cpath, 0) ∈ body /\
  (if threads =? 1 then f_session_loop p else f_session_loop_mt p 0 threads, code) ∈ body.
Proof. intros [] [=]; subst. split; repeat constructor. Qed.

(** C35. Whatever the C library answers, and also when it panics, a session that
    [mount] made is taken down when [mount] is left: destroyed by the last call;
    before that its signal handlers are removed exactly if they could be set,
    and before that it is unmounted exactly if it could be mounted; nothing of
    this happens earlier. [mount] returns only what the loop of a mounted session
    returned. *)
Theorem mount_takes_down path fs extra_args threads (m : Mounts) r m' :
  mount path fs extra_args threads m = (r, m') ->
  exists calls, ms_calls m' = ms_calls m ++ calls /\
    (forall a ops p, (f_session_new a ops, p) ∈ calls -> exists se up,
       ptr se = p /\ calls.*1 = up ++ teardown se /\ Forall (fun c => is_down c = false) up /\
       (mounted se = true <-> exists mp, (f_session_mount p mp, 0) ∈ calls) /\
       (signals se = true <-> (f_set_signal_handlers p, 0) ∈ calls)) /\
    (forall code, r = Ok code -> exists a ops p mp, (f_session_new a ops, p) ∈ calls /\ (f_session_mount p mp, 0) ∈ calls /\
       (if threads =? 1 then f_session_loop p else f_session_loop_mt p 0 threads, code) ∈ calls).
Proof.
  intros E. destruct (mount_runs _ _ _ _ _ _ _ E) as (calls & new & Hc & _ & _ & _ & Hrun). exists calls. split; [done|].
  destruct Hrun as [[-> ->]|(cpath & args & [r0 Hr|p r0 se body down Hp Hd])].
  - split; [|done]. by intros a ops p Hin%elem_of_nil.
  - split; [|done]. by intros a ops p Hin%list_elem_of_singleton.
  - destruct (progress_flags _ _ _ _ _ _ Hp) as (Hptr & Hm & Hs). split.
    + intros a ops p' Hin. assert (p' = p) as -> by by eapply mounting_new.
      exists se, (f_parse_cmdline args :: f_session_new args (all_ops ++ ["setattr"]) :: body.*1).
      split; [done|]. split; [by rewrite <- Hd, !fmap_cons, fmap_app|]. split; [|split].
      * repeat apply Forall_cons_2; [done..|]. apply Forall_fmap, Forall_forall. intros [c v] Hin'.
        by apply (progress_calls _ _ _ _ _ _ Hp) in Hin' as [? _].
      * rewrite Hm. split; intros [mp Hin']; exists mp; by apply (mounting_body p se body down args _ _ Hd).
      * rewrite Hs. by rewrite (mounting_body p se body down args _ _ Hd).
    + intros code Hr. destruct (progress_ok _ _ _ _ _ _ _ Hp Hr) as [H1 H2].
      exists args, (all_ops ++ ["setattr"]), p, cpath. split; [by right; left|].
      split; by apply (mounting_body p se body down args); try done; destruct (threads =? 1).
Qed.

(** C36. Known defect: [mount] puts a file system that implements nothing into [FS]
    and hands the one it was given to the session as user data, which no callback
    reads. While it is mounted nothing that the kernel asks reaches that file
    system: its state stays as it was, and every operation is answered with
    [EOPNOTSUPP]. *)
Theorem mount_ignores_fs path fs extra_args threads (m : Mounts) r m' :
  mount path fs extra_args threads m = (r, m') ->
  ms_state m' = ms_state m /\
  exists new, ms_replies m' = ms_replies m ++ new /\
    Forall (fun '(q, a) => forall x, a = Some x -> x = reply_none \/ x = reply_err EOPNOTSUPP) new /\
    forall o a, (r_op o, a) ∈ new -> a = Some (reply_err EOPNOTSUPP).
Proof.
  intros E. destruct (mount_runs _ _ _ _ _ _ _ E) as (calls & new & _ & Hs & Hr & Hn & _).
  split; [done|]. exists new. split; [done|]. split.
  - eapply Forall_impl; [exact Hn|]. intros [q a] -> x Hx. destruct q; cbn in Hx; simplify_eq; auto.
  - intros o a Hin. rewrite Forall_forall in Hn. exact (Hn _ Hin).
Qed.

End Session.

(** ** Instances

    A library whose loop takes two requests and ends with 7; it fails to mount
    under the name of [busy]. *)
#[local] Instance demo_lib : LibFuse unit := {|
  lib_call := fun c w => (match c with
                          | f_session_new _ _ => 640
                          | f_session_mount _ p => if (p =? "busy")%string then -1 else 0
                          | f_session_loop _ => 7
                          | _ => 0
                          end, w);
  lib_requests := fun c _ => match c with
                             | f_session_loop _ => [r_init 1 2; r_op (o_lookup 1 "a"); r_setattr 1 (mk_stat 0 0 0 0 0 0 0 0) 1 None]
                             | f_session_destroy _ => [r_destroy 1]
                             | _ => []
                             end |}.

(** A file system that counts the requests it gets. *)
Definition counting : FilesystemLL nat :=
  with_defaults (fun _ _ => modify S) (fun _ _ => modify S) (fun _ => _ ← modify S; mret (reply_err 0)).
Definition demo_mounts : Mounts (W := unit) (S := nat) := mk_Mounts None 0%nat tt [] [].

Lemma mount_takes_down_witness :
  let calls := [f_parse_cmdline ["fsyncd"; "busy"; "-o"; "default_permissions"];
                f_session_new ["fsyncd"; "busy"; "-o"; "default_permissions"] (all_ops ++ ["setattr"]);
                f_set_signal_handlers 640; f_umask 0; f_session_mount 640 "busy"] in
  exists m' se, mount (Some "busy") counting [] 1 demo_mounts = (Panic, m') /\
    (ms_calls m').*1 = calls ++ [f_remove_signal_handlers 640; f_session_destroy 640] /\
    exists up, (ms_calls m').*1 = up ++ teardown se /\ signals se = true.
Proof.
  intros calls. destruct (mount (Some "busy") counting [] 1 demo_mounts) as [r m'] eqn:E.
  assert (r = Panic) as -> by (change r with (fst (r, m')); rewrite <- E; vm_compute; reflexivity).
  assert (ms_calls m' = [(f_parse_cmdline ["fsyncd"; "busy"; "-o"; "default_permissions"], 0);
    (f_session_new ["fsyncd"; "busy"; "-o"; "default_permissions"] (all_ops ++ ["setattr"]), 640);
    (f_set_signal_handlers 640, 0); (f_umask 0, 0); (f_session_mount 640 "busy", -1);
    (f_remove_signal_handlers 640, 0); (f_session_destroy 640, 0)]) as Hc
    by (change m' with (snd (@Panic Z, m')); rewrite <- E; vm_compute; reflexivity).
  destruct (mount_takes_down (Some "busy") counting [] 1 demo_mounts Panic m' E) as (calls' & Hcs & Hd & _).
  cbn in Hcs. rewrite Hcs in Hc.
  destruct (Hd ["fsyncd"; "busy"; "-o"; "default_permissions"] (all_ops ++ ["setattr"]) 640) as (se & up & _ & Hu & _ & _ & Hs).
  { rewrite Hc. right. left. }
  exists m', se. split; [reflexivity|]. rewrite Hcs. split; [rewrite Hc; reflexivity|].
  exists up. split; [exact Hu|]. apply Hs. rewrite Hc. right. right. left.
Defined.

Lemma mount_ignores_fs_witness :
  exists m', mount (Some "m") counting [] 1 demo_mounts = (Ok 7, m') /\ ms_state m' = 0%nat /\
    exists a, (r_op (o_lookup 1 "a"), a) ∈ ms_replies m' /\ a = Some (reply_err EOPNOTSUPP).
Proof.
  destruct (mount (Some "m") counting [] 1 demo_mounts) as [r m'] eqn:E.
  assert (r = Ok 7) as -> by (change r with (fst (r, m')); rewrite <- E; vm_compute; reflexivity).
  assert (ms_replies m' = [(r_init 1 2, None); (r_op (o_lookup 1 "a"), Some (reply_err 95));
    (r_setattr 1 (mk_stat 0 0 0 0 0 0 0 0) 1 None, Some (reply_err 95)); (r_destroy 1, None)]) as Hr
    by (change m' with (snd (Ok 7, m')); rewrite <- E; vm_compute; reflexivity).
  destruct (mount_ignores_fs (Some "m") counting [] 1 demo_mounts (Ok 7) m' E) as (Hs & new & Hn & _ & Ho).
  exists m'. split; [reflexivity|]. split; [exact Hs|]. eexists. split; [rewrite Hr; right; left|].
  cbn in Hn. apply (Ho (o_lookup 1 "a")). rewrite <- Hn, Hr. right. left.
Defined.

#[local] Existing Instances demo_low demo_alloc.

(** Two callbacks on the small memory of inodes: one that is implemented and one
    that is not. *)
Lemma callbacks_handle_witness :
  proxy (Some (fs_handlers 3)) (r_op (o_lookup FUSE_ROOT_ID "a")) (demo_fs, demo_desk) =
    (Ok (Some (reply_entry (mk_entry demo_box demo_stat 0))), looked_up) /\
  proxy (Some (fs_handlers 3)) (r_op (o_access FUSE_ROOT_ID 4)) (demo_fs, demo_desk) =
    (Ok (Some (reply_err EOPNOTSUPP)), (demo_fs, demo_desk)).
Proof.
  split.
  - refine (eq_trans (callbacks_handle 3 (r_op (o_lookup FUSE_ROOT_ID "a")) (Some (q_lookup FUSE_ROOT_ID "a"))
      (demo_fs, demo_desk) eq_refl eq_refl) _). vm_compute. reflexivity.
  - exact (callbacks_handle 3 (r_op (o_access FUSE_ROOT_ID 4)) None (demo_fs, demo_desk) eq_refl eq_refl).
Defined.
