(* ===== verification/Replies.v ===== *)
(** * Sending replies: [FuseReply::send] of [fuse/src/lib.rs]

    Which function of the C library sends a reply, with what; and that what the
    handlers of [LowLevel] send stays within the buffers that it comes from. *)

From stdpp Require Import base list numbers option gmap strings.
From Stdlib Require Import ZArith Lia.
From S2P Require Import Prelude Common LowLevel LowLevelProps Mount.

Local Open Scope Z_scope.

(** What a pointer to a buffer points to. *)
Inductive buffer := Bytes (l : list Z) | Entries (es : list direntry).

(** The functions and what follows the request in their arguments. *)
Inductive reply_fn :=
| fuse_reply_attr (attr : stat) (attr_timeout : Z)
| fuse_reply_bmap (idx : Z)
| fuse_reply_buf (buf : buffer) (size : Z)
| fuse_reply_create (e : fuse_entry_param) (fi : fuse_file_info)
| fuse_reply_data (fd off size : Z)
| fuse_reply_entry (e : fuse_entry_param)
| fuse_reply_err (err : Z)
| fuse_reply_ioctl (result : Z) (buf : buffer) (size : Z)
| fuse_reply_ioctl_iov (result : Z) (iov : iovec) (count : Z)
| fuse_reply_ioctl_retry (in_iov : iovec) (in_count : Z) (out_iov : iovec) (out_count : Z)
| fuse_reply_iov (iov : iovec) (count : Z)
| fuse_reply_lock (lock : list Z)
| fuse_reply_none
| fuse_reply_open (fi : fuse_file_info)
| fuse_reply_poll (revents : Z)
| fuse_reply_readlink (link : list Z)
| fuse_reply_statfs (stbuf : list Z)
| fuse_reply_write (count : Z)
| fuse_reply_xattr (count : Z).

Class ReplyLib (W : Type) := { lib_reply : Z -> reply_fn -> W -> Z * W }.

Definition send_fn (r : FuseReply) : reply_fn :=
  match r with
  | reply_attr attr attr_timeout => fuse_reply_attr attr attr_timeout
  | reply_bmap idx => fuse_reply_bmap idx
  | reply_buf buf size => fuse_reply_buf (Bytes buf) size
  | reply_dir es size => fuse_reply_buf (Entries es) size
  | reply_create e fi => fuse_reply_create e fi
  | reply_data fd off size => fuse_reply_data fd off size
  | reply_entry e => fuse_reply_entry e
  | reply_err err => fuse_reply_err err
  | reply_ioctl result buf size => fuse_reply_ioctl result (Bytes buf) size
  | reply_ioctl_iov result iov count => fuse_reply_ioctl_iov result iov count
  | reply_ioctl_retry in_iov in_count out_iov out_count => fuse_reply_ioctl_retry in_iov in_count out_iov out_count
  | reply_iov iov count => fuse_reply_iov iov count
  | reply_lock lock => fuse_reply_lock lock
  | reply_none => fuse_reply_none
  | reply_open fi => fuse_reply_open fi
  | reply_poll revents => fuse_reply_poll revents
  | reply_readlink link => fuse_reply_readlink link
  | reply_statfs stbuf => fuse_reply_statfs stbuf
  | reply_write count => fuse_reply_write count
  | reply_xattr count => fuse_reply_xattr count
  end.

(** The result is the library's, except that sending nothing has none. *)
Definition send {W} {RL : ReplyLib W} (req : Z) (r : FuseReply) (w : W) : Z * W :=
  let '(res, w) := lib_reply req (send_fn r) w in
  (match r with reply_none => 0 | _ => res end, w).

Section Fits.
Context {OS : Type} {Sys : LowSys OS} {Alloc : Allocator}.

(** The room that entries take. *)
Fixpoint dir_room (es : list direntry) : Z :=
  match es with [] => 0 | x :: es => dir_size x + dir_room es end.

(** What the library reads is in a buffer of [room] bytes, and was put there. *)
Definition in_buffer (room : Z) (f : reply_fn) : Prop :=
  match f with
  | fuse_reply_buf (Bytes l) size => size = zlen l /\ size <= room
  | fuse_reply_buf (Entries es) size => size = dir_room es /\ size <= room
  | fuse_reply_ioctl _ _ _ | fuse_reply_ioctl_iov _ _ _ | fuse_reply_ioctl_retry _ _ _ _ | fuse_reply_iov _ _ => False
  | _ => True
  end.

(** The size of the buffer that an operation fills for its reply. *)
Definition room_of (o : LLOp) : Z :=
  match o with
  | o_readdir _ size _ _ | o_readdirplus _ size _ _ | o_listxattr _ size | o_getxattr _ _ size => size
  | _ => 0
  end.

(** [getxattr] and [listxattr] return how many bytes they put into a buffer, which
    are no more than it has room for. *)
Class DataLaws := {
  law_listxattr p size os : 0 < size -> let '((ret, v), _) := low_data (c_listxattr p size) os in
    ret <> -1 -> ret = zlen v /\ ret <= size;
  law_getxattr p name size os : 0 < size -> let '((ret, v), _) := low_data (c_getxattr p name size) os in
    ret <> -1 -> ret = zlen v /\ ret <= size }.

(** Every result of [m] has the property. *)
Definition gives_only {A} (P : A -> Prop) (m : M (Fs * OS) A) : Prop := forall s a s', m s = (Ok a, s') -> P a.

Lemma only_ret {A} (P : A -> Prop) a : P a -> gives_only P (mret a).
Proof. intros H s b s' [= <- _]. exact H. Qed.

Lemma only_bind {A B} (P : B -> Prop) (m : M (Fs * OS) A) (f : A -> M (Fs * OS) B) :
  (forall a, gives_only P (f a)) -> gives_only P (mbind f m).
Proof. intros H s b s' (a & s1 & _ & E)%bind_ok. by apply (H a s1 b s'). Qed.

Lemma only_data (P : FuseReply -> Prop) c (f : Z * list Z -> M (Fs * OS) FuseReply) :
  (forall os, let '(r, _) := low_data c os in gives_only P (f r)) -> gives_only P (mbind f (data c)).
Proof.
  intros H [fs os] b s'. munfold. unfold data. specialize (H os). destruct (low_data c os) as [r os']. apply H.
Qed.

Lemma only_fail (P : FuseReply -> Prop) : (forall e, P (reply_err e)) -> gives_only P fail.
Proof. intros H. apply only_bind. intros e. by apply only_ret. Qed.

Lemma only_no {A} (P : A -> Prop) (o : outcome A) : (forall a, o <> Ok a) -> gives_only P (lift o).
Proof. intros H s a s' E. apply lift_ok in E as [E _]. by apply H in E. Qed.

(** A handler that makes no buffer: through its binds and cases. *)
Ltac no_buffer := repeat first
  [ apply only_ret; cbn; done | apply only_fail; done | apply only_no; done
  | apply only_bind; intros ? | progress case_match ].

Definition fits (room : Z) (r : FuseReply) : Prop := in_buffer room (send_fn r).

Lemma xattr_fits ino f size :
  (forall p os, 0 < size -> let '((ret, v), _) := low_data (f p) os in ret <> -1 -> ret = zlen v /\ ret <= size) ->
  0 <= size -> gives_only (fits size) (xattr_call ino f size).
Proof.
  intros Hl Hs. unfold xattr_call. apply only_bind; intros a. apply only_bind; intros i. case_match; [no_buffer|].
  apply only_data. intros os. specialize (Hl (self_path (i_fd i)) os). destruct (low_data _ os) as [[ret v] os'].
  destruct (Z.eqb_spec ret (-1)); [no_buffer|]. destruct (Z.eqb_spec size 0); [no_buffer|]. cbn [negb].
  apply only_ret. case_match; [done|]. apply Hl; [lia|done].
Qed.

Lemma dir_room_snoc es x : dir_room (es ++ [x]) = dir_room es + dir_size x.
Proof. induction es as [|y es IH]; cbn; [lia|rewrite IH; lia]. Qed.

(** The loop keeps [c_size] the room of the entries, within the buffer. *)
Lemma readdir_fits fuel ino dp size plus : forall es, dir_room es <= size ->
  gives_only (fits size) (readdir_loop fuel ino dp size plus es (dir_room es)).
Proof.
  induction fuel as [|fuel IH]; intros es Hs; cbn [readdir_loop]; [by apply only_no|].
  assert (fits size (reply_dir es (dir_room es))) as Hdir by done.
  assert (forall x, (size - dir_room es <? dir_size x) = false ->
    gives_only (fits size) (readdir_loop fuel ino dp size plus (es ++ [x]) (dir_room es + dir_size x))) as Hnext.
  { intros x Hx%Z.ltb_ge. rewrite <- dir_room_snoc. apply IH. rewrite dir_room_snoc. lia. }
  apply only_bind; intros [d|].
  2: { apply only_bind; intros e. apply only_ret. by case_match. }
  case_match; [by apply IH|]. destruct plus; cbn zeta.
  - apply only_bind; intros r. destruct r; try (by apply only_no); [|by apply only_ret].
    case_match eqn:E; [|by apply Hnext]. apply only_bind; intros []. by apply only_ret.
  - case_match eqn:E; [by apply only_ret|by apply Hnext].
Qed.

Lemma lookup_fits room parent name : gives_only (fits room) (lookup parent name).
Proof. unfold lookup. no_buffer. Qed.

Context {DL : DataLaws}.

Lemma make_fits room parent name c : gives_only (fits room) (make parent name c).
Proof. unfold make. do 2 (apply only_bind; intros ?). case_match; [no_buffer|apply lookup_fits]. Qed.

Lemma create_fits room parent name mode fi : gives_only (fits room) (create parent name mode fi).
Proof. unfold create. no_buffer. Qed.

Lemma fs_op_fits fuel o : 0 <= room_of o -> gives_only (fits (room_of o)) (fs_op fuel o).
Proof.
  intros Ho. destruct o; cbn [fs_op room_of] in *; unfold at_fi, not_supported; try (case_match; [|by apply only_no]);
    try (by apply only_ret); try apply lookup_fits; try apply make_fits; try apply create_fits;
    try (apply xattr_fits; [|done]; intros; first [by apply law_getxattr|by apply law_listxattr]);
    try (unfold readdir_common; do 3 (apply only_bind; intros ?); by apply (readdir_fits _ _ _ _ _ []));
    unfold chmod, chown, truncate, utimens, getattr, readlink, rename, unlink, rmdir, link, open, release, flush, fsync,
      opendir, releasedir, fsyncdir, statfs, setxattr, removexattr, set_attribute, write_buf, fallocate, status; no_buffer.
Qed.

Lemma or_reply_fits b (m k : M (Fs * OS) FuseReply) :
  gives_only (fits 0) m -> gives_only (fits 0) k -> gives_only (fits 0) (or_reply b m k).
Proof.
  intros Hm Hk. unfold or_reply. destruct b; [|done]. apply only_bind; intros r. by destruct r; try apply only_ret.
Qed.

Definition request_room (r : Request) : Z := match r with r_op o => room_of o | _ => 0 end.

(** C40. Whatever a request asks, what the C library is made to read for the reply
    is what the handler has put into its buffer, and is no longer than the buffer
    that the kernel asked for: all the entries of a directory and nothing behind
    them, and the bytes of an attribute. *)
Theorem replies_in_buffer fuel r s reply s' :
  0 <= request_room r -> proxy (Some (fs_handlers fuel)) r s = (Ok (Some reply), s') ->
  in_buffer (request_room r) (send_fn reply).
Proof.
  intros Hr E. unfold proxy in E. apply bind_ok in E as (fs & s1 & Hfs & E). apply lift_ok in Hfs as [[= <-] ->].
  destruct r; apply bind_ok in E as (a & s2 & E1 & [= <- _]); try done; cbn [request_room fs_handlers with_defaults ll_setattr ll_op] in *.
  - revert E1. unfold default_setattr. apply (or_reply_fits _ _ _ (fs_op_fits fuel (o_chmod _ _ _) Hr)).
    repeat apply or_reply_fits; by apply fs_op_fits.
  - by apply (fs_op_fits fuel o Hr s a s2).
Qed.

End Fits.

(** ** Instances *)
#[local] Existing Instances demo_low demo_alloc.

#[local] Instance demo_data : DataLaws (Sys := demo_low).
Proof. split; cbn; intros; split; (done || lia). Defined.

(** A directory of two entries of 32 bytes, read into 40: one fits. *)
Lemma replies_in_buffer_witness :
  let r := r_op (o_readdir FUSE_ROOT_ID 40 0 (Some (mk_fi 0 3 false false))) in
  let reply := reply_dir [entry_plain "a" (mk_stat 7 0 16384 0 0 0 0 0) 1] 32 in
  fst (proxy (Some (fs_handlers 5)) r (demo_fs, demo_desk)) = Ok (Some reply) /\ in_buffer 40 (send_fn reply).
Proof.
  intros r reply. destruct (proxy (Some (fs_handlers 5)) r (demo_fs, demo_desk)) as [a s'] eqn:E.
  assert (a = Ok (Some reply)) as -> by (change a with (fst (a, s')); rewrite <- E; vm_compute; reflexivity).
  split; [reflexivity|]. refine (replies_in_buffer 5 r (demo_fs, demo_desk) reply s' _ E). discriminate.
Defined.
