(* ===== verification/Rsync.v ===== *)
(** * Initial synchronisation: the two bridges together

    [fsyncd/src/common/rsync.rs]: the client runs [rsync_bridge] between its
    rsync and the connection, and the server's rsync runs the hidden command
    [fakeshell], which does the same on the other side and exits its process.
    Each bridge has two threads; a step is a read of a pipe, one write to the
    network under its lock, or a frame handed to rsync. The two rsyncs are
    processes of their own, which decide when there is something to read. *)

From stdpp Require Import base list numbers option relations.
From Stdlib Require Import ZArith Lia.
From S2P Require Import Prelude Bridge.

Local Open Scope Z_scope.

Section Rsync.
Context {G : Growth}.

(** ** The system *)
Inductive reader_pc := Running (v : Vec) | Stopped (e : bridge_end).

(** One bridge: what its rsync will write, each with the number of bytes that it
    must have received before, the two threads, and what its rsync received. *)
Record side := mk_side { s_pipe : list (Z * pipe_read); s_main : main_pc; s_reader : reader_pc; s_rin : list Z }.

(** [process::exit] ends the other thread too. *)
Definition alive (r : reader_pc) : bool := match r with Stopped (Exited _) => false | _ => true end.

Definition said_by (e : bridge_end) : list Z := match e with Exited said => said | _ => [] end.
Definition left_by (e : bridge_end) : list Z := match e with Returned nin => nin | _ => [] end.

(** A step of a side with [nin] on the network before it: the side and the
    network after it, and what it wrote. *)
Inductive side_step (terminate : bool) : side -> list Z -> side -> list Z -> list Z -> Prop :=
| side_read need r pipe rd rin nin :
    alive rd = true -> need <= zlen rin ->
    side_step terminate (mk_side ((need, r) :: pipe) Reading rd rin) nin
      (mk_side pipe (snd (after_read r)) rd rin) nin (fst (after_read r))
| side_send buf pipe rd rin nin :
    alive rd = true ->
    side_step terminate (mk_side pipe (Sending buf) rd rin) nin (mk_side pipe Reading rd rin) nin buf
| side_frame pipe pc v rin nin v' buf nin' :
    bridge_turn terminate v nin = Frame v' buf nin' ->
    side_step terminate (mk_side pipe pc (Running v) rin) nin (mk_side pipe pc (Running v') (rin ++ buf)) nin' []
| side_end pipe pc v rin nin e :
    bridge_turn terminate v nin = Ended e ->
    side_step terminate (mk_side pipe pc (Running v) rin) nin (mk_side pipe pc (Stopped e) rin) (left_by e) (said_by e).

(** The client, the fakeshell, and what is under way to each. *)
Record bridges := mk_bridges { x_client : side; x_shell : side; x_up : list Z; x_down : list Z }.

Inductive exchange_step : bridges -> bridges -> Prop :=
| step_client c s up down c' down' w :
    side_step false c down c' down' w -> exchange_step (mk_bridges c s up down) (mk_bridges c' s (up ++ w) down')
| step_shell c s up down s' up' w :
    side_step true s up s' up' w -> exchange_step (mk_bridges c s up down) (mk_bridges c s' up' (down ++ w)).

(** ** The two rsyncs

    [C] is what the client's writes and [Q] what the server's writes. *)
Definition bufs (l : list (Z * pipe_read)) : list (list Z) :=
  l ≫= fun e => match snd e with Data buf => [buf] | _ => [] end.
Definition total (l : list (Z * pipe_read)) : Z := zlen (mjoin (bufs l)).

Definition can_read (l : list (Z * pipe_read)) (got : Z) : bool :=
  match l with (need, _) :: _ => need <=? got | [] => false end.

(** They never both wait for the other: wherever they are, unless both are done,
    one has something to write. *)
Definition never_stuck (C Q : list (Z * pipe_read)) : bool :=
  forallb (fun i => forallb (fun j =>
    (Nat.leb (length C) i && Nat.leb (length Q) j) ||
    can_read (drop i C) (total (take j Q)) || can_read (drop j Q) (total (take i C)))
    (seq 0 (S (length Q)))) (seq 0 (S (length C))).

(** The client's rsync ends when it has received everything; the server's waits
    for its fakeshell to exit, and leaves the pipe open until then. *)
Definition start (C Q : list (Z * pipe_read)) : bridges :=
  mk_bridges (mk_side (C ++ [(total Q, Data [])]) Reading (Running new_vec) [])
    (mk_side Q Reading (Running new_vec) []) [] [].

(** Both bridges are over, the network is clean, and all bytes have arrived. *)
Definition finished (C Q : list (Z * pipe_read)) (x : bridges) : Prop :=
  x = mk_bridges (mk_side [] Joining (Stopped (Returned [])) (mjoin (bufs Q)))
        (mk_side [] Reading (Stopped (Exited (be32 0))) (mjoin (bufs C))) [] [].

(** ** What is on the network *)
Definition frames (l : list (list Z)) : list Z := l ≫= fun buf => be32 (zlen buf) ++ buf.
Definition buf_ok (buf : list Z) : Prop := 0 < zlen buf <= 4096.
Definition vec_ok (v : Vec) : Prop := v_len v <= v_cap v /\ 4096 <= v_cap v.

Definition writes (pc : main_pc) (out : list Z) (l : list (list Z)) : Prop :=
  match pc with
  | Reading => out = frames l
  | Sending buf => exists l', l = l' ++ [buf] /\ out = frames l' ++ be32 (zlen buf)
  | _ => False
  end.

Lemma frames_split l l' : frames (l ++ l') = frames l ++ frames l'.
Proof. apply bind_app. Qed.

Lemma frames_one buf : frames [buf] = be32 (zlen buf) ++ buf.
Proof. unfold frames. rewrite bind_cons. apply app_nil_r. Qed.

Lemma turn_nothing t v : bridge_turn t v [] = Starved.
Proof. done. Qed.

Lemma turn_half t v buf : vec_ok v -> buf_ok buf -> bridge_turn t v (be32 (zlen buf)) = Starved.
Proof.
  intros [H1 H2] Hb. unfold buf_ok in Hb. destruct (fit_small (zlen buf) v H1 H2 ltac:(lia)) as (v' & Hv & _).
  unfold bridge_turn. rewrite (proj2 (Z.ltb_ge _ 4)) by (unfold zlen; rewrite length_be32; lia).
  rewrite <- (app_nil_r (be32 (zlen buf))). rewrite (take_app_length' _ _ 4), (drop_app_length' _ _ 4) by (by rewrite length_be32).
  rewrite be32_val by lia. rewrite (proj2 (Z.eqb_neq (zlen buf) 0)), Hv by lia.
  by rewrite (proj2 (Z.ltb_lt _ _)) by (change (zlen []) with 0; lia).
Qed.

(** The reader finds nothing it can use, or the first frame under way. *)
Lemma turn_writes t v pc out l :
  writes pc out l -> Forall buf_ok l -> vec_ok v ->
  (bridge_turn t v out = Starved /\ (pc = Reading -> l = [])) \/
  exists buf l' v' out', l = buf :: l' /\ bridge_turn t v out = Frame v' buf out' /\ writes pc out' l' /\ vec_ok v'.
Proof.
  intros Hw Hl Hv.
  assert (forall l0 rest, Forall buf_ok l0 -> l0 <> [] -> exists buf l1 v', l0 = buf :: l1 /\
    bridge_turn t v (frames l0 ++ rest) = Frame v' buf (frames l1 ++ rest) /\ vec_ok v') as Hframe.
  { intros [|buf l1] rest Hl0 Hne; [done|]. apply Forall_cons_1 in Hl0 as [Hb _]. destruct Hv as [H1 H2].
    destruct (turn_frame t v buf (frames l1 ++ rest) H1 H2 Hb) as (v' & E & Hv'). exists buf, l1, v'. split; [done|]. split; [|done].
    unfold frames. rewrite bind_cons, <- !app_assoc. exact E. }
  destruct pc as [|buf| |]; cbn [writes] in Hw; [|destruct Hw as (l0 & -> & ->)|done|done].
  - subst out. destruct l as [|buf l]; [by left|]. right.
    destruct (Hframe (buf :: l) [] Hl ltac:(done)) as (b & l1 & v' & [= <- <-] & E & Hv'). rewrite !app_nil_r in E.
    by exists buf, l, v', (frames l).
  - apply Forall_app in Hl as [Hl0 Hb]. apply Forall_cons_1 in Hb as [Hb _].
    destruct l0 as [|b0 l0]; [left; split; [by apply turn_half|done]|]. right.
    destruct (Hframe (b0 :: l0) (be32 (zlen buf)) Hl0 ltac:(done)) as (b & l1 & v' & [= <- <-] & E & Hv').
    exists b0, (l0 ++ [buf]), v', (frames l0 ++ be32 (zlen buf)). split_and!; [done|done| |done]. by exists l0.
Qed.

(** The last word comes after the frames. *)
Lemma turn_last v l :
  Forall buf_ok l -> vec_ok v ->
  match l with
  | [] => bridge_turn true v (frames l ++ be32 0) = Ended (Exited (be32 0))
  | buf :: l' => exists v', bridge_turn true v (frames l ++ be32 0) = Frame v' buf (frames l' ++ be32 0) /\ vec_ok v'
  end.
Proof.
  intros Hl [H1 H2]. destruct l as [|buf l].
  - change (frames [] ++ be32 0) with (be32 0 ++ []). by rewrite turn_end.
  - apply Forall_cons_1 in Hl as [Hb _]. destruct (turn_frame true v buf (frames l ++ be32 0) H1 H2 Hb) as (v' & E & Hv').
    exists v'. split; [|done]. unfold frames. rewrite bind_cons, <- !app_assoc. exact E.
Qed.

(** ** Where the exchange is, with a bound on the steps left *)
Definition sending (pc : main_pc) : nat := match pc with Sending _ => 1 | _ => 0 end.

Inductive stage (C Q : list (Z * pipe_read)) : nat -> bridges -> Prop :=
| stage_talk i j Cd Cn Sd Sn pc ps vc vs up down :
    (i <= length C)%nat -> (j <= length Q)%nat ->
    bufs (take i C) = Cd ++ Cn -> bufs (take j Q) = Sd ++ Sn ->
    writes pc up Cn -> writes ps down Sn -> vec_ok vc -> vec_ok vs ->
    stage C Q (3 * ((length C - i) + (length Q - j)) + 3 + sending pc + sending ps + length Cn + length Sn + 2)
      (mk_bridges (mk_side (drop i C ++ [(total Q, Data [])]) pc (Running vc) (mjoin Sd))
         (mk_side (drop j Q) ps (Running vs) (mjoin Cd)) up down)
| stage_said Cd Cn vc vs :
    bufs C = Cd ++ Cn -> vec_ok vc -> vec_ok vs ->
    stage C Q (length Cn + 2)
      (mk_bridges (mk_side [] Joining (Running vc) (mjoin (bufs Q)))
         (mk_side [] Reading (Running vs) (mjoin Cd)) (frames Cn ++ be32 0) [])
| stage_exited vc :
    vec_ok vc ->
    stage C Q 1
      (mk_bridges (mk_side [] Joining (Running vc) (mjoin (bufs Q)))
         (mk_side [] Reading (Stopped (Exited (be32 0))) (mjoin (bufs C))) [] (be32 0))
| stage_over x : finished C Q x -> stage C Q 0 x.


(** ** Every step makes progress *)

(** What a rsync writes; an interrupted read is only repeated, and is left out. *)
Definition item_ok (e : Z * pipe_read) : Prop := match snd e with Data buf => buf_ok buf | _ => False end.
Definition items_ok : list (Z * pipe_read) -> Prop := Forall item_ok.

Lemma bufs_ok l : items_ok l -> Forall buf_ok (bufs l).
Proof.
  induction 1 as [|[need r] l Hr _ IH]; [constructor|]. unfold bufs. rewrite bind_cons. apply Forall_app. split; [|done].
  destruct r; [|done..]. by apply Forall_singleton.
Qed.

Lemma bufs_split l i a b : items_ok l -> bufs (take i l) = a ++ b -> Forall buf_ok b.
Proof.
  intros Hl E. assert (Forall buf_ok (a ++ b)) as H by (rewrite <- E; by apply bufs_ok, Forall_take).
  by apply Forall_app in H as [_ H].
Qed.

Lemma bufs_next i (l : list (Z * pipe_read)) e rest :
  drop i l = e :: rest -> rest = drop (S i) l /\ (i < length l)%nat /\
  bufs (take (S i) l) = bufs (take i l) ++ match snd e with Data buf => [buf] | _ => [] end.
Proof.
  intros E. assert (l !! i = Some e) as Hi by (rewrite <- (Nat.add_0_r i), <- lookup_drop, E; done).
  split; [|split].
  - apply drop_S in Hi. rewrite E in Hi. by injection Hi.
  - by eapply lookup_lt_Some.
  - rewrite (take_S_r _ _ _ Hi). unfold bufs. rewrite bind_app, bind_cons. by rewrite app_nil_r.
Qed.

(** A side whose rsync is not done reads, sends, or takes a frame; or it reads
    what comes after. *)
Lemma side_talk t L fin i pc v rin nin s' nin' w out Ld Ln pcn lin :
  (i <= length L)%nat -> items_ok L -> bufs (take i L) = Ld ++ Ln -> writes pc out Ln ->
  writes pcn nin lin -> Forall buf_ok lin -> vec_ok v ->
  side_step t (mk_side (drop i L ++ fin) pc (Running v) rin) nin s' nin' w ->
  (exists i' pc' Ln', s' = mk_side (drop i' L ++ fin) pc' (Running v) rin /\ nin' = nin /\ (i' <= length L)%nat /\
     bufs (take i' L) = Ld ++ Ln' /\ writes pc' (out ++ w) Ln' /\
     (3 * (length L - i') + sending pc' + length Ln' < 3 * (length L - i) + sending pc + length Ln)%nat) \/
  (exists buf l' v', s' = mk_side (drop i L ++ fin) pc (Running v') (rin ++ buf) /\ w = [] /\
     lin = buf :: l' /\ writes pcn nin' l' /\ vec_ok v') \/
  (i = length L /\ pc = Reading /\ exists need r fin', fin = (need, r) :: fin' /\ need <= zlen rin /\
     s' = mk_side fin' (snd (after_read r)) (Running v) rin /\ nin' = nin /\ w = fst (after_read r)).
Proof.
  intros Hi HL Hb Hw Hnin Hlin Hv Hs. inversion Hs as [need r pipe ? ? ? _ Hneed E|buf ? ? ? ? _|? ? ? ? ? v' buf ? Ht|? ? ? ? ? e Ht]; subst.
  - destruct (drop i L) as [|[need' r'] rest] eqn:Ed.
    { right. right. cbn in E. split; [|split; [done|]].
      - apply (f_equal length) in Ed. rewrite length_drop in Ed. cbn in Ed. lia.
      - by exists need, r, pipe. }
    left. cbn in E. injection E as -> -> ->. destruct (bufs_next i L _ _ Ed) as (-> & Hlt & Hn). rewrite Hb in Hn. cbn [snd] in Hn.
    assert (item_ok (need', r')) as Hr.
    { apply (Forall_drop _ i) in HL. rewrite Ed in HL. by apply Forall_cons_1 in HL as [? _]. }
    exists (S i), (snd (after_read r')). cbn in Hw. subst out. destruct r' as [buf| |e]; [|done..]. destruct buf as [|b buf]; [unfold item_ok, buf_ok in Hr; cbn [snd] in Hr; change (zlen []) with 0 in Hr; lia|].
    exists (Ln ++ [b :: buf]). cbn [after_read fst snd]. unfold item_ok, buf_ok in Hr. cbn [snd] in Hr. rewrite u32_small by lia.
    split_and!; [done|done|lia|by rewrite Hn, <- app_assoc|by exists Ln|]. rewrite length_app. cbn. lia.
  - left. exists i, Reading, Ln. cbn in Hw. destruct Hw as (l' & -> & ->). split_and!; try done; [|cbn; lia].
    cbn. by rewrite frames_split, frames_one, <- app_assoc.
  - right. left. destruct (turn_writes t v pcn nin lin Hnin Hlin Hv) as [[E _]|(b & l' & v1 & out' & -> & E & Hw' & Hv')]; [congruence|].
    rewrite E in Ht. injection Ht as <- <- <-. by exists b, l', v1.
  - destruct (turn_writes t v pcn nin lin Hnin Hlin Hv) as [[E _]|(b & l' & v1 & out' & -> & E & _)]; congruence.
Qed.

Lemma total_eq l a b : bufs l = a ++ b -> total l = zlen (mjoin a) + zlen (mjoin b).
Proof. intros E. unfold total. by rewrite E, join_app, zlen_app. Qed.

(** The client's rsync can only be done when nothing is under way to it. *)
Lemma all_received Q j Sd Sn :
  items_ok Q -> (j <= length Q)%nat -> bufs (take j Q) = Sd ++ Sn -> total Q <= zlen (mjoin Sd) ->
  Sn = [] /\ j = length Q /\ bufs Q = Sd.
Proof.
  intros HQ Hj Hb Hle.
  assert (bufs Q = (Sd ++ Sn) ++ bufs (drop j Q)) as Hall.
  { rewrite <- Hb. unfold bufs at 2 3. rewrite <- bind_app, take_drop. done. }
  assert (forall l : list (list Z), Forall buf_ok l -> l <> [] -> 0 < zlen (mjoin l)) as Hpos.
  { intros [|b l] Hl Hne; [done|]. apply Forall_cons_1 in Hl as [Hb1 _]. cbn. rewrite zlen_app. unfold buf_ok in Hb1.
    pose proof (zlen_nonneg (mjoin l)). unfold mjoin in *. lia. }
  pose proof (bufs_split Q j Sd Sn HQ Hb) as Hn. assert (Forall buf_ok (bufs (drop j Q))) as Hd by (by apply bufs_ok, Forall_drop).
  rewrite <- app_assoc in Hall. rewrite (total_eq _ _ _ Hall), join_app, zlen_app in Hle.
  pose proof (zlen_nonneg (mjoin Sn)). pose proof (zlen_nonneg (mjoin (bufs (drop j Q)))).
  assert (Sn = []) as HSn. { destruct Sn; [done|]. pose proof (Hpos _ Hn ltac:(done)). lia. }
  assert (bufs (drop j Q) = []) as HSd. { destruct (bufs (drop j Q)) eqn:E; [done|]. pose proof (Hpos _ Hd ltac:(done)). lia. }
  split; [done|]. split; [|by rewrite Hall, HSn, HSd, app_nil_r].
  destruct (drop j Q) as [|[need r] rest] eqn:Ed; [apply (f_equal length) in Ed; rewrite length_drop in Ed; cbn in Ed; lia|].
  assert (item_ok (need, r)) as Hr.
  { apply (Forall_drop _ j) in HQ. rewrite Ed in HQ. by apply Forall_cons_1 in HQ as [? _]. }
  destruct r; [|done..]. unfold bufs in HSd. by rewrite bind_cons in HSd.
Qed.

Section Exchange.
Context (C Q : list (Z * pipe_read)) (HC : items_ok C) (HQ : items_ok Q).

Lemma stage_step n x x' : stage C Q n x -> exchange_step x x' -> exists m, (m < n)%nat /\ stage C Q m x'.
Proof.
  intros Hs Hx. destruct Hs as [i j Cd Cn Sd Sn pc ps vc vs up down Hi Hj HbC HbQ Hw1 Hw2 Hv1 Hv2|Cd Cn vc vs Hb Hv1 Hv2|vc Hv|x Hf].
  - pose proof (bufs_split C i Cd Cn HC HbC) as Hok1. pose proof (bufs_split Q j Sd Sn HQ HbQ) as Hok2.
    inversion Hx as [? ? ? ? c' down' w Hstep|? ? ? ? s' up' w Hstep]; subst.
    + destruct (side_talk _ _ _ _ _ _ _ _ _ _ _ up Cd Cn ps Sn Hi HC HbC Hw1 Hw2 Hok2 Hv1 Hstep)
        as [(i' & pc' & Cn' & -> & -> & Hi' & Hb' & Hw' & Hm)|[(buf & Sn' & v' & -> & -> & -> & Hw' & Hv')|(-> & -> & need & r & fin' & [= <- <- <-] & Hneed & -> & -> & ->)]].
      * eexists. split; [|by apply (stage_talk _ _ i' j Cd Cn' Sd Sn)]. lia.
      * eexists. split; [|rewrite app_nil_r; replace (mjoin Sd ++ buf) with (mjoin (Sd ++ [buf])) by (rewrite join_app; cbn; by rewrite app_nil_r);
          apply (stage_talk _ _ i j Cd Cn (Sd ++ [buf]) Sn'); try done; by rewrite HbQ, <- app_assoc]. cbn [length]. lia.
      * destruct (all_received Q j Sd Sn HQ Hj HbQ Hneed) as (-> & -> & Hall). rewrite <- Hall. cbn [after_read fst snd].
        rewrite firstn_all in HbC. rewrite !drop_all. cbn in Hw1. subst up. destruct ps; cbn in Hw2; [subst down| |done|done].
        -- eexists. split; [|by apply stage_said]. cbn. lia.
        -- destruct Hw2 as (l & Hl & _). by destruct l.
    + rewrite <- (app_nil_r (drop j Q)) in Hstep.
      destruct (side_talk _ _ _ _ _ _ _ _ _ _ _ down Sd Sn pc Cn Hj HQ HbQ Hw2 Hw1 Hok1 Hv2 Hstep)
        as [(j' & ps' & Sn' & -> & -> & Hj' & Hb' & Hw' & Hm)|[(buf & Cn' & v' & -> & -> & -> & Hw' & Hv')|(-> & -> & need & r & fin' & ? & _)]];
        rewrite ?app_nil_r.
      * eexists. split; [|by apply (stage_talk _ _ i j' Cd Cn Sd Sn')]. lia.
      * eexists. split; [|replace (mjoin Cd ++ buf) with (mjoin (Cd ++ [buf])) by (rewrite join_app; cbn; by rewrite app_nil_r);
          apply (stage_talk _ _ i j (Cd ++ [buf]) Cn' Sd Sn); try done; by rewrite HbC, <- app_assoc]. cbn [length]. lia.
      * done.
  - assert (Forall buf_ok Cn) as Hok.
    { pose proof (bufs_ok C HC) as H. rewrite Hb in H. by apply Forall_app in H as [_ H]. }
    pose proof (turn_last vs Cn Hok Hv2) as Ht.
    inversion Hx as [? ? ? ? c' down' w Hstep|? ? ? ? s' up' w Hstep]; subst; inversion Hstep; subst; try done.
    + destruct Cn as [|b Cn]; [congruence|]. destruct Ht as (v1 & E & Hv'). rewrite E in *. simplify_eq. rewrite app_nil_r.
      eexists. split; [|replace (mjoin Cd ++ buf) with (mjoin (Cd ++ [buf])) by (rewrite join_app; cbn; by rewrite app_nil_r);
        apply (stage_said _ _ (Cd ++ [buf]) Cn); try done; by rewrite Hb, <- app_assoc]. cbn [length]. lia.
    + destruct Cn as [|b Cn]; [|destruct Ht as (v1 & E & Hv'); congruence]. rewrite Ht in *. simplify_eq. cbn [left_by said_by app].
      rewrite app_nil_r in Hb. rewrite <- Hb. eexists. split; [|by apply stage_exited]. cbn. lia.
  - inversion Hx as [? ? ? ? c' down' w Hstep|? ? ? ? s' up' w Hstep]; subst; inversion Hstep; subst; try done.
    match goal with H : bridge_turn _ _ _ = Ended _ |- _ => pose proof (turn_end false vc []) as Ht; rewrite app_nil_r in Ht; rewrite Ht in H; injection H as <- end.
    eexists. split; [|by apply stage_over]. lia.
  - rewrite Hf in Hx. inversion Hx as [? ? ? ? c' down' w Hstep|? ? ? ? s' up' w Hstep]; subst; inversion Hstep; subst; done.
Qed.

Lemma never_stuck_at i j : never_stuck C Q = true -> (i <= length C)%nat -> (j <= length Q)%nat ->
  (i = length C /\ j = length Q) \/ can_read (drop i C) (total (take j Q)) = true \/ can_read (drop j Q) (total (take i C)) = true.
Proof.
  unfold never_stuck. rewrite forallb_forall. intros H Hi Hj.
  specialize (H i ltac:(apply in_seq; lia)). rewrite forallb_forall in H. specialize (H j ltac:(apply in_seq; lia)).
  apply orb_prop in H as [[H|H]%orb_prop|H]; [|by right; left|by right; right].
  apply andb_prop in H as [H1%Nat.leb_le H2%Nat.leb_le]. left. lia.
Qed.

Lemma stage_goes_on n x : never_stuck C Q = true -> stage C Q n x -> finished C Q x \/ exists x', exchange_step x x'.
Proof.
  intros Hlive Hs. destruct Hs as [i j Cd Cn Sd Sn pc ps vc vs up down Hi Hj HbC HbQ Hw1 Hw2 Hv1 Hv2|Cd Cn vc vs Hb Hv1 Hv2|vc Hv|x Hf].
  - right. pose proof (bufs_split C i Cd Cn HC HbC) as Hok1. pose proof (bufs_split Q j Sd Sn HQ HbQ) as Hok2.
    destruct pc as [|buf| |]; [|by eexists; apply step_client, side_send|done|done].
    destruct ps as [|buf| |]; [|by eexists; apply step_shell, side_send|done|done].
    destruct (turn_writes true vs Reading up Cn Hw1 Hok1 Hv2) as [[_ E1]|(b & l & v' & out & _ & E & _)]; [rewrite (E1 eq_refl) in HbC|by eexists; apply step_shell, side_frame].
    destruct (turn_writes false vc Reading down Sn Hw2 Hok2 Hv1) as [[_ E2]|(b & l & v' & out & _ & E & _)]; [rewrite (E2 eq_refl) in HbQ|by eexists; apply step_client, side_frame].
    rewrite app_nil_r in HbC, HbQ.
    destruct (never_stuck_at i j Hlive Hi Hj) as [[-> ->]|[H|H]].
    + eexists. apply step_client. rewrite drop_all. apply side_read; [done|]. rewrite <- HbQ, firstn_all. unfold total. lia.
    + destruct (drop i C) as [|[need r] rest] eqn:Ed; [done|]. apply Z.leb_le in H. unfold total in H. rewrite HbQ in H.
      eexists. apply step_client. by apply side_read.
    + destruct (drop j Q) as [|[need r] rest] eqn:Ed; [done|]. apply Z.leb_le in H. unfold total in H. rewrite HbC in H.
      eexists. apply step_shell. by apply side_read.
  - right. assert (Forall buf_ok Cn) as Hok.
    { pose proof (bufs_ok C HC) as H. rewrite Hb in H. by apply Forall_app in H as [_ H]. }
    pose proof (turn_last vs Cn Hok Hv2) as Ht. destruct Cn as [|b Cn].
    + eexists. apply step_shell. by apply side_end.
    + destruct Ht as (v' & E & _). eexists. apply step_shell. by apply side_frame.
  - right. pose proof (turn_end false vc []) as Ht. rewrite app_nil_r in Ht. eexists. apply step_client. by apply side_end.
  - by left.
Qed.

Lemma stage_start : exists n, (n = 3 * (length C + length Q) + 5)%nat /\ stage C Q n (start C Q).
Proof.
  eexists. split; [|apply (stage_talk C Q 0 0 [] [] [] [] Reading Reading new_vec new_vec [] []); try done; lia].
  cbn. lia.
Qed.

Lemma stage_steps k : forall n x x', stage C Q n x -> nsteps exchange_step k x x' -> exists m, (m + k <= n)%nat /\ stage C Q m x'.
Proof.
  induction k as [|k IH]; intros n x x' Hs Hx; inversion Hx as [|? ? y ? Hy Hrest]; subst; [exists n; split; [lia|done]|].
  destruct (stage_step _ _ _ Hs Hy) as (m & Hm & Hs'). destruct (IH _ _ _ Hs' Hrest) as (m' & Hm' & Hs''). exists m'. split; [lia|done].
Qed.

(** C12. The exchange between two rsyncs that never both wait for the other ends,
    however the four threads are interleaved: no run is longer than three steps
    for each write and five more, and a run that cannot go on has given each
    rsync everything the other wrote, has ended both bridges, and has left
    nothing on the connection for the messages that follow. *)
Theorem rsync_exchange_ends k x :
  never_stuck C Q = true -> nsteps exchange_step k (start C Q) x ->
  (k <= 3 * (length C + length Q) + 5)%nat /\ (finished C Q x \/ exists x', exchange_step x x').
Proof.
  intros Hlive Hx. destruct stage_start as (n & -> & Hs). destruct (stage_steps k _ _ _ Hs Hx) as (m & Hm & Hs').
  split; [lia|]. by eapply stage_goes_on.
Qed.

End Exchange.

(** ** When the server's rsync ends first

    Known defect: if it fails, its pipe ends while the other bridge still runs.
    Both threads of the fakeshell then say the last word, but the client waits
    for one: the other is left on the connection, in front of the first
    message. *)
Definition both_end : bridges :=
  mk_bridges (mk_side [(0, Data [])] Reading (Running new_vec) []) (mk_side [(0, Data [])] Reading (Running new_vec) []) [] [].

Definition stray_word : bridges :=
  mk_bridges (mk_side [] Joining (Stopped (Returned [])) []) (mk_side [] Joining (Stopped (Exited (be32 0))) []) [] (be32 0).

Theorem rsync_stray_word : rtc exchange_step both_end stray_word /\ ~ exists x, exchange_step stray_word x.
Proof.
  split.
  - eapply rtc_l; [apply step_shell, side_read; done|].
    eapply rtc_l; [apply step_client, side_end; vm_compute; reflexivity|].
    eapply rtc_l; [apply step_client, side_read; done|].
    eapply rtc_l; [apply step_shell, side_end; vm_compute; reflexivity|]. apply rtc_refl.
  - intros [x Hx]. inversion Hx as [? ? ? ? c' down' w Hstep|? ? ? ? s' up' w Hstep]; subst; inversion Hstep.
Qed.

End Rsync.

(** ** A small dialogue *)
#[local] Existing Instance demo_growth.

Definition hello : list (Z * pipe_read) := [(0, Data [1; 2]); (1, Data [3])].
Definition answers : list (Z * pipe_read) := [(2, Data [9]); (3, Data [8; 8])].

Lemma rsync_exchange_ends_witness :
  let x := mk_bridges (mk_side (drop 1 hello ++ [(3, Data [])]) (Sending [1; 2]) (Running new_vec) [])
             (mk_side answers Reading (Running new_vec) []) (be32 2) [] in
  finished hello answers x \/ exists x', exchange_step x x'.
Proof.
  intros x. apply (rsync_exchange_ends hello answers) with (k := 1%nat).
  - repeat apply Forall_cons_2; try apply Forall_nil_2; split; reflexivity || discriminate.
  - repeat apply Forall_cons_2; try apply Forall_nil_2; split; reflexivity || discriminate.
  - vm_compute. reflexivity.
  - eapply nsteps_l; [|apply nsteps_O]. apply (step_client _ _ [] []), side_read; [reflexivity|discriminate].
Defined.
