(* ===== verification/Pool.v ===== *)
(** * A client with several dispatch threads: [fsyncd/src/client/mod.rs]

    With more than one dispatch thread [process_ops] hands every synchronous
    call to a pool, whose workers dispatch it and send the answer under the lock
    of the connection. The pool is the [threadpool] crate: jobs start in the
    order they were submitted, at most [threads] at a time; a job that panics is
    lost and its worker replaced. Several calls to [dispatch] run at once: a
    [dispatch] is a run of parts ([Parts]), between which anything else can happen.

    The system puts this client at the other end of the server's side of its
    connection, with the threads of the server that wait for answers, each until
    [CLIENT_RESPONSE_TIMEOUT] has passed. What a side has written is in transit
    until the other reads it. *)

From stdpp Require Import base list numbers option gmap.
From Stdlib Require Import ZArith Lia.
From S2P Require Import Prelude Common Filestore Store Entries Bilog Net NetSpec Server.

Local Open Scope Z_scope.

(** [dispatch] in parts: what is left to do of a call, and the next part of it,
    which ends in what is then left or in the code. *)
Class Parts (FS : Type) := {
  Task : Type;
  begin : VFSCall -> Task;
  advance : Task -> M FS (Task + Z) }.

(** The parts of a call one after the other with nothing in between are the
    [dispatch] of the rest of the model, and every call has finitely many. *)
Inductive finishes {FS} {Pt : Parts FS} : Task -> FS -> Z -> FS -> Prop :=
| finishes_last k fs code fs' : advance k fs = (Ok (inr code), fs') -> finishes k fs code fs'
| finishes_next k fs k' fs1 code fs' :
    advance k fs = (Ok (inl k'), fs1) -> finishes k' fs1 code fs' -> finishes k fs code fs'.

Class PartsLaws {FS} (Pt : Parts FS) (dispatch : VFSCall -> M FS Z) := {
  law_whole : forall call fs code fs', finishes (begin call) fs code fs' <-> dispatch call fs = (Ok code, fs');
  task_size : Task -> nat;
  law_size : forall k fs k' fs', advance k fs = (Ok (inl k'), fs') -> (task_size k' < task_size k)%nat }.

Section Pool.
Context {F : MsgFormat} {C : Compressor} {D : Digest}.
Context {FB : StoreFormat BilogEntry} {FV : StoreFormat VFSCall}.
Context {FS : Type} {Pt : Parts FS} (dispatch : VFSCall -> M FS Z).

(** ** The client *)

(** What the closure [f] of [process_ops] captures. *)
Record job := mk_job { j_call : VFSCall; j_tid : Z; j_need_ack : bool }.

(** The main loop's connection and file system, the jobs submitted and those
    that run, with what is left of the call, or the code once [callback] has
    returned. *)
Record Pooled := mk_Pooled {
  po_sc : ServerConnection; po_fs : FS; po_queue : list job; po_running : list (job * (Task + Z)) }.

Definition po_set_conn (p : Pooled) (sc : ServerConnection) : Pooled :=
  mk_Pooled sc (po_fs p) (po_queue p) (po_running p).

(** A step of the main thread that does not concern the pool. *)
Definition on_main {A} (m : M (ServerConnection * FS) A) : M Pooled A := fun p =>
  let '(r, (sc, fs)) := m (po_sc p, po_fs p) in (r, mk_Pooled sc fs (po_queue p) (po_running p)).

Definition execute (j : job) : M Pooled unit :=
  modify (fun p => mk_Pooled (po_sc p) (po_fs p) (po_queue p ++ [j]) (po_running p)).

(** One message with [threads] dispatch threads. *)
Definition pool_msg (threads : nat) (msg : FsyncerMsg) : M Pooled unit :=
  match msg with
  | Msg_SyncOp call tid =>
    if Nat.ltb 1 threads then
      p ← get;
      let mode := sc_mode (po_sc p) in
      _ ← (if bool_decide (mode = MODE_SEMISYNC)
           then on_main (on_conn (send_msg (Msg_Ack (mk_AckMsg Ack tid)))) else mret tt);
      execute (mk_job call tid (bool_decide (mode = MODE_SYNC) || bool_decide (mode = MODE_FLUSHSYNC)))
    else on_main (process_msg dispatch msg)
  | _ => on_main (process_msg dispatch msg)
  end.

(** One turn of the loop. *)
Definition pool_turn (threads : nat) : M Pooled unit :=
  msg ← on_main (on_conn read_msg);
  pool_msg threads msg.

(** A worker that is free takes the next job. *)
Definition pool_start (threads : nat) (p : Pooled) : option Pooled :=
  match po_queue p with
  | j :: q =>
    if Nat.ltb (length (po_running p)) threads
    then Some (mk_Pooled (po_sc p) (po_fs p) q (po_running p ++ [(j, inl (begin (j_call j)))]))
    else None
  | [] => None
  end.

(** What happened, for the theorems. *)
Inductive event :=
| Sent (tid : Z) (call : VFSCall)
| Done (tid : Z) (call : VFSCall) (code : Z)
| Crashed (tid : Z) (call : VFSCall)
| Got (tid : Z) (d : ClientAck)
| TimedOut (tid : Z).

(** What one worker does next: a part of the dispatch, or the answer and the
    end. *)
Definition pool_work (i : nat) (p : Pooled) : option (Pooled * list event) :=
  match po_running p !! i with
  | Some (j, inl k) =>
    let '(r, fs) := advance k (po_fs p) in
    Some (match r with
          | Ok (inl k') => (mk_Pooled (po_sc p) fs (po_queue p) (<[i := (j, inl k')]> (po_running p)), [])
          | Ok (inr e) =>
            (mk_Pooled (po_sc p) fs (po_queue p) (<[i := (j, inr e)]> (po_running p)), [Done (j_tid j) (j_call j) e])
          | _ => (mk_Pooled (po_sc p) fs (po_queue p) (delete i (po_running p)), [Crashed (j_tid j) (j_call j)])
          end)
  | Some (j, inr e) =>
    let '(_, (sc, fs)) :=
      (if j_need_ack j then send_ack (Msg_Ack (mk_AckMsg (RetCode e) (j_tid j))) else mret tt) (po_sc p, po_fs p) in
    Some (mk_Pooled sc fs (po_queue p) (delete i (po_running p)), [])
  | None => None
  end.

(** ** The system *)
(** The server's side of the connection, the client, what it has written and
    the server has not read, the threads that wait and where, and what
    happened. *)
Record system := mk_system {
  y_cells : cells; y_client : Client; y_pool : Pooled; y_back : list Z;
  y_waiting : gmap Z nat; y_log : list event }.

(** The bytes a stream took between two states. *)
Definition written (w w' : stream) : list Z := drop (length (st_out w)) (st_out w').

(** The client has moved to [p]. *)
Definition y_moved (y : system) (p : Pooled) (log : list event) : system :=
  mk_system (y_cells y) (y_client y) p
    (y_back y ++ written (sc_write (po_sc (y_pool y))) (sc_write (po_sc p))) (y_waiting y) (y_log y ++ log).

(** Steps of the connection and the client, and of a thread that is answered. *)
Inductive prompt_step (threads : nat) : system -> system -> Prop :=
| step_turn y p :
    pool_turn threads (y_pool y) = (Ok tt, p) -> prompt_step threads y (y_moved y p [])
| step_start y p :
    pool_start threads (y_pool y) = Some p -> prompt_step threads y (y_moved y p [])
| step_work y i p log :
    pool_work i (y_pool y) = Some (p, log) -> prompt_step threads y (y_moved y p log)
| step_reader y m rest h c :
    de_msg (y_back y) = Some (m, rest) ->
    reader_msg (Some m) (y_cells y, y_client y) = (Ok ReaderGoesOn, (h, c)) ->
    prompt_step threads y (mk_system h c (y_pool y) rest (y_waiting y) (y_log y))
| step_wake y tid a d h :
    y_waiting y !! tid = Some a -> wait a (y_cells y) = (Ok (Some d), h) ->
    prompt_step threads y
      (mk_system h (y_client y) (y_pool y) (y_back y) (delete tid (y_waiting y)) (y_log y ++ [Got tid d])).

(** The wait of a thread ends without an answer after [CLIENT_RESPONSE_TIMEOUT];
    an answer that comes at that moment, or later, stays in its cell. *)
Inductive timeout_step : system -> system -> Prop :=
| step_timeout y tid a :
    y_waiting y !! tid = Some a ->
    timeout_step y (mk_system (y_cells y) (y_client y) (y_pool y) (y_back y) (delete tid (y_waiting y)) (y_log y ++ [TimedOut tid])).

Definition inner_step (threads : nat) (y y' : system) : Prop := prompt_step threads y y' \/ timeout_step y y'.

(** A thread that does not wait starts an operation, as [pre_op] does. *)
Definition po_deliver (p : Pooled) (bytes : list Z) : Pooled :=
  let sc := po_sc p in
  po_set_conn p (mk_ServerConnection (sc_write sc) (sc_read sc ++ bytes) (sc_rcv_buf sc) (sc_mode sc) (sc_rt_comp sc)).

Inductive issue (tid : Z) (call : VFSCall) : system -> system -> Prop :=
| issue_intro y a h c :
    y_waiting y !! tid = None -> send_op tid call (y_cells y, y_client y) = (Ok (Some a), (h, c)) ->
    issue tid call y
      (mk_system h c (po_deliver (y_pool y) (written (cl_write (y_client y)) (cl_write c)))
         (y_back y) (<[tid := a]> (y_waiting y)) (y_log y ++ [Sent tid call])).

(** ** What the log says of a thread *)
Definition sent_by (tid : Z) (log : list event) : list VFSCall :=
  omap (fun e => match e with Sent t call => if t =? tid then Some call else None | _ => None end) log.
Definition done_for (tid : Z) (log : list event) : list (VFSCall * Z) :=
  omap (fun e => match e with Done t call code => if t =? tid then Some (call, code) else None | _ => None end) log.
Definition got_by (tid : Z) (log : list event) : list ClientAck :=
  omap (fun e => match e with Got t d => if t =? tid then Some d else None | _ => None end) log.

Definition crashed_for (tid : Z) (log : list event) : list VFSCall :=
  omap (fun e => match e with Crashed t call => if t =? tid then Some call else None | _ => None end) log.
Definition timed_out (tid : Z) (log : list event) : bool :=
  existsb (fun e => match e with TimedOut t => t =? tid | _ => false end) log.

(** All dispatches, in the order they ended. *)
Definition all_done (log : list event) : list (VFSCall * Z) :=
  omap (fun e => match e with Done _ call code => Some (call, code) | _ => None end) log.

End Pool.
Arguments Pooled {C} FS {Pt}.
Arguments system {C} FS {Pt}.
