(* ===== verification/PoolSpec.v ===== *)
(** * What a client with several dispatch threads promises

    Section [Serial]: when dispatches that run at the same time amount to whole
    dispatches one after the other. The rest: [fine] is what holds of a single
    thread of the server: where its calls are and what it was told. Every step of
    the system is a move of one thread ([tracked_issue] and so on), and keeps
    [pool_ok]. *)

From stdpp Require Import base list numbers option gmap.
From Stdlib Require Import ZArith Lia.
From S2P Require Import Prelude Common Filestore Store Entries Bilog Net NetSpec Server ServerSpec NetCork Pool.

Local Open Scope Z_scope.

(** ** Dispatches that run at the same time

    Calls whose parts commute may be taken apart: what a number of them have done
    so far, in any interleaving, is what the finished ones do whole, one after
    the other, followed by what the others have done so far ([chain]). *)
Section Serial.
Context {FS : Type} {Pt : Parts FS}.

(** What can be left of a call. *)
Inductive task_of (call : VFSCall) : Task -> Prop :=
| task_begin : task_of call (begin call)
| task_next k fs k' fs' : task_of call k -> advance k fs = (Ok (inl k'), fs') -> task_of call k'.

(** No part of the one can tell whether a part of the other came before. *)
Definition independent (c1 c2 : VFSCall) : Prop :=
  forall k1 k2 fs r1 fs1 r2 fs2, task_of c1 k1 -> task_of c2 k2 ->
    advance k1 fs = (Ok r1, fs1) -> advance k2 fs1 = (Ok r2, fs2) ->
    exists fs1', advance k2 fs = (Ok r2, fs1') /\ advance k1 fs1' = (Ok r1, fs2).

(** A call that is started and not finished: [k] is left of it. *)
Inductive partial (call : VFSCall) : FS -> Task -> FS -> Prop :=
| partial_begin fs : partial call fs (begin call) fs
| partial_next fs k fs1 k' fs2 :
    partial call fs k fs1 -> advance k fs1 = (Ok (inl k'), fs2) -> partial call fs k' fs2.

Definition completes (call : VFSCall) (fs : FS) (code : Z) (fs' : FS) : Prop :=
  exists k fs1, partial call fs k fs1 /\ advance k fs1 = (Ok (inr code), fs').

Lemma partial_task call fs k fs' : partial call fs k fs' -> task_of call k.
Proof. induction 1 as [|fs k fs1 k' fs2 _ IH E]; [constructor|by eapply task_next]. Qed.

Lemma partial_finishes call fs k fs1 code fs' : partial call fs k fs1 -> finishes k fs1 code fs' -> finishes (begin call) fs code fs'.
Proof. intros Hp. revert code fs'. induction Hp as [|fs k fs1 k' fs2 _ IH E]; [done|]. intros code fs' Hf. apply IH. by eapply finishes_next. Qed.

Lemma completes_finishes call fs code fs' : completes call fs code fs' -> finishes (begin call) fs code fs'.
Proof. intros (k & fs1 & Hp & E). eapply partial_finishes; [exact Hp|by apply finishes_last]. Qed.

(** ** One part past a call *)
Lemma partial_then_part c1 c2 k1 k2 fs fs1 r2 fs2 : independent c1 c2 -> task_of c2 k2 ->
  partial c1 fs k1 fs1 -> advance k2 fs1 = (Ok r2, fs2) ->
  exists fs1', advance k2 fs = (Ok r2, fs1') /\ partial c1 fs1' k1 fs2.
Proof.
  intros Hi Ht Hp. revert r2 fs2. induction Hp as [fs|fs k fs1 k' fs1b Hp IH E]; intros r2 fs2 E2.
  { exists fs2. split; [done|constructor]. }
  destruct (Hi k k2 fs1 (inl k') fs1b r2 fs2 (partial_task _ _ _ _ Hp) Ht E E2) as (m & Em & Em').
  destruct (IH r2 m Em) as (fs1' & E1' & Hp'). exists fs1'. split; [done|]. by eapply partial_next.
Qed.

Lemma partial_swap c1 c2 k1 k2 fs fs1 fs2 : independent c1 c2 ->
  partial c1 fs k1 fs1 -> partial c2 fs1 k2 fs2 -> exists fs1', partial c2 fs k2 fs1' /\ partial c1 fs1' k1 fs2.
Proof.
  intros Hi Hp1 Hp2. revert fs k1 Hp1. induction Hp2 as [fs1|fs1 k fs2 k' fs3 Hp2 IH E]; intros fs k1 Hp1.
  { exists fs. split; [constructor|done]. }
  destruct (IH fs k1 Hp1) as (m & Hm2 & Hm1).
  destruct (partial_then_part c1 c2 k1 k m fs2 _ fs3 Hi (partial_task _ _ _ _ Hm2) Hm1 E) as (m' & Em & Hm').
  exists m'. split; [by eapply partial_next|done].
Qed.

Lemma partial_then_completes c1 c2 k1 code fs fs1 fs2 : independent c1 c2 ->
  partial c1 fs k1 fs1 -> completes c2 fs1 code fs2 -> exists fs1', completes c2 fs code fs1' /\ partial c1 fs1' k1 fs2.
Proof.
  intros Hi Hp1 (k & fs1b & Hp2 & E). destruct (partial_swap c1 c2 k1 k fs fs1 fs1b Hi Hp1 Hp2) as (m & Hm2 & Hm1).
  destruct (partial_then_part c1 c2 k1 k m fs1b _ fs2 Hi (partial_task _ _ _ _ Hm2) Hm1 E) as (m' & Em & Hm').
  exists m'. split; [by exists k, m|done].
Qed.

(** ** Several calls *)

(** What the running jobs have done, one job after the other. *)
Inductive chain : FS -> list (job * Task) -> FS -> Prop :=
| chain_nil fs : chain fs [] fs
| chain_cons fs j k fs1 l fs2 : partial (j_call j) fs k fs1 -> chain fs1 l fs2 -> chain fs ((j, k) :: l) fs2.

Definition all_independent (l : list (job * Task)) : Prop :=
  NoDup ((fun x => j_tid (fst x)) <$> l) /\
  forall x y, x ∈ l -> y ∈ l -> j_tid (fst x) <> j_tid (fst y) -> independent (j_call (fst x)) (j_call (fst y)).

Lemma all_independent_perm l l' : l ≡ₚ l' -> all_independent l -> all_independent l'.
Proof. intros Hp [Hn Hi]. split; [by rewrite <- Hp|]. intros x y. rewrite <- Hp. apply Hi. Qed.

Lemma all_independent_tail x l : all_independent (x :: l) -> all_independent l.
Proof. intros [Hn Hi]. split; [by apply NoDup_cons in Hn as [_ ?]|]. intros y z Hy Hz. apply Hi; by right. Qed.

Lemma all_independent_head x y l : all_independent (x :: l) -> y ∈ l -> independent (j_call (fst x)) (j_call (fst y)).
Proof.
  intros [Hn Hi] Hy. apply Hi; [by left|by right|]. apply NoDup_cons in Hn as [Hn _]. intros E. apply Hn.
  rewrite E. by apply (list_elem_of_fmap_2 (fun x => j_tid (fst x))).
Qed.

Lemma chain_app fs l1 l2 fs2 : chain fs (l1 ++ l2) fs2 <-> exists fs1, chain fs l1 fs1 /\ chain fs1 l2 fs2.
Proof.
  split.
  - revert fs. induction l1 as [|x l1 IH]; intros fs Hc; [exists fs; split; [constructor|done]|].
    inversion Hc as [|fs' j k fs1 l fs3 Hp Hc']; subst. destruct (IH fs1 Hc') as (m & H1 & H2). exists m. split; [by econstructor|done].
  - intros (fs1 & H1 & H2). induction H1 as [|fs j k fsm l fs1 Hp _ IH]; [done|]. econstructor; [done|by apply IH].
Qed.

Lemma chain_perm l l' : l ≡ₚ l' -> forall fs fs', all_independent l -> chain fs l fs' -> chain fs l' fs'.
Proof.
  induction 1 as [|[j k] l l' _ IH|[j1 k1] [j2 k2] l|l1 l2 l3 H12 IH1 _ IH2]; intros fs fs' Ha Hc.
  - done.
  - inversion Hc as [|? ? ? fs1 ? ? Hp Hc']; subst. econstructor; [exact Hp|]. apply IH; [by eapply all_independent_tail|done].
  - inversion Hc as [|? ? ? fs1 ? ? Hp1 Hc1]; subst. inversion Hc1 as [|? ? ? fs2 ? ? Hp2 Hc2]; subst.
    pose proof (all_independent_head _ (j1, k1) _ Ha ltac:(by left)) as Hi. cbn in Hi.
    destruct (partial_swap (j_call j2) (j_call j1) k2 k1 fs fs1 fs2 Hi Hp1 Hp2) as (m & Hm1 & Hm2). by repeat (econstructor; [done|]).
  - apply IH2; [by eapply all_independent_perm|]. by apply IH1.
Qed.

Lemma all_independent_task j k k' l : all_independent ((j, k) :: l) -> all_independent ((j, k') :: l).
Proof.
  intros [Hn Hi]. split; [done|]. intros x y Hx Hy. rewrite elem_of_cons in Hx, Hy.
  destruct Hx as [->|Hx], Hy as [->|Hy]; intros Hne; [done|apply (Hi (j, k) y)|apply (Hi x (j, k))|apply (Hi x y)];
    try done; first [by left|by right].
Qed.

(** A job that finishes after others that are under way could have run before
    them. *)
Lemma chain_completes l : forall fs fs1 j code fs2, chain fs l fs1 ->
  (forall x, x ∈ l -> independent (j_call (fst x)) (j_call j)) -> completes (j_call j) fs1 code fs2 ->
  exists fs', completes (j_call j) fs code fs' /\ chain fs' l fs2.
Proof.
  induction l as [|[j1 k1] l IH]; intros fs fs1 j code fs2 Hc Hi Hd.
  { inversion Hc; subst. exists fs2. split; [done|constructor]. }
  inversion Hc as [|? ? ? m ? ? Hp Hc']; subst.
  destruct (IH m fs1 j code fs2 Hc' (fun x Hx => Hi x (list_elem_of_further x (j1, k1) l Hx)) Hd) as (m' & Hd' & Hc2).
  destruct (partial_then_completes (j_call j1) (j_call j) k1 code fs m m' (Hi (j1, k1) ltac:(by left)) Hp Hd') as (fs' & Hd2 & Hp').
  exists fs'. split; [done|]. by econstructor.
Qed.

(** ** What the client has done *)
Context (dispatch : VFSCall -> M FS Z) {PL : PartsLaws Pt dispatch}.

(** Calls dispatched one after the other, with these codes. *)
Fixpoint dispatched (l : list (VFSCall * Z)) (fs fs' : FS) : Prop :=
  match l with
  | [] => fs' = fs
  | (call, code) :: l => exists fs1, dispatch call fs = (Ok code, fs1) /\ dispatched l fs1 fs'
  end.

Lemma dispatched_snoc l call code fs fs1 fs2 : dispatched l fs fs1 -> dispatch call fs1 = (Ok code, fs2) -> dispatched (l ++ [(call, code)]) fs fs2.
Proof.
  revert fs. induction l as [|[c e] l IH]; intros fs Hd E; cbn in *; [subst; by exists fs2|].
  destruct Hd as (m & Em & Hd). exists m. split; [done|by apply IH].
Qed.

Definition serial (fs0 : FS) (done : list (VFSCall * Z)) (l : list (job * Task)) (fs : FS) : Prop :=
  exists fsd, dispatched done fs0 fsd /\ chain fsd l fs.

Lemma serial_perm fs0 done l l' fs : l ≡ₚ l' -> all_independent l -> serial fs0 done l fs -> serial fs0 done l' fs.
Proof. intros Hp Ha (fsd & Hd & Hc). exists fsd. split; [done|]. by eapply chain_perm. Qed.

Lemma serial_start fs0 done l fs j : serial fs0 done l fs -> serial fs0 done (l ++ [(j, begin (j_call j))]) fs.
Proof.
  intros (fsd & Hd & Hc). exists fsd. split; [done|]. apply chain_app. exists fs. split; [done|].
  econstructor; [constructor|constructor].
Qed.

(** The job [j] is put last, and takes its part. *)
Lemma serial_last fs0 done l j k fs : all_independent ((j, k) :: l) -> serial fs0 done ((j, k) :: l) fs ->
  exists fsd fs1, dispatched done fs0 fsd /\ chain fsd l fs1 /\ partial (j_call j) fs1 k fs.
Proof.
  intros Ha Hs. apply (serial_perm _ _ _ (l ++ [(j, k)])) in Hs as (fsd & Hd & Hc); [|apply Permutation_cons_append|done].
  apply chain_app in Hc as (fs1 & Hc1 & Hc2). exists fsd, fs1. split; [done|]. split; [done|].
  inversion Hc2 as [|? ? ? m ? ? Hp Hc3]; subst. by inversion Hc3; subst.
Qed.

Lemma serial_part fs0 done l j k k' fs fs' : all_independent ((j, k) :: l) ->
  serial fs0 done ((j, k) :: l) fs -> advance k fs = (Ok (inl k'), fs') -> serial fs0 done ((j, k') :: l) fs'.
Proof.
  intros Ha Hs E. destruct (serial_last _ _ _ _ _ _ Ha Hs) as (fsd & fs1 & Hd & Hc & Hp).
  apply (serial_perm _ _ (l ++ [(j, k')])); [symmetry; apply Permutation_cons_append| |].
  - eapply all_independent_perm; [apply Permutation_cons_append|]. by eapply all_independent_task.
  - exists fsd. split; [done|]. apply chain_app. exists fs1. split; [done|]. econstructor; [by eapply partial_next|constructor].
Qed.

Lemma serial_done fs0 done l j k code fs fs' : all_independent ((j, k) :: l) ->
  serial fs0 done ((j, k) :: l) fs -> advance k fs = (Ok (inr code), fs') -> serial fs0 (done ++ [(j_call j, code)]) l fs'.
Proof.
  intros Ha Hs E. destruct (serial_last _ _ _ _ _ _ Ha Hs) as (fsd & fs1 & Hd & Hc & Hp).
  assert (forall x, x ∈ l -> independent (j_call (fst x)) (j_call j)) as Hi.
  { intros x Hx. destruct Ha as [Hn Hi]. apply (Hi x (j, k)); [by right|by left|]. apply NoDup_cons in Hn as [Hn _].
    intros Et. apply Hn. cbn in Et |- *. rewrite <- Et. by apply (list_elem_of_fmap_2 (fun x => j_tid (fst x))). }
  destruct (chain_completes l fsd fs1 j code fs' Hc Hi) as (fsd' & Hd' & Hc'); [by exists k, fs|].
  exists fsd'. split; [|done]. eapply dispatched_snoc; [exact Hd|]. apply law_whole. by apply completes_finishes.
Qed.

End Serial.

(** ** One thread of the server *)
Record thread := mk_thread {
  t_calls : list VFSCall;              (* sent and not dispatched to the end *)
  t_codes : list Z;                    (* dispatched, the answer is under way *)
  t_cell : option ClientAck;
  t_waits : bool;
  t_sent : list VFSCall;               (* by the log, from here on *)
  t_done : list (VFSCall * Z);
  t_crashed : list VFSCall;
  t_got : list ClientAck;
  t_timed : bool }.

(** Where the call is that a thread waits for, if no wait has timed out. *)
Inductive phase :=
| Idle
| Pending (call : VFSCall)    (* not dispatched to the end *)
| Lost (call : VFSCall)       (* its job panicked *)
| Answered (code : Z)         (* dispatched, the answer is under way *)
| Ready (code : Z).           (* in the cell of the thread *)

Definition calls_in (p : phase) : list VFSCall := match p with Pending call => [call] | _ => [] end.
Definition codes_in (p : phase) : list Z := match p with Answered code => [code] | _ => [] end.
Definition cell_in (p : phase) : option ClientAck := match p with Ready code => Some (RetCode code) | _ => None end.
Definition crashed_in (p : phase) : list VFSCall := match p with Lost call => [call] | _ => [] end.
Definition waits_in (p : phase) : bool := match p with Idle => false | _ => true end.

(** What a thread has sent, what was dispatched for it, and what it got. *)
Definition log_in (p : phase) (s : list VFSCall) (d : list (VFSCall * Z)) (g : list ClientAck) : Prop :=
  match p with
  | Idle => s = d.*1 /\ g = RetCode <$> d.*2
  | Pending call | Lost call => s = d.*1 ++ [call] /\ g = RetCode <$> d.*2
  | Answered code | Ready code =>
    exists d' call, d = d' ++ [(call, code)] /\ s = d.*1 /\ g = RetCode <$> d'.*2
  end.

Definition in_phase (p : phase) (x : thread) : Prop :=
  t_calls x = calls_in p /\ t_codes x = codes_in p /\ t_cell x = cell_in p /\ t_waits x = waits_in p /\
  t_crashed x = crashed_in p /\ log_in p (t_sent x) (t_done x) (t_got x).

(** What always holds: every call that was sent is in one place, every answer is
    told at most once, and a thread that waits has something to wait for; and
    everything is in order for a thread whose waits have not timed out. *)
Record fine (x : thread) : Prop := mk_fine {
  fi_sent : t_sent x ≡ₚ (t_done x).*1 ++ t_crashed x ++ t_calls x;
  fi_got : t_got x ++ (RetCode <$> t_codes x) ++ option_list (t_cell x) ⊆+ RetCode <$> (t_done x).*2;
  fi_wait : t_waits x = true -> t_crashed x = [] -> t_calls x <> [] \/ t_codes x <> [] \/ t_cell x <> None;
  fi_calm : t_timed x = false -> exists p, in_phase p x }.

Lemma nonempty_perm {A} (l l' : list A) : l ≡ₚ l' -> l <> [] -> l' <> [].
Proof. intros Hp Hn ->. by apply Permutation_nil_r in Hp. Qed.

Lemma perm_in_calls p l l' : l ≡ₚ l' -> l = calls_in p -> l' = calls_in p.
Proof. intros Hp ->. destruct p; cbn in *; first [by apply Permutation_nil_l in Hp|by apply Permutation_singleton_l in Hp]. Qed.

Lemma perm_in_codes p l l' : l ≡ₚ l' -> l = codes_in p -> l' = codes_in p.
Proof. intros Hp ->. destruct p; cbn in *; first [by apply Permutation_nil_l in Hp|by apply Permutation_singleton_l in Hp]. Qed.

Lemma fine_perm cs cs' as_ as' ce w s d k g b : cs ≡ₚ cs' -> as_ ≡ₚ as' ->
  fine (mk_thread cs as_ ce w s d k g b) -> fine (mk_thread cs' as' ce w s d k g b).
Proof.
  intros Hc Ha [H1 H2 H3 H4]. cbn in *. split; cbn.
  - by rewrite <- Hc.
  - by rewrite <- Ha.
  - intros Hw Hk. destruct (H3 Hw Hk) as [H|[H|H]]; [left|right; left|by right; right]; by eapply nonempty_perm.
  - intros Hb. destruct (H4 Hb) as (p & P1 & P2 & P3). exists p. split; [by eapply perm_in_calls|]. split; [by eapply perm_in_codes|done].
Qed.

(** *** The moves of a thread *)
Lemma fine_issue cs as_ ce s d k g b call :
  fine (mk_thread cs as_ ce false s d k g b) -> fine (mk_thread (call :: cs) as_ ce true (s ++ [call]) d k g b).
Proof.
  intros [H1 H2 H3 H4]. cbn in *. split; cbn.
  - rewrite H1, <- !app_assoc. do 2 apply Permutation_app_head. symmetry. apply Permutation_cons_append.
  - done.
  - intros _ _. by left.
  - intros Hb. destruct (H4 Hb) as (p & P1 & P2 & P3 & P4 & P5 & P6). cbn in *. destruct p; try done. exists (Pending call).
    unfold in_phase. cbn in *. subst. destruct P6 as [-> ->]. by split_and!.
Qed.

Lemma fine_done cs as_ ce w s d k g b call code :
  fine (mk_thread (call :: cs) as_ ce w s d k g b) ->
  fine (mk_thread cs (code :: as_) ce w s (d ++ [(call, code)]) k g b).
Proof.
  intros [H1 H2 H3 H4]. cbn in *. split; cbn.
  - rewrite H1, fmap_app, <- !app_assoc. apply Permutation_app_head. cbn. by rewrite Permutation_middle.
  - rewrite !fmap_app. cbn. rewrite <- Permutation_middle, <- Permutation_cons_append. by apply submseteq_skip.
  - intros _ _. right. by left.
  - intros Hb. destruct (H4 Hb) as (p & P1 & P2 & P3 & P4 & P5 & P6). cbn in *. destruct p as [|call'| | |]; try done. cbn in *.
    injection P1 as <- ->. subst. destruct P6 as [-> ->]. exists (Answered code). unfold in_phase. cbn. split_and!; try done.
    exists d, call. by rewrite fmap_app.
Qed.

Lemma fine_crash cs as_ ce w s d k g b call :
  fine (mk_thread (call :: cs) as_ ce w s d k g b) -> fine (mk_thread cs as_ ce w s d (k ++ [call]) g b).
Proof.
  intros [H1 H2 H3 H4]. cbn in *. split; cbn.
  - by rewrite H1, <- !app_assoc.
  - done.
  - intros _ Hk. by apply app_nil in Hk as [_ ?].
  - intros Hb. destruct (H4 Hb) as (p & P1 & P2 & P3 & P4 & P5 & P6). cbn in *. destruct p as [|call'| | |]; try done. cbn in *.
    injection P1 as <- ->. subst. destruct P6 as [-> ->]. exists (Lost call). unfold in_phase. cbn. by split_and!.
Qed.

Lemma fine_deliver cs as_ ce w s d k g b code :
  fine (mk_thread cs (code :: as_) ce w s d k g b) -> fine (mk_thread cs as_ (Some (RetCode code)) w s d k g b).
Proof.
  intros [H1 H2 H3 H4]. cbn in *. split; cbn.
  - done.
  - etrans; [|exact H2]. apply submseteq_app; [done|]. rewrite <- Permutation_cons_append. apply submseteq_skip, submseteq_inserts_r. done.
  - intros _ _. right. by right.
  - intros Hb. destruct (H4 Hb) as (p & P1 & P2 & P3 & P4 & P5 & P6). cbn in *. destruct p as [| | |code'|]; try done. cbn in *.
    injection P2 as <- ->. subst. by exists (Ready code).
Qed.

Lemma fine_wake cs as_ a s d k g b :
  fine (mk_thread cs as_ (Some a) true s d k g b) -> fine (mk_thread cs as_ None false s d k (g ++ [a]) b).
Proof.
  intros [H1 H2 H3 H4]. cbn in *. split; cbn.
  - done.
  - rewrite app_nil_r, <- app_assoc. etrans; [|exact H2]. apply submseteq_app; [done|]. by rewrite Permutation_app_comm.
  - done.
  - intros Hb. destruct (H4 Hb) as (p & P1 & P2 & P3 & P4 & P5 & P6). cbn in *. destruct p as [| | | |code]; try done. cbn in *.
    injection P3 as ->. subst. destruct P6 as (d' & call & -> & -> & ->). exists Idle. unfold in_phase. cbn. split_and!; try done. by rewrite !fmap_app.
Qed.

Lemma fine_timeout cs as_ ce s d k g b :
  fine (mk_thread cs as_ ce true s d k g b) -> fine (mk_thread cs as_ ce false s d k g true).
Proof. intros [H1 H2 H3 H4]. by split. Qed.

(** ** All threads *)

(** What a list has for one thread. *)
Definition of_tid {A} (t : Z) (l : list (Z * A)) : list A := omap (fun e => if fst e =? t then Some (snd e) else None) l.

Lemma of_tid_perm {A} t (l l' : list (Z * A)) : l ≡ₚ l' -> of_tid t l ≡ₚ of_tid t l'.
Proof. intros Hp. unfold of_tid. by rewrite Hp. Qed.

Lemma of_tid_eq {A} t x (l : list (Z * A)) : of_tid t ((t, x) :: l) = x :: of_tid t l.
Proof. unfold of_tid. cbn. by rewrite Z.eqb_refl. Qed.

Lemma of_tid_ne {A} t t' x (l : list (Z * A)) : t' <> t -> of_tid t ((t', x) :: l) = of_tid t l.
Proof. intros Hne. unfold of_tid. cbn. by rewrite (proj2 (Z.eqb_neq _ _) Hne). Qed.

Lemma elem_of_tid {A} t x (l : list (Z * A)) : (t, x) ∈ l -> x ∈ of_tid t l.
Proof. intros Hin. apply list_elem_of_omap. exists (t, x). split; [done|]. cbn. by rewrite Z.eqb_refl. Qed.

(** The log of a thread is its own events. *)
Definition event_tid (e : event) : Z :=
  match e with Sent t _ | Done t _ _ | Crashed t _ | Got t _ | TimedOut t => t end.

Lemma log_snoc t e log :
  sent_by t (log ++ [e]) = sent_by t log ++ sent_by t [e] /\ done_for t (log ++ [e]) = done_for t log ++ done_for t [e] /\
  crashed_for t (log ++ [e]) = crashed_for t log ++ crashed_for t [e] /\ got_by t (log ++ [e]) = got_by t log ++ got_by t [e] /\
  timed_out t (log ++ [e]) = timed_out t log || timed_out t [e].
Proof. unfold sent_by, done_for, crashed_for, got_by, timed_out. by rewrite !omap_app, existsb_app. Qed.

Lemma log_other t e : t <> event_tid e ->
  sent_by t [e] = [] /\ done_for t [e] = [] /\ crashed_for t [e] = [] /\ got_by t [e] = [] /\ timed_out t [e] = false.
Proof.
  intros Hne. assert ((event_tid e =? t) = false) as Ht by lia.
  destruct e; unfold sent_by, done_for, crashed_for, got_by, timed_out; cbn in *; by rewrite ?Ht.
Qed.

(** The cell in which a thread would find an answer. *)
Definition cell_at (h : cells) (parked : gmap Z nat) (t : Z) : option ClientAck := a ← parked !! t; mjoin (h !! a).

Definition thread_of (h : cells) (parked waiting : gmap Z nat) (log : list event) (U : list (Z * VFSCall)) (A : list (Z * Z)) (t : Z) : thread :=
  mk_thread (of_tid t U) (of_tid t A) (cell_at h parked t) (bool_decide (is_Some (waiting !! t)))
    (sent_by t log) (done_for t log) (crashed_for t log) (got_by t log) (timed_out t log).

Section PoolSpec.
Context {F : MsgFormat} {L : MsgFormatLaws} {C : Compressor} {D : Digest}.
Context {FB : StoreFormat BilogEntry} {FV : StoreFormat VFSCall}.
Context {FS : Type} {Pt : Parts FS} (dispatch : VFSCall -> M FS Z).

Definition ack_entry (tc : Z * Z) : FsyncerMsg := Msg_Ack (mk_AckMsg (RetCode (snd tc)) (fst tc)).

(** Whatever code the call ends with, the answer can be encoded. *)
Definition answerable_call (tc : Z * VFSCall) : Prop :=
  forall k fs code fs', task_of (snd tc) k -> advance k fs = (Ok (inr code), fs') -> msg_ok (ack_entry (fst tc, code)).

(** [U] are the calls not dispatched to the end, [A] the answers under way. *)
Record tracked (h : cells) (parked waiting : gmap Z nat) (log : list event) (U : list (Z * VFSCall)) (A : list (Z * Z)) : Prop := {
  tr_fine : forall t, fine (thread_of h parked waiting log U A t);
  tr_sound : Forall answerable_call U;
  tr_ok : Forall (fun tc => msg_ok (ack_entry tc)) A;
  tr_park : forall t a, waiting !! t = Some a -> parked !! t = Some a;
  tr_known : forall t, sent_by t log <> [] -> is_Some (parked !! t);
  tr_cell : forall t a, parked !! t = Some a -> is_Some (h !! a);
  tr_inj : forall t t' a, parked !! t = Some a -> parked !! t' = Some a -> t = t' }.

Lemma tracked_perm h parked waiting log U A U' A' :
  U ≡ₚ U' -> A ≡ₚ A' -> tracked h parked waiting log U A -> tracked h parked waiting log U' A'.
Proof.
  intros HU HA [Hf Hs Ho Hp Hk Hc Hi]. split; try done; [|by rewrite <- HU|by rewrite <- HA].
  intros t. eapply fine_perm; [by apply of_tid_perm|by apply of_tid_perm|apply Hf].
Qed.

(** A move of the thread [t] that the others do not notice. *)
Lemma fine_move h parked waiting log U A h' parked' waiting' U' A' e t :
  (forall t, fine (thread_of h parked waiting log U A t)) -> event_tid e = t ->
  (forall t', t' <> t -> of_tid t' U' = of_tid t' U /\ of_tid t' A' = of_tid t' A /\ cell_at h' parked' t' = cell_at h parked t' /\
     waiting' !! t' = waiting !! t') ->
  fine (thread_of h' parked' waiting' (log ++ [e]) U' A' t) -> forall t', fine (thread_of h' parked' waiting' (log ++ [e]) U' A' t').
Proof.
  intros Hf He Hsame Ht t'. destruct (decide (t' = t)) as [->|Hne]; [done|]. destruct (Hsame t' Hne) as (E1 & E2 & E3 & E4).
  unfold thread_of. rewrite E1, E2, E3, E4. destruct (log_snoc t' e log) as (-> & -> & -> & -> & ->).
  destruct (log_other t' e) as (-> & -> & -> & -> & ->); [by rewrite He|]. rewrite !app_nil_r, orb_false_r. apply Hf.
Qed.

Ltac thread_snoc t := unfold thread_of; match goal with |- context [?log ++ [?e]] =>
  destruct (log_snoc t e log) as (-> & -> & -> & -> & ->) end;
  unfold sent_by at 2, done_for at 2, crashed_for at 2, got_by at 2, timed_out at 2; cbn [omap list_omap existsb];
  rewrite ?Z.eqb_refl, ?app_nil_r, ?orb_false_r, ?orb_true_r.

(** A thread that does not wait starts. *)
Lemma tracked_issue h parked waiting log U A t call a h' parked' :
  tracked h parked waiting log U A -> waiting !! t = None -> answerable_call (t, call) ->
  parked' !! t = Some a -> (forall t', t' <> t -> parked' !! t' = parked !! t') ->
  (parked !! t = Some a /\ h' = h \/ parked !! t = None /\ a = length h /\ h' = h ++ [None]) ->
  tracked h' parked' (<[t := a]> waiting) (log ++ [Sent t call]) ((t, call) :: U) A.
Proof.
  intros [Hf Hs Ho Hp Hk Hc Hi] Hw Hans Ha Hother Hcell.
  assert (forall b, is_Some (h !! b) -> h' !! b = h !! b) as Hh.
  { intros b [x Hb]. destruct Hcell as [[_ ->]|(_ & _ & ->)]; [done|]. rewrite Hb. by apply lookup_app_l_Some. }
  assert (cell_at h' parked' t = cell_at h parked t) as Et.
  { unfold cell_at. rewrite Ha. cbn. destruct Hcell as [[-> ->]|(-> & -> & ->)]; [done|]. cbn. by rewrite list_lookup_middle. }
  assert (forall t', t' <> t -> cell_at h' parked' t' = cell_at h parked t') as Eo.
  { intros t' Hne. unfold cell_at. rewrite Hother by done. destruct (parked !! t') as [b|] eqn:Eb; [|done]. cbn. by rewrite Hh by by eapply Hc. }
  split; try done.
  - apply (fine_move h parked waiting log U A _ _ _ _ _ _ t); [done..| |].
    { intros t' Hne. split_and!; [by apply of_tid_ne; congruence|done|by apply Eo|by apply lookup_insert_ne; congruence]. }
    thread_snoc t. rewrite of_tid_eq, Et, lookup_insert_eq. rewrite bool_decide_true by by eexists.
    apply fine_issue. specialize (Hf t). unfold thread_of in Hf. rewrite Hw in Hf. rewrite bool_decide_false in Hf by by intros [? ?]. exact Hf.
  - by apply Forall_cons_2.
  - intros t' b. destruct (decide (t' = t)) as [->|Hne].
    + rewrite lookup_insert_eq. congruence.
    + rewrite lookup_insert_ne, Hother by congruence. apply Hp.
  - intros t' Hsent. destruct (decide (t' = t)) as [->|Hne]; [by exists a|]. rewrite Hother by done. apply Hk.
    destruct (log_snoc t' (Sent t call) log) as (E & _). rewrite E in Hsent.
    destruct (log_other t' (Sent t call) Hne) as (E' & _). by rewrite E', app_nil_r in Hsent.
  - intros t' b Hb. destruct (decide (t' = t)) as [->|Hne].
    + assert (b = a) as -> by congruence. destruct Hcell as [[Hpt ->]|(_ & -> & ->)]; [by eapply Hc|]. by rewrite list_lookup_middle.
    + rewrite Hother in Hb by done. rewrite Hh by by eapply Hc. by eapply Hc.
  - assert (forall t' b, t' <> t -> parked !! t' = Some b -> b <> a) as Hnew.
    { intros t' b Hne Hb ->. destruct Hcell as [[Hpt _]|(_ & -> & _)]; [by apply Hne, (Hi _ _ a)|].
      apply Hc in Hb as [? Hb]. apply lookup_lt_Some in Hb. lia. }
    intros t1 t2 b H1 H2. destruct (decide (t1 = t)) as [->|N1], (decide (t2 = t)) as [->|N2]; [done| | |].
    + rewrite Hother in H2 by done. assert (b = a) as -> by congruence. by destruct (Hnew t2 a).
    + rewrite Hother in H1 by done. assert (b = a) as -> by congruence. by destruct (Hnew t1 a).
    + rewrite Hother in H1, H2 by done. by eapply Hi.
Qed.

(** A log that grows by something that is not sent. *)
Lemma known_snoc (parked : gmap Z nat) log e : (forall t, sent_by t log <> [] -> is_Some (parked !! t)) -> sent_by (event_tid e) [e] = [] ->
  forall t, sent_by t (log ++ [e]) <> [] -> is_Some (parked !! t).
Proof.
  intros Hk He t. destruct (log_snoc t e log) as (-> & _). destruct (decide (t = event_tid e)) as [->|Hne].
  - rewrite He, app_nil_r. apply Hk.
  - destruct (log_other t e Hne) as (-> & _). rewrite app_nil_r. apply Hk.
Qed.

(** The call is dispatched to the end. *)
Lemma tracked_done h parked waiting log t call U A code :
  tracked h parked waiting log ((t, call) :: U) A -> msg_ok (ack_entry (t, code)) ->
  tracked h parked waiting (log ++ [Done t call code]) U ((t, code) :: A).
Proof.
  intros [Hf Hs Ho Hp Hk Hc Hi] Hcode. split; try done.
  - apply (fine_move h parked waiting log ((t, call) :: U) A _ _ _ _ _ _ t); [done..| |].
    { intros t' Hne. rewrite !of_tid_ne by congruence. done. }
    specialize (Hf t). unfold thread_of in Hf. rewrite of_tid_eq in Hf. thread_snoc t. rewrite of_tid_eq. by apply fine_done.
  - by apply Forall_cons in Hs as [_ ?].
  - by apply Forall_cons_2.
  - by apply known_snoc.
Qed.

(** The job panics. *)
Lemma tracked_crash h parked waiting log t call U A :
  tracked h parked waiting log ((t, call) :: U) A -> tracked h parked waiting (log ++ [Crashed t call]) U A.
Proof.
  intros [Hf Hs Ho Hp Hk Hc Hi]. split; try done.
  - apply (fine_move h parked waiting log ((t, call) :: U) A _ _ _ _ _ _ t); [done..| |].
    { intros t' Hne. rewrite !of_tid_ne by congruence. done. }
    specialize (Hf t). unfold thread_of in Hf. rewrite of_tid_eq in Hf. thread_snoc t. by eapply fine_crash.
  - by apply Forall_cons in Hs as [_ ?].
  - by apply known_snoc.
Qed.

Lemma cell_at_insert h (parked : gmap Z nat) t a c : parked !! t = Some a -> is_Some (h !! a) ->
  (forall t t' a, parked !! t = Some a -> parked !! t' = Some a -> t = t') ->
  cell_at (<[a := c]> h) parked t = c /\ forall t', t' <> t -> cell_at (<[a := c]> h) parked t' = cell_at h parked t'.
Proof.
  intros Ha [x Hx] Hi. unfold cell_at. split.
  - rewrite Ha. cbn. by rewrite list_lookup_insert_eq by by eapply lookup_lt_Some.
  - intros t' Hne. destruct (parked !! t') as [b|] eqn:Eb; [|done]. cbn. rewrite list_lookup_insert_ne; [done|].
    intros ->. by apply Hne, (Hi _ _ b).
Qed.

Lemma cells_insert h (parked : gmap Z nat) a c : (forall t b, parked !! t = Some b -> is_Some (h !! b)) ->
  forall t b, parked !! t = Some b -> is_Some ((<[a := c]> h : cells) !! b).
Proof. intros Hc t b Hb. apply lookup_lt_is_Some. rewrite length_insert. apply lookup_lt_is_Some. by eapply Hc. Qed.

(** The answer reaches the cell of its thread; what was there is lost. *)
Lemma tracked_deliver h parked waiting log t code U A :
  tracked h parked waiting log U ((t, code) :: A) ->
  exists a, parked !! t = Some a /\ tracked (notify h a (RetCode code)) parked waiting log U A.
Proof.
  intros [Hf Hs Ho Hp Hk Hc Hi]. assert (is_Some (parked !! t)) as [a Ha].
  { apply Hk. intros Hn. pose proof (Hf t) as [H1 H2 _ _]. unfold thread_of in H1, H2. cbn [t_sent t_done t_crashed t_calls t_got t_codes t_cell] in H1, H2.
    rewrite Hn in H1. rewrite of_tid_eq in H2.
    apply Permutation_nil_l in H1. symmetry in H1. apply app_nil in H1 as [H1 _]. apply fmap_nil_inv in H1. rewrite H1 in H2.
    apply submseteq_nil_r in H2. by apply app_nil in H2 as [_ ?]. }
  exists a. split; [done|]. destruct (cell_at_insert h parked t a (Some (RetCode code)) Ha (Hc _ _ Ha) Hi) as [Et Eo].
  unfold notify. split; try done; [| |by apply cells_insert].
  - intros t'. destruct (decide (t' = t)) as [->|Hne].
    + specialize (Hf t). unfold thread_of in *. rewrite of_tid_eq in Hf. rewrite Et. by eapply fine_deliver.
    + specialize (Hf t'). unfold thread_of in *. rewrite of_tid_ne in Hf by congruence. by rewrite Eo.
  - by apply Forall_cons in Ho as [_ ?].
Qed.

(** The thread wakes up with what is in its cell. *)
Lemma tracked_wake h parked waiting log t a d U A :
  tracked h parked waiting log U A -> waiting !! t = Some a -> h !! a = Some (Some d) ->
  tracked (<[a := None]> h) parked (delete t waiting) (log ++ [Got t d]) U A.
Proof.
  intros [Hf Hs Ho Hp Hk Hc Hi] Ha Hd. pose proof (Hp t a Ha) as Hpa.
  destruct (cell_at_insert h parked t a None Hpa (Hc _ _ Hpa) Hi) as [Et Eo]. split; try done.
  - apply (fine_move h parked waiting log U A _ _ _ _ _ _ t); [done..| |].
    { intros t' Hne. split_and!; [done..|by apply Eo|by apply lookup_delete_ne; congruence]. }
    specialize (Hf t). unfold thread_of in Hf. rewrite Ha in Hf. rewrite bool_decide_true in Hf by by eexists.
    assert (cell_at h parked t = Some d) as Ed by (unfold cell_at; rewrite Hpa; cbn; by rewrite Hd). rewrite Ed in Hf.
    thread_snoc t. rewrite Et, lookup_delete_eq. rewrite bool_decide_false by by intros [? ?]. by apply fine_wake.
  - intros t' b. destruct (decide (t' = t)) as [->|Hne]; [by rewrite lookup_delete_eq|]. rewrite lookup_delete_ne by congruence. apply Hp.
  - by apply known_snoc.
  - by apply cells_insert.
Qed.

(** The thread stops waiting. *)
Lemma tracked_timeout h parked waiting log t a U A :
  tracked h parked waiting log U A -> waiting !! t = Some a ->
  tracked h parked (delete t waiting) (log ++ [TimedOut t]) U A.
Proof.
  intros [Hf Hs Ho Hp Hk Hc Hi] Ha. split; try done.
  - apply (fine_move h parked waiting log U A _ _ _ _ _ _ t); [done..| |].
    { intros t' Hne. split_and!; [done..|by apply lookup_delete_ne; congruence]. }
    specialize (Hf t). unfold thread_of in Hf. rewrite Ha in Hf. rewrite bool_decide_true in Hf by by eexists.
    thread_snoc t. rewrite lookup_delete_eq. rewrite bool_decide_false by by intros [? ?]. by eapply fine_timeout.
  - intros t' b. destruct (decide (t' = t)) as [->|Hne]; [by rewrite lookup_delete_eq|]. rewrite lookup_delete_ne by congruence. apply Hp.
  - by apply known_snoc.
Qed.

(** ** The system *)

(** What is on its way to the client, in the pool and on its way back. *)
Definition undone_msg (m : FsyncerMsg) : list (Z * VFSCall) :=
  match m with Msg_SyncOp call tid => [(tid, call)] | _ => [] end.
Definition job_op (j : job) : Z * VFSCall := (j_tid j, j_call j).
Definition undone_run (r : job * (Task + Z)) : list (Z * VFSCall) :=
  match r with (j, inl _) => [job_op j] | _ => [] end.
Definition done_run (r : job * (Task + Z)) : list (Z * Z) :=
  match r with (j, inr e) => [(j_tid j, e)] | _ => [] end.

Definition calls_under_way (N : list FsyncerMsg) (p : Pooled FS) : list (Z * VFSCall) :=
  (N ≫= undone_msg) ++ (job_op <$> po_queue p) ++ (po_running p ≫= undone_run).
Definition codes_under_way (p : Pooled FS) (B : list (Z * Z)) : list (Z * Z) := (po_running p ≫= done_run) ++ B.

Definition op_msg (m : FsyncerMsg) : Prop := match m with Msg_SyncOp _ _ | Msg_NOP => True | _ => False end.

Definition run_ok (r : job * (Task + Z)) : Prop :=
  match r with (j, inl k) => task_of (j_call j) k | _ => True end.

Record pool_ok (y : system FS) (N : list FsyncerMsg) (B : list (Z * Z)) : Prop := {
  ok_client : open_client (y_client y) /\ cl_mode (y_client y) = MODE_SYNC;
  ok_conn : open_conn (po_sc (y_pool y)) /\ sc_mode (po_sc (y_pool y)) = MODE_SYNC;
  ok_in : sc_read (po_sc (y_pool y)) = frames N;
  ok_msgs : Forall (fun m => sendable m /\ op_msg m) N;
  ok_back : y_back y = (ack_entry <$> B) ≫= ser_msg;
  ok_ack : Forall (fun j => j_need_ack j = true) (po_queue (y_pool y) ++ (po_running (y_pool y)).*1);
  ok_tasks : Forall run_ok (po_running (y_pool y));
  ok_tracked : tracked (y_cells y) (cl_parked (y_client y)) (y_waiting y) (y_log y)
    (calls_under_way N (y_pool y)) (codes_under_way (y_pool y) B) }.

Context {PL : PartsLaws Pt dispatch}.

(** How many steps are left at most. *)
Definition msg_cost (m : FsyncerMsg) : nat := match m with Msg_SyncOp call _ => 6 + task_size (begin call) | _ => 6 end.
Definition job_cost (j : job) : nat := 5 + task_size (begin (j_call j)).
Definition run_cost (r : job * (Task + Z)) : nat := match r with (_, inl k) => 4 + task_size k | (_, inr _) => 3 end.
Definition cost (y : system FS) (N : list FsyncerMsg) (B : list (Z * Z)) : nat :=
  sum_list_with msg_cost N + sum_list_with job_cost (po_queue (y_pool y)) + sum_list_with run_cost (po_running (y_pool y)) +
  2 * length B + size (y_waiting y).

Lemma written_same w : written w w = [].
Proof. apply drop_all. Qed.

Lemma written_app (w w' : stream) l : st_out w' = st_out w ++ l -> written w w' = l.
Proof. unfold written. intros ->. apply drop_app_length. Qed.

(** The main thread takes a message. *)
Lemma turn_ok threads y p N B :
  (1 < threads)%nat -> pool_ok y N B -> pool_turn dispatch threads (y_pool y) = (Ok tt, p) ->
  po_running p = po_running (y_pool y) /\ po_fs p = po_fs (y_pool y) /\
  exists N', pool_ok (y_moved y p []) N' B /\ (cost (y_moved y p []) N' B < cost y N B)%nat.
Proof.
  intros Hth [Hc [Ho Hm] Hin Hmsgs Hb Hack Htk Hph] E. destruct threads as [|[|n]]; [lia..|]. clear Hth. destruct y as [h c [sc fs q run] back wait log]. cbn in *.
  unfold pool_turn, on_main, on_conn in E. munfold. cbn in E. destruct N as [|m N].
  { by rewrite read_msg_end in E. }
  apply Forall_cons in Hmsgs as [[Hs Hop] Hmsgs].
  destruct (read_msg_frame sc m (frames N)) as (rcv & Er); [apply Ho|exact Hin|done|]. rewrite Er in E.
  destruct m as [|call|call tid| | | | | ]; try done; cbn in E.
  - unfold execute, modify in E.
    munfold. cbn in E. rewrite Hm in E. repeat first [rewrite bool_decide_true in E by done | rewrite bool_decide_false in E by done].
    cbn in E. injection E as <-. split; [done|]. split; [done|]. exists N. split.
    + split; cbn; try done. { by rewrite written_same, app_nil_r. }
      { rewrite <- app_assoc. apply Forall_app in Hack as [H1 H2]. apply Forall_app. split; [done|]. by apply Forall_cons_2. }
      rewrite app_nil_r. eapply tracked_perm; [|reflexivity|exact Hph]. unfold calls_under_way. cbn.
      rewrite fmap_app. cbn. unfold job_op at 2. cbn. solve_Permutation.
    + unfold cost. cbn. rewrite sum_list_with_app. cbn. unfold job_cost. cbn. lia.
  - injection E as <-. split; [done|]. split; [done|]. exists N. split.
    + split; cbn; try done. { by rewrite written_same, app_nil_r. } by rewrite app_nil_r.
    + unfold cost. cbn. lia.
Qed.

Lemma start_ok threads y p N B :
  pool_ok y N B -> pool_start threads (y_pool y) = Some p ->
  po_fs p = po_fs (y_pool y) /\ (exists j, po_running p = po_running (y_pool y) ++ [(j, inl (begin (j_call j)))]) /\
  pool_ok (y_moved y p []) N B /\ (cost (y_moved y p []) N B < cost y N B)%nat.
Proof.
  intros [Hc [Ho Hm] Hin Hmsgs Hb Hack Htk Hph] E. destruct y as [h c [sc fs q run] back wait log]. cbn in *.
  unfold pool_start in E. cbn -[Nat.ltb] in E. destruct q as [|j q]; [done|]. destruct (Nat.ltb _ _); [|done]. injection E as <-.
  split; [done|]. split; [by exists j|]. split.
  - split; cbn; try done. { by rewrite written_same, app_nil_r. }
    { rewrite fmap_app. cbn in *. apply Forall_cons in Hack as [H1 H2]. apply Forall_app in H2 as [H2 H3].
      repeat (apply Forall_app; split); [done..|by apply Forall_cons_2]. }
    { apply Forall_app. split; [done|]. apply Forall_cons_2; [constructor|done]. }
    rewrite app_nil_r. eapply tracked_perm; [| |exact Hph]; unfold calls_under_way, codes_under_way; cbn; rewrite bind_app; cbn.
    + solve_Permutation.
    + by rewrite app_nil_r.
  - unfold cost. cbn. rewrite sum_list_with_app. cbn. unfold job_cost. lia.
Qed.

Lemma delete_perm {A} (l : list A) i x : l !! i = Some x -> l ≡ₚ x :: delete i l.
Proof. apply delete_Permutation. Qed.

Lemma insert_perm {A} (l : list A) i x y : l !! i = Some x -> <[i := y]> l ≡ₚ y :: delete i l.
Proof.
  intros E. rewrite (delete_perm (<[i := y]> l) i y) by (apply list_lookup_insert_eq; by eapply lookup_lt_Some).
  apply Permutation_cons; [done|]. clear E. revert i. induction l as [|z l IH]; intros [|i]; [done..|]. cbn. by rewrite IH.
Qed.

Lemma run_cost_perm (run run' : list (job * (Task + Z))) :
  run ≡ₚ run' -> sum_list_with run_cost run = sum_list_with run_cost run'.
Proof. apply sum_list_with_Permutation_proper. Qed.

(** The state with the running job [i] set apart. *)
Lemma job_apart y i r N B : pool_ok y N B -> po_running (y_pool y) !! i = Some r ->
  let rest := delete i (po_running (y_pool y)) in
  run_ok r /\ j_need_ack (fst r) = true /\
  tracked (y_cells y) (cl_parked (y_client y)) (y_waiting y) (y_log y)
    (undone_run r ++ (N ≫= undone_msg) ++ (job_op <$> po_queue (y_pool y)) ++ (rest ≫= undone_run))
    (done_run r ++ (rest ≫= done_run) ++ B).
Proof.
  intros [Hc [Ho Hm] Hin Hmsgs Hb Hack Htk Hph] E rest. pose proof (delete_perm _ i _ E) as Hp.
  split; [by rewrite Hp in Htk; apply Forall_cons in Htk as [? _]|]. split.
  { rewrite Hp in Hack. apply Forall_app in Hack as [_ Hack]. by apply Forall_cons in Hack as [? _]. }
  assert (po_running (y_pool y) ≫= undone_run ≡ₚ undone_run r ++ (rest ≫= undone_run)) as HpU by (rewrite Hp at 1; done).
  assert (po_running (y_pool y) ≫= done_run ≡ₚ done_run r ++ (rest ≫= done_run)) as HpA by (rewrite Hp at 1; done).
  eapply tracked_perm; [| |exact Hph]; unfold calls_under_way, codes_under_way; [rewrite HpU|rewrite HpA]; solve_Permutation.
Qed.

(** The state after a step of that job, which is then [r'], or has gone. *)
Lemma job_moved y i r run' fs' r' log N B : pool_ok y N B -> po_running (y_pool y) !! i = Some r ->
  run' ≡ₚ r' ++ delete i (po_running (y_pool y)) -> (forall x, x ∈ r' -> fst x = fst r) -> Forall run_ok r' ->
  tracked (y_cells y) (cl_parked (y_client y)) (y_waiting y) (y_log y ++ log)
    ((r' ≫= undone_run) ++ (N ≫= undone_msg) ++ (job_op <$> po_queue (y_pool y)) ++ (delete i (po_running (y_pool y)) ≫= undone_run))
    ((r' ≫= done_run) ++ (delete i (po_running (y_pool y)) ≫= done_run) ++ B) ->
  pool_ok (y_moved y (mk_Pooled (po_sc (y_pool y)) fs' (po_queue (y_pool y)) run') log) N B.
Proof.
  intros Hok Ei Hr' Hfst Hrun Ht. pose proof (job_apart _ _ _ _ _ Hok Ei) as (_ & Hn & _).
  destruct Hok as [Hc [Ho Hm] Hin Hmsgs Hb Hack Htk Hph]. pose proof (delete_perm _ i _ Ei) as Hp. split; cbn; try done.
  - by rewrite written_same, app_nil_r.
  - rewrite Hr', fmap_app. rewrite Hp in Hack. apply Forall_app in Hack as [H1 H2]. apply Forall_cons in H2 as [_ H2].
    repeat (apply Forall_app; split); [done| |done]. apply Forall_forall. intros j Hj. apply list_elem_of_fmap in Hj as (x & -> & Hx).
    by rewrite (Hfst x Hx).
  - rewrite Hr'. apply Forall_app. split; [done|]. rewrite Hp in Htk. by apply Forall_cons in Htk as [_ ?].
  - eapply tracked_perm; [| |exact Ht]; unfold calls_under_way, codes_under_way; cbn; rewrite Hr', bind_app; solve_Permutation.
Qed.

Lemma moved_cost y i r run' fs' r' log N B : po_running (y_pool y) !! i = Some r ->
  run' ≡ₚ r' ++ delete i (po_running (y_pool y)) -> (sum_list_with run_cost r' < run_cost r)%nat ->
  (cost (y_moved y (mk_Pooled (po_sc (y_pool y)) fs' (po_queue (y_pool y)) run') log) N B < cost y N B)%nat.
Proof.
  intros Ei Hr' Hlt. unfold cost. cbn. pose proof (run_cost_perm _ _ (delete_perm _ i _ Ei)) as H1. pose proof (run_cost_perm _ _ Hr') as H2.
  rewrite sum_list_with_app in H2. cbn in H1. lia.
Qed.

(** A worker takes a part of a dispatch, whatever comes of it. *)
Lemma part_ok y i j k N B :
  pool_ok y N B -> po_running (y_pool y) !! i = Some (j, inl k) ->
  exists p log, pool_work i (y_pool y) = Some (p, log) /\ pool_ok (y_moved y p log) N B /\ (cost (y_moved y p log) N B < cost y N B)%nat.
Proof.
  intros Hok Ei. destruct (job_apart _ _ _ _ _ Hok Ei) as (Htk & _ & Ht). cbn in Ht, Htk.
  unfold pool_work. rewrite Ei. destruct (advance k (po_fs (y_pool y))) as [r fs'] eqn:Ea.
  assert (forall e, <[i := e]> (po_running (y_pool y)) ≡ₚ [e] ++ delete i (po_running (y_pool y))) as Hins by (intros e; by eapply insert_perm).
  assert (pool_ok (y_moved y (mk_Pooled (po_sc (y_pool y)) fs' (po_queue (y_pool y)) (delete i (po_running (y_pool y))))
      [Crashed (j_tid j) (j_call j)]) N B /\
    (cost (y_moved y (mk_Pooled (po_sc (y_pool y)) fs' (po_queue (y_pool y)) (delete i (po_running (y_pool y))))
      [Crashed (j_tid j) (j_call j)]) N B < cost y N B)%nat) as Hcrash.
  { split; [apply (job_moved y i _ _ fs' [] _ N B Hok Ei)|apply (moved_cost y i _ _ fs' [] _ N B Ei)]; try done.
    - by intros x ?%elem_of_nil.
    - by eapply tracked_crash.
    - cbn. lia. }
  destruct r as [[k'|code]|e| |]; eexists _, _; (split; [reflexivity|]); try exact Hcrash.
  - split; [apply (job_moved y i _ _ fs' [(j, inl k')] _ N B Hok Ei)|apply (moved_cost y i _ _ fs' [(j, inl k')] _ N B Ei)]; try done.
    + by intros x ->%list_elem_of_singleton.
    + apply Forall_singleton. by eapply task_next.
    + by rewrite app_nil_r.
    + cbn. pose proof (law_size _ _ _ _ Ea). lia.
  - split; [apply (job_moved y i _ _ fs' [(j, inr code)] _ N B Hok Ei)|apply (moved_cost y i _ _ fs' [(j, inr code)] _ N B Ei)]; try done.
    + by intros x ->%list_elem_of_singleton.
    + by apply Forall_singleton.
    + cbn. apply (tracked_done _ _ _ _ _ (j_call j)); [done|]. pose proof (tr_sound _ _ _ _ _ _ Ht) as Hs. apply Forall_cons in Hs as [Hs _].
      by apply (Hs k (po_fs (y_pool y)) code fs').
    + cbn. lia.
Qed.

(** A worker answers. *)
Lemma answer_ok y i j e N B :
  pool_ok y N B -> po_running (y_pool y) !! i = Some (j, inr e) ->
  exists p, pool_work i (y_pool y) = Some (p, []) /\ po_running p = delete i (po_running (y_pool y)) /\ po_fs p = po_fs (y_pool y) /\
    pool_ok (y_moved y p []) N (B ++ [(j_tid j, e)]) /\
    (cost (y_moved y p []) N (B ++ [(j_tid j, e)]) < cost y N B)%nat.
Proof.
  intros Hok E. destruct (job_apart _ _ _ _ _ Hok E) as (_ & Hj & Ht). cbn in Hj, Ht.
  destruct Hok as [Hc [Ho Hm] Hin Hmsgs Hb Hack Htk Hph]. destruct y as [h c [sc fs q run] back wait log]. cbn in *.
  pose proof (delete_perm run i _ E) as Hp. unfold pool_work. cbn. rewrite E, Hj. unfold send_ack, on_conn. rewrite send_msg_ok by done.
  eexists. split; [reflexivity|]. split; [done|]. split; [done|]. split.
  - split; cbn; try done.
    + split; [|done]. by destruct Ho.
    + rewrite (written_app _ _ ([ack_entry (j_tid j, e)] ≫= ser_msg)) by done.
      by rewrite fmap_app, bind_app, Hb.
    + by rewrite Hp in Hack; apply Forall_app in Hack as [H1 H2]; apply Forall_app; split; [|apply Forall_cons in H2 as [_ ?]].
    + by rewrite Hp in Htk; apply Forall_cons in Htk as [_ ?].
    + rewrite app_nil_r. eapply tracked_perm; [| |exact Ht]; unfold calls_under_way, codes_under_way; cbn; solve_Permutation.
  - unfold cost. cbn. rewrite length_app. pose proof (run_cost_perm _ _ Hp). cbn in *. lia.
Qed.

(** The reader passes an answer on. *)
Lemma reader_step_ok y m rest N B :
  pool_ok y N B -> de_msg (y_back y) = Some (m, rest) ->
  exists tc B' h, B = tc :: B' /\
    reader_msg (Some m) (y_cells y, y_client y) = (Ok ReaderGoesOn, (h, y_client y)) /\
    let y' := mk_system h (y_client y) (y_pool y) rest (y_waiting y) (y_log y) in
    pool_ok y' N B' /\ (cost y' N B' < cost y N B)%nat.
Proof.
  intros [Hc [Ho Hm] Hin Hmsgs Hb Hack Htk Hph] E. destruct y as [h c p back wait log]. cbn in *.
  destruct B as [|[t code] B]; [by rewrite Hb, law_msg_eof in E|].
  assert (tracked h (cl_parked c) wait log (calls_under_way N p) ((t, code) :: (po_running p ≫= done_run) ++ B)) as Hph1.
  { eapply tracked_perm; [reflexivity| |exact Hph]. unfold codes_under_way. solve_Permutation. }
  pose proof (tr_ok _ _ _ _ _ _ Hph1) as Hok. apply Forall_cons in Hok as [Hok _].
  rewrite Hb, fmap_cons, bind_cons, law_msg in E by done. injection E as <- <-.
  destruct (tracked_deliver _ _ _ _ _ _ _ _ Hph1) as (a & Hp & Hph2).
  unfold ack_entry. cbn. unfold park. rewrite Hp. cbn. rewrite Hp. eexists _, _, _. split; [reflexivity|].
  split; [reflexivity|]. split; [by split|]. unfold cost. cbn. lia.
Qed.

Lemma waiting_size (wt : gmap Z nat) tid a : wt !! tid = Some a -> (size (delete tid wt) < size wt)%nat.
Proof.
  intros Ha. rewrite map_size_delete_Some by done. assert (size wt <> 0%nat); [|lia].
  intros Hz. apply map_size_empty_inv in Hz. by rewrite Hz in Ha.
Qed.

Lemma wake_ok y tid a d N B :
  pool_ok y N B -> y_waiting y !! tid = Some a -> y_cells y !! a = Some (Some d) ->
  exists h, wait a (y_cells y) = (Ok (Some d), h) /\
    let y' := mk_system h (y_client y) (y_pool y) (y_back y) (delete tid (y_waiting y)) (y_log y ++ [Got tid d]) in
    pool_ok y' N B /\ (cost y' N B < cost y N B)%nat.
Proof.
  intros [Hc [Ho Hm] Hin Hmsgs Hb Hack Htk Hph] Ha Hd. destruct y as [h c p back wt log]. cbn in *.
  pose proof (tracked_wake _ _ _ _ _ _ _ _ _ Hph Ha Hd) as Hph2. unfold wait. rewrite Hd.
  eexists. split; [reflexivity|]. split; [by split|]. unfold cost. cbn. pose proof (waiting_size wt tid a Ha). lia.
Qed.

Lemma timeout_ok y tid a N B :
  pool_ok y N B -> y_waiting y !! tid = Some a ->
  let y' := mk_system (y_cells y) (y_client y) (y_pool y) (y_back y) (delete tid (y_waiting y)) (y_log y ++ [TimedOut tid]) in
  pool_ok y' N B /\ (cost y' N B < cost y N B)%nat.
Proof.
  intros [Hc [Ho Hm] Hin Hmsgs Hb Hack Htk Hph] Ha. destruct y as [h c p back wt log]. cbn in *.
  split; [split; try done; by eapply tracked_timeout|]. unfold cost. cbn. pose proof (waiting_size wt tid a Ha). lia.
Qed.

(** ** Every step *)
Lemma inner_step_ok threads y y' N B :
  (1 < threads)%nat -> pool_ok y N B -> inner_step dispatch threads y y' ->
  exists N' B', pool_ok y' N' B' /\ (cost y' N' B' < cost y N B)%nat.
Proof.
  intros Hth Hok [Hs|Hs].
  - destruct Hs as [y p E|y p E|y i p log E|y m rest h c E Er|y tid a d h Ha E].
    + destruct (turn_ok _ _ _ _ _ Hth Hok E) as (_ & _ & N' & ?). by exists N', B.
    + exists N, B. by eapply start_ok.
    + destruct (po_running (y_pool y) !! i) as [[j [k|e]]|] eqn:Ei.
      * destruct (part_ok _ _ _ _ _ _ Hok Ei) as (p' & l' & Ep & ?). rewrite Ep in E. injection E as <- <-. by exists N, B.
      * destruct (answer_ok _ _ _ _ _ _ Hok Ei) as (p' & Ep & _ & _ & ?). rewrite Ep in E. injection E as <- <-. by eexists N, _.
      * unfold pool_work in E. by rewrite Ei in E.
    + destruct (reader_step_ok _ _ _ _ _ Hok E) as (tc & B' & h' & -> & Er' & ?).
      rewrite Er' in Er. injection Er as <- <-. by exists N, B'.
    + assert (y_cells y !! a = Some (Some d)) as Hd.
      { unfold wait in E. by destruct (y_cells y !! a) as [[?|]|]; inv E. }
      destruct (wake_ok _ _ _ _ _ _ Hok Ha Hd) as (h' & E' & ?). rewrite E' in E. injection E as <-. by exists N, B.
  - destruct Hs as [y tid a Ha]. exists N, B. by eapply timeout_ok.
Qed.

Lemma issue_ok tid call y y' N B :
  pool_ok y N B -> issue tid call y y' -> op_ok tid call -> answerable_call (tid, call) ->
  exists N', pool_ok y' N' B.
Proof.
  intros [[Hc Hcm] [Ho Hm] Hin Hmsgs Hb Hack Htk Hph] Hi Hok Hans. destruct Hi as [y a h c Hw E].
  destruct y as [h0 c0 p back wt log]. cbn in *.
  assert (op_message (cl_mode c0) call tid = Some (Msg_SyncOp call tid, true)) as Em.
  { unfold op_message. rewrite Hcm. repeat first [rewrite bool_decide_true by done | rewrite bool_decide_false by done].
    by rewrite andb_false_r. }
  unfold send_op in E. cbn [snd] in E. rewrite Em in E.
  destruct (park_total tid h0 c0) as (a1 & h1 & c1 & Hp).
  pose proof Hok as ([_ Hs] & _ & Hn). rewrite (response_msg_wait tid _ true h0 c0 a1 h1 c1) in E; [|done|done|apply Hn|done].
  injection E as -> -> <-. destruct (park_open _ _ _ _ _ _ Hp Hc) as (Ho1 & Hw1 & Hcomp & Hmode & Hpark).
  set (new := flushed c0 true (Msg_SyncOp call tid)).
  exists (N ++ new). split; cbn; try done.
  - split; [by apply open_sent|congruence].
  - rewrite Hw1, (written_app _ _ (frames new)) by done. by rewrite Hin, frames_app.
  - apply Forall_app. split; [done|]. unfold new, flushed. destruct (_ && _);
      repeat first [apply Forall_nil_2 | apply Forall_cons_2]; by destruct Hok as (? & ? & ?).
  - assert (forall bytes, calls_under_way (N ++ new) (po_deliver p bytes) ≡ₚ (tid, call) :: calls_under_way N p) as HU.
    { intros bytes. unfold calls_under_way, new, flushed. destruct (_ && _); rewrite bind_app; cbn; solve_Permutation. }
    eapply tracked_perm; [symmetry; apply HU|reflexivity|].
    eapply (tracked_issue _ _ _ _ _ _ tid call a h (cl_parked c1) Hph); try done.
    + unfold park, ClientResponse_new in Hp. destruct (cl_parked c0 !! tid) eqn:Ep; inv Hp; [done|].
      intros t' Ht. cbn. by rewrite lookup_insert_ne.
    + unfold park, ClientResponse_new in Hp. destruct (cl_parked c0 !! tid) eqn:Ep; inv Hp; [by left|by right].
Qed.

End PoolSpec.
