(* ===== verification/PoolProps.v ===== *)
(** * A client with several dispatch threads: theorems

    Concurrent synchronous operations over one connection, with the time-outs of
    the threads that wait: what each thread of the server is told, what the
    client's copy is, and that everything that is sent is dispatched and
    answered; but a cork is no barrier for the calls in the pool. *)

From stdpp Require Import base list numbers option gmap.
From Stdlib Require Import ZArith Lia.
From S2P Require Import Prelude Common Filestore Store Entries Bilog Net NetInst NetSpec Server ServerSpec NetCork NetProps Pool PoolSpec.

Local Open Scope Z_scope.

Section PoolProps.
Context {F : MsgFormat} {L : MsgFormatLaws} {C : Compressor} {D : Digest}.
Context {FB : StoreFormat BilogEntry} {FV : StoreFormat VFSCall}.
Context {FS : Type} {Pt : Parts FS} (dispatch : VFSCall -> M FS Z) {PL : PartsLaws Pt dispatch} (threads : nat).

(** The threads of the server start operations, and stop waiting, at any time. *)
Inductive system_step : system FS -> system FS -> Prop :=
| system_inner y y' : inner_step dispatch threads y y' -> system_step y y'
| system_issue tid call y y' :
    issue tid call y y' -> op_ok tid call -> answerable_call (tid, call) -> system_step y y'.

(** A synchronous client that has just connected. *)
Definition connected (fs0 : FS) (y : system FS) : Prop :=
  open_client (y_client y) /\ cl_mode (y_client y) = MODE_SYNC /\ cl_parked (y_client y) = ∅ /\
  open_conn (po_sc (y_pool y)) /\ sc_mode (po_sc (y_pool y)) = MODE_SYNC /\ sc_read (po_sc (y_pool y)) = [] /\
  po_fs (y_pool y) = fs0 /\ po_queue (y_pool y) = [] /\ po_running (y_pool y) = [] /\
  y_back y = [] /\ y_waiting y = ∅ /\ y_log y = [].

Lemma fine_idle b : fine (mk_thread [] [] None false [] [] [] [] b).
Proof. split; cbn; [done..|]. intros _. exists Idle. by unfold in_phase. Qed.

Lemma connected_ok fs0 y : connected fs0 y -> pool_ok y [] [].
Proof.
  intros (Ho & Hm & Hp & Hso & Hsm & Hr & Hf & Hq & Hru & Hb & Hw & Hl). split; try done.
  - by rewrite Hq, Hru.
  - by rewrite Hru.
  - unfold calls_under_way, codes_under_way. rewrite Hq, Hru, Hp, Hw, Hl. cbn. split; try done.
    intros t. apply fine_idle.
Qed.

(** ** What the client's copy is *)

(** No wait has ended without an answer, and no job has panicked. *)
Definition quiet (log : list event) : Prop :=
  Forall (fun e => match e with TimedOut _ | Crashed _ _ => False | _ => True end) log.

(** Threads of the server that do not get in each other's way. *)
Definition calls_apart (log : list event) : Prop :=
  forall t1 c1 t2 c2, Sent t1 c1 ∈ log -> Sent t2 c2 ∈ log -> t1 <> t2 -> independent c1 c2.

(** The dispatches that have begun and not ended. *)
Definition begun (run : list (job * (Task + Z))) : list (job * Task) :=
  omap (fun r => match r with (j, inl k) => Some (j, k) | _ => None end) run.

Definition serial_ok (fs0 : FS) (y : system FS) : Prop :=
  quiet (y_log y) -> calls_apart (y_log y) ->
  serial dispatch fs0 (all_done (y_log y)) (begun (po_running (y_pool y))) (po_fs (y_pool y)).

Lemma quiet_log log log' : quiet (log ++ log') -> quiet log.
Proof. by intros [? _]%Forall_app. Qed.

Lemma apart_log log log' : calls_apart (log ++ log') -> calls_apart log.
Proof. intros H t1 c1 t2 c2 H1 H2. apply (H t1 c1 t2 c2); apply elem_of_app; by left. Qed.

Lemma quiet_timed_out t log : quiet log -> timed_out t log = false.
Proof. unfold timed_out. induction 1 as [|e log He _ IH]; [done|]. by destruct e. Qed.

Lemma elem_of_sent t call log : call ∈ sent_by t log -> Sent t call ∈ log.
Proof.
  unfold sent_by. intros (e & He & E)%list_elem_of_omap. destruct e; try done.
  destruct (tid =? t) eqn:Et; [|done]. injection E as ->. apply Z.eqb_eq in Et. by subst.
Qed.

Lemma begun_undone run : run ≫= undone_run = (fun x => job_op (fst x)) <$> begun run.
Proof. induction run as [|[j [k|e]] run IH]; [done|cbn; by f_equal|done]. Qed.

Lemma of_tid_app {A} t (l l' : list (Z * A)) : of_tid t (l ++ l') = of_tid t l ++ of_tid t l'.
Proof. apply omap_app. Qed.

Lemma tids_once {A} (l : list (Z * A)) : (forall t, (length (of_tid t l) <= 1)%nat) -> NoDup l.*1.
Proof.
  induction l as [|[t x] l IH]; intros H; [constructor|]. cbn. apply NoDup_cons. split.
  - intros ([t' y] & -> & Hin)%list_elem_of_fmap. specialize (H t'). cbn [fst] in H. rewrite of_tid_eq in H. cbn in H.
    apply elem_of_tid in Hin. destruct (of_tid t' l); [by apply elem_of_nil in Hin|cbn in H; lia].
  - apply IH. intros t'. specialize (H t'). change ((t, x) :: l) with ([(t, x)] ++ l) in H. rewrite of_tid_app, length_app in H. lia.
Qed.

(** Of a quiet thread at most one call is under way. *)
Lemma calm_once y N B t : pool_ok y N B -> quiet (y_log y) -> (length (of_tid t (calls_under_way N (y_pool y))) <= 1)%nat.
Proof.
  intros Hok Hq. destruct (fi_calm _ (tr_fine _ _ _ _ _ _ (ok_tracked _ _ _ Hok) t)) as (p & Hc & _); [by apply quiet_timed_out|].
  cbn in Hc. rewrite Hc. destruct p; cbn; lia.
Qed.

Lemma under_way_sent y N B t call : pool_ok y N B -> (t, call) ∈ calls_under_way N (y_pool y) -> Sent t call ∈ y_log y.
Proof.
  intros Hok Hin. apply elem_of_sent. pose proof (fi_sent _ (tr_fine _ _ _ _ _ _ (ok_tracked _ _ _ Hok) t)) as Hs.
  cbn in Hs. rewrite Hs, !elem_of_app. right. right. by apply elem_of_tid.
Qed.

Lemma begun_independent y N B : pool_ok y N B -> quiet (y_log y) -> calls_apart (y_log y) -> all_independent (begun (po_running (y_pool y))).
Proof.
  intros Hok Hq Ha. split.
  - assert (NoDup (((fun x => job_op (fst x)) <$> begun (po_running (y_pool y))).*1)) as Hn.
    { rewrite <- begun_undone. apply tids_once. intros t. etrans; [|exact (calm_once y N B t Hok Hq)].
      unfold calls_under_way. rewrite !of_tid_app, !length_app. lia. }
    by rewrite <- list_fmap_compose in Hn.
  - assert (forall x, x ∈ begun (po_running (y_pool y)) -> Sent (j_tid (fst x)) (j_call (fst x)) ∈ y_log y) as Hin.
    { intros x Hx. apply (under_way_sent y N B _ _ Hok). unfold calls_under_way. rewrite !elem_of_app, begun_undone. right. right.
      by apply (list_elem_of_fmap_2 (fun x => job_op (fst x))). }
    intros x z Hx Hz Hne. eapply Ha; [by apply Hin|by apply Hin|done].
Qed.

Lemma begun_perm run run' : run ≡ₚ run' -> begun run ≡ₚ begun run'.
Proof. intros Hp. unfold begun. by rewrite Hp. Qed.

Lemma begun_app run run' : begun (run ++ run') = begun run ++ begun run'.
Proof. apply omap_app. Qed.

Lemma all_done_app log log' : all_done (log ++ log') = all_done log ++ all_done log'.
Proof. apply omap_app. Qed.

(** A step that leaves the dispatches and the copy as they are. *)
Lemma serial_same fs0 y y' log : serial_ok fs0 y -> y_log y' = y_log y ++ log -> all_done log = [] ->
  po_running (y_pool y') = po_running (y_pool y) -> po_fs (y_pool y') = po_fs (y_pool y) -> serial_ok fs0 y'.
Proof.
  intros H El Ed Er Ef. unfold serial_ok. rewrite El, Er, Ef, all_done_app, Ed, app_nil_r. intros Hq%quiet_log Ha%apart_log. by apply H.
Qed.

(** A part of a dispatch. *)
Lemma serial_advances fs0 y i j k p log N B : pool_ok y N B -> serial_ok fs0 y ->
  po_running (y_pool y) !! i = Some (j, inl k) -> pool_work i (y_pool y) = Some (p, log) -> serial_ok fs0 (y_moved y p log).
Proof.
  intros Hok Hs Ei E Hq Ha. cbn in Hq, Ha. pose proof (begun_independent _ _ _ Hok (quiet_log _ _ Hq) (apart_log _ _ Ha)) as Hi.
  specialize (Hs (quiet_log _ _ Hq) (apart_log _ _ Ha)). set (run := po_running (y_pool y)) in *.
  assert (begun run ≡ₚ (j, k) :: begun (delete i run)) as Hp by exact (begun_perm _ _ (delete_perm run i _ Ei)).
  apply (serial_perm _ _ _ _ _ _ Hp Hi) in Hs. apply (all_independent_perm _ _ Hp) in Hi.
  assert (forall r, begun (<[i := r]> run) ≡ₚ begun [r] ++ begun (delete i run)) as Hins.
  { intros r. rewrite <- begun_app. apply begun_perm. by eapply insert_perm. }
  unfold pool_work in E. fold run in E. rewrite Ei in E. destruct (advance k (po_fs (y_pool y))) as [r fs'] eqn:Ea.
  destruct r as [[k'|code]|e| |]; injection E as <- <-; cbn; [| |by apply Forall_app in Hq as [_ [[] _]%Forall_cons]..].
  - rewrite app_nil_r. pose proof (serial_part dispatch _ _ _ _ _ _ _ _ Hi Hs Ea) as Hs'.
    eapply serial_perm; [symmetry; apply Hins|by eapply all_independent_task|exact Hs'].
  - rewrite all_done_app. cbn. eapply serial_perm; [symmetry; apply Hins| |by eapply serial_done]. by eapply all_independent_tail.
Qed.

Lemma serial_inner fs0 y y' N B :
  (1 < threads)%nat -> pool_ok y N B -> serial_ok fs0 y -> inner_step dispatch threads y y' -> serial_ok fs0 y'.
Proof.
  intros Hth Hok H [Hs|Hs].
  - destruct Hs as [y p E|y p E|y i p log E|y m rest h c E Er|y tid a d h Ha E].
    + destruct (turn_ok dispatch _ _ _ _ _ Hth Hok E) as (Er & Ef & _). by eapply (serial_same fs0 y _ []).
    + destruct (start_ok dispatch _ _ _ _ _ Hok E) as (Ef & (j & Er) & _). intros Hq Ha. cbn in Hq, Ha |- *. rewrite app_nil_r in Hq, Ha |- *.
      rewrite Ef, Er, begun_app. by apply serial_start, H.
    + destruct (po_running (y_pool y) !! i) as [[j [k|e]]|] eqn:Ei.
      * by eapply serial_advances.
      * destruct (answer_ok dispatch _ _ _ _ _ _ Hok Ei) as (p' & Ep & Er & Ef & _). rewrite Ep in E. injection E as <- <-.
        intros Hq Ha. cbn in Hq, Ha |- *. rewrite app_nil_r in Hq, Ha |- *. rewrite Ef, Er.
        eapply serial_perm; [exact (begun_perm _ _ (delete_perm _ i _ Ei))|by eapply begun_independent|by apply H].
      * unfold pool_work in E. by rewrite Ei in E.
    + by eapply (serial_same fs0 y _ []); rewrite ?app_nil_r.
    + by eapply (serial_same fs0 y _ [Got tid d]).
  - destruct Hs as [y tid a Ha]. by eapply (serial_same fs0 y _ [TimedOut tid]).
Qed.

Lemma reachable_ok fs0 y0 y :
  (1 < threads)%nat -> connected fs0 y0 -> rtc system_step y0 y ->
  exists N B, pool_ok y N B /\ serial_ok fs0 y.
Proof.
  intros Hth H0 Hr. revert y Hr. apply rtc_ind_r.
  - exists [], []. split; [by eapply connected_ok|]. destruct H0 as (_ & _ & _ & _ & _ & _ & Hf & _ & Hru & _ & _ & Hl).
    unfold serial_ok. rewrite Hl, Hru, Hf. intros _ _. exists fs0. split; [done|constructor].
  - intros y1 y2 _ Hs (N & B & Hok & H). destruct Hs as [y1 y2 Hs|tid call y1 y2 Hi Hop Hf].
    + destruct (inner_step_ok dispatch threads y1 y2 N B Hth Hok Hs) as (N' & B' & H' & _). exists N', B'. split; [done|exact (serial_inner fs0 y1 y2 N B Hth Hok H Hs)].
    + destruct (issue_ok tid call y1 y2 N B Hok Hi Hop Hf) as (N' & H'). exists N', B. split; [done|].
      destruct Hi as [y1 a h c]. by eapply (serial_same fs0 y1 _ [Sent tid call]).
Qed.

(** C3. However the threads of the server, their time-outs, the main thread, the
    parts of the dispatches and the reader interleave: every call is dispatched
    at most once, and what a thread is told are codes of its own calls, each at
    most once. A thread none of whose waits has timed out has its calls
    dispatched in the order it made them and is told their codes in that order;
    when it does not wait it has been told all of them. And if nothing has timed
    out or panicked, and the calls of different threads are independent, then the
    client's copy is that of the finished calls dispatched whole, one after the
    other, followed by the parts that the others have done. *)
Theorem pool_serves_threads fs0 y0 y :
  (1 < threads)%nat -> connected fs0 y0 -> rtc system_step y0 y ->
  (forall t,
    (done_for t (y_log y)).*1 ++ crashed_for t (y_log y) ⊆+ sent_by t (y_log y) /\
    got_by t (y_log y) ⊆+ RetCode <$> (done_for t (y_log y)).*2 /\
    (timed_out t (y_log y) = false ->
     prefix (done_for t (y_log y)).*1 (sent_by t (y_log y)) /\
     prefix (got_by t (y_log y)) (RetCode <$> (done_for t (y_log y)).*2) /\
     (length (sent_by t (y_log y)) <= length (got_by t (y_log y)) + 1)%nat /\
     (y_waiting y !! t = None ->
      sent_by t (y_log y) = (done_for t (y_log y)).*1 /\ got_by t (y_log y) = RetCode <$> (done_for t (y_log y)).*2))) /\
  (quiet (y_log y) -> calls_apart (y_log y) ->
   serial dispatch fs0 (all_done (y_log y)) (begun (po_running (y_pool y))) (po_fs (y_pool y)) /\
   (begun (po_running (y_pool y)) = [] -> dispatched dispatch (all_done (y_log y)) fs0 (po_fs (y_pool y)))).
Proof.
  intros Hth H0 Hr. destruct (reachable_ok fs0 y0 y Hth H0 Hr) as (N & B & Hok & Hs). split.
  - intros t. destruct (tr_fine _ _ _ _ _ _ (ok_tracked _ _ _ Hok) t) as [H1 H2 H3 H4]. cbn in *. split.
    { rewrite H1, app_assoc. by apply submseteq_inserts_r. }
    split; [etrans; [by apply submseteq_inserts_r|exact H2]|]. intros Hq. destruct (H4 Hq) as (p & _ & _ & _ & Hw & _ & Hl). cbn in *.
    assert (y_waiting y !! t = None -> waits_in p = false) as Hidle by (intros E; rewrite <- Hw, E; by apply bool_decide_false; intros [? ?]).
    destruct p as [|call|call|code|code]; cbn in Hl, Hidle.
    + destruct Hl as [-> ->]. split_and!; [done..|rewrite !length_fmap; lia|done].
    + destruct Hl as [-> ->]. split_and!; [by apply prefix_app_r|done|rewrite length_app, !length_fmap; cbn; lia|by intros ?%Hidle].
    + destruct Hl as [-> ->]. split_and!; [by apply prefix_app_r|done|rewrite length_app, !length_fmap; cbn; lia|by intros ?%Hidle].
    + destruct Hl as (d' & call & -> & -> & ->). split_and!; [done|rewrite !fmap_app; by apply prefix_app_r|
        rewrite !length_fmap, length_app; cbn; lia|by intros ?%Hidle].
    + destruct Hl as (d' & call & -> & -> & ->). split_and!; [done|rewrite !fmap_app; by apply prefix_app_r|
        rewrite !length_fmap, length_app; cbn; lia|by intros ?%Hidle].
  - intros Hq Ha. pose proof (Hs Hq Ha) as Hser. split; [done|]. intros E. rewrite E in Hser.
    destruct Hser as (fsd & Hd & Hc). by inversion Hc; subst.
Qed.

(** ** Progress *)

(** Nothing is on its way, and a thread that waits waits for a call whose job
    has panicked, or has lost one before. *)
Record settled (y : system FS) : Prop := {
  se_in : sc_read (po_sc (y_pool y)) = [];
  se_queue : po_queue (y_pool y) = [];
  se_running : po_running (y_pool y) = [];
  se_back : y_back y = [];
  se_sent : forall t, sent_by t (y_log y) ≡ₚ (done_for t (y_log y)).*1 ++ crashed_for t (y_log y);
  se_waiting : forall t a, y_waiting y !! t = Some a -> y_cells y !! a = Some None /\ crashed_for t (y_log y) <> [];
  se_told : forall t, timed_out t (y_log y) = false -> crashed_for t (y_log y) = [] ->
    (done_for t (y_log y)).*1 = sent_by t (y_log y) /\ got_by t (y_log y) = RetCode <$> (done_for t (y_log y)).*2 }.

Lemma settles y : pool_ok y [] [] -> po_queue (y_pool y) = [] -> po_running (y_pool y) = [] ->
  (forall t a, y_waiting y !! t = Some a -> y_cells y !! a = Some None) -> settled y.
Proof.
  intros Hok Hq Hr Hcells. pose proof (ok_tracked _ _ _ Hok) as Ht. unfold calls_under_way, codes_under_way in Ht. rewrite Hq, Hr in Ht. cbn in Ht.
  assert (forall t a, y_waiting y !! t = Some a -> cell_at (y_cells y) (cl_parked (y_client y)) t = None) as Hcell.
  { intros t a Ha. unfold cell_at. rewrite (tr_park _ _ _ _ _ _ Ht t a Ha). cbn. by rewrite (Hcells t a Ha). }
  split; [exact (ok_in _ _ _ Hok)|done|done|exact (ok_back _ _ _ Hok)|..]; intros t; destruct (tr_fine _ _ _ _ _ _ Ht t) as [H1 H2 H3 H4]; cbn in *.
  - by rewrite app_nil_r in H1.
  - intros a Ha. split; [by eapply Hcells|]. intros Hk. rewrite (Hcell t a Ha) in H3.
    destruct H3 as [H|[H|H]]; [apply bool_decide_true; by eexists|done..].
  - intros Hto Hk. destruct (H4 Hto) as (p & Hc & Hco & Hce & Hw & Hcr & Hl). cbn in *. rewrite Hk in Hcr.
    destruct p as [|call|call|code|code]; cbn in *; try done; [by destruct Hl as [-> ->]|].
    symmetry in Hw. symmetry in Hw. apply bool_decide_eq_true in Hw as [a Ha]. by rewrite (Hcell t a Ha) in Hce.
Qed.

(** Either the client, the connection or a thread that was answered can take a
    step, or nothing is left to do. *)
Lemma moves_or_settled y N B :
  (1 < threads)%nat -> pool_ok y N B -> (exists y', prompt_step dispatch threads y y') \/ settled y.
Proof.
  intros Hth Hok. pose proof Hok as [Hc [Ho Hm] Hin Hmsgs Hb Hack _ Hph].
  destruct (po_running (y_pool y)) as [|[j [k|e]] run] eqn:Erun.
  2: { left. destruct (part_ok dispatch y 0 j k N B Hok) as (p & log & Ep & _); [by rewrite Erun|]. eexists. by eapply step_work. }
  2: { left. destruct (answer_ok dispatch y 0 j e N B Hok) as (p & Ep & _); [by rewrite Erun|]. eexists. by eapply step_work. }
  destruct (po_queue (y_pool y)) as [|j q] eqn:Eq.
  2: { left. eexists. apply step_start. unfold pool_start. rewrite Eq, Erun. by rewrite (proj2 (Nat.ltb_lt _ _)) by (cbn; lia). }
  destruct N as [|m N].
  2: { left. assert (exists p, pool_turn dispatch threads (y_pool y) = (Ok tt, p)) as [p Ep]; [|eexists; by apply step_turn].
    apply Forall_cons in Hmsgs as [[Hs Hop] _]. destruct threads as [|[|n]]; [lia..|].
    destruct y as [h c [sc fs q' run'] back wt log]. cbn in *.
    destruct (read_msg_frame sc m (frames N)) as (rcv & Er); [apply Ho|exact Hin|done|].
    unfold pool_turn, on_main, on_conn. munfold. cbn. rewrite Er. destruct m; try done; cbn; [|by eexists].
    unfold execute, modify. munfold. cbn. rewrite Hm.
    repeat first [rewrite bool_decide_true by done | rewrite bool_decide_false by done]. by eexists. }
  destruct B as [|tc B].
  2: { left. assert (de_msg (y_back y) = Some (ack_entry tc, (ack_entry <$> B) ≫= ser_msg)) as Ed.
    { rewrite Hb, fmap_cons, bind_cons. apply law_msg. pose proof (tr_ok _ _ _ _ _ _ Hph) as Hf.
      unfold codes_under_way in Hf. apply Forall_app in Hf as [_ Hf]. by apply Forall_cons in Hf as [Hf _]. }
    destruct (reader_step_ok dispatch _ _ _ _ _ Hok Ed) as (tc' & B' & h & _ & Er & _). eexists. by eapply step_reader. }
  destruct (decide (map_Exists (fun _ a => is_Some (mjoin (y_cells y !! a))) (y_waiting y))) as [(t & a & Ha & d & Hd)|Hno].
  - left. destruct (y_cells y !! a) as [[d'|]|] eqn:Ea; try done.
    destruct (wake_ok dispatch y t a d' [] [] Hok Ha Ea) as (h & Ew & _). eexists. by eapply step_wake.
  - right. apply settles; try done. intros t a Ha.
    destruct (tr_cell _ _ _ _ _ _ Hph t a (tr_park _ _ _ _ _ _ Hph t a Ha)) as [[d|] Hd]; [|done].
    exfalso. apply Hno. exists t, a. rewrite Hd. split; [done|by eexists].
Qed.

Lemma inner_terminates : forall n y N B,
  (1 < threads)%nat -> pool_ok y N B -> (cost dispatch y N B < n)%nat -> Acc (flip (inner_step dispatch threads)) y.
Proof.
  induction n as [|n IH]; intros y N B Hth Hok Hn; [lia|]. constructor. intros y' Hs.
  destruct (inner_step_ok dispatch _ _ _ _ _ Hth Hok Hs) as (N' & B' & Hok' & Hlt). apply (IH y' N' B'); [done..|lia].
Qed.

Lemma inner_reachable y y' : rtc (inner_step dispatch threads) y y' -> rtc system_step y y'.
Proof. intros Hr. induction Hr as [|y1 y2 y3 Hs _ IH]; [done|]. eapply rtc_l; [by apply system_inner|done]. Qed.

Lemma prompt_settles y N B :
  (1 < threads)%nat -> pool_ok y N B -> Acc (flip (inner_step dispatch threads)) y ->
  exists y', rtc (prompt_step dispatch threads) y y' /\ settled y'.
Proof.
  intros Hth Hok Hacc. revert N B Hok. induction Hacc as [y _ IH]. intros N B Hok.
  destruct (moves_or_settled y N B Hth Hok) as [(y1 & Hs)|Hs]; [|by exists y].
  destruct (inner_step_ok dispatch _ _ _ _ _ Hth Hok (or_introl Hs)) as (N1 & B1 & Hok1 & _).
  destruct (IH y1 (or_introl Hs) N1 B1 Hok1) as (y2 & Hr2 & H2). exists y2. split; [by eapply rtc_l|done].
Qed.

(** C4. From any reachable state the steps of the client and the connection, with
    the time-outs of the threads, come to an end whatever their order. As long as
    a message, a job or an answer is on its way, or an answer is there for a
    thread that waits, a step is possible that is not a time-out; without any
    time-out the system settles: every call has been dispatched to the end or
    its job has panicked, a thread that still waits has lost a job, and one that
    never timed out and lost none has been told the codes of all its calls. *)
Theorem pool_no_deadlock fs0 y0 y :
  (1 < threads)%nat -> connected fs0 y0 -> rtc system_step y0 y ->
  Acc (flip (inner_step dispatch threads)) y /\
  (forall y', rtc (inner_step dispatch threads) y y' -> (exists y'', prompt_step dispatch threads y' y'') \/ settled y') /\
  exists y', rtc (prompt_step dispatch threads) y y' /\ settled y'.
Proof.
  intros Hth H0 Hr. destruct (reachable_ok fs0 y0 y Hth H0 Hr) as (N & B & Hok & _).
  assert (Acc (flip (inner_step dispatch threads)) y) as Hacc by (eapply inner_terminates; [done..|apply Nat.lt_succ_diag_r]).
  split; [done|]. split; [|by eapply prompt_settles].
  intros y' Hr'. destruct (reachable_ok fs0 y0 y' Hth H0) as (N' & B' & Hok' & _); [etrans; [exact Hr|by apply inner_reachable]|].
  by eapply moves_or_settled.
Qed.

(** With one thread the loop is the one of [process_ops]. *)
Lemma pool_one_thread p :
  (threads <= 1)%nat ->
  pool_turn dispatch threads p = on_main (msg ← on_conn read_msg; process_msg dispatch msg) p.
Proof.
  intros Ht. unfold pool_turn, on_main. munfold. destruct (on_conn read_msg (po_sc p, po_fs p)) as [[m| | |] [sc fs]]; try done.
  destruct threads as [|[|?]]; [by destruct m..|lia].
Qed.

(** A cork does not wait for the pool: a call that the server sent before
    the cork can still be in the queue, not dispatched, when the client
    acknowledges the cork. *)
Theorem pool_cork_overtakes call tid ctid p :
  (1 < threads)%nat -> open_conn (po_sc p) ->
  sendable (Msg_SyncOp call tid) -> sendable (Msg_Cork ctid) ->
  sc_read (po_sc p) = frames [Msg_SyncOp call tid; Msg_Cork ctid] ->
  exists p', (_ ← pool_turn dispatch threads; pool_turn dispatch threads) p = (Ok tt, p') /\
    (exists j, po_queue p' = po_queue p ++ [j] /\ j_call j = call) /\
    po_running p' = po_running p /\ po_fs p' = po_fs p /\
    exists acks, st_out (sc_write (po_sc p')) = st_out (sc_write (po_sc p)) ++ acks ++ ser_msg (Msg_AckCork ctid).
Proof.
  intros Hth Ho Hs Hk Hin. destruct threads as [|[|n]]; [lia..|]. clear Hth. destruct p as [sc fs q run]. cbn in *.
  destruct (read_msg_frame sc (Msg_SyncOp call tid) (frames [Msg_Cork ctid])) as (rcv & Er); [apply Ho|exact Hin|done|].
  set (sc1 := sc_left sc (frames [Msg_Cork ctid]) rcv).
  assert (open_conn sc1) as Ho1 by (by destruct Ho).
  set (acks := if bool_decide (sc_mode sc = MODE_SEMISYNC) then [Msg_Ack (mk_AckMsg Ack tid)] else []).
  assert (exists sc2 j, pool_turn dispatch (S (S n)) (mk_Pooled sc fs q run) = (Ok tt, mk_Pooled sc2 fs (q ++ [j]) run) /\
    j_call j = call /\ open_conn sc2 /\ sc_read sc2 = frames [Msg_Cork ctid] /\
    st_out (sc_write sc2) = st_out (sc_write sc) ++ (acks ≫= ser_msg)) as (sc2 & j & E1 & Hj & Ho2 & Hr2 & Hw2).
  { unfold pool_turn, on_main, on_conn. munfold. cbn. rewrite Er. cbn. unfold execute, on_main, on_conn. munfold. cbn.
    change (sc_mode sc1) with (sc_mode sc). unfold acks. case_bool_decide; cbn.
    - rewrite send_msg_ok by done. cbn. eexists (sc_wrote sc1 _), _. split; [reflexivity|]. split_and!; try done. by destruct Ho1.
    - eexists sc1, _. split; [reflexivity|]. split_and!; try done. cbn. by rewrite app_nil_r. }
  unfold mbind, M_bind. rewrite E1. cbn in E1. unfold pool_turn, on_main, on_conn. munfold. cbn.
  destruct (read_msg_frame sc2 (Msg_Cork ctid) []) as (rcv2 & Er2); [apply Ho2|exact Hr2|done|]. rewrite Er2. cbn -[send_msg].
  unfold on_main, process_msg, on_conn. munfold. cbn -[send_msg]. rewrite send_msg_ok by (by destruct Ho2). cbn.
  eexists. split; [reflexivity|]. cbn. split; [by exists j|]. split; [done|]. split; [done|].
  exists (acks ≫= ser_msg). rewrite Hw2. by rewrite app_nil_r, <- app_assoc.
Qed.

End PoolProps.

(** ** Two threads and one pool *)
#[local] Existing Instances demo_msgs demo_laws demo_compressor demo_digest demo_bilogs demo_vfscalls.

(** A dispatch that counts twice, with anything in between. *)
Definition count_part (k : bool) : M Z (bool + Z) := fun n => (Ok (if k then inr (-2) else inl true), n + 1).
Definition count_dispatch (call : VFSCall) : M Z Z := fun n => (Ok (-2), n + 2).
#[local] Instance count_parts : Parts Z := {| Task := bool; begin _ := false; advance := count_part |}.
#[local] Instance count_laws : PartsLaws count_parts count_dispatch.
Proof.
  refine {| task_size (k : @Task _ count_parts) := if (k : bool) then 0%nat else 1%nat |}.
  - intros call fs code fs'. unfold count_dispatch. split.
    + intros Hf. inversion Hf as [? ? ? ? E|? ? ? ? ? ? E Hf']; subst; [done|]. injection E as <- <-.
      inversion Hf' as [? ? ? ? E'|? ? ? ? ? ? E' _]; subst; [|done]. injection E' as <- <-. f_equal. lia.
    + intros [= <- <-]. eapply finishes_next; [reflexivity|]. apply finishes_last. cbn. unfold count_part. f_equal. lia.
  - intros [] fs k' fs' E; cbn in *; unfold count_part in E; [done|]. injection E as <- <-. lia.
Qed.

Lemma count_independent c1 c2 : independent c1 c2.
Proof.
  intros k1 k2 fs r1 fs1 r2 fs2 _ _ E1 E2. cbn in *. unfold count_part in *. injection E1 as <- <-. injection E2 as <- <-. by eexists.
Qed.

Lemma count_answerable tid call : 0 <= tid < 2 ^ 64 -> answerable_call (tid, call).
Proof.
  intros Ht k fs code fs' _ E. cbn in *. unfold count_part in E. destruct k; [|done]. injection E as <- <-.
  apply (ack_code_ok demo_calls); [lia|done].
Qed.

Definition demo_pooled : Pooled Z := mk_Pooled (demo_conn []) 0 [] [].
Definition demo_system : system Z := mk_system [] demo_client demo_pooled [] ∅ [].

(** What a step makes of the system when its turn comes. *)
Definition issued (tid : Z) (call : VFSCall) (a : nat) (y : system Z) : system Z :=
  let hc := snd (send_op tid call (y_cells y, y_client y)) in
  mk_system (fst hc) (snd hc) (po_deliver (y_pool y) (written (cl_write (y_client y)) (cl_write (snd hc))))
    (y_back y) (<[tid := a]> (y_waiting y)) (y_log y ++ [Sent tid call]).
Definition turned (y : system Z) : system Z := y_moved y (snd (pool_turn count_dispatch 2 (y_pool y))) [].
Definition started (y : system Z) : system Z := y_moved y (default (y_pool y) (pool_start 2 (y_pool y))) [].
Definition worked (i : nat) (y : system Z) : system Z :=
  match pool_work i (y_pool y) with Some (p, log) => y_moved y p log | None => y end.
Definition gave_up (tid : Z) (y : system Z) : system Z :=
  mk_system (y_cells y) (y_client y) (y_pool y) (y_back y) (delete tid (y_waiting y)) (y_log y ++ [TimedOut tid]).

Abbreviation demo_step := (system_step count_dispatch 2).

Lemma issued_ok tid call a y :
  y_waiting y !! tid = None -> fst (send_op tid call (y_cells y, y_client y)) = Ok (Some a) ->
  (tid, call) ∈ [(1, unlink demo_path); (2, fsync demo_path 0)] -> demo_step y (issued tid call a y).
Proof.
  intros Hw E Hin. apply (system_issue _ _ tid call).
  - unfold issued. destruct (send_op tid call (y_cells y, y_client y)) as [r [h c]] eqn:Es. cbn in E. subst r.
    by apply (issue_intro tid call y a h c).
  - apply demo_op_ok. rewrite !elem_of_cons in Hin |- *. destruct Hin as [->|[->|Hin]]; [by left|by right; right; left|by apply elem_of_nil in Hin].
  - apply count_answerable. rewrite !elem_of_cons in Hin. destruct Hin as [[= -> ->]|[[= -> ->]|Hin]]; [lia..|by apply elem_of_nil in Hin].
Qed.

Lemma turned_ok y : fst (pool_turn count_dispatch 2 (y_pool y)) = Ok tt -> demo_step y (turned y).
Proof.
  intros E. unfold turned. destruct (pool_turn count_dispatch 2 (y_pool y)) as [r p] eqn:Ep. cbn in E. subst r.
  apply system_inner. left. by apply step_turn.
Qed.

Lemma started_ok y : is_Some (pool_start 2 (y_pool y)) -> demo_step y (started y).
Proof. intros [p E]. unfold started. rewrite E. apply system_inner. left. by apply step_start. Qed.

Lemma worked_ok i y : is_Some (pool_work i (y_pool y)) -> demo_step y (worked i y).
Proof. intros [[p log] E]. unfold worked. rewrite E. apply system_inner. left. by eapply step_work. Qed.

Lemma gave_up_ok tid a y : y_waiting y !! tid = Some a -> demo_step y (gave_up tid y).
Proof. intros E. apply system_inner. right. by eapply step_timeout. Qed.

Definition demo_sent : system Z := issued 2 (fsync demo_path 0) 1 (issued 1 (unlink demo_path) 0 demo_system).

(** Both are dispatched at the same time; the first one has ended. *)
Definition demo_busy : system Z := worked 0 (worked 1 (worked 0 (started (started (turned (turned demo_sent)))))).

(** The first one gives up while its call is in the pool. *)
Definition demo_late : system Z := gave_up 1 (turned demo_sent).

Lemma demo_connected : connected 0 demo_system.
Proof. by split_and!. Qed.

Lemma demo_sent_reachable : rtc demo_step demo_system demo_sent.
Proof.
  eapply rtc_l; [|apply rtc_once]; apply issued_ok; try (vm_compute; reflexivity);
    rewrite !elem_of_cons; [by left|by right; left].
Qed.

Lemma demo_busy_reachable : rtc demo_step demo_system demo_busy.
Proof.
  etrans; [exact demo_sent_reachable|].
  eapply rtc_l; [apply turned_ok; vm_compute; reflexivity|]. eapply rtc_l; [apply turned_ok; vm_compute; reflexivity|].
  eapply rtc_l; [apply started_ok; vm_compute; by eexists|]. eapply rtc_l; [apply started_ok; vm_compute; by eexists|].
  eapply rtc_l; [apply (worked_ok 0); vm_compute; by eexists|]. eapply rtc_l; [apply (worked_ok 1); vm_compute; by eexists|].
  apply rtc_once. apply (worked_ok 0). vm_compute. by eexists.
Qed.

Lemma demo_late_reachable : rtc demo_step demo_system demo_late.
Proof.
  etrans; [exact demo_sent_reachable|]. eapply rtc_l; [apply turned_ok; vm_compute; reflexivity|].
  apply rtc_once. apply (gave_up_ok 1 0). vm_compute. reflexivity.
Qed.

Lemma demo_busy_log : y_log demo_busy = [Sent 1 (unlink demo_path); Sent 2 (fsync demo_path 0); Done 1 (unlink demo_path) (-2)].
Proof. vm_compute. reflexivity. Qed.

Lemma pool_serves_threads_witness :
  prefix (done_for 1 (y_log demo_busy)).*1 [unlink demo_path] /\
  serial count_dispatch 0 [(unlink demo_path, -2)] (begun (po_running (y_pool demo_busy))) 3 /\
  length (begun (po_running (y_pool demo_busy))) = 1%nat.
Proof.
  destruct (pool_serves_threads count_dispatch 2 0 demo_system demo_busy
    ltac:(lia) demo_connected demo_busy_reachable) as [Ht Hs].
  split; [exact (proj1 (proj2 (proj2 (Ht 1)) eq_refl))|]. split; [|vm_compute; reflexivity].
  refine (proj1 (Hs _ _)).
  - rewrite demo_busy_log. repeat constructor.
  - intros t1 c1 t2 c2 _ _ _. apply count_independent.
Defined.

Lemma pool_no_deadlock_witness :
  timed_out 1 (y_log demo_late) = true /\
  exists y', rtc (prompt_step count_dispatch 2) demo_late y' /\ settled y'.
Proof.
  split; [vm_compute; reflexivity|].
  destruct (pool_no_deadlock count_dispatch 2 0 demo_system demo_late
    ltac:(lia) demo_connected demo_late_reachable) as (_ & _ & H). exact H.
Defined.

Lemma pool_cork_overtakes_witness :
  exists p', (_ ← pool_turn count_dispatch 2; pool_turn count_dispatch 2)
      (mk_Pooled (demo_conn (frames [Msg_SyncOp (unlink demo_path) 1; Msg_Cork 3])) 0 [] []) = (Ok tt, p') /\
    po_fs p' = 0 /\ length (po_queue p') = 1%nat.
Proof.
  destruct (pool_cork_overtakes count_dispatch 2 (unlink demo_path) 1 3
    (mk_Pooled (demo_conn (frames [Msg_SyncOp (unlink demo_path) 1; Msg_Cork 3])) 0 [] []))
    as (p' & E & (j & Hq & _) & _ & Hf & _).
  - lia.
  - by split.
  - apply demo_sendable. set_solver.
  - apply demo_sendable. set_solver.
  - reflexivity.
  - exists p'. split; [exact E|]. split; [exact Hf|]. rewrite Hq. reflexivity.
Defined.
