(* ===== verification/Hash.v ===== *)
(** * The checksum of a tree: [hash_metadata] of [fsyncd/src/common/mod.rs]

    Client and server compare a hash of the metadata of their trees when they
    connect. [walkdir] yields a directory before what is in it and, as it is
    called here, the entries of a directory sorted by name, whatever order the
    file system lists them in. The standard library's [DefaultHasher] is a
    parameter; an item is what one [Hash::hash] of the source feeds it. *)

From stdpp Require Import base list sorting strings.
From Stdlib Require Import ZArith Lia.
From S2P Require Import Prelude.

Local Open Scope Z_scope.

(** ** Trees *)
Definition S_IFMT : Z := 61440.
Definition S_IFDIR : Z := 16384.

(** What is hashed of [Metadata]; the mode has the type of the file in it. *)
Record metadata := mk_metadata { md_mode : Z; md_len : Z; md_uid : Z; md_gid : Z }.

Definition md_is_dir (m : metadata) : bool := Z.land (md_mode m) S_IFMT =? S_IFDIR.

(** A file: its type, the result of [lstat], whether it cannot be listed, and
    what is in it in the order of the file system. *)
Inductive node := Node (ftype : Z) (meta : outcome metadata) (unlisted : option io_error) (kids : list (string * node)).

(** [walkdir::DirEntry] with the path below the root. *)
Record entry := mk_entry { e_path : list string; e_type : Z; e_meta : outcome metadata }.

(** [sort_by] on the file names. *)
Definition by_name {A} (a b : string * A) : Prop := String.le (fst a) (fst b).
#[export] Instance by_name_dec {A} : RelDecision (@by_name A).
Proof. intros a b. unfold by_name. apply _. Defined.
#[export] Instance by_name_trans {A} : Transitive (@by_name A).
Proof. intros [a ?] [b ?] [c ?]. unfold by_name. cbn. by etrans. Qed.
#[export] Instance by_name_total {A} : Total (@by_name A).
Proof. intros [a ?] [b ?]. unfold by_name. cbn. apply (total String.le). Qed.

Fixpoint walk (rel : list string) (n : node) : list (outcome entry) :=
  match n with
  | Node ft meta unlisted kids =>
    Ok (mk_entry rel ft meta) ::
      (if ft =? S_IFDIR then
         match unlisted with
         | Some e => [Err e]
         | None => mjoin (snd <$> merge_sort by_name ((fun k => (fst k, walk (rel ++ [fst k]) (snd k))) <$> kids))
         end
       else [])
  end.

(** ** The hash *)
Inductive hash_item :=
| HashPath (p : list string)
| HashFileType (t : Z)
| HashU32 (z : Z)
| HashU64 (z : Z).

Class Hasher := {
  hasher : Type;
  hasher_new : hasher;
  hasher_feed : hash_item -> hasher -> hasher;
  hasher_finish : hasher -> Z }.

Section Hash.
Context {H : Hasher}.

(** The body of the loop, for an entry that is not skipped. *)
Definition hash_entry (e : entry) (stat : metadata) (h : hasher) : hasher :=
  let h := hasher_feed (HashPath (e_path e)) h in
  let h := hasher_feed (HashFileType (e_type e)) h in
  let h := hasher_feed (HashU32 (md_mode stat)) h in
  let h := if md_is_dir stat then h else hasher_feed (HashU64 (md_len stat)) h in
  let h := hasher_feed (HashU32 (md_uid stat)) h in
  hasher_feed (HashU32 (md_gid stat)) h.

Fixpoint hash_entries (l : list (outcome entry)) (h : hasher) : outcome hasher :=
  match l with
  | [] => Ok h
  | e :: l =>
    e ← e;
    stat ← e_meta e;
    if bool_decide (e_path e = []) && md_is_dir stat then hash_entries l h
    else hash_entries l (hash_entry e stat h)
  end.

Definition hash_metadata (root : node) : outcome Z :=
  hasher_finish <$> hash_entries (walk [] root) hasher_new.

End Hash.

(** ** The entries of a tree, in any order *)

(** What the hash sees of an entry. *)
Definition key : Type := list string * (Z * Z * Z * Z * Z).

Definition key_of (e : entry) (m : metadata) : key :=
  (e_path e, (e_type e, md_mode m, if md_is_dir m then 0 else md_len m, md_uid m, md_gid m)).

Definition visible (e : outcome entry) : option key :=
  match e with
  | Ok (mk_entry p ft (Ok m)) =>
    if bool_decide (p = []) && md_is_dir m then None else Some (key_of (mk_entry p ft (Ok m)) m)
  | _ => None
  end.

(** The entries in the order of the file system. *)
Fixpoint listing (rel : list string) (n : node) : list (outcome entry) :=
  match n with
  | Node ft meta unlisted kids =>
    Ok (mk_entry rel ft meta) ::
      (if ft =? S_IFDIR then
         match unlisted with
         | Some e => [Err e]
         | None => mjoin ((fun k => listing (rel ++ [fst k]) (snd k)) <$> kids)
         end
       else [])
  end.

(** Every entry can be read, and names are not repeated in a directory. *)
Definition readable (e : outcome entry) : Prop := exists p ft m, e = Ok (mk_entry p ft (Ok m)).

Fixpoint unique_names (n : node) : Prop :=
  match n with
  | Node _ _ _ kids => NoDup kids.*1 /\ foldr (fun k P => unique_names (snd k) /\ P) True kids
  end.

Lemma node_rect' (P : node -> Prop) :
  (forall ft meta u kids, Forall (fun k => P (snd k)) kids -> P (Node ft meta u kids)) -> forall n, P n.
Proof.
  intros IH. fix go 1. intros [ft meta u kids]. apply IH.
  induction kids as [|k kids IHk]; constructor; [apply go|apply IHk].
Qed.

Lemma unique_kids ft meta u kids : unique_names (Node ft meta u kids) -> NoDup kids.*1 /\ Forall (fun k => unique_names (snd k)) kids.
Proof.
  intros [Hn Hk]. split; [done|]. clear Hn. induction kids as [|k kids IH]; [constructor|]. destruct Hk. constructor; auto.
Qed.

Lemma mjoin_perm {A} (l l' : list (list A)) : l ≡ₚ l' -> mjoin l ≡ₚ mjoin l'.
Proof.
  induction 1; cbn; [done|by f_equiv|by rewrite !app_assoc, (Permutation_app_comm y x)|by etrans].
Qed.

Lemma walk_perm n : forall rel, walk rel n ≡ₚ listing rel n.
Proof.
  induction n as [ft meta u kids IH] using node_rect'. intros rel. cbn. f_equiv. destruct (ft =? S_IFDIR); [|done].
  destruct u; [done|].
  rewrite (mjoin_perm _ _ (fmap_Permutation snd _ _ (merge_sort_Permutation by_name _))).
  rewrite <- list_fmap_compose. induction IH as [|k kids Hk _ IHk]; [done|]. cbn. by rewrite Hk, IHk.
Qed.

(** ** The order of the walk *)

(** Component by component; a directory before what is in it. *)
Fixpoint path_lt (a b : list string) : Prop :=
  match a, b with
  | [], _ :: _ => True
  | x :: a, y :: b => (x <> y /\ String.le x y) \/ (x = y /\ path_lt a b)
  | _, _ => False
  end.

Lemma path_lt_irrefl a : ~ path_lt a a.
Proof. induction a as [|x a IH]; cbn; [by intros []|]. intros [[Hne _]|[_ Hlt]]; [by apply Hne|by apply IH]. Qed.

Lemma path_lt_asymm a : forall b, path_lt a b -> ~ path_lt b a.
Proof.
  induction a as [|x a IH]; intros [|y b]; cbn; try (by intros []); try by intros _ [].
  intros [[Hne Hle]|[-> Hlt]] [[Hne' Hle']|[He Hlt']]; [|by subst y|done|by eapply IH].
  by apply Hne, (anti_symm String.le).
Qed.

Lemma path_lt_prefix rel a : path_lt rel (rel ++ a) <-> a <> [].
Proof.
  induction rel as [|x rel IH]; cbn; [by destruct a|]. rewrite IH. split; [|by right]. intros [[? _]|[_ ?]]; done.
Qed.

Lemma path_lt_app rel a b : path_lt a b -> path_lt (rel ++ a) (rel ++ b).
Proof. induction rel as [|x rel IH]; [done|]. intros Hlt. cbn. right. split; [done|by apply IH]. Qed.

Definition entry_path (e : outcome entry) : list string := match e with Ok e => e_path e | _ => [] end.

Definition key_lt (a b : key) : Prop := path_lt (fst a) (fst b).

#[export] Instance key_lt_anti : AntiSymm (=) key_lt.
Proof. intros a b H1 H2. by destruct (path_lt_asymm _ _ H1). Qed.

Definition walk_lt (a b : outcome entry) : Prop := path_lt (entry_path a) (entry_path b).

Definition below (rel : list string) (e : outcome entry) : Prop := exists a, entry_path e = rel ++ a.

Lemma sorted_app {A} (R : A -> A -> Prop) l1 l2 :
  StronglySorted R l1 -> StronglySorted R l2 -> (forall x y, x ∈ l1 -> y ∈ l2 -> R x y) -> StronglySorted R (l1 ++ l2).
Proof.
  intros H1 H2 Hc. induction H1 as [|x l1 _ IH Hx]; [done|]. cbn. constructor.
  - apply IH. intros ? ? ? ?. apply Hc; [by right|done].
  - apply Forall_app. split; [done|]. apply Forall_forall. intros y Hy. apply Hc; [by left|done].
Qed.

(** Blocks for different names, in the order of the names. *)
Lemma blocks_sorted rel (l : list (string * list (outcome entry))) :
  StronglySorted by_name l -> NoDup l.*1 ->
  Forall (fun b => StronglySorted walk_lt (snd b) /\ Forall (below (rel ++ [fst b])) (snd b)) l ->
  StronglySorted walk_lt (mjoin (snd <$> l)).
Proof.
  intros Hs Hn Hb. induction Hs as [|[s b] l _ IH Hx]; [constructor|].
  apply NoDup_cons in Hn as [Hnot Hn]. apply Forall_cons in Hb as [[Hb1 Hb2] Hb]. cbn.
  apply sorted_app; [done|by apply IH|]. intros x y Hin1 Hin2. cbn in *.
  rewrite Forall_forall in Hb2. destruct (Hb2 x Hin1) as [a Ha].
  apply list_elem_of_join in Hin2 as (b' & Hy & Hin2). apply list_elem_of_fmap in Hin2 as ([s' b''] & -> & Hin2). cbn in Hy.
  rewrite Forall_forall in Hb. destruct (Hb _ Hin2) as [_ Hb']. rewrite Forall_forall in Hb'. destruct (Hb' y Hy) as [a' Ha'].
  rewrite Forall_forall in Hx. pose proof (Hx _ Hin2) as Hle. unfold by_name in Hle. cbn in Hle, Ha'.
  unfold walk_lt. rewrite Ha, Ha', <- !app_assoc. apply path_lt_app. left. split; [|done].
  intros ->. apply Hnot. apply list_elem_of_fmap. by exists (s', b'').
Qed.

Lemma walk_sorted n : forall rel,
  unique_names n -> Forall readable (listing rel n) ->
  StronglySorted walk_lt (walk rel n) /\ Forall (below rel) (walk rel n).
Proof.
  induction n as [ft meta u kids IH] using node_rect'. intros rel Hu Hr. apply unique_kids in Hu as [Hn Hk].
  cbn in Hr |- *. apply Forall_cons in Hr as [_ Hr].
  assert (below rel (Ok (mk_entry rel ft meta))) as Hroot by (exists []; cbn; by rewrite app_nil_r).
  destruct (ft =? S_IFDIR); [|repeat constructor; done].
  destruct u as [e|]; [apply Forall_cons in Hr as [(? & ? & ? & ?) _]; done|].
  set (blocks := merge_sort by_name ((fun k => (fst k, walk (rel ++ [fst k]) (snd k))) <$> kids)).
  assert (blocks ≡ₚ (fun k => (fst k, walk (rel ++ [fst k]) (snd k))) <$> kids) as Hp by apply merge_sort_Permutation.
  assert (Forall (fun b => StronglySorted walk_lt (snd b) /\ Forall (below (rel ++ [fst b])) (snd b)) blocks) as Hb.
  { rewrite Hp. apply Forall_fmap, Forall_forall. intros k Hin. cbn.
    rewrite Forall_forall in IH, Hk. rewrite Forall_forall in Hr. apply IH; [done|by apply Hk|]. apply Forall_forall. intros e He.
    apply Hr, list_elem_of_join. exists (listing (rel ++ [fst k]) (snd k)). split; [done|].
    apply list_elem_of_fmap. by exists k. }
  assert (StronglySorted walk_lt (mjoin (snd <$> blocks))) as Hs.
  { apply (blocks_sorted rel); [|rewrite Hp, <- list_fmap_compose; done|done].
    apply StronglySorted_merge_sort; apply _. }
  assert (Forall (fun e => exists s a, entry_path e = rel ++ s :: a) (mjoin (snd <$> blocks))) as Hd.
  { apply Forall_join, Forall_fmap. eapply Forall_impl; [exact Hb|]. intros [s b] [_ Hb']. cbn in *.
    eapply Forall_impl; [exact Hb'|]. intros e [a Ha]. exists s, a. by rewrite Ha, <- app_assoc. }
  split.
  - constructor; [done|]. eapply Forall_impl; [exact Hd|]. intros e (s & a & He). unfold walk_lt. rewrite He. cbn.
    by apply path_lt_prefix.
  - constructor; [done|]. eapply Forall_impl; [exact Hd|]. intros e (s & a & He). by exists (s :: a).
Qed.

(** ** The hash as a function of what is visible *)
Section Visible.
Context {H : Hasher}.

Definition hash_key (h : hasher) (k : key) : hasher :=
  match k with
  | (p, (ft, mode, len, uid, gid)) =>
    let m := mk_metadata mode len uid gid in hash_entry (mk_entry p ft (Ok m)) m h
  end.

Lemma hash_key_of e m h : hash_entry e m h = hash_key h (key_of e m).
Proof.
  destruct e as [p ft me], m as [mode len uid gid]. unfold hash_key, key_of, hash_entry, md_is_dir. cbn.
  by destruct (Z.land mode S_IFMT =? S_IFDIR).
Qed.

Lemma hash_entries_visible l : forall h,
  Forall readable l -> hash_entries l h = Ok (foldl hash_key h (omap visible l)).
Proof.
  induction l as [|e l IH]; intros h Hr; [done|]. apply Forall_cons in Hr as [(p & ft & m & ->) Hr].
  cbn. destruct (bool_decide (p = []) && md_is_dir m); [by apply IH|]. cbn. rewrite IH by done. by rewrite hash_key_of.
Qed.

Lemma visible_sorted l : StronglySorted walk_lt l -> Forall readable l -> StronglySorted key_lt (omap visible l).
Proof.
  intros Hs Hr. induction Hs as [|e l _ IH Hx]; [constructor|]. apply Forall_cons in Hr as [(p & ft & m & ->) Hr].
  cbn. destruct (_ && _); [by apply IH|]. constructor; [by apply IH|]. apply Forall_forall. intros k Hk.
  apply list_elem_of_omap in Hk as (e & He & Hv). rewrite Forall_forall in Hx, Hr. pose proof (Hx e He) as Hlt.
  destruct (Hr e He) as (p' & ft' & m' & ->). unfold visible in Hv. destruct (_ && _); inv Hv. exact Hlt.
Qed.

(** The hash is that of the visible entries in the order of their paths. *)
Lemma hash_metadata_visible n :
  Forall readable (listing [] n) -> hash_metadata n = Ok (hasher_finish (foldl hash_key hasher_new (omap visible (walk [] n)))).
Proof. intros Hr. unfold hash_metadata. rewrite hash_entries_visible; [done|]. by rewrite walk_perm. Qed.

Lemma visible_order n1 n2 :
  unique_names n1 -> unique_names n2 -> Forall readable (listing [] n1) -> Forall readable (listing [] n2) ->
  omap visible (listing [] n1) ≡ₚ omap visible (listing [] n2) -> omap visible (walk [] n1) = omap visible (walk [] n2).
Proof.
  intros Hu1 Hu2 Hr1 Hr2 Hp. apply (StronglySorted_unique key_lt).
  - apply visible_sorted; [by apply walk_sorted|by rewrite walk_perm].
  - apply visible_sorted; [by apply walk_sorted|by rewrite walk_perm].
  - by rewrite !walk_perm.
Qed.

End Visible.
