(* ===== verification/Cli.v ===== *)
(** * The command line: [fsyncd/src/main.rs] and the start of the client

    The [clap] crate parses the arguments against the declarations of [main];
    what it promises of the matches is the predicate [parsed]. The values of the
    environment that the code asks for (URLs, sockets, paths, the checksum of a
    directory, rsync) are the fields of a class. *)

From stdpp Require Import base list numbers option strings.
From Stdlib Require Import ZArith Lia Ascii String.
From S2P Require Import Prelude Common Net.

Local Open Scope string_scope.
Local Open Scope list_scope.
Local Open Scope Z_scope.

(** ** Declarations and matches

    A declared argument: whether it must be present, its default, the defaults
    for given values of other arguments, the values it may have (all, when there
    are none listed) and the group it is in. *)
Record Arg := mk_Arg {
  arg_name : string; arg_required : bool; arg_default : option string;
  arg_default_ifs : list (string * string * string); arg_possible : list string; arg_group : option string }.

Inductive App := mk_App (args : list Arg) (subs : list (string * App)).

(** The values of the arguments that are present, and the subcommand. *)
Inductive ArgMatches := mk_ArgMatches (values : string -> option (list string)) (sub : option (string * ArgMatches)).

Definition is_present (m : ArgMatches) (n : string) : bool :=
  let '(mk_ArgMatches vs _) := m in bool_decide (is_Some (vs n)).

Definition value_of (m : ArgMatches) (n : string) : option string :=
  let '(mk_ArgMatches vs _) := m in vs n ≫= head.

Definition subcommand_name (m : ArgMatches) : option string :=
  let '(mk_ArgMatches _ sub) := m in fst <$> sub.

Definition subcommand_matches (m : ArgMatches) (n : string) : option ArgMatches :=
  let '(mk_ArgMatches _ sub) := m in
  match sub with
  | Some (n', m') => if bool_decide (n' = n) then Some m' else None
  | None => None
  end.

(** The names a value can be stored under. *)
Definition arg_names (a : Arg) : list string := arg_name a :: match arg_group a with Some g => [g] | None => [] end.

(** What [get_matches] promises: values for declared arguments only, of the
    values they may have; a value where one is required or there is a default;
    a declared subcommand with matches of its own. *)
Inductive parsed : App -> ArgMatches -> Prop :=
| parsed_intro args subs vs sub :
    (forall n, is_Some (vs n) -> exists a, a ∈ args /\ n ∈ arg_names a) ->
    (forall a l v, a ∈ args -> vs (arg_name a) = Some l -> v ∈ l -> arg_possible a = [] \/ v ∈ arg_possible a) ->
    (forall a, a ∈ args -> is_Some (arg_default a) \/ arg_required a = true -> exists v l, vs (arg_name a) = Some (v :: l)) ->
    parsed_sub subs sub -> parsed (mk_App args subs) (mk_ArgMatches vs sub)
with parsed_sub : list (string * App) -> option (string * ArgMatches) -> Prop :=
| parsed_no_sub subs : parsed_sub subs None
| parsed_some_sub subs n app m : (n, app) ∈ subs -> parsed app m -> parsed_sub subs (Some (n, m)).

(** ** The declarations of [main] *)
Definition flag (n : string) : Arg := mk_Arg n false None [] [] None.
Definition positional (n : string) : Arg := mk_Arg n true None [] [] None.
Definition defaulted (n v : string) : Arg := mk_Arg n false (Some v) [] [] None.

Definition client_and_server_args : list Arg := [positional "mount-path"; flag "rsync"].

Definition net_args : list Arg :=
  [mk_Arg "url" true (Some "tcp://localhost:2323") [] [] None; defaulted "buffer" "1M"].

Definition server_app : App := mk_App (client_and_server_args ++ net_args ++
  [mk_Arg "journal" false (Some "off") [] ["bilog"; "forward"; "off"] None;
   flag "journal-sync";
   defaulted "journal-path" "test.fj";
   defaulted "journal-size" "1024M";
   flag "dont-check";
   flag "backing-store";
   flag "diff-writes";
   defaulted "flush-interval" "1"]) [].

Definition client_app : App := mk_App (client_and_server_args ++ net_args ++
  [mk_Arg "rt-compressor" false (Some "none") [] ["default"; "chunked"; "zstd"; "none"] None;
   mk_Arg "stream-compressor" false (Some "default") [("sync", "sync", "none"); ("sync", "semi", "none")]
     ["default"; "zstd"; "lz4"; "none"] None;
   mk_Arg "sync" false (Some "async") [] ["sync"; "async"; "semi"; "flush"] None;
   defaulted "threads" "1";
   defaulted "iolimit" "0"]) [].

Definition view_and_replay_args : list Arg := [flag "reverse"; flag "filter"; flag "invert-filter"].

Definition journal_app : App := mk_App [mk_Arg "journal-path" true (Some "test.fj") [] [] None]
  [("view", mk_App (flag "verbose" :: view_and_replay_args) []);
   ("replay", mk_App (positional "backing-store" :: view_and_replay_args) [])].

Definition snapshot_app : App := mk_App [positional "snapshot-path"]
  [("merge", mk_App [positional "with"] []); ("apply", mk_App [positional "backing-store"] [])].

Definition control_app : App := mk_App
  [mk_Arg "host" true (Some "localhost") [] [] None;
   mk_Arg "cork" false None [] [] (Some "cmd"); mk_Arg "uncork" false None [] [] (Some "cmd")] [].

Definition main_app : App := mk_App [flag "debug"]
  [("client", client_app); ("server", server_app); ("journal", journal_app); ("snapshot", snapshot_app);
   ("checksum", mk_App [positional "mount-path"] []); ("control", control_app);
   ("fakeshell", mk_App [positional "netin"; positional "netout"; flag "extra-args"] [])].

(** ** The environment *)
Record Url := mk_Url { u_scheme : string; u_host : string; u_port : option Z; u_path : string }.

(** A connection as the two directions the client has of it. *)
Definition duplex : Type := list Z * stream.

Class ClientHost := {
  url_parse : string -> option Url;
  tcp_connect : Url -> bool -> Z -> outcome duplex;   (* with TCP_NODELAY, and the receive buffer *)
  unix_connect : string -> outcome duplex;
  stdio : duplex;
  host_canonize : string -> outcome path;
  host_hash : path -> outcome Z;
  host_rsync : duplex -> path -> outcome duplex }.

(** [option::unwrap], [expect] and [result::expect]. *)
Definition unwrap {A} (o : option A) : outcome A := match o with Some a => Ok a | None => Panic end.
Definition expect_ok {A} (o : outcome A) : outcome A := match o with Err _ => Panic | o => o end.

Definition parse_usize (s : string) : option Z := parse_u64 (list_ascii_of_string s).

(** ** [fsyncd/src/client/mod.rs] *)
Section Client.
Context {F : MsgFormat} {C : Compressor} {E : ClientHost}.

Definition parse_options (client_matches : ArgMatches) : outcome InitMsg :=
  sync ← unwrap (value_of client_matches "sync");
  mode ← (if bool_decide (sync = "sync") then Ok MODE_SYNC
          else if bool_decide (sync = "async") then Ok MODE_ASYNC
          else if bool_decide (sync = "semi") then Ok MODE_SEMISYNC
          else if bool_decide (sync = "flush") then Ok MODE_FLUSHSYNC
          else Panic);
  stream_compressor ← unwrap (value_of client_matches "stream-compressor");
  let compress :=
    if bool_decide (stream_compressor = "default") || bool_decide (stream_compressor = "lz4")
    then flags_insert 0 CompMode_STREAM_LZ4
    else if bool_decide (stream_compressor = "zstd") then flags_insert 0 CompMode_STREAM_ZSTD
    else 0 in
  rt_compressor ← unwrap (value_of client_matches "rt-compressor");
  let compress :=
    if bool_decide (rt_compressor = "default") || bool_decide (rt_compressor = "zstd")
    then flags_insert compress CompMode_RT_DSSC_ZSTD
    else if bool_decide (rt_compressor = "chunked") then flags_insert compress CompMode_RT_DSSC_CHUNKED
    else compress in
  let options := if is_present client_matches "rsync" then flags_insert 0 Options_INITIAL_RSYNC else 0 in
  iolimit ← unwrap (value_of client_matches "iolimit");
  bps ← parse_human_size iolimit;
  iolimit_bps ← unwrap bps;
  Ok (mk_InitMsg mode 0 compress iolimit_bps options).

(** [ConnectionBuilder]. *)
Record ConnectionBuilder := mk_ConnectionBuilder {
  cb_netin : list Z; cb_netout : stream; cb_init_msg : InitMsg; cb_rsynced : bool }.

Definition with_url (url : Url) (nodelay : bool) (buffer_size : Z) (init_msg : InitMsg) : outcome ConnectionBuilder :=
  '(netin, netout) ←
    (if bool_decide (u_scheme url = "tcp") then
       let url := match u_port url with
                  | Some _ => url
                  | None => mk_Url (u_scheme url) (u_host url) (Some 2323) (u_path url)
                  end in
       tcp_connect url nodelay buffer_size
     else if bool_decide (u_scheme url = "unix") then unix_connect (u_path url)
     else if bool_decide (u_scheme url = "stdio") then Ok stdio
     else Panic);
  netout ← with_net netout init_msg;
  Ok (mk_ConnectionBuilder netin netout init_msg false).

Definition cb_rsync (cb : ConnectionBuilder) (p : path) : outcome ConnectionBuilder :=
  if cb_rsynced cb then Ok cb
  else if negb (flags_contains (im_options (cb_init_msg cb)) Options_INITIAL_RSYNC) then Panic
  else '(ni, no) ← host_rsync (cb_netin cb, cb_netout cb) p;
       Ok (mk_ConnectionBuilder ni no (cb_init_msg cb) true).

Definition cb_build (cb : ConnectionBuilder) : outcome ServerConnection :=
  build (cb_netin cb) (cb_netout cb) (cb_init_msg cb) (cb_rsynced cb).

(** The decoder [build] puts before the reader; [Client::from_stream] chooses
    the encoder by the same flags. *)
Inductive codec := Zstd | Lz4 | Plain.

Definition reader_codec (compress : Z) : codec :=
  if flags_contains compress CompMode_STREAM_ZSTD then Zstd
  else if flags_contains compress CompMode_STREAM_LZ4 then Lz4 else Plain.

Definition writer_codec (compress : Z) : codec :=
  if flags_contains compress CompMode_STREAM_ZSTD then Zstd
  else if flags_contains compress CompMode_STREAM_LZ4 then Lz4 else Plain.

(** [client_main] from the path on, up to [process_ops]: the path and the
    connection. *)
Definition client_connect (client_matches : ArgMatches) (url : Url) (buffer_size : Z) (init_msg : InitMsg)
  : outcome (path * ServerConnection) :=
  mount_path ← unwrap (value_of client_matches "mount-path");
  client_path ← expect_ok (host_canonize mount_path);
  dsthash ← expect_ok (host_hash client_path);
  let init_msg := mk_InitMsg (im_mode init_msg) dsthash (im_compress init_msg) (im_iolimit_bps init_msg) (im_options init_msg) in
  let need_rsync := flags_contains (im_options init_msg) Options_INITIAL_RSYNC in
  builder ← expect_ok (with_url url (negb (bool_decide (im_mode init_msg = MODE_ASYNC))) buffer_size init_msg);
  builder ← (if need_rsync then expect_ok (cb_rsync builder client_path) else Ok builder);
  client ← expect_ok (cb_build builder);
  Ok (client_path, client).

(** [client_main] up to [process_ops], which gets the number of threads. *)
Definition client_start (matches : ArgMatches) : outcome (Z * (path * ServerConnection)) :=
  url ← unwrap (value_of matches "url");
  url ← unwrap (url_parse url);
  client_matches ← unwrap (subcommand_matches matches "client");
  init_msg ← parse_options client_matches;
  buffer ← unwrap (value_of matches "buffer");
  buffer_size ← parse_human_size buffer;
  buffer_size ← unwrap buffer_size;
  threads ← unwrap (value_of client_matches "threads");
  dispatch_threads ← unwrap (parse_usize threads);
  _ ← (if negb (dispatch_threads =? 1) && negb (bool_decide (im_mode init_msg = MODE_SYNC)) then Panic else Ok tt);
  client ← client_connect client_matches url buffer_size init_msg;
  Ok (dispatch_threads, client).

(** The [control] command. *)
Definition control_main (matches : ArgMatches) : outcome (outcome unit * ServerConnection) :=
  control_matches ← unwrap (subcommand_matches matches "control");
  buffer ← unwrap (value_of matches "buffer");
  buffer_size ← parse_human_size buffer;
  buffer_size ← unwrap buffer_size;
  url ← unwrap (value_of matches "url");
  url ← unwrap (url_parse url);
  builder ← expect_ok (with_url url true buffer_size (mk_InitMsg MODE_CONTROL 0 0 0 0));
  client ← expect_ok (cb_build builder);
  cmd ← unwrap (value_of control_matches "cmd");
  let r :=
    if bool_decide (cmd = "cork") then sc_cork_server client
    else if bool_decide (cmd = "uncork") then sc_uncork_server client
    else (Panic, client) in
  Ok (expect_ok (fst r), snd r).

End Client.
