(* ===== verification/Startup.v ===== *)
(** * Starting the server: [fsyncd/src/server/mod.rs]

    The directories the server works on, its threads, the journal and FUSE, in
    the order of [server_main], on Unix; and the thread that accepts clients.
    The file system, the programs run and the sockets bound are a parameter
    ([ServerHost]); what is said of them is in [ServerHostLaws]. *)

From stdpp Require Import base list numbers option strings.
From Stdlib Require Import ZArith Lia Ascii String.
From S2P Require Import Prelude Common Filestore Store Entries Bilog Net Server Cli.

Local Open Scope string_scope.
Local Open Scope list_scope.
Local Open Scope Z_scope.

(** Mode, owner and group. *)
Definition ownership : Type := Z * Z * Z.

Class ServerHost (OS : Type) := {
  sh_path : string -> path;                       (* [Path::new] *)
  sh_str : path -> string;                        (* [Path::to_str] *)
  sh_canonicalize : string -> M OS path;
  sh_exists : path -> OS -> bool;
  sh_create_dir_all : path -> M OS unit;
  sh_remove_file : path -> M OS unit;
  sh_rename : path -> path -> M OS unit;
  sh_metadata : path -> OS -> outcome ownership;
  sh_chown : path -> Z -> Z -> OS -> Z * OS;
  sh_chmod : path -> Z -> OS -> Z * OS;
  sh_errno : OS -> Z;
  sh_mountpoint : path -> M OS bool;              (* the program [mountpoint] *)
  sh_mount_move : string -> path -> M OS bool;    (* [mount --move] *)
  sh_bind_tcp : Url -> M OS unit;
  sh_bind_unix : path -> M OS unit;
  sh_file : path -> OS -> option file;
  sh_now : Z;
  sh_filestore : outcome FileStore;
  sh_extra_args : list string }.                  (* what follows [--] *)

(** What is known of the system calls and programs: a canonical path exists; a
    rename takes the file away from its old name; a mount is moved to an existing
    directory only; [chown] may clear bits of the mode, [chmod] sets them. *)
Class ServerHostLaws {OS} (SH : ServerHost OS) := {
  law_canon : forall s os p os', sh_canonicalize s os = (Ok p, os') -> os' = os /\ sh_exists p os = true;
  law_canon_missing : forall s os, sh_exists (sh_path s) os = false -> sh_canonicalize s os = (Err NotFound, os);
  law_rename : forall src dst os os', sh_rename src dst os = (Ok tt, os') -> src <> dst ->
    sh_exists src os' = false /\ sh_exists dst os' = true;
  law_mountpoint : forall p os r os', sh_mountpoint p os = (r, os') -> os' = os;
  law_mkdir : forall p os r os', sh_create_dir_all p os = (r, os') -> sh_exists p os = true -> os' = os;
  law_mount_move : forall s dst os b os', sh_mount_move s dst os = (Ok b, os') -> sh_exists dst os = false -> b = false;
  law_chown : forall p uid gid os r os', sh_chown p uid gid os = (r, os') -> r <> -1 ->
    exists mode, sh_metadata p os' = Ok (mode, uid, gid);
  law_chmod : forall p mode os r os' m uid gid, sh_chmod p mode os = (r, os') -> r <> -1 ->
    sh_metadata p os = Ok (m, uid, gid) -> sh_metadata p os' = Ok (Z.lor (Z.land m 61440) (Z.land mode 4095), uid, gid) }.

Section Startup.
Context {OS : Type} {SH : ServerHost OS}.
Context {F : MsgFormat} {C : Compressor} {D : Digest} {E : ClientHost}.
Context {FB : StoreFormat BilogEntry} {FV : StoreFormat VFSCall}.

(** ** [fsyncd/src/common/security_unix.rs] *)
Definition copy_security (src dst : path) : M OS unit := fun os =>
  match sh_metadata src os with
  | Ok (mode, uid, gid) =>
    let '(r, os) := sh_chown dst uid gid os in
    if r =? -1 then (Err (OsError (sh_errno os)), os)
    else
      let '(r, os) := sh_chmod dst mode os in
      if r =? -1 then (Err (OsError (sh_errno os)), os) else (Ok tt, os)
  | Err e => (Err e, os)
  | Panic => (Panic, os)
  | NoFuel => (NoFuel, os)
  end.

(** ** [figure_out_paths] *)
Definition check_mount (p : path) : M OS bool := sh_mountpoint p.

(** [mount_path.with_file_name(".fsyncer-" + name)]. *)
Definition implicit_backing_store (mount_path : path) : outcome path :=
  match last (p_comps mount_path) with
  | Some name => Ok (mk_path (p_abs mount_path) (removelast (p_comps mount_path) ++ [".fsyncer-" +:+ name]))
  | None => Panic
  end.

Definition exists_now (p : path) : M OS bool := fun os => (Ok (sh_exists p os), os).

Definition figure_out_paths (matches : ArgMatches) : M OS (path * path) :=
  mount_arg ← lift (unwrap (value_of matches "mount-path"));
  mount_path ← sh_canonicalize mount_arg;
  mount_exists ← exists_now mount_path;
  backing_store ←
    (if is_present matches "backing-store" then
       arg ← lift (unwrap (value_of matches "backing-store"));
       found ← exists_now (sh_path arg);
       if negb found then throw NotFound else sh_canonicalize arg
     else lift (implicit_backing_store mount_path));
  backing_exists ← exists_now backing_store;
  _ ← (if negb backing_exists && mount_exists then
         mounted ← check_mount mount_path;
         if mounted : bool then
           _ ← sh_create_dir_all mount_path;
           moved ← sh_mount_move mount_arg backing_store;
           if moved : bool then mret tt else throw OtherError
         else sh_rename mount_path backing_store
       else mret tt);
  backing_exists ← exists_now backing_store;
  _ ← (if backing_exists && negb mount_exists then
         _ ← sh_create_dir_all mount_path;
         copy_security backing_store mount_path
       else if negb backing_exists && negb mount_exists then throw NotFound
       else mret tt);
  mret (mount_path, backing_store).

(** ** [server_main] *)
Inductive spawned :=
| FlushThread (interval : Z)
| HarvesterThread
| AcceptThread (url : Url) (buffer_size : Z) (dont_check : bool)
| StdioThread (dont_check : bool).

(** The globals and what has been started. *)
Record Boot := mk_Boot {
  bt_os : OS; bt_server_path : option path; bt_diff_writes : bool; bt_threads : list spawned;
  bt_journal_type : JournalType; bt_journal : option Journal; bt_fuse : option (list string) }.

Definition on_os {A} (m : M OS A) : M Boot A := fun b =>
  let '(r, os) := m (bt_os b) in
  (r, mk_Boot os (bt_server_path b) (bt_diff_writes b) (bt_threads b) (bt_journal_type b) (bt_journal b) (bt_fuse b)).

Definition set_server_path (p : path) : M Boot unit := modify (fun b =>
  mk_Boot (bt_os b) (Some p) (bt_diff_writes b) (bt_threads b) (bt_journal_type b) (bt_journal b) (bt_fuse b)).
Definition set_diff_writes : M Boot unit := modify (fun b =>
  mk_Boot (bt_os b) (bt_server_path b) true (bt_threads b) (bt_journal_type b) (bt_journal b) (bt_fuse b)).
Definition spawn (t : spawned) : M Boot unit := modify (fun b =>
  mk_Boot (bt_os b) (bt_server_path b) (bt_diff_writes b) (bt_threads b ++ [t]) (bt_journal_type b) (bt_journal b) (bt_fuse b)).
Definition set_journal_type (t : JournalType) : M Boot unit := modify (fun b =>
  mk_Boot (bt_os b) (bt_server_path b) (bt_diff_writes b) (bt_threads b) t (bt_journal b) (bt_fuse b)).
Definition set_journal (j : Journal) : M Boot unit := modify (fun b =>
  mk_Boot (bt_os b) (bt_server_path b) (bt_diff_writes b) (bt_threads b) (bt_journal_type b) (Some j) (bt_fuse b)).

(** [start_fuse]: what [fuse_main] returns is not looked at. *)
Definition start_fuse (mount_path : path) (extra_args : list string) : M Boot unit := modify (fun b =>
  mk_Boot (bt_os b) (bt_server_path b) (bt_diff_writes b) (bt_threads b) (bt_journal_type b) (bt_journal b)
    (Some (["fsyncd"; sh_str mount_path; "-o"; "default_permissions"] ++ extra_args))).

Definition listen (url : Url) (buffer_size : Z) (dont_check : bool) : M Boot unit :=
  if bool_decide (u_scheme url = "tcp") || bool_decide (u_scheme url = "unix") then
    _ ← on_os (if bool_decide (u_scheme url = "tcp") then
                 sh_bind_tcp (match u_port url with
                              | Some _ => url
                              | None => mk_Url (u_scheme url) (u_host url) (Some 2323) (u_path url)
                              end)
               else
                 found ← exists_now (sh_path (u_path url));
                 _ ← (if found : bool then sh_remove_file (sh_path (u_path url)) else mret tt);
                 sh_bind_unix (sh_path (u_path url)));
    spawn (AcceptThread url buffer_size dont_check)
  else if bool_decide (u_scheme url = "stdio") then spawn (StdioThread dont_check)
  else panic.

(** [JournalType] of the argument; [unreachable!] otherwise. *)
Definition journal_type_of (s : string) : outcome JournalType :=
  if bool_decide (s = "bilog") then Ok JT_Bilog
  else if bool_decide (s = "forward") then Ok JT_Forward
  else if bool_decide (s = "undo") then Ok JT_Undo
  else Panic.

(** [open_journal], [expect]ed, for entries of the type of the journal. *)
Definition open_journal_of (t : JournalType) (p : path) (c : JournalConfig) (os : OS) : outcome Journal :=
  expect_ok (match t with
             | JT_Bilog => open_journal (T := BilogEntry) (sh_file p os) c sh_now sh_filestore
             | _ => open_journal (T := VFSCall) (sh_file p os) c sh_now sh_filestore
             end).

Definition start_journal (server_matches : ArgMatches) : M Boot unit :=
  size_arg ← lift (unwrap (value_of server_matches "journal-size"));
  size ← lift (parse_human_size size_arg);
  journal_size ← lift (unwrap size);
  let journal_sync := is_present server_matches "journal-sync" in
  kind ← lift (unwrap (value_of server_matches "journal"));
  if bool_decide (kind = "off") then mret tt
  else
    journal_path ← lift (unwrap (value_of server_matches "journal-path"));
    journal_type ← lift (journal_type_of kind);
    _ ← set_journal_type journal_type;
    b ← get;
    root ← lift (unwrap (bt_server_path b));
    j ← lift (open_journal_of journal_type (sh_path journal_path)
                (mk_JournalConfig journal_sync (u64 journal_size) (1024 * 1024 * 1024) root journal_type) (bt_os b));
    set_journal j.

Definition server_main (matches : ArgMatches) : M Boot unit :=
  server_matches ← lift (unwrap (subcommand_matches matches "server"));
  url_arg ← lift (unwrap (value_of server_matches "url"));
  url ← lift (unwrap (url_parse url_arg));
  paths ← on_os (figure_out_paths server_matches);
  _ ← set_server_path (snd paths);
  interval_arg ← lift (unwrap (value_of server_matches "flush-interval"));
  interval ← lift (unwrap (parse_usize interval_arg));
  _ ← (if is_present server_matches "diff-writes" then set_diff_writes else mret tt);
  let dont_check := is_present server_matches "dont-check" in
  buffer_arg ← lift (unwrap (value_of server_matches "buffer"));
  buffer ← lift (parse_human_size buffer_arg);
  buffer_size ← lift (unwrap buffer);
  _ ← (if negb (interval =? 0) then spawn (FlushThread interval) else mret tt);
  _ ← spawn HarvesterThread;
  _ ← listen url buffer_size dont_check;
  _ ← start_journal server_matches;
  start_fuse (fst paths) sh_extra_args.

(** ** The thread that accepts clients *)

(** A connection: what arrives on it, where to write, and what the checksum and
    the initial synchronisation come to when its turn comes. *)
Record incoming := mk_incoming {
  in_input : list Z; in_output : stream; in_srchash : outcome Z; in_rsync : outcome unit }.

Fixpoint accept_loop (dont_check : bool) (conns : list (outcome incoming)) : M Server unit :=
  match conns with
  | Ok i :: conns => fun s =>
    match from_stream (in_input i) (in_output i) dont_check (in_srchash i) (in_rsync i) with
    | Ok (c, _) => accept_loop dont_check conns (sv_set_clients s (sv_cells s) (sv_clients s ++ [c]))
    | Err _ => accept_loop dont_check conns s
    | Panic => (Panic, s)
    | NoFuel => (NoFuel, s)
    end
  | _ => mret tt
  end.

End Startup.
