(* ===== verification/StartupInst.v ===== *)
(** * A host with directories, and parsed command lines

    Directories by path with their mode, owner and group: it shows that
    [ServerHostLaws] can hold. A list of values that conforms to the declarations
    makes matches that [parsed] accepts. *)

From stdpp Require Import base list numbers option strings gmap.
From Stdlib Require Import ZArith Lia Ascii String.
From S2P Require Import Prelude Common Filestore Net Cli Startup.

Local Open Scope string_scope.
Local Open Scope list_scope.
Local Open Scope Z_scope.

(** ** Directories *)
Definition dirs : Type := list (path * ownership).

Fixpoint dir_of (p : path) (os : dirs) : option ownership :=
  match os with
  | [] => None
  | (q, o) :: os => if bool_decide (q = p) then Some o else dir_of p os
  end.

Definition toy_exists (p : path) (os : dirs) : bool := bool_decide (is_Some (dir_of p os)).

Definition without (p : path) (os : dirs) : dirs := List.filter (fun e => negb (bool_decide (fst e = p))) os.

Definition update (p : path) (f : ownership -> ownership) (os : dirs) : dirs :=
  (fun e => if bool_decide (fst e = p) then (fst e, f (snd e)) else e) <$> os.

Definition toy_path (s : string) : path := mk_path true [s].

Definition toy_canonicalize (s : string) : M dirs path := fun os =>
  if toy_exists (toy_path s) os then (Ok (toy_path s), os) else (Err NotFound, os).

Definition toy_mkdir (p : path) : M dirs unit := fun os =>
  (Ok tt, if toy_exists p os then os else (p, (16877, 0, 0)) :: os).

Definition toy_rename (src dst : path) : M dirs unit := fun os =>
  match dir_of src os with
  | Some o => (Ok tt, (dst, o) :: without src os)
  | None => (Err NotFound, os)
  end.

Definition toy_chown (p : path) (uid gid : Z) (os : dirs) : Z * dirs :=
  if toy_exists p os
  then (0, update p (fun o => (Z.land (fst (fst o)) (Z.lnot 3072), uid, gid)) os) else (-1, os).

Definition toy_chmod (p : path) (mode : Z) (os : dirs) : Z * dirs :=
  if toy_exists p os
  then (0, update p (fun o => (Z.lor (Z.land (fst (fst o)) 61440) (Z.land mode 4095), snd (fst o), snd o)) os)
  else (-1, os).

Definition toy_host : ServerHost dirs := {|
  sh_path := toy_path;
  sh_str := fun p => String.concat "/" (p_comps p);
  sh_canonicalize := toy_canonicalize;
  sh_exists := toy_exists;
  sh_create_dir_all := toy_mkdir;
  sh_remove_file := fun p os => (Ok tt, without p os);
  sh_rename := toy_rename;
  sh_metadata := fun p os => match dir_of p os with Some o => Ok o | None => Err NotFound end;
  sh_chown := toy_chown;
  sh_chmod := toy_chmod;
  sh_errno := fun _ => 2;
  sh_mountpoint := fun _ os => (Ok false, os);
  sh_mount_move := fun _ dst os => (Ok (toy_exists dst os), os);
  sh_bind_tcp := fun _ os => (Ok tt, os);
  sh_bind_unix := fun _ os => (Ok tt, os);
  sh_file := fun _ _ => None;
  sh_now := 0;
  sh_filestore := Ok (mk_FileStore 0 0 0 (2 ^ 30) (toy_path ".fsyncer-m") FilestoreEntry);
  sh_extra_args := [] |}.

Lemma dir_of_without p q os : dir_of q (without p os) = if bool_decide (q = p) then None else dir_of q os.
Proof.
  induction os as [|[r o] os IH]; [by case_bool_decide|]. unfold without in *. cbn.
  destruct (bool_decide (r = p)) eqn:E; cbn; rewrite IH.
  - apply bool_decide_eq_true in E as ->. repeat case_bool_decide; congruence.
  - apply bool_decide_eq_false in E. repeat case_bool_decide; congruence.
Qed.

Lemma dir_of_update p f os : dir_of p (update p f os) = f <$> dir_of p os.
Proof.
  induction os as [|[r o] os IH]; [done|]. cbn. destruct (bool_decide (r = p)) eqn:E; cbn; by rewrite E.
Qed.

Definition toy_host_laws : ServerHostLaws toy_host.
Proof.
  split; cbn.
  - intros s os p os'. unfold toy_canonicalize. destruct (toy_exists _ os) eqn:Ex; [|done]. by intros [= <- <-].
  - intros s os Hs. unfold toy_canonicalize. by rewrite Hs.
  - intros src dst os os' E Hne. unfold toy_rename in E. destruct (dir_of src os) as [o|]; [|done]. injection E as <-.
    unfold toy_exists. cbn. rewrite dir_of_without. rewrite (bool_decide_true (dst = dst)) by done.
    rewrite (bool_decide_false (dst = src)), (bool_decide_true (src = src)) by congruence. done.
  - by intros p os r os' [= _ ->].
  - intros p os r os' [= _ <-] Hex. by rewrite Hex.
  - intros s dst os b os' [= <- _] Hex. done.
  - intros p uid gid os r os' E Hr. unfold toy_chown in E. destruct (toy_exists p os) eqn:Ex; [|congruence].
    injection E as _ <-. rewrite dir_of_update. unfold toy_exists in Ex. apply bool_decide_eq_true in Ex as [o ->]. cbn. by eexists.
  - intros p mode os r os' m uid gid E Hr Hm. unfold toy_chmod in E. destruct (toy_exists p os); [|congruence].
    injection E as _ <-. rewrite dir_of_update. destruct (dir_of p os) as [[[m' u'] g']|]; [|done]. cbn in *. by injection Hm as -> -> ->.
Defined.

(** ** Command lines *)
Definition lookup_in (l : list (string * list string)) (n : string) : option (list string) :=
  (list_to_map l : gmap string (list string)) !! n.

Lemma lookup_in_elem l n v : lookup_in l n = Some v -> In (n, v) l.
Proof. intros E. by apply list_elem_of_In, elem_of_list_to_map_2. Qed.

Definition conforms (args : list Arg) (l : list (string * list string)) : bool :=
  forallb (fun e => existsb (fun a => bool_decide (fst e ∈ arg_names a)) args) l &&
  forallb (fun a => forallb (fun e => negb (bool_decide (fst e = arg_name a)) || bool_decide (arg_possible a = []) ||
                                    forallb (fun v => bool_decide (v ∈ arg_possible a)) (snd e)) l) args &&
  forallb (fun a => negb (bool_decide (is_Some (arg_default a)) || arg_required a) ||
                  match lookup_in l (arg_name a) with Some (_ :: _) => true | _ => false end) args.

Lemma conforms_parsed args l subs sub :
  conforms args l = true -> parsed_sub subs sub -> parsed (mk_App args subs) (mk_ArgMatches (lookup_in l) sub).
Proof.
  intros Hc Hs. unfold conforms in Hc. apply andb_prop in Hc as [Hc H3]. apply andb_prop in Hc as [H1 H2].
  rewrite forallb_forall in H1, H2, H3. constructor; [| | |done].
  - intros n [v Hv]. apply lookup_in_elem, H1, existsb_exists in Hv as (a & Ha & Hn).
    exists a. apply list_elem_of_In in Ha. by apply bool_decide_eq_true in Hn.
  - intros a vs v Ha Hv Hin. apply list_elem_of_In in Ha. pose proof (H2 a Ha) as H. rewrite forallb_forall in H.
    apply lookup_in_elem, H in Hv. cbn in Hv. rewrite bool_decide_true in Hv by done. cbn in Hv.
    apply orb_prop in Hv as [Hv|Hv]; [left; by apply bool_decide_eq_true in Hv|right].
    rewrite forallb_forall in Hv. apply list_elem_of_In, Hv in Hin. by apply bool_decide_eq_true in Hin.
  - intros a Ha Hd. apply list_elem_of_In, H3 in Ha. destruct (lookup_in l (arg_name a)) as [[|v vs]|] eqn:E; [| |].
    + rewrite orb_false_r in Ha. apply negb_true_iff, orb_false_iff in Ha as [Ha1 Ha2].
      apply bool_decide_eq_false in Ha1. destruct Hd; congruence.
    + by exists v, vs.
    + rewrite orb_false_r in Ha. apply negb_true_iff, orb_false_iff in Ha as [Ha1 Ha2].
      apply bool_decide_eq_false in Ha1. destruct Hd; congruence.
Qed.

(** What the defaults give for the two commands. *)
Definition server_values : list (string * list string) :=
  [("mount-path", ["m"]); ("url", ["u"]); ("buffer", ["1M"]); ("journal", ["forward"]); ("journal-path", ["j"]);
   ("journal-size", ["1M"]); ("flush-interval", ["1"])].
Definition client_values : list (string * list string) :=
  [("mount-path", ["m"]); ("url", ["u"]); ("buffer", ["1M"]); ("rt-compressor", ["zstd"]);
   ("stream-compressor", ["default"]); ("sync", ["async"]); ("threads", ["1"]); ("iolimit", ["10K"])].

Definition server_matches : ArgMatches := mk_ArgMatches (lookup_in server_values) None.
Definition client_matches : ArgMatches := mk_ArgMatches (lookup_in client_values) None.
Definition command (n : string) (m : ArgMatches) : ArgMatches := mk_ArgMatches (lookup_in []) (Some (n, m)).

Lemma server_parsed : parsed server_app server_matches.
Proof. apply conforms_parsed; [vm_compute; reflexivity|constructor]. Qed.

Lemma client_parsed : parsed client_app client_matches.
Proof. apply conforms_parsed; [vm_compute; reflexivity|constructor]. Qed.

Lemma server_command_parsed : parsed main_app (command "server" server_matches).
Proof.
  apply conforms_parsed; [vm_compute; reflexivity|]. econstructor; [|apply server_parsed]. repeat constructor.
Qed.

Lemma client_command_parsed : parsed main_app (command "client" client_matches).
Proof.
  apply conforms_parsed; [vm_compute; reflexivity|]. econstructor; [|apply client_parsed]. repeat constructor.
Qed.

(** Sockets that connect at once, every path canonical, and a checksum that is
    given. *)
Definition toy_client_host (hash : outcome Z) : ClientHost := {|
  url_parse := fun s => Some (mk_Url "unix" "" None s);
  tcp_connect := fun _ _ _ => Err OtherError;
  unix_connect := fun _ => Ok ([], mk_stream [] None);
  stdio := ([], mk_stream [] None);
  host_canonize := fun s => Ok (toy_path s);
  host_hash := fun _ => hash;
  host_rsync := fun d _ => Ok d |}.
