(* ===== verification/StartupProps.v ===== *)
(** * Starting: theorems

    What the command line comes to, which directories the server works on, what
    it has started when FUSE takes over, and how a client gets in. *)

From stdpp Require Import base list numbers option strings sorting.
From Stdlib Require Import ZArith Lia Ascii String.
From S2P Require Import Prelude Common Filestore Store StoreInst Entries Bilog Net NetSpec NetInst Server Hash Cli Startup StartupInst.

Local Open Scope string_scope.
Local Open Scope list_scope.
Local Open Scope Z_scope.

(** ** The command line *)

(** Values are under declared names only. *)
Lemma undeclared args subs m n :
  parsed (mk_App args subs) m -> (forall a, a ∈ args -> n ∉ arg_names a) -> value_of m n = None.
Proof.
  intros Hp Hn. inversion Hp as [? ? vs sub Hd _ _ _]; subst. cbn. destruct (vs n) as [l|] eqn:El; [|done].
  destruct (Hd n) as (a & Ha & Hin); [by rewrite El|]. by destruct (Hn a Ha).
Qed.

(** An argument with a default has one of its values. *)
Lemma declared args subs m a :
  parsed (mk_App args subs) m -> a ∈ args -> is_Some (arg_default a) \/ arg_required a = true ->
  exists v, value_of m (arg_name a) = Some v /\ (arg_possible a = [] \/ v ∈ arg_possible a).
Proof.
  intros Hp Ha Hd. inversion Hp as [? ? vs sub _ Hv Hr _]; subst. destruct (Hr a Ha Hd) as (v & l & E).
  exists v. cbn. rewrite E. split; [done|]. eapply Hv; [done|exact E|by left].
Qed.

Lemma subcommand_parsed args subs m n app :
  parsed (mk_App args subs) m -> (forall app', (n, app') ∈ subs -> app' = app) ->
  forall m', subcommand_matches m n = Some m' -> parsed app m'.
Proof.
  intros Hp Hu m' E. inversion Hp as [? ? vs sub _ _ _ Hs]; subst. cbn in E. destruct sub as [[n' m'']|]; [|done].
  case_bool_decide; [|done]. injection E as ->. subst n'. inversion Hs as [|? ? app' ? Hin Hm]; subst.
  by rewrite <- (Hu app' Hin).
Qed.

Lemma client_app_of m m' : parsed main_app m -> subcommand_matches m "client" = Some m' -> parsed client_app m'.
Proof.
  intros Hp. apply (subcommand_parsed _ _ m "client" client_app Hp). intros app' Hin. cbn in Hin.
  rewrite !elem_of_cons, elem_of_nil in Hin. by destruct_or! Hin; simplify_eq.
Qed.

Lemma server_app_of m m' : parsed main_app m -> subcommand_matches m "server" = Some m' -> parsed server_app m'.
Proof.
  intros Hp. apply (subcommand_parsed _ _ m "server" server_app Hp). intros app' Hin. cbn in Hin.
  rewrite !elem_of_cons, elem_of_nil in Hin. by destruct_or! Hin; simplify_eq.
Qed.

Section Commands.
Context {F : MsgFormat} {C : Compressor} {E : ClientHost}.

(** C31. The commands [client] and [control] cannot run: they look for the URL
    and the buffer size among the arguments of the program itself, which declares
    neither, and panic whatever was given on the command line. *)
Theorem client_and_control_panic m :
  parsed main_app m -> client_start m = Panic /\ control_main m = Panic.
Proof.
  intros Hp. assert (forall n, n <> "debug" -> value_of m n = None) as Hn.
  { intros n Hne. apply (undeclared _ _ _ _ Hp). intros a Ha%list_elem_of_singleton Hin. subst a. cbn in Hin.
    by apply list_elem_of_singleton in Hin. }
  unfold client_start, control_main. rewrite !Hn by done. cbn. split; [done|].
  by destruct (subcommand_matches m "control").
Qed.

(** *** The options of a client *)
Definition mode_named (s : string) (mode : ClientMode) : Prop :=
  (s, mode) ∈ [("sync", MODE_SYNC); ("async", MODE_ASYNC); ("semi", MODE_SEMISYNC); ("flush", MODE_FLUSHSYNC)].
Definition codec_named (s : string) (c : codec) : Prop :=
  (s, c) ∈ [("default", Lz4); ("lz4", Lz4); ("zstd", Zstd); ("none", Plain)].
Definition rt_named (s : string) (c : option comp_state) : Prop :=
  (s, c) ∈ [("default", Some comp_zstd); ("zstd", Some comp_zstd); ("chunked", Some comp_chunked); ("none", None)].

(** C18. Whatever the command line, [parse_options] meets only values it has a
    case for, and the flags it puts together mean to both ends of the connection
    what was asked for: the same stream codec to write and to read, the packet
    compressor and the initial synchronisation. It fails only on a rate limit
    that is not a size. *)
Theorem parse_options_typed cm iolimit bps :
  parsed client_app cm -> value_of cm "iolimit" = Some iolimit -> parse_human_size iolimit = Ok (Some bps) ->
  exists init sync stream rt,
    parse_options cm = Ok init /\ im_iolimit_bps init = bps /\
    value_of cm "sync" = Some sync /\ mode_named sync (im_mode init) /\
    value_of cm "stream-compressor" = Some stream /\
    codec_named stream (reader_codec (im_compress init)) /\ codec_named stream (writer_codec (im_compress init)) /\
    value_of cm "rt-compressor" = Some rt /\ rt_named rt (rt_comp_of (im_compress init)) /\
    flags_contains (im_options init) Options_INITIAL_RSYNC = is_present cm "rsync".
Proof.
  intros Hp Hio Hbps.
  destruct (declared _ _ cm (mk_Arg "rt-compressor" false (Some "none") [] ["default"; "chunked"; "zstd"; "none"] None) Hp)
    as (rt & Ert & [?|Hrt]); [repeat constructor|by left|done|].
  destruct (declared _ _ cm (mk_Arg "stream-compressor" false (Some "default") [("sync", "sync", "none"); ("sync", "semi", "none")]
    ["default"; "zstd"; "lz4"; "none"] None) Hp) as (stream & Est & [?|Hst]); [repeat constructor|by left|done|].
  destruct (declared _ _ cm (mk_Arg "sync" false (Some "async") [] ["sync"; "async"; "semi"; "flush"] None) Hp)
    as (sync & Esy & [?|Hsy]); [repeat constructor|by left|done|].
  cbn [arg_name arg_possible] in *. unfold parse_options. rewrite Esy, Est, Ert, Hio. cbn [unwrap mbind outcome_bind].
  assert (forall b : bool, flags_contains (if b then flags_insert 0 Options_INITIAL_RSYNC else 0) Options_INITIAL_RSYNC = b) as Hopt
    by by intros [].
  rewrite !elem_of_cons, elem_of_nil in Hrt, Hst, Hsy.
  destruct_or! Hsy; try done; subst sync; cbn; rewrite Hbps; cbn;
    (destruct_or! Hst; try done; subst stream; destruct_or! Hrt; try done; subst rt; cbn;
     eexists _, _, _, _; (split; [reflexivity|]); split_and!; try reflexivity; try apply Hopt;
     unfold mode_named, codec_named, rt_named; cbn; repeat constructor).
Qed.

End Commands.

(** ** The checksum and the introduction *)
Section Handshake.
Context {H : Hasher}.

(** The same files, whatever the order the two file systems list them in; the
    metadata of the top directories may differ. *)
Definition mirrored (n1 n2 : node) : Prop :=
  unique_names n1 /\ unique_names n2 /\ Forall readable (listing [] n1) /\ Forall readable (listing [] n2) /\
  omap visible (listing [] n1) ≡ₚ omap visible (listing [] n2).

Lemma hash_mirrored n1 n2 : mirrored n1 n2 -> exists h, hash_metadata n1 = Ok h /\ hash_metadata n2 = Ok h.
Proof.
  intros (Hu1 & Hu2 & Hr1 & Hr2 & Hp). rewrite !hash_metadata_visible by done.
  rewrite (visible_order n1 n2) by done. eauto.
Qed.

(** C20. The checksum of a tree is a function of what can be seen of its entries
    (paths, types, modes, owners and the lengths of what is no directory): it
    does not depend on the order in which directories list their entries. *)
Theorem hash_metadata_mirror n1 n2 :
  mirrored n1 n2 -> exists h, hash_metadata n1 = Ok h /\ hash_metadata n2 = Ok h.
Proof. apply hash_mirrored. Qed.

Context {F : MsgFormat} {L : MsgFormatLaws} {C : Compressor} {E : ClientHost}.

(** The connection that the URL leads to, with nothing written on it yet. *)
Definition reaches_server (url : Url) (nodelay : bool) (buffer_size : Z) (netin : list Z) : Prop :=
  (u_scheme url = "unix" /\ unix_connect (u_path url) = Ok (netin, mk_stream [] None)) \/
  (u_scheme url = "tcp" /\ tcp_connect (match u_port url with
                                        | Some _ => url
                                        | None => mk_Url (u_scheme url) (u_host url) (Some 2323) (u_path url)
                                        end) nodelay buffer_size = Ok (netin, mk_stream [] None)) \/
  (u_scheme url = "stdio" /\ stdio = (netin, mk_stream [] None)).

Lemma with_url_reaches url nodelay buffer_size init netin :
  reaches_server url nodelay buffer_size netin ->
  with_url url nodelay buffer_size init =
    Ok (mk_ConnectionBuilder netin (mk_stream (ser_msg (Msg_InitMsg init)) None) init false).
Proof.
  unfold with_url, reaches_server. destruct url as [sch host port pth]. cbn [u_scheme u_port u_path u_host].
  intros [[-> Hc]|[[-> Hc]|[-> Hc]]]; cbn; by rewrite Hc.
Qed.

(** A client whose tree mirrors the server's gets in: what it sends on
    connecting is accepted by [from_stream], and both ends have what [init] asks
    for. *)
Lemma mirror_accepted cm url buffer_size init arg p tc ts netin out rsync :
  value_of cm "mount-path" = Some arg -> host_canonize arg = Ok p -> host_hash p = hash_metadata tc ->
  mirrored tc ts -> reaches_server url (negb (bool_decide (im_mode init = MODE_ASYNC))) buffer_size netin ->
  flags_contains (im_options init) Options_INITIAL_RSYNC = false ->
  (forall h, hash_metadata tc = Ok h -> msg_ok (Msg_InitMsg (mk_InitMsg (im_mode init) h (im_compress init) (im_iolimit_bps init) (im_options init)))) ->
  exists hello,
    client_connect cm url buffer_size init =
      Ok (p, mk_ServerConnection (mk_stream hello None) netin [] (im_mode init) (rt_comp_of (im_compress init))) /\
    from_stream hello out false (hash_metadata ts) rsync =
      Ok (mk_Client (im_mode init) (im_compress init) out (rt_comp_of (im_compress init)) ∅ ALIVE, []).
Proof.
  intros Harg Hp Hh Hm Hc Hopt Hok.
  destruct (hash_mirrored tc ts Hm) as (h & Htc & Hts). pose proof (Hok h Htc) as Hoh.
  set (init' := mk_InitMsg (im_mode init) h (im_compress init) (im_iolimit_bps init) (im_options init)) in *.
  exists (ser_msg (Msg_InitMsg init')). split.
  - unfold client_connect. rewrite Harg. cbn -[flags_contains]. rewrite Hp. cbn -[flags_contains]. rewrite Hh, Htc.
    cbn -[flags_contains]. rewrite (with_url_reaches _ _ _ _ netin Hc). cbn -[flags_contains]. rewrite Hopt.
    unfold cb_build, build. cbn -[flags_contains]. by rewrite Hopt.
  - unfold from_stream. rewrite <- (app_nil_r (ser_msg (Msg_InitMsg init'))), law_msg by done. cbn -[flags_contains].
    rewrite Hopt. cbn -[flags_contains]. rewrite Hts. munfold. cbn -[flags_contains]. rewrite orb_false_r, Z.eqb_refl.
    by destruct (_ || _).
Qed.

(** Whoever connects and sends anything but an introduction first stops the
    server from accepting: the thread that accepts panics, and nobody who
    connects later becomes a client. *)
Theorem bad_peer_stops_accepting {D : Digest} dont_check i m rest conns s :
  in_input i = ser_msg m ++ rest -> msg_ok m -> (forall init, m <> Msg_InitMsg init) ->
  accept_loop dont_check (Ok i :: conns) s = (Panic, s).
Proof.
  intros Hi Hok Hm. cbn [accept_loop]. unfold from_stream. rewrite Hi, law_msg by done.
  destruct m; try done. by destruct (Hm m).
Qed.

(** Those who introduce themselves are clients in the order they came. *)
Lemma accept_loop_clients {D : Digest} dont_check l : forall cs s,
  Forall2 (fun i c => exists rest, from_stream (in_input i) (in_output i) dont_check (in_srchash i) (in_rsync i) = Ok (c, rest)) l cs ->
  accept_loop dont_check (Ok <$> l) s = (Ok tt, sv_set_clients s (sv_cells s) (sv_clients s ++ cs)).
Proof.
  induction l as [|i l IH]; intros cs s Hf.
  - apply Forall2_nil_inv_l in Hf as ->. cbn. rewrite app_nil_r. by destruct s.
  - apply Forall2_cons_inv_l in Hf as (c & cs' & [rest Hc] & Hf & ->). cbn [fmap list_fmap accept_loop].
    rewrite Hc, (IH cs') by done. cbn. by rewrite <- app_assoc.
Qed.

End Handshake.

(** ** The directories of the server *)

Section Paths.
Context {OS : Type} {SH : ServerHost OS} {SL : ServerHostLaws SH}.

Ltac step E := let a := fresh "a" in let s := fresh "s" in let E1 := fresh "E" in
  apply bind_ok in E as (a & s & E1 & E).

(** What [figure_out_paths] has found when it succeeds. *)
Lemma figure_out_paths_ok m os mp bs os' :
  figure_out_paths m os = (Ok (mp, bs), os') ->
  exists arg, value_of m "mount-path" = Some arg /\ sh_canonicalize arg os = (Ok mp, os) /\ sh_exists mp os = true /\
    (sh_exists bs os = true /\ os' = os \/
     sh_exists bs os = false /\ is_present m "backing-store" = false /\ implicit_backing_store mp = Ok bs /\
       sh_mountpoint mp os = (Ok false, os) /\ sh_rename mp bs os = (Ok tt, os')).
Proof.
  unfold figure_out_paths. intros E. apply bind_ok in E as (arg & s1 & E1 & E). apply lift_ok in E1 as [E1 ->].
  apply bind_ok in E as (mp' & s1 & Ec & E). pose proof (law_canon _ _ _ _ Ec) as [-> Hex].
  apply bind_ok in E as (ex & s1 & E2 & E). injection E2 as <- <-. rewrite Hex in E.
  apply bind_ok in E as (bs' & s1 & Eb & E).
  assert (s1 = os /\ (sh_exists bs' os = true \/
    is_present m "backing-store" = false /\ implicit_backing_store mp' = Ok bs')) as [-> Hbs].
  { destruct (is_present m "backing-store").
    - apply bind_ok in Eb as (b & s2 & E3 & Eb). apply lift_ok in E3 as [_ ->].
      apply bind_ok in Eb as (f & s2 & E3 & Eb). injection E3 as <- <-.
      destruct (sh_exists (sh_path b) os); [|done]. apply law_canon in Eb as [-> ?]. by split; [|left].
    - apply lift_ok in Eb as [Eb ->]. split; [done|]. by right. }
  apply bind_ok in E as (ex & s1 & E2 & E). injection E2 as <- <-. rewrite andb_true_r in E.
  apply bind_ok in E as (u & s1 & Em & E). apply bind_ok in E as (ex & s2 & E2 & E). injection E2 as <- <-.
  rewrite andb_false_r, andb_false_r in E. apply bind_ok in E as (u' & s2 & E2 & E). injection E2 as <- <-.
  injection E as -> -> <-. exists arg. split; [by destruct (value_of m "mount-path"); inv E1|].
  split; [done|]. split; [done|]. destruct (sh_exists bs os) eqn:Eex; [left; by injection Em as _ <-|right].
  destruct Hbs as [?|[Hp Hb]]; [done|]. cbn [negb] in Em.
  apply bind_ok in Em as (mounted & s2 & E2 & Em). pose proof (law_mountpoint _ _ _ _ E2) as ->.
  destruct mounted.
  - apply bind_ok in Em as (u2 & s2 & E3 & Em). pose proof (law_mkdir _ _ _ _ E3 Hex) as ->.
    apply bind_ok in Em as (b & s2 & E4 & Em). by rewrite (law_mount_move _ _ _ _ _ E4 Eex) in Em.
  - destruct u. by split_and!.
Qed.

(** When the backing store is there, nothing is touched and both directories
    exist. When it is not, the only success is to rename the mount path: then
    the mount path is gone, although the check that it exists came out right, so
    that FUSE has nothing to mount on; and a server started again with the same
    arguments does not get this far, it fails with "not found". A mounted file
    system in the way makes the start fail. *)
Theorem first_start_loses_mount_path m os mp bs os' :
  figure_out_paths m os = (Ok (mp, bs), os') ->
  sh_exists bs os' = true /\
  (sh_exists bs os = true -> os' = os /\ sh_exists mp os' = true) /\
  (sh_exists bs os = false ->
     sh_exists mp os' = false /\ sh_mountpoint mp os = (Ok false, os) /\
     forall arg, value_of m "mount-path" = Some arg -> sh_path arg = mp -> figure_out_paths m os' = (Err NotFound, os')).
Proof.
  intros E. destruct (figure_out_paths_ok _ _ _ _ _ E) as (arg & Harg & _ & Hmp & [[Hbs ->]|(Hbs & _ & Hi & Hm & Hr)]).
  - split; [done|]. split; [done|]. congruence.
  - assert (mp <> bs) as Hne by congruence. destruct (law_rename _ _ _ _ Hr Hne) as [Hgone Hnew].
    split; [done|]. split; [congruence|]. intros _. split; [done|]. split; [done|]. intros arg' Ha Hp.
    unfold figure_out_paths. rewrite Ha. unfold mbind, M_bind, lift. cbn.
    rewrite law_canon_missing; [done|by rewrite Hp].
Qed.

(** After [copy_security] the two paths have the same owner, group and
    permissions, set-user-id bits included. *)
Theorem copy_security_same src dst os os' mode uid gid :
  src <> dst -> sh_metadata src os = Ok (mode, uid, gid) -> copy_security src dst os = (Ok tt, os') ->
  exists m, sh_metadata dst os' = Ok (m, uid, gid) /\ Z.land m 4095 = Z.land mode 4095.
Proof.
  intros _ Hs E. unfold copy_security in E. rewrite Hs in E.
  destruct (sh_chown dst uid gid os) as [r1 os1] eqn:E1. destruct (Z.eqb_spec r1 (-1)); [done|].
  destruct (sh_chmod dst mode os1) as [r2 os2] eqn:E2. destruct (Z.eqb_spec r2 (-1)); [done|]. injection E as ->.
  destruct (law_chown _ _ _ _ _ _ E1) as (m & Hm); [done|].
  eexists. split; [by eapply law_chmod|]. rewrite Z.land_lor_distr_l, <- !Z.land_assoc.
  change (Z.land 61440 4095) with 0. change (Z.land 4095 4095) with 4095. by rewrite Z.land_0_r.
Qed.

End Paths.

(** ** What runs when FUSE takes over *)
Section Boot.
Context {OS : Type} {SH : ServerHost OS}.
Context {F : MsgFormat} {C : Compressor} {D : Digest} {E : ClientHost}.
Context {FB : StoreFormat BilogEntry} {FV : StoreFormat VFSCall}.

(** The globals the handlers find. *)
Definition boot_server (b : Boot (OS := OS)) : Server :=
  mk_Server false [] [] (bt_journal b) (bt_journal_type b) (default (mk_path false []) (bt_server_path b)).

Lemma on_os_ok {A} (m : M OS A) b a b' :
  on_os m b = (Ok a, b') -> exists os', m (bt_os b) = (Ok a, os') /\
    b' = mk_Boot os' (bt_server_path b) (bt_diff_writes b) (bt_threads b) (bt_journal_type b) (bt_journal b) (bt_fuse b).
Proof. unfold on_os. destruct (m (bt_os b)) as [r os']. intros [= -> <-]. by exists os'. Qed.

Lemma listen_ok url buffer_size dont_check b b' :
  listen url buffer_size dont_check b = (Ok tt, b') -> exists os' t,
    b' = mk_Boot os' (bt_server_path b) (bt_diff_writes b) (bt_threads b ++ [t]) (bt_journal_type b) (bt_journal b) (bt_fuse b).
Proof.
  unfold listen. intros E1. destruct (_ || _).
  - apply bind_ok in E1 as ([] & b1 & E2 & E1). apply on_os_ok in E2 as (os' & _ & ->). injection E1 as <-. by eexists _, _.
  - case_bool_decide; [|done]. injection E1 as <-. by eexists _, _.
Qed.

Lemma start_journal_ok sm b b' :
  parsed server_app sm -> start_journal sm b = (Ok tt, b') ->
  exists jt j, b' = mk_Boot (bt_os b) (bt_server_path b) (bt_diff_writes b) (bt_threads b) jt j (bt_fuse b) /\
    (jt = bt_journal_type b /\ j = bt_journal b \/ jt = JT_Bilog \/ jt = JT_Forward).
Proof.
  intros Hp E1. unfold start_journal in E1.
  apply bind_ok in E1 as (a1 & s & E2 & E1). apply lift_ok in E2 as [_ ->].
  apply bind_ok in E1 as (a2 & s & E2 & E1). apply lift_ok in E2 as [_ ->].
  apply bind_ok in E1 as (a3 & s & E2 & E1). apply lift_ok in E2 as [_ ->].
  apply bind_ok in E1 as (kind & s & E2 & E1). apply lift_ok in E2 as [Hk ->].
  case_bool_decide as Hoff.
  { injection E1 as <-. exists (bt_journal_type b), (bt_journal b). split; [by destruct b|by left]. }
  destruct (declared _ _ sm (mk_Arg "journal" false (Some "off") [] ["bilog"; "forward"; "off"] None) Hp)
    as (v & Hv & [?|Hin]); [repeat constructor|by left|done|]. cbn [arg_name arg_possible] in Hv, Hin.
  rewrite Hv in Hk. injection Hk as ->.
  apply bind_ok in E1 as (p & s & E2 & E1). apply lift_ok in E2 as [_ ->].
  apply bind_ok in E1 as (jt & s & E2 & E1). apply lift_ok in E2 as [Hjt ->].
  assert (jt = JT_Bilog \/ jt = JT_Forward) as Htyped.
  { rewrite !elem_of_cons, elem_of_nil in Hin. destruct_or! Hin; try done; subst kind; vm_compute in Hjt; injection Hjt as <-; auto. }
  apply bind_ok in E1 as ([] & s & E2 & E1). injection E2 as <-.
  apply bind_ok in E1 as (b1 & s & E2 & E1). injection E2 as <- <-.
  apply bind_ok in E1 as (root & s & E2 & E1). apply lift_ok in E2 as [_ ->].
  apply bind_ok in E1 as (j & s & E2 & E1). apply lift_ok in E2 as [_ ->]. injection E1 as <-.
  exists jt, (Some j). split; [done|by right].
Qed.

(** C19. When the command line makes the server start, the threads are there, the
    server path is set, FUSE is told to mount where the arguments say, and the
    journal, if there is one, is of one of the two types that [pre_op] can write:
    its panic on other types is out of reach. *)
Theorem server_main_boots m os b :
  parsed main_app m ->
  server_main m (mk_Boot os None false [] JT_Invalid None None) = (Ok tt, b) ->
  exists mp bs os1 sm, subcommand_matches m "server" = Some sm /\
    figure_out_paths sm os = (Ok (mp, bs), os1) /\ sv_path (boot_server b) = bs /\
    (exists flush accept, bt_threads b = flush ++ [HarvesterThread; accept] /\ (List.length flush <= 1)%nat) /\
    bt_fuse b = Some (["fsyncd"; sh_str mp; "-o"; "default_permissions"] ++ sh_extra_args) /\
    bt_diff_writes b = is_present sm "diff-writes" /\
    (sv_journal (boot_server b) <> None ->
       sv_journal_type (boot_server b) = JT_Bilog \/ sv_journal_type (boot_server b) = JT_Forward).
Proof.
  intros Hp E1. unfold server_main in E1.
  apply bind_ok in E1 as (sm & s & E2 & E1). apply lift_ok in E2 as [Hsm ->].
  assert (subcommand_matches m "server" = Some sm) as Hsm' by (by destruct (subcommand_matches m "server"); inv Hsm).
  pose proof (server_app_of _ _ Hp Hsm') as Hps.
  apply bind_ok in E1 as (u1 & s & E2 & E1). apply lift_ok in E2 as [_ ->].
  apply bind_ok in E1 as (url & s & E2 & E1). apply lift_ok in E2 as [_ ->].
  apply bind_ok in E1 as ([mp bs] & s & E2 & E1). apply on_os_ok in E2 as (os1 & Hf & ->).
  apply bind_ok in E1 as ([] & s & E2 & E1). injection E2 as <-.
  apply bind_ok in E1 as (i1 & s & E2 & E1). apply lift_ok in E2 as [_ ->].
  apply bind_ok in E1 as (interval & s & E2 & E1). apply lift_ok in E2 as [_ ->].
  apply bind_ok in E1 as ([] & s & E2 & E1). cbn in E2.
  assert (s = mk_Boot os1 (Some bs) (is_present sm "diff-writes") [] JT_Invalid None None) as ->
    by (destruct (is_present sm "diff-writes"); by injection E2 as <-). clear E2.
  apply bind_ok in E1 as (b1 & s & E2 & E1). apply lift_ok in E2 as [_ ->].
  apply bind_ok in E1 as (b2 & s & E2 & E1). apply lift_ok in E2 as [_ ->].
  apply bind_ok in E1 as (size & s & E2 & E1). apply lift_ok in E2 as [_ ->].
  apply bind_ok in E1 as ([] & s & E2 & E1).
  assert (exists flush, s = mk_Boot os1 (Some bs) (is_present sm "diff-writes") flush JT_Invalid None None /\ (List.length flush <= 1)%nat)
    as (flush & -> & Hlen).
  { destruct (negb (interval =? 0)); injection E2 as <-; eexists; (split; [reflexivity|cbn; lia]). } clear E2.
  apply bind_ok in E1 as ([] & s & E2 & E1). injection E2 as <-.
  apply bind_ok in E1 as ([] & s & E2 & E1). apply listen_ok in E2 as (os2 & accept & ->).
  apply bind_ok in E1 as ([] & s & E2 & E1). apply (start_journal_ok _ _ _ Hps) in E2 as (jt & j & -> & Hj).
  injection E1 as <-. exists mp, bs, os1, sm. cbn in *. split_and!; try done.
  - exists flush, accept. by rewrite <- app_assoc.
  - intros Hne. destruct Hj as [[_ ->]|Hj]; [done|exact Hj].
Qed.

End Boot.

(** ** Instances *)
#[local] Existing Instances no_compressor toy_host toy_host_laws.
#[local] Instance start_digest : Digest := byte_sum.
#[local] Instance start_msgs : MsgFormat := table_msgs [].
#[local] Instance start_msgs_laws : MsgFormatLaws := table_msgs_laws [].
#[local] Instance start_bilogs : StoreFormat BilogEntry := mapped_format (fun _ => []) (fun _ => BE_filestore (toy_path "f") 0).
#[local] Instance start_vfscalls : StoreFormat VFSCall := mapped_format (fun _ => []) (fun _ => unlink (toy_path "f")).

Lemma client_and_control_panic_witness :
  let E := toy_client_host (Ok 0) in client_start (command "client" client_matches) = Panic.
Proof. exact (proj1 (client_and_control_panic (E := toy_client_host (Ok 0)) (command "client" client_matches) client_command_parsed)). Defined.

Lemma parse_options_typed_witness :
  exists init, parse_options client_matches = Ok init /\ im_iolimit_bps init = 10240.
Proof.
  destruct (parse_options_typed client_matches "10K" 10240 client_parsed eq_refl ltac:(vm_compute; reflexivity))
    as (init & sync & stream & rt & H1 & H2 & _).
  exists init. exact (conj H1 H2).
Defined.

(** A directory with two files, listed in two orders. *)
#[local] Instance start_hasher : Hasher := {|
  hasher := Z; hasher_new := 7;
  hasher_feed := fun i h => match i with
                            | HashPath p => h * 31 + Z.of_nat (List.length p)
                            | HashFileType t | HashU32 t | HashU64 t => (h * 31 + t) mod 65537
                            end;
  hasher_finish := fun h => h |}.

Definition leaf (len : Z) : node := Node 32768 (Ok (mk_metadata 33188 len 0 0)) None [].
Definition demo_tree (kids : list (string * node)) : node := Node S_IFDIR (Ok (mk_metadata 16877 0 0 0)) None kids.
Definition demo_tree1 : node := demo_tree [("b", leaf 5); ("a", leaf 3)].
Definition demo_tree2 : node := demo_tree [("a", leaf 3); ("b", leaf 5)].

Lemma demo_mirrored : mirrored demo_tree1 demo_tree2.
Proof.
  assert (forall kids, NoDup kids.*1 -> Forall (fun k => unique_names (snd k)) kids -> unique_names (demo_tree kids)) as Hu.
  { intros kids Hn Hk. split; [done|]. clear Hn. by induction Hk as [|k kids Hk _ IH]. }
  assert (forall len, unique_names (leaf len)) as Hl by (split; [apply NoDup_nil_2|done]).
  split; [|split; [|split; [|split]]].
  - apply Hu; [apply (bool_decide_unpack _); vm_compute; exact I|]. repeat constructor; apply Hl.
  - apply Hu; [apply (bool_decide_unpack _); vm_compute; exact I|]. repeat constructor; apply Hl.
  - repeat constructor; by eexists _, _, _.
  - repeat constructor; by eexists _, _, _.
  - cbn. apply Permutation_swap.
Qed.

Lemma hash_metadata_mirror_witness :
  hash_metadata demo_tree1 = hash_metadata demo_tree2 /\ hash_metadata demo_tree1 <> hash_metadata (demo_tree [("a", leaf 3)]).
Proof.
  split; [|vm_compute; discriminate].
  destruct (hash_metadata_mirror demo_tree1 demo_tree2 demo_mirrored) as (h & H1 & H2).
  exact (eq_trans H1 (eq_sym H2)).
Defined.

Definition demo_init : InitMsg := mk_InitMsg MODE_SYNC 0 0 0 0.

Lemma bad_peer_stops_accepting_witness :
  let i := mk_incoming (ser_msg Msg_NOP) (mk_stream [] None) (Ok 0) (Ok tt) in
  let j := mk_incoming (ser_msg (Msg_InitMsg demo_init)) (mk_stream [] None) (Ok 0) (Ok tt) in
  let s := mk_Server false [] [] None JT_Invalid (toy_path "b") in
  accept_loop true [Ok i; Ok j] s = (Panic, s) /\
  exists c, accept_loop true [Ok j] s = (Ok tt, sv_set_clients s [] [c]).
Proof.
  intros i j s. split.
  - apply (bad_peer_stops_accepting true i Msg_NOP [] [Ok j] s); [by rewrite app_nil_r|vm_compute; repeat split; discriminate|discriminate].
  - eexists. vm_compute. reflexivity.
Defined.

Definition start_dirs : dirs := [(toy_path "m", (17901, 1000, 100))].

Lemma first_start_loses_mount_path_witness :
  let bs := mk_path true [".fsyncer-m"] in
  exists os', figure_out_paths server_matches start_dirs = (Ok (toy_path "m", bs), os') /\
    sh_exists (toy_path "m") os' = false /\ figure_out_paths server_matches os' = (Err NotFound, os').
Proof.
  intros bs. destruct (figure_out_paths server_matches start_dirs) as [r os'] eqn:E.
  assert (r = Ok (toy_path "m", bs)) as -> by (change r with (fst (r, os')); rewrite <- E; vm_compute; reflexivity).
  destruct (first_start_loses_mount_path server_matches start_dirs (toy_path "m") bs os' E) as (_ & _ & H).
  destruct (H ltac:(vm_compute; reflexivity)) as (Hg & _ & Hn).
  exists os'. exact (conj eq_refl (conj Hg (Hn "m" ltac:(vm_compute; reflexivity) eq_refl))).
Defined.

Lemma copy_security_same_witness :
  let os := (toy_path "d", (16877, 0, 0)) :: start_dirs in
  exists os' m, copy_security (toy_path "m") (toy_path "d") os = (Ok tt, os') /\
    sh_metadata (toy_path "d") os' = Ok (m, 1000, 100) /\ Z.land m 4095 = 1517.
Proof.
  intros os. destruct (copy_security (toy_path "m") (toy_path "d") os) as [r os'] eqn:E.
  assert (r = Ok tt) as -> by (change r with (fst (r, os')); rewrite <- E; vm_compute; reflexivity).
  destruct (copy_security_same (toy_path "m") (toy_path "d") os os' 17901 1000 100 ltac:(discriminate) ltac:(reflexivity) E) as (m & H1 & H2).
  exists os', m. exact (conj eq_refl (conj H1 H2)).
Defined.

Lemma server_main_boots_witness :
  let E := toy_client_host (Ok 0) in
  let b0 := mk_Boot start_dirs None false [] JT_Invalid None None in
  let b := snd (server_main (command "server" server_matches) b0) in
  fst (server_main (command "server" server_matches) b0) = Ok tt /\
  bt_journal b <> None /\ (bt_journal_type b = JT_Bilog \/ bt_journal_type b = JT_Forward).
Proof.
  intros E b0 b. destruct (server_main (command "server" server_matches) b0) as [r b'] eqn:Es.
  assert (r = Ok tt) as -> by (change r with (fst (r, b')); rewrite <- Es; vm_compute; reflexivity).
  assert (bt_journal b' <> None) as Hj.
  { assert ((match bt_journal b' with Some _ => true | None => false end) = true) as Hb.
    { change b' with (snd (@Ok unit tt, b')). rewrite <- Es. vm_compute. reflexivity. }
    intros Hn. by rewrite Hn in Hb. }
  destruct (server_main_boots (E := E) (command "server" server_matches) start_dirs b' server_command_parsed Es)
    as (mp & bs & os1 & sm & _ & _ & _ & _ & _ & _ & H).
  exact (conj eq_refl (conj Hj (H Hj))).
Defined.
