(* ===== verification/Lifecycle.v ===== *)
(** * A client from connecting to the copy it keeps

    The connection of a client, the thread that accepts it, the requests the
    server serves and the loop of the client, put together: a client whose tree
    mirrors the server's when it connects has the same tree afterwards. *)

From stdpp Require Import base list numbers option gmap strings.
From Stdlib Require Import ZArith Lia Ascii String.
From S2P Require Import Prelude Common Filestore Store StoreInst Entries Bilog Net NetSpec NetInst Ops OpsSpec OpsInst Server Handlers ServerSpec HandlerSpec Converge HandlerProps Hash Cli Startup StartupInst StartupProps.

Local Open Scope list_scope.
Local Open Scope Z_scope.

Section Lifecycle.
Context {F : MsgFormat} {L : MsgFormatLaws} {C : Compressor} {D : Digest} {H : Hasher} {E : ClientHost}.
Context {FB : StoreFormat BilogEntry} {FV : StoreFormat VFSCall}.
Context {OS1 OS2 : Type} {Sys1 : Syscalls OS1} {Sys2 : Syscalls OS2} {r1 r2 : path}.
Context {Mi : Mirror (OS1 := OS1) (OS2 := OS2) r1 r2}.

(** The server: the connections that came, then the requests of the kernel. *)
Definition server_session (dont_check : bool) (conns : list incoming) (l : list req) : M (Server * OS1) (list Z) :=
  fun '(s, o1) =>
  match accept_loop dont_check (Ok <$> conns) s with
  | (Ok _, s) => run_requests l (s, o1)
  | (Err e, s) => (Err e, (s, o1))
  | (Panic, s) => (Panic, (s, o1))
  | (NoFuel, s) => (NoFuel, (s, o1))
  end.

(** [client_main] with one dispatch thread, from the path on: how the loop ended
    and the connection. *)
Definition client_session (fuel : nat) (cm : ArgMatches) (url : Url) (buffer_size : Z) (init : InitMsg)
  : M OS2 (outcome unit * ServerConnection) :=
  client ← lift (client_connect cm url buffer_size init);
  (fun o2 => let '(r, (sc, o2)) := process_ops (fun call => dispatch call (fst client)) fuel (snd client, o2) in (Ok (r, sc), o2)) : M OS2 _.

(** Somebody who introduces himself and becomes this client. *)
Definition becomes (dont_check : bool) (i : incoming) (c : Client) : Prop :=
  exists rest, from_stream (in_input i) (in_output i) dont_check (in_srchash i) (in_rsync i) = Ok (c, rest).

(** The clients after accepting. *)
Definition accepted (s : Server) (cs : list Client) : Server := sv_set_clients s (sv_cells s) (sv_clients s ++ cs).

Lemma server_session_accepted dont_check conns cs l s o1 :
  Forall2 (becomes dont_check) conns cs ->
  server_session dont_check conns l (s, o1) = run_requests l (accepted s cs, o1).
Proof. intros Hcs. unfold server_session. by rewrite (accept_loop_clients dont_check conns cs s Hcs). Qed.

(** C1. A client whose tree mirrors the server's, and which asks for no packet
    compression and no initial synchronisation, connects; when the server has
    accepted it, among whoever else, and then served requests, the loop of the
    client reads all that the server wrote to it, ends with the end of the
    connection and leaves a copy that is the server's tree; and a synchronous
    client has answered every request with the server's code. *)
Theorem session_mirrors cm url buffer_size init arg tc ts netin o2 :
  value_of cm "mount-path"%string = Some arg -> host_canonize arg = Ok r2 -> host_hash r2 = hash_metadata tc ->
  mirrored tc ts -> reaches_server url (negb (bool_decide (im_mode init = MODE_ASYNC))) buffer_size netin ->
  flags_contains (im_options init) Options_INITIAL_RSYNC = false -> rt_comp_of (im_compress init) = None ->
  im_mode init <> MODE_CONTROL ->
  (forall h, hash_metadata tc = Ok h ->
     msg_ok (Msg_InitMsg (mk_InitMsg (im_mode init) h (im_compress init) (im_iolimit_bps init) (im_options init)))) ->
  exists hello, client_connect cm url buffer_size init =
      Ok (r2, mk_ServerConnection (mk_stream hello None) netin [] (im_mode init) None) /\
  forall before i after cs1 cs2 l s o1 codes s' o1' rsync,
    i = mk_incoming hello (mk_stream [] None) (hash_metadata ts) rsync ->
    Forall2 (becomes false) before cs1 -> Forall2 (becomes false) after cs2 ->
    server_session false (before ++ i :: after) l (s, o1) = (Ok codes, (s', o1')) ->
    (forall c, becomes false i c -> ready_all (r1 := r1) (r2 := r2) (OS2 := OS2) l (accepted s (cs1 ++ c :: cs2), o1)) ->
    sv_journal s = None -> sv_path s = r1 -> run_ok (op_of <$> l) -> mi_rel o1 o2 ->
    exists c', sv_clients s' !! (List.length (sv_clients s) + List.length cs1)%nat = Some c' /\
      (netin = st_out (cl_write c') -> exists sc o2',
        client_session (S (List.length netin)) cm url buffer_size init o2 = (Ok (Err UnexpectedEof, sc), o2') /\
        mi_rel o1' o2' /\
        (im_mode init = MODE_SYNC -> st_out (sc_write sc) = hello ++ (zip_with ack_of l codes ≫= ser_msg))).
Proof.
  intros Harg Hp Hh Hm Hc Hopt Hrt Hmode Hok.
  destruct (mirror_accepted cm url buffer_size init arg r2 tc ts netin (mk_stream [] None) (Ok tt) Harg Hp Hh Hm Hc Hopt Hok)
    as (hello & Hconn & _). rewrite Hrt in Hconn. exists hello. split; [done|].
  intros before i after cs1 cs2 l s o1 codes s' o1' rsync -> Hb Ha Hrun Hready Hj Hpath Hrok HR.
  destruct (mirror_accepted cm url buffer_size init arg r2 tc ts netin (mk_stream [] None) rsync Harg Hp Hh Hm Hc Hopt Hok)
    as (hello' & Hconn' & Hin). rewrite Hconn, Hrt in Hconn'. injection Hconn' as <-. rewrite Hrt in Hin.
  set (c := mk_Client (im_mode init) (im_compress init) (mk_stream [] None) None ∅ ALIVE) in *.
  assert (becomes false (mk_incoming hello (mk_stream [] None) (hash_metadata ts) rsync) c) as Hbc by by exists [].
  rewrite (server_session_accepted false _ (cs1 ++ c :: cs2)) in Hrun
    by (apply Forall2_app; [done|by apply Forall2_cons]).
  assert (sv_clients (accepted s (cs1 ++ c :: cs2)) !! (List.length (sv_clients s) + List.length cs1)%nat = Some c) as Hi.
  { cbn. rewrite app_assoc, lookup_app_r by (rewrite length_app; lia). by rewrite length_app, Nat.sub_diag. }
  destruct (copy_follows (Mi := Mi) l (accepted s (cs1 ++ c :: cs2)) o1 o2 codes s' o1' _ c
    (mk_ServerConnection (mk_stream hello None) netin [] (im_mode init) None) Hrun (Hready c Hbc) Hj Hpath Hrok Hi)
    as (c' & bytes & Hi' & Hout & Hfol); try done.
  exists c'. split; [done|]. cbn in Hout. rewrite Hout. intros Hnet. subst netin.
  destruct (Hfol eq_refl) as (sc & o2' & Hops & HR' & Hacks). exists sc, o2'. split; [|done].
  unfold client_session, mbind, M_bind, lift. rewrite Hconn. cbn [fst snd]. by rewrite Hops.
Qed.

End Lifecycle.

(** ** Instances

    The small system of the handlers, a client under the directory [m], and the
    tree with two files whose checksum both ends agree on. *)
#[local] Existing Instances demo_msgs demo_laws demo_compressor demo_digest demo_bilogs demo_vfscalls demo_sys start_hasher.
#[local] Instance life_mirror : Mirror (demo_root "srv") (toy_path "m") := toy_mirror (demo_root "srv") (toy_path "m").

(** A host whose connection will carry these bytes. *)
Definition life_host (netin : list Z) : ClientHost := {|
  url_parse := fun s => Some (mk_Url "unix" "" None s);
  tcp_connect := fun _ _ _ => Err OtherError;
  unix_connect := fun _ => Ok (netin, mk_stream [] None);
  stdio := ([], mk_stream [] None);
  host_canonize := fun s => Ok (toy_path s);
  host_hash := fun _ => hash_metadata demo_tree1;
  host_rsync := fun d _ => Ok d |}.

Definition life_hash : Z := match hash_metadata demo_tree1 with Ok h => h | _ => 0 end.
Definition life_init : InitMsg := mk_InitMsg MODE_SYNC 0 0 0 0.
Definition life_hello : list Z := ser_msg (Msg_InitMsg (mk_InitMsg MODE_SYNC life_hash 0 0 0)).
Definition life_incoming : incoming := mk_incoming life_hello (mk_stream [] None) (hash_metadata demo_tree2) (Ok tt).
Definition life_url : Url := mk_Url "unix" "" None "s".
Definition life_server : Server := mk_Server false [] [] None JT_Invalid (demo_root "srv").
Definition life_final := server_session false [life_incoming] demo_requests (life_server, demo_os "srv" ∅ ∅).
Definition life_bytes : list Z :=
  match sv_clients (fst (snd life_final)) !! 0%nat with Some c => st_out (cl_write c) | None => [] end.

Lemma session_mirrors_witness :
  exists sc o2',
    server_session false [life_incoming] demo_requests (life_server, demo_os "srv" ∅ ∅) = (Ok [0; 1], snd life_final) /\
    client_session (E := life_host life_bytes) (S (List.length life_bytes)) client_matches life_url 0 life_init (demo_os "m" ∅ ∅) =
      (Ok (Err UnexpectedEof, sc), o2') /\
    t_files (snd (snd life_final)) = t_files o2' /\
    st_out (sc_write sc) = life_hello ++ (zip_with ack_of demo_requests [0; 1] ≫= ser_msg).
Proof.
  assert (server_session false [life_incoming] demo_requests (life_server, demo_os "srv" ∅ ∅) =
    (Ok [0; 1], (fst (snd life_final), snd (snd life_final)))) as Hrun by (vm_compute; reflexivity).
  destruct (session_mirrors (E := life_host life_bytes) (r1 := demo_root "srv") (r2 := toy_path "m") client_matches life_url 0 life_init
    "m" demo_tree1 demo_tree2 life_bytes (demo_os "m" ∅ ∅)) as (hello & Hconn & Hs).
  - vm_compute. reflexivity.
  - reflexivity.
  - reflexivity.
  - exact demo_mirrored.
  - left. split; reflexivity.
  - reflexivity.
  - reflexivity.
  - discriminate.
  - intros h Hh. vm_compute in Hh. injection Hh as <-. ground.
  - assert (hello = life_hello) as ->.
    { assert (client_connect (E := life_host life_bytes) client_matches life_url 0 life_init =
        Ok (toy_path "m", mk_ServerConnection (mk_stream life_hello None) life_bytes [] MODE_SYNC None)) as Hc
        by (vm_compute; reflexivity).
      pose proof (eq_trans (eq_sym Hc) Hconn) as He. congruence. }
    destruct (Hs [] life_incoming [] [] [] demo_requests life_server (demo_os "srv" ∅ ∅) [0; 1]
      (fst (snd life_final)) (snd (snd life_final)) (Ok tt)) as (c' & Hi & Hfol).
    + reflexivity.
    + constructor.
    + constructor.
    + exact Hrun.
    + intros c [rest Hc]. assert (c = demo_client) as ->.
      { assert (from_stream life_hello (mk_stream [] None) false (hash_metadata demo_tree2) (Ok tt) = Ok (demo_client, [])) as Hd
          by (vm_compute; reflexivity).
        pose proof (eq_trans (eq_sym Hd) Hc) as He. congruence. }
      split; [by split|split; [|exact I]]. split; [done|]. split; vm_compute; [done|by eexists].
    + reflexivity.
    + reflexivity.
    + exact demo_requests_ok.
    + clear. repeat split; done.
    + destruct Hfol as (sc & o2' & Hops & (_ & _ & Hf & _) & Ha).
      { unfold life_bytes. change (sv_clients (fst (snd life_final)) !! 0%nat = Some c') in Hi. by rewrite Hi. }
      exists sc, o2'. exact (conj Hrun (conj Hops (conj Hf (Ha eq_refl)))).
Defined.
