(* ===== verification/Commands.v ===== *)
(** * The program's commands: [main] of [fsyncd/src/main.rs], and how rsync is run

    Which command the arguments ask for, what is left for FUSE, and the commands
    [checksum] and [fakeshell]; and [server] and [client] of
    [fsyncd/src/common/rsync.rs], which run the rsync program. Running a program
    and the descriptors are a class. *)

From stdpp Require Import base list numbers option strings pretty.
From Stdlib Require Import ZArith Lia Ascii String.
From S2P Require Import Prelude Common Filestore Store StoreInst Net NetInst Hash Cli StartupInst.

Local Open Scope string_scope.
Local Open Scope list_scope.
Local Open Scope Z_scope.

(** ** The arguments *)

(** [args().take_while(|v| v != "--")], and what [server_main] hands to FUSE. *)
Fixpoint own_args (l : list string) : list string :=
  match l with
  | [] => []
  | a :: l => if bool_decide (a = "--") then [] else a :: own_args l
  end.

Fixpoint skip_own (l : list string) : list string :=
  match l with
  | [] => []
  | a :: l' => if bool_decide (a = "--") then l else skip_own l'
  end.

Definition fuse_args (l : list string) : list string := drop 1 (skip_own l).

(** ** The command *)
Inductive command :=
| RunServer (m : ArgMatches)
| RunClient (m : ArgMatches)
| RunSnapshot (m : ArgMatches)
| RunJournal (m : ArgMatches)
| RunChecksum (m : ArgMatches)
| RunControl (m : ArgMatches)
| RunFakeshell (m : ArgMatches).

(** Whether [DEBUG] is set, and the branch that is taken. *)
Definition main_command (m : ArgMatches) : outcome (bool * command) :=
  let debug := is_present m "debug" in
  match subcommand_name m with
  | Some n =>
    if bool_decide (n = "server") then Ok (debug, RunServer m)
    else if bool_decide (n = "client") then Ok (debug, RunClient m)
    else if bool_decide (n = "snapshot") then Ok (debug, RunSnapshot m)
    else if bool_decide (n = "journal") then Ok (debug, RunJournal m)
    else if bool_decide (n = "checksum") then Ok (debug, RunChecksum m)
    else if bool_decide (n = "control") then Ok (debug, RunControl m)
    else if bool_decide (n = "fakeshell") then Ok (debug, RunFakeshell m)
    else Panic
  | None => Panic
  end.

(** What [checksum] prints, of the first of the paths it accepts; [tree_at] is
    the file system. *)
Definition run_checksum {H : Hasher} (tree_at : string -> node) (m : ArgMatches) : outcome Z :=
  m ← unwrap (subcommand_matches m "checksum");
  p ← unwrap (value_of m "mount-path");
  expect_ok (hash_metadata (tree_at p)).

(** ** Descriptors as text *)

(** [i32]'s [from_str]. *)
Definition parse_i32 (s : string) : option Z :=
  let l := list_ascii_of_string s in
  match l with
  | c :: (_ :: _) as l' =>
    if Ascii.eqb c "-" then
      n ← parse_digits 0 (tail l); if n <=? 2 ^ 31 then Some (- n) else None
    else n ← parse_u64 l; if n <? 2 ^ 31 then Some n else None
  | _ => n ← parse_u64 l; if n <? 2 ^ 31 then Some n else None
  end.

(** The descriptors of the network, and then standard output and input. *)
Definition run_fakeshell (m : ArgMatches) : outcome (Z * Z * Z * Z) :=
  m ← unwrap (subcommand_matches m "fakeshell");
  netin ← unwrap (value_of m "netin");
  netin ← unwrap (parse_i32 netin);
  netout ← unwrap (value_of m "netout");
  netout ← unwrap (parse_i32 netout);
  Ok (netin, netout, 1, 0).

(** ** [fsyncd/src/common/rsync.rs] *)

(** A program that was started: the exit status that waiting for it gives. *)
Class RsyncHost (OS : Type) := {
  rs_dup : Z -> OS -> Z * OS;
  rs_keep_on_exec : Z -> OS -> Z * OS;                          (* [fcntl(fd, F_SETFD, 0)] *)
  rs_errno : OS -> Z;
  rs_current_exe : OS -> outcome (option string);               (* [None] when it is no text *)
  rs_spawn : list string -> OS -> outcome Z * OS;               (* the process *)
  rs_wait : Z -> OS -> outcome Z * OS }.                        (* its exit status *)

Section Rsync.
Context {OS : Type} {RS : RsyncHost OS}.

Definition deleted_suffix : string := " (deleted)".

(** [ends_with] and [truncate]. *)
Definition strip_deleted (s : string) : string :=
  let n := (String.length s - String.length deleted_suffix)%nat in
  if bool_decide (String.substring n (String.length deleted_suffix) s = deleted_suffix)
  then String.substring 0 n s else s.

Definition keep_on_exec (fd : Z) : M OS unit := fun os =>
  let '(r, os) := rs_keep_on_exec fd os in
  if r =? -1 then (Err (OsError (rs_errno os)), os) else (Ok tt, os).

Definition rs_dup_fd (fd : Z) : M OS Z := fun os => let '(r, os) := rs_dup fd os in (Ok r, os).

(** [format!("{} fakeshell {} {}", ..)]. *)
Definition shell_command (exe : string) (netin netout : Z) : string :=
  exe +:+ " fakeshell " +:+ pretty netin +:+ " " +:+ pretty netout.

(** [src.push("./")]. *)
Definition server_command (exe : string) (netin netout : Z) (src : string) : list string :=
  ["rsync"; "-avhAX"; "--delete"; "-e"; shell_command exe netin netout; src +:+ "/./"; ":."].

Definition rsync_server (netin netout : Z) (src : string) : M OS unit :=
  netin ← rs_dup_fd netin;
  netout ← rs_dup_fd netout;
  _ ← keep_on_exec netin;
  _ ← keep_on_exec netout;
  exe ← (fun os => (rs_current_exe os, os));
  exe ← expect exe;
  child ← rs_spawn (server_command (strip_deleted exe) netin netout src);
  _ ← rs_wait child;
  mret tt.

Definition client_command (dst : string) : list string :=
  ["rsync"; "--server"; "-vlogDtpAXre.iLsfxC"; "--delete"; "."; dst].

(** [bridge] is [rsync_bridge] between the connection and the pipes of the
    process; nobody waits for the process. *)
Definition rsync_client {A} (bridge : Z -> M OS A) (dst : string) : M OS A :=
  child ← rs_spawn (client_command dst);
  bridge child.

End Rsync.

(** ** Theorems *)

(** Nothing is lost between the two. *)
Lemma args_split l : "--" ∈ l -> l = own_args l ++ "--" :: fuse_args l.
Proof.
  unfold fuse_args. induction l as [|a l IH]; intros Hin; [by apply elem_of_nil in Hin|]. cbn [own_args skip_own].
  destruct (bool_decide (a = "--")) eqn:E; [apply bool_decide_eq_true in E as ->; done|].
  apply bool_decide_eq_false in E. apply elem_of_cons in Hin as [?|Hin]; [congruence|]. cbn. f_equal. by apply IH.
Qed.

Lemma args_without l : "--" ∉ l -> own_args l = l /\ fuse_args l = [].
Proof.
  unfold fuse_args. induction l as [|a l IH]; intros Hin; [done|]. apply not_elem_of_cons in Hin as [Ha Hin]. cbn [own_args skip_own].
  rewrite bool_decide_false by congruence. destruct (IH Hin) as [Ho Hf]. by rewrite Ho.
Qed.

Lemma parsed_names args subs m n : parsed (mk_App args subs) m -> subcommand_name m = Some n -> n ∈ subs.*1.
Proof.
  intros Hp Hn. inversion Hp as [? ? vs sub _ _ _ Hs]; subst. cbn in Hn. destruct sub as [[n' m']|]; [|done].
  injection Hn as ->. inversion Hs as [|? ? app ? Hin Hm]; subst. by apply (list_elem_of_fmap_2 fst) in Hin.
Qed.

(** Every command line that is accepted and names a command is run by the branch
    of that command; without one [main] panics. *)
Theorem main_has_branch m :
  parsed main_app m ->
  match subcommand_name m with
  | Some n => exists c, main_command m = Ok (is_present m "debug", c) /\
      (n, c) ∈ [("server", RunServer m); ("client", RunClient m); ("snapshot", RunSnapshot m); ("journal", RunJournal m);
                ("checksum", RunChecksum m); ("control", RunControl m); ("fakeshell", RunFakeshell m)]
  | None => main_command m = Panic
  end.
Proof.
  intros Hp. unfold main_command. destruct (subcommand_name m) as [n|] eqn:En; [|done].
  apply (parsed_names _ _ _ _ Hp) in En. cbn in En. rewrite !elem_of_cons, elem_of_nil in En.
  destruct_or! En; subst n; cbn; eexists; (split; [reflexivity|]); repeat constructor.
Qed.

(** *** Descriptors *)
Lemma digit_char n : (n < 10)%N -> digit_val (pretty_N_char n) = Some (Z.of_N n).
Proof. intros Hn. destruct n as [|p]; [done|]. do 4 (destruct p as [p|p|]; [lia || idtac|lia || idtac|done]). Qed.

Lemma parse_pretty_go x : forall s, Z.of_N x < 2 ^ 64 ->
  parse_digits 0 (list_ascii_of_string (pretty_N_go x s)) = parse_digits (Z.of_N x) (list_ascii_of_string s).
Proof.
  induction (N.lt_wf_0 x) as [x _ IH]; intros s Hx. destruct (decide (x = 0)%N) as [->|Hne]; [by rewrite pretty_N_go_0|].
  rewrite pretty_N_go_step by lia. rewrite IH; [|by apply N.div_lt; lia|].
  - cbn [list_ascii_of_string parse_digits]. rewrite digit_char by (apply N.mod_lt; lia).
    assert (Z.of_N (x / 10) * 10 + Z.of_N (x mod 10) = Z.of_N x) as ->.
    { rewrite N2Z.inj_div, N2Z.inj_mod. pose proof (Z.div_mod (Z.of_N x) 10). lia. }
    by rewrite (proj2 (Z.ltb_lt _ _) Hx).
  - rewrite N2Z.inj_div. apply Z.le_lt_trans with (Z.of_N x); [apply Z.div_le_upper_bound; lia|done].
Qed.

Lemma pretty_go_head x : (0 < x)%N -> forall s, exists c s', pretty_N_go x s = String c s' /\ is_Some (digit_val c).
Proof.
  induction (N.lt_wf_0 x) as [x _ IH]; intros Hx s. rewrite pretty_N_go_step by done.
  destruct (decide (x / 10 = 0)%N) as [->|Hne].
  - rewrite pretty_N_go_0. eexists _, _. split; [done|]. rewrite digit_char by (apply N.mod_lt; lia). by eexists.
  - apply IH; [by apply N.div_lt|by apply N.neq_0_lt_0].
Qed.

(** A descriptor that the server puts on the command line is the one that the
    fakeshell reads. *)
Lemma parse_pretty_fd n : 0 <= n < 2 ^ 31 -> parse_i32 (pretty n) = Some n.
Proof.
  intros Hn. destruct (decide (n = 0)) as [->|Hne]; [done|].
  assert (pretty n = pretty_N_go (Z.to_N n) EmptyString) as E by (destruct n as [|p|p]; [lia|done|lia]).
  rewrite E. destruct (pretty_go_head (Z.to_N n) ltac:(lia) EmptyString) as (c & s & Es & [d Hd]).
  assert (Ascii.eqb c "-" = false /\ Ascii.eqb c "+" = false) as [Hm Hp].
  { split; apply Ascii.eqb_neq; intros ->; by vm_compute in Hd. }
  assert (parse_u64 (list_ascii_of_string (pretty_N_go (Z.to_N n) EmptyString)) = Some n) as Hu.
  { rewrite Es. cbn [list_ascii_of_string parse_u64]. rewrite Hp. change (c :: list_ascii_of_string s) with (list_ascii_of_string (String c s)).
    rewrite <- Es, parse_pretty_go by lia. cbn. f_equal. lia. }
  unfold parse_i32. rewrite Hu. rewrite Es. cbn [list_ascii_of_string].
  destruct (list_ascii_of_string s); [|rewrite Hm]; cbn; by rewrite (proj2 (Z.ltb_lt n (2 ^ 31))) by lia.
Qed.

(** *** The initial synchronisation *)

(** A word of a command. *)
Definition no_space (w : string) : Prop := w <> EmptyString /\ " "%char ∉ list_ascii_of_string w.

Section Sync.
Context {OS : Type} {RS : RsyncHost OS}.

(** rsync splits the command of [-e] at spaces. *)
Context (words : string -> list string)
  (Hwords : forall l, Forall no_space l -> l <> [] -> words (String.concat " " l) = l).

Lemma shell_command_words exe netin netout :
  shell_command exe netin netout = String.concat " " [exe; "fakeshell"; pretty netin; pretty netout].
Proof. reflexivity. Qed.

(** The fakeshell that rsync starts gets the descriptors of the connection, when
    the path of the program has no spaces. *)
Theorem fakeshell_gets_descriptors exe netin netout m fm :
  0 <= netin < 2 ^ 31 -> 0 <= netout < 2 ^ 31 ->
  Forall no_space [exe; "fakeshell"; pretty netin; pretty netout] ->
  subcommand_matches m "fakeshell" = Some fm ->
  value_of fm "netin" = words (shell_command exe netin netout) !! 2%nat ->
  value_of fm "netout" = words (shell_command exe netin netout) !! 3%nat ->
  run_fakeshell m = Ok (netin, netout, 1, 0).
Proof.
  intros Hi Ho Hw Hm Hin Hout. rewrite shell_command_words, Hwords in Hin, Hout by done. cbn in Hin, Hout.
  unfold run_fakeshell. rewrite Hm. cbn -[parse_i32]. rewrite Hin. cbn -[parse_i32]. rewrite parse_pretty_fd by done.
  cbn -[parse_i32]. rewrite Hout. cbn -[parse_i32]. by rewrite parse_pretty_fd.
Qed.

Context {F : MsgFormat} {L : MsgFormatLaws} {C : Compressor}.

Lemma rsync_server_ok fin fout src os :
  (forall fd os, fst (rs_keep_on_exec fd os) <> -1) -> (forall os, exists exe, rs_current_exe os = Ok (Some exe)) ->
  (forall args os, exists child, fst (rs_spawn args os) = Ok child) -> (forall child os, exists status, fst (rs_wait child os) = Ok status) ->
  fst (rsync_server fin fout src os) = Ok tt.
Proof.
  intros Hk He Hs Hw. unfold rsync_server, rs_dup_fd, keep_on_exec. munfold.
  destruct (rs_dup fin os) as [a os1]. destruct (rs_dup fout os1) as [b os2].
  pose proof (Hk a os2) as H1. destruct (rs_keep_on_exec a os2) as [r1 os3]. cbn in H1. apply Z.eqb_neq in H1 as ->.
  pose proof (Hk b os3) as H2. destruct (rs_keep_on_exec b os3) as [r2 os4]. cbn in H2. apply Z.eqb_neq in H2 as ->.
  destruct (He os4) as [exe ->]. cbn.
  match goal with |- context [rs_spawn ?args ?o] => destruct (Hs args o) as [child E]; destruct (rs_spawn args o) as [r os5]; cbn in E; subst r end.
  destruct (Hw child os5) as [status E]. destruct (rs_wait child os5) as [r os6]. cbn in E. by subst r.
Qed.

(** C38. Known defect: a client that asks for the initial synchronisation is
    accepted without its checksum being compared, and whatever exit status
    rsync has: if rsync could be started and waited for, a failed
    synchronisation leaves a client that the server takes for a mirror. *)
Theorem failed_sync_is_accepted init rest netout dontcheck srchash fin fout src os :
  msg_ok (Msg_InitMsg init) -> flags_contains (im_options init) Options_INITIAL_RSYNC = true ->
  (forall fd os, fst (rs_keep_on_exec fd os) <> -1) -> (forall os, exists exe, rs_current_exe os = Ok (Some exe)) ->
  (forall args os, exists child, fst (rs_spawn args os) = Ok child) -> (forall child os, exists status, fst (rs_wait child os) = Ok status) ->
  from_stream (ser_msg (Msg_InitMsg init) ++ rest) netout dontcheck srchash (fst (rsync_server fin fout src os)) =
    Ok (mk_Client (im_mode init) (im_compress init) netout (rt_comp_of (im_compress init)) ∅ ALIVE, rest).
Proof.
  intros Hok Hopt Hk He Hs Hw. unfold from_stream. rewrite law_msg by done. rewrite (rsync_server_ok fin fout src os Hk He Hs Hw).
  rewrite Hopt, !orb_true_r. done.
Qed.

End Sync.

(** ** Instances *)
#[local] Existing Instance no_compressor.
#[local] Instance sync_msgs : MsgFormat := table_msgs [].
#[local] Instance sync_laws : MsgFormatLaws := table_msgs_laws [].

(** An rsync that ends with status 23, a transfer that failed in part. *)
#[local] Instance failing_rsync : RsyncHost unit := {|
  rs_dup := fun fd os => (fd + 10, os); rs_keep_on_exec := fun _ os => (0, os); rs_errno := fun _ => 0;
  rs_current_exe := fun _ => Ok (Some "/bin/fsyncd (deleted)"); rs_spawn := fun _ os => (Ok 99, os);
  rs_wait := fun _ os => (Ok 23, os) |}.

Example demo_command :
  server_command (strip_deleted "/bin/fsyncd (deleted)") 15 16 "/srv" =
    ["rsync"; "-avhAX"; "--delete"; "-e"; "/bin/fsyncd fakeshell 15 16"; "/srv/./"; ":."].
Proof. reflexivity. Qed.

(** Its checksum is 1, the server's 2. *)
Lemma failed_sync_is_accepted_witness :
  let init := mk_InitMsg MODE_SYNC 1 0 0 Options_INITIAL_RSYNC in
  from_stream (ser_msg (Msg_InitMsg init)) (mk_stream [] None) false (Ok 2) (fst (rsync_server 5 6 "/srv" tt)) =
    Ok (mk_Client MODE_SYNC 0 (mk_stream [] None) None ∅ ALIVE, []).
Proof.
  intros init. rewrite <- (app_nil_r (ser_msg (Msg_InitMsg init))).
  apply (failed_sync_is_accepted init [] (mk_stream [] None) false (Ok 2) 5 6 "/srv" tt); cbn; eauto.
  - ground.
Defined.

(** Splitting at spaces. *)
Fixpoint split_words (w : string) (s : string) : list string :=
  match s with
  | EmptyString => [w]
  | String c s => if Ascii.eqb c " " then w :: split_words EmptyString s else split_words (w +:+ String c EmptyString) s
  end.

Lemma append_assoc (a b c : string) : (a +:+ b) +:+ c = a +:+ (b +:+ c).
Proof.
  induction a as [|x a IH]; [reflexivity|].
  change (String x ((a +:+ b) +:+ c) = String x (a +:+ (b +:+ c))). by rewrite IH.
Qed.

Lemma append_empty (a : string) : a +:+ EmptyString = a.
Proof. induction a as [|x a IH]; [reflexivity|]. change (String x (a +:+ EmptyString) = String x a). by rewrite IH. Qed.

Lemma split_words_skip word : forall w s, " "%char ∉ list_ascii_of_string word ->
  split_words w (word +:+ s) = split_words (w +:+ word) s.
Proof.
  induction word as [|c word IH]; intros w s Hw; [by rewrite append_empty|].
  change (split_words w (String c (word +:+ s)) = split_words (w +:+ String c word) s). cbn [split_words].
  cbn [list_ascii_of_string] in Hw. apply not_elem_of_cons in Hw as [Hc Hw].
  destruct (Ascii.eqb_spec c " ") as [->|_]; [done|]. rewrite IH by done. by rewrite append_assoc.
Qed.

Lemma split_words_law l :
  Forall no_space l -> l <> [] ->
  split_words EmptyString (String.concat " " l) = l.
Proof.
  induction 1 as [|w l [_ Hw] Hl IH]; [done|]. intros _. destruct l as [|w' l].
  - cbn. rewrite <- (append_empty w) at 1. by rewrite split_words_skip.
  - change (String.concat " " (w :: w' :: l)) with (w +:+ String " " (String.concat " " (w' :: l))).
    rewrite split_words_skip by done. cbn [split_words]. rewrite Ascii.eqb_refl. by rewrite IH.
Qed.

Lemma main_has_branch_witness :
  exists c, main_command (StartupInst.command "client" client_matches) = Ok (false, c).
Proof.
  destruct (main_has_branch (StartupInst.command "client" client_matches) client_command_parsed) as (c & E & _).
  exists c. exact E.
Defined.

Lemma fakeshell_gets_descriptors_witness :
  let words := split_words EmptyString in
  let cmd := shell_command "/bin/fsyncd" 15 16 in
  let m := mk_ArgMatches (fun _ => None) (Some ("fakeshell", mk_ArgMatches (fun n =>
    if bool_decide (n = "netin") then Some ["15"] else if bool_decide (n = "netout") then Some ["16"] else None) None)) in
  words cmd = ["/bin/fsyncd"; "fakeshell"; "15"; "16"] /\ run_fakeshell m = Ok (15, 16, 1, 0).
Proof.
  intros words cmd m. split; [vm_compute; reflexivity|].
  eapply (fakeshell_gets_descriptors words split_words_law "/bin/fsyncd" 15 16 m); [lia|lia| |reflexivity|vm_compute; reflexivity..].
  repeat apply Forall_cons_2; try apply Forall_nil_2; (split; [discriminate|]); apply (bool_decide_unpack _); vm_compute; exact I.
Defined.
