(* ===== verification/Listen.v ===== *)
(** * Accepting connections: the listeners of [fsyncd/src/server/net.rs]

    What [accept] of a TCP and of a Unix listener hands on, and the accepting
    thread of [server_main] over such a listener, with the initial
    synchronisation of [Commands]: which connections become clients, when it ends,
    and which descriptors are open then. *)

From stdpp Require Import base list numbers option gmap strings.
From Stdlib Require Import ZArith Lia String.
From S2P Require Import Prelude Common Filestore Store StoreInst Net NetInst Server Startup Commands.

Local Open Scope list_scope.
Local Open Scope Z_scope.

(** [TcpListener] or [UnixListener]. *)
Inductive listener := Tcp | UnixSocket.

(** What to write to: [NagleFlush] around a TCP stream, or the stream. *)
Inductive my_write := Nagle (fd : Z) | Plainly (fd : Z).

Definition write_fd (w : my_write) : Z := match w with Nagle fd | Plainly fd => fd end.

(** What [accept] returns. *)
Record accepted_conn := mk_accepted { ac_in : Z; ac_out : my_write; ac_addr : string }.

(** The system: accepting on a listener gives a new descriptor and an address,
    [dup] another descriptor for the same connection. [lh_incoming] is what the
    peer sends and what the checksum comes to. *)
Class ListenHost (OS : Type) := {
  lh_accept : listener -> OS -> (io_error + Z * string) * OS;
  lh_set_send_buffer : Z -> Z -> OS -> (io_error + unit) * OS;
  lh_dup : Z -> OS -> (io_error + Z) * OS;
  lh_incoming : accepted_conn -> OS -> incoming * OS }.

Section Listen.
Context {F : MsgFormat} {C : Compressor} {OS : Type} {LH : ListenHost OS} {RS : RsyncHost OS}.

(** The system and the descriptors that are open, the newest first. *)
Record listening := mk_listening { li_os : OS; li_open : list Z }.

Fixpoint remove1 (a : Z) (l : list Z) : list Z :=
  match l with [] => [] | b :: l => if b =? a then l else b :: remove1 a l end.

(** A stream that goes out of scope is closed. *)
Definition close (fd : Z) : M listening unit := modify (fun l => mk_listening (li_os l) (remove1 fd (li_open l))).

(** A call that gives a new descriptor. *)
Definition opens {A} (fd : A -> Z) (call : OS -> (io_error + A) * OS) : M listening A := fun l =>
  match call (li_os l) with
  | (inr a, os) => (Ok a, mk_listening os (fd a :: li_open l))
  | (inl e, os) => (Err e, mk_listening os (li_open l))
  end.

Definition on_socket {A} (call : OS -> (io_error + A) * OS) : M listening A := fun l =>
  match call (li_os l) with
  | (inr a, os) => (Ok a, mk_listening os (li_open l))
  | (inl e, os) => (Err e, mk_listening os (li_open l))
  end.

(** [?] while the stream is in scope. *)
Definition or_close {A} (fd : Z) (m : M listening A) : M listening A := fun l =>
  match m l with
  | (Ok a, l) => (Ok a, l)
  | (r, l) => (r, snd (close fd l))
  end.

(** [Listener::accept] of both. *)
Definition accept (k : listener) (buffer_size : Z) : M listening accepted_conn :=
  stream ← opens fst (lh_accept k);
  or_close (fst stream)
    (_ ← (match k with Tcp => on_socket (lh_set_send_buffer (fst stream) buffer_size) | UnixSocket => mret tt end);
     netin ← opens id (lh_dup (fst stream));
     mret (mk_accepted netin (match k with Tcp => Nagle (fst stream) | UnixSocket => Plainly (fst stream) end) (snd stream))).

(** Running rsync, with the descriptors that [dup] gives it. Nothing closes
    them. *)
Definition on_os {A} (f : OS -> A * OS) (l : listening) : A * listening :=
  let '(r, os) := f (li_os l) in (r, mk_listening os (li_open l)).

#[local] Instance listening_rsync : RsyncHost listening := {|
  rs_dup := fun fd l =>
    let '(r, os) := rs_dup fd (li_os l) in (r, mk_listening os (if r =? -1 then li_open l else r :: li_open l));
  rs_keep_on_exec := fun fd => on_os (rs_keep_on_exec fd);
  rs_errno := fun l => rs_errno (li_os l);
  rs_current_exe := fun l => rs_current_exe (li_os l);
  rs_spawn := fun args => on_os (rs_spawn args);
  rs_wait := fun child => on_os (rs_wait child) |}.

(** Whether a connection starts with a message that asks for it. *)
Definition asks_rsync (input : list Z) : bool :=
  match de_msg input with
  | Some (Msg_InitMsg init, _) => flags_contains (im_options init) Options_INITIAL_RSYNC
  | _ => false
  end.

(** What comes in, after the synchronisation that [from_stream] makes. *)
Definition with_sync (src : string) (conn : accepted_conn) (i : incoming) (l : listening) : incoming * listening :=
  if asks_rsync (in_input i) then
    let '(r, l) := rsync_server (ac_in conn) (write_fd (ac_out conn)) src l in
    (mk_incoming (in_input i) (in_output i) (in_srchash i) r, l)
  else (i, l).

(** The accepting thread, for at most [fuel] connections; [src] is the path of
    the backing store. When [from_stream] gives no client, both ends of the
    connection go out of scope. *)
Fixpoint accept_thread (fuel : nat) (k : listener) (buffer_size : Z) (dont_check : bool) (src : string)
  : M (Server * listening) unit :=
  match fuel with
  | O => lift NoFuel
  | S fuel => fun '(s, l) =>
    match accept k buffer_size l with
    | (Ok conn, l) =>
      let '(i, os) := lh_incoming conn (li_os l) in
      let '(i, l) := with_sync src conn i (mk_listening os (li_open l)) in
      let dropped := snd (close (write_fd (ac_out conn)) (snd (close (ac_in conn) l))) in
      match from_stream (in_input i) (in_output i) dont_check (in_srchash i) (in_rsync i) with
      | Ok (c, _) => accept_thread fuel k buffer_size dont_check src (sv_set_clients s (sv_cells s) (sv_clients s ++ [c]), l)
      | Err _ => accept_thread fuel k buffer_size dont_check src (s, dropped)
      | Panic => (Panic, (s, dropped))
      | NoFuel => (NoFuel, (s, dropped))
      end
    | (Err _, l) => (Ok tt, (s, l))
    | (Panic, l) => (Panic, (s, l))
    | (NoFuel, l) => (NoFuel, (s, l))
    end
  end.

(** ** What [accept] leaves open *)
Lemma accept_open k buffer_size l :
  match accept k buffer_size l with
  | (Ok conn, l') => li_open l' = ac_in conn :: write_fd (ac_out conn) :: li_open l
  | (Err _, l') => li_open l' = li_open l
  | _ => False
  end.
Proof.
  unfold accept, opens, or_close, on_socket, close, modify. munfold.
  destruct (lh_accept k (li_os l)) as [[e|[fd addr]] os]; cbn; [reflexivity|].
  destruct k; cbn; [destruct (lh_set_send_buffer fd buffer_size os) as [[e|[]] os2]; cbn|];
    try (match goal with |- context [lh_dup ?a ?o] => destruct (lh_dup a o) as [[]]; cbn end);
    rewrite ?Z.eqb_refl; reflexivity.
Qed.

Lemma remove1_Permutation a l : a ∈ l -> l ≡ₚ a :: remove1 a l.
Proof.
  induction l as [|b l IH]; intros Hin; [by apply elem_of_nil in Hin|]. cbn. destruct (b =? a) eqn:E; [by apply Z.eqb_eq in E as ->|].
  apply elem_of_cons in Hin as [->|Hin]; [lia|]. rewrite (IH Hin) at 1. apply perm_swap.
Qed.

Lemma remove1_of a l l' : l ≡ₚ a :: l' -> remove1 a l ≡ₚ l'.
Proof.
  intros Hp. assert (a ∈ l) as Hin by (rewrite Hp; by left). apply (Permutation_cons_inv (a := a)).
  by rewrite <- (remove1_Permutation a l Hin).
Qed.

(** A synchronisation leaves at most two descriptors open, two if [dup] does
    not fail. *)
Definition dups_ok : Prop := forall fd (os : OS), fst (rs_dup fd os) <> -1.

Lemma rsync_server_open netin netout src l :
  exists dups, li_open (snd (rsync_server netin netout src l)) = dups ++ li_open l /\
    (List.length dups <= 2)%nat /\ (dups_ok -> List.length dups = 2%nat).
Proof.
  unfold rsync_server, rs_dup_fd, keep_on_exec. munfold. cbn [rs_dup listening_rsync].
  pose proof (fun (H : dups_ok) => H netin (li_os l)) as H1. destruct (rs_dup netin (li_os l)) as [d1 os1]. cbn [fst li_os] in *.
  pose proof (fun (H : dups_ok) => H netout os1) as H2. destruct (rs_dup netout os1) as [d2 os2]. cbn [fst li_open] in *.
  exists ((if d2 =? -1 then [] else [d2]) ++ (if d1 =? -1 then [] else [d1])). rewrite length_app.
  assert (forall l', li_open l' = (if d2 =? -1 then if d1 =? -1 then li_open l else d1 :: li_open l
                                   else d2 :: (if d1 =? -1 then li_open l else d1 :: li_open l)) ->
    li_open l' = ((if d2 =? -1 then [] else [d2]) ++ (if d1 =? -1 then [] else [d1])) ++ li_open l) as Heq
    by (intros l' ->; by repeat case_match).
  split.
  - apply Heq. cbn. unfold on_os. cbn. repeat (case_match; simplify_eq; cbn); done.
  - split; [by repeat case_match; cbn; lia|]. intros H. specialize (H1 H). specialize (H2 H).
    apply Z.eqb_neq in H1 as ->. by apply Z.eqb_neq in H2 as ->.
Qed.

(** The connections that were accepted, and the descriptors of those that became
    clients, the newest first. *)
Definition held_by (conns : list accepted_conn) : list Z := rev conns ≫= (fun c => [ac_in c; write_fd (ac_out c)]).

(** How many asked for a synchronisation. *)
Definition syncs (conns : list incoming) : nat := List.length (List.filter (fun i => asks_rsync (in_input i)) conns).

Lemma with_sync_open src conn i l : exists dups,
  li_open (snd (with_sync src conn i l)) = dups ++ li_open l /\ (List.length dups <= 2 * syncs [i])%nat /\
  (dups_ok -> List.length dups = 2 * syncs [i])%nat /\ in_input (fst (with_sync src conn i l)) = in_input i.
Proof.
  unfold with_sync, syncs. cbn [List.filter]. destruct (asks_rsync (in_input i)); [|by exists []].
  destruct (rsync_server_open (ac_in conn) (write_fd (ac_out conn)) src l) as (dups & E & H1 & H2). exists dups.
  destruct (rsync_server _ _ _ l) as [r l']. cbn [fst snd in_input] in *. split; [exact E|]. cbn. split_and!; [lia|intros H; rewrite H2; done|done].
Qed.


End Listen.

(** ** Instances

    Connections as a script: what arrives on each, or an error. The second one
    has another checksum, and setting the buffer of the fourth fails. *)
#[local] Existing Instance no_compressor.
#[local] Instance listen_msgs : MsgFormat := table_msgs [].

Definition script : Type := Z * list (outcome incoming).

#[local] Instance script_host : ListenHost script := {|
  lh_accept := fun _ '(n, l) =>
    match l with [] => (inl (OsError 22), (n, [])) | _ => (inr (n, "peer"%string), (n + 1, l)) end;
  lh_set_send_buffer := fun _ _ '(n, l) =>
    match l with Err e :: l => (inl e, (n, l)) | _ => (inr tt, (n, l)) end;
  lh_dup := fun _ '(n, l) => (inr n, (n + 1, l));
  lh_incoming := fun _ '(n, l) =>
    match l with Ok i :: l => (i, (n, l)) | _ => (mk_incoming [] (mk_stream [] None) Panic (Ok tt), (n, l)) end |}.

#[local] Instance script_rsync : RsyncHost script := {|
  rs_dup := fun _ '(n, l) => (n, (n + 1, l)); rs_keep_on_exec := fun _ os => (0, os); rs_errno := fun _ => 0;
  rs_current_exe := fun _ => Ok (Some "fsyncd"%string); rs_spawn := fun _ os => (Ok 1, os); rs_wait := fun _ os => (Ok 0, os) |}.

Definition peer (hash options : Z) : incoming :=
  mk_incoming (ser_msg (Msg_InitMsg (mk_InitMsg MODE_SYNC hash 0 0 options))) (mk_stream [] None) (Ok 7) (Ok tt).

Definition peers : list (outcome incoming) := [Ok (peer 7 0); Ok (peer 8 0); Ok (peer 8 Options_INITIAL_RSYNC); Err (OsError 105); Ok (peer 7 0)].

Definition listen_start : listening (OS := script) := mk_listening (10, peers) [3].
Definition listen_server : Server := mk_Server false [] [] None JT_Invalid (mk_path true []).

(** The error ends the thread, while somebody still waits; the first and the third
    connection are clients, and the third has four descriptors. *)
Example demo_accepting :
  let '(r, (s, l)) := accept_thread 9 Tcp 65536 false "/srv" (listen_server, listen_start) in
  r = Ok tt /\ List.length (sv_clients s) = 2%nat /\ li_open l = [17; 16; 15; 14; 11; 10; 3] /\ snd (li_os l) = [Ok (peer 7 0)].
Proof. vm_compute. done. Qed.

