(* ===== verification/Encoded.v ===== *)
(** * The writer of a client with a compressed stream

    [Client::from_stream] of [fsyncd/src/server/client.rs] puts an encoder around
    the limited socket when the client asked for one, [ConnectionBuilder::build]
    of [fsyncd/src/client/mod.rs] the decoder around the other end. [Net] writes
    to this stack as to a plain stream; here is what the client can read of it
    and when. The encoders and decoders of the crates [zstd] and [lz4] are a
    class. *)

From stdpp Require Import base list numbers option.
From Stdlib Require Import ZArith Lia.
From S2P Require Import Prelude Common Net NetSpec NetInst Cli Iolimit IolimitProps Sockets.

Local Open Scope Z_scope.

(** A write of a buffer, or a flush. *)
Abbreviation op := (option (list Z)).

(** ** Codecs

    [enc_step] is what the encoder does to the writer below it for a write or a
    flush of its own; [dec] is all that a decoder can hand on after it has read
    these bytes. [needs_more] says that the decoder may wait for another write
    before it hands on the last one, although it was flushed. *)
Class StreamCodec := {
  enc : Type;
  enc_new : enc;
  enc_step : op -> enc -> list op * enc;
  dec : list Z -> list Z;
  needs_more : bool }.

Fixpoint enc_run {K : StreamCodec} (ops : list op) (e : enc) : list op * enc :=
  match ops with
  | [] => ([], e)
  | o :: ops => let '(out, e) := enc_step o e in let '(outs, e) := enc_run ops e in (out ++ outs, e)
  end.

Definition enc_out {K : StreamCodec} (ops : list op) : list op := fst (enc_run ops enc_new).

(** What the documentation of the crates and the comment on [flush] say. *)
Class StreamCodecLaws (K : StreamCodec) := {
  law_prefix : forall ops, dec (written (enc_out ops)) `prefix_of` written ops;
  law_flush_last : forall ops, list.last (enc_out (ops ++ [None])) = Some None;
  law_delivers : forall ops b rest, b <> [] ->
    written ops `prefix_of` dec (written (enc_out (ops ++ [None] ++ if needs_more then Some b :: rest ++ [None] else []))) }.

(** Without compression. *)
#[local] Instance plain_codec : StreamCodec := {|
  enc := unit; enc_new := tt; enc_step := fun o e => ([o], e); dec := fun l => l; needs_more := false |}.

Class Codecs := { zstd_codec : StreamCodec; lz4_codec : StreamCodec }.

Class CodecsLaws (CS : Codecs) := {
  zstd_laws : StreamCodecLaws zstd_codec;
  lz4_laws : StreamCodecLaws lz4_codec }.

(** The encoder of [from_stream], and the decoder of [build]. *)
Definition stack_codec {CS : Codecs} (c : codec) : StreamCodec :=
  match c with Zstd => zstd_codec | Lz4 => lz4_codec | Plain => plain_codec end.

Definition encoder {CS : Codecs} (compress : Z) : StreamCodec := stack_codec (writer_codec compress).
Definition decode {CS : Codecs} (compress : Z) (bytes : list Z) : list Z := dec (StreamCodec := stack_codec (reader_codec compress)) bytes.

(** ** What [inner] does to its writer *)
Section Inner.
Context {F : MsgFormat} {C : Compressor}.

Definition frame_ops (buf : list Z) : list op := [Some (be32 (u32 (zlen buf))); Some buf].

Definition inner_ops (serbuf : list Z) (flush comp : bool) : list op :=
  frame_ops serbuf ++ if flush then None :: (if comp then frame_ops (ser_msg Msg_NOP) ++ [None] else []) else [].

(** [inner] on any client without a packet compressor. *)
Lemma inner_is_ops serbuf flush comp c : cl_rt_comp c = None ->
  inner serbuf (zlen serbuf) flush comp c =
    let '(r, w) := run_writes stream_write_all stream_flush (inner_ops serbuf flush comp) (cl_write c) in (r, cl_set_write c w).
Proof.
  intros Hrt. assert (forall buf w, cl_rt_comp (cl_set_write c w) = None /\
    write_frame buf (zlen buf) (cl_set_write c w) =
    let '(r, w) := run_writes stream_write_all stream_flush (frame_ops buf) w in (r, cl_set_write c w)) as Hframe.
  { intros buf w. split; [done|]. unfold write_frame. cbn [cl_rt_comp cl_set_write cl_write]. rewrite Hrt.
    cbn [frame_ops run_writes]. munfold. change (cl_write (cl_set_write c w)) with w.
    destruct (stream_write_all _ w) as [[[]| | |] w1]; try done.
    by destruct (stream_write_all buf w1) as [[[]| | |] w2]. }
  assert (c = cl_set_write c (cl_write c)) as Hc by by destruct c.
  unfold inner, inner_ops. rewrite Hc at 1. destruct (Hframe serbuf (cl_write c)) as [_ E]. munfold. rewrite E.
  cbn [run_writes frame_ops app]. munfold.
  destruct (stream_write_all _ (cl_write c)) as [[[]| | |] w1]; try done.
  destruct (stream_write_all serbuf w1) as [[[]| | |] w2]; try done.
  destruct flush; [|done]. unfold client_flush_write, stream_flush. munfold. cbn [cl_write cl_set_write].
  destruct comp; [|done]. change (cl_set_write (cl_set_write c w2) w2) with (cl_set_write c w2).
  destruct (Hframe (ser_msg Msg_NOP) w2) as [_ E']. rewrite E'. cbn [frame_ops run_writes]. munfold.
  destruct (stream_write_all _ w2) as [[[]| | |] w3]; try done. by destruct (stream_write_all _ w3) as [[[]| | |] w4].
Qed.

End Inner.

(** ** What arrives *)
Lemma written_concat l1 l2 : written (l1 ++ l2) = written l1 ++ written l2.
Proof. apply bind_app. Qed.

#[local] Instance plain_laws : StreamCodecLaws plain_codec.
Proof.
  assert (forall ops, enc_out (K := plain_codec) ops = ops) as Hid.
  { intros ops. unfold enc_out. cbn [enc_new plain_codec]. generalize tt.
    induction ops as [|o ops IH]; intros u; [done|]. cbn. specialize (IH u).
    destruct (enc_run (K := plain_codec) ops u) as [outs e]. cbn in *. by rewrite IH. }
  split.
  - intros ops. rewrite Hid. done.
  - intros ops. by rewrite Hid, last_snoc.
  - intros ops b rest _. rewrite Hid. cbn. rewrite written_concat. by apply prefix_app_r.
Qed.

Section Arrives.
Context {F : MsgFormat} {C : Compressor} {W : Type} {Cl : Clock W} {Tcp : TcpStack W} {CL : ClockLaws Cl} {TL : TcpLaws (CL := CL)}.
Context {CS : Codecs} {CSL : CodecsLaws CS}.

#[local] Instance stack_laws c : StreamCodecLaws (stack_codec c).
Proof. destruct c; [exact zstd_laws|exact lz4_laws|exact plain_laws]. Qed.

(** A codec that needs another write is one that the flags of [inner] know of. *)
Lemma comp_of_codec compress : needs_more (StreamCodec := encoder compress) = true ->
  flags_intersects compress CompMode_STREAM_MASK = true.
Proof.
  unfold encoder, writer_codec, flags_intersects, flags_contains. intros Hn.
  apply negb_true_iff, Z.eqb_neq. intros Hz.
  assert (Z.land compress CompMode_STREAM_ZSTD = 0 /\ Z.land compress CompMode_STREAM_LZ4 = 0) as [H1 H2].
  { split; apply Z.bits_inj_0; intros n; pose proof (f_equal (fun z => Z.testbit z n) Hz) as Hb; cbn in Hb;
      rewrite Z.land_spec, Z.bits_0 in Hb; rewrite Z.land_spec; apply andb_false_iff in Hb as [Hb|Hb];
      [by rewrite Hb| |by rewrite Hb|]; apply andb_false_iff; right; revert Hb;
      change CompMode_STREAM_MASK with (Z.lor CompMode_STREAM_ZSTD CompMode_STREAM_LZ4); rewrite Z.lor_spec;
      intros [? ?]%orb_false_iff; done. }
  by rewrite H1, H2 in Hn.
Qed.

(** The bytes of a flushed message, whatever was written before it, can be
    decoded from what the encoder has written. *)
Lemma inner_ops_decoded compress h (serbuf : list Z) :
  written (h ++ frame_ops serbuf) `prefix_of`
    dec (StreamCodec := encoder compress) (written (enc_out (K := encoder compress)
      (h ++ inner_ops serbuf true (flags_intersects compress CompMode_STREAM_MASK)))).
Proof.
  pose proof (comp_of_codec compress) as Hcomp. unfold encoder in *.
  set (comp := flags_intersects compress CompMode_STREAM_MASK) in *. set (ops := h ++ frame_ops serbuf).
  set (nop := be32 (u32 (zlen (ser_msg Msg_NOP)))). assert (nop <> []) as Hnop by done.
  unfold inner_ops. rewrite app_assoc. fold ops.
  pose proof (law_delivers (K := stack_codec (writer_codec compress))) as Hd.
  destruct (needs_more (StreamCodec := stack_codec (writer_codec compress))) eqn:En.
  - rewrite Hcomp by done. apply (Hd ops nop [Some (ser_msg Msg_NOP)] Hnop).
  - assert (forall rest, written ops `prefix_of` dec (StreamCodec := stack_codec (writer_codec compress))
      (written (enc_out (K := stack_codec (writer_codec compress)) ((ops ++ rest) ++ [None])))) as Hflush.
    { intros rest. etrans; [|exact (Hd (ops ++ rest) nop [] Hnop)]. rewrite written_concat. by apply prefix_app_r. }
    destruct comp.
    + specialize (Hflush (None :: frame_ops (ser_msg Msg_NOP))). rewrite <- app_assoc in Hflush. exact Hflush.
    + specialize (Hflush []). rewrite app_nil_r in Hflush. exact Hflush.
Qed.

(** C13. A message that is flushed arrives without further traffic. Whatever was
    written to a client before, with or without compression of the stream: when
    [inner] has written a message and flushed it, what the system holds back no
    longer is enough for the client's decoder to hand on every byte up to the end
    of that message, and all that it hands on was written. *)
Theorem flushed_message_arrives fuel compress h serbuf l w l' w' :
  ready l w -> sent w = [] ->
  let mine := inner_ops serbuf true (flags_intersects compress CompMode_STREAM_MASK) in
  let ops := h ++ mine in
  let out := enc_out (K := encoder compress) ops in
  Forall (fun o => match o with Some buf => (length buf < fuel)%nat | None => True end) out ->
  run_writes (write_all fuel) limit_flush out (l, w) = (Ok tt, (l', w')) ->
  written h ++ be32 (u32 (zlen serbuf)) ++ serbuf `prefix_of` decode compress (released w') /\
  decode compress (released w') `prefix_of` written ops /\
  (forall c, cl_rt_comp c = None -> cl_comp c = compress ->
     inner serbuf (zlen serbuf) true (flags_intersects (cl_comp c) CompMode_STREAM_MASK) c =
     let '(r, w) := run_writes stream_write_all stream_flush mine (cl_write c) in (r, cl_set_write c w)).
Proof.
  intros Hr Hs mine ops out Hf E. subst mine. destruct (run_writes_sent fuel out l w l' w' Hr Hf E) as [Hsent Hrel].
  assert (exists before, ops = before ++ [None]) as [before Hops].
  { unfold ops, inner_ops. destruct (flags_intersects compress CompMode_STREAM_MASK).
    - exists (h ++ frame_ops serbuf ++ None :: frame_ops (ser_msg Msg_NOP)). by rewrite <- !app_assoc.
    - exists (h ++ frame_ops serbuf). by rewrite <- app_assoc. }
  pose proof (law_flush_last (K := encoder compress) before) as Hl.
  rewrite <- Hops in Hl. specialize (Hrel Hl). rewrite Hs in Hsent. cbn in Hsent. rewrite Hrel, Hsent. split.
  - pose proof (inner_ops_decoded compress h serbuf) as Hd. rewrite written_concat in Hd. cbn in Hd. rewrite app_nil_r in Hd. exact Hd.
  - split; [apply (law_prefix (StreamCodecLaws := stack_laws (writer_codec compress)))|].
    intros c Hrt <-. by apply inner_is_ops.
Qed.

End Arrives.

(** ** Instances

    An encoder that holds back the last write until the next one: a flush alone
    does not bring it out. *)
#[local] Existing Instances no_compressor toy_net_clock toy_net_clock_laws toy_net_stack toy_net_laws.
#[local] Instance lag_msgs : MsgFormat := table_msgs [].

Definition lag_codec : StreamCodec := {|
  enc := list Z; enc_new := [];
  enc_step := fun o held => match o with Some b => ([Some held], b) | None => ([None], held) end;
  dec := fun l => l; needs_more := true |}.

Lemma lag_run ops : forall held, written (fst (enc_run (K := lag_codec) ops held)) ++ snd (enc_run (K := lag_codec) ops held) =
  held ++ written ops.
Proof.
  induction ops as [|[b|] ops IH]; intros held; cbn; [by rewrite app_nil_r| |];
    [specialize (IH b)|specialize (IH held)]; destruct (enc_run (K := lag_codec) ops _) as [outs e]; cbn in *; [|exact IH].
  by rewrite <- app_assoc, IH.
Qed.

Lemma lag_app ops ops' : forall held, enc_run (K := lag_codec) (ops ++ ops') held =
  let '(o1, e1) := enc_run (K := lag_codec) ops held in let '(o2, e2) := enc_run (K := lag_codec) ops' e1 in (o1 ++ o2, e2).
Proof.
  induction ops as [|[b|] ops IH]; intros held; cbn; [by destruct (enc_run (K := lag_codec) ops' held)| |];
    rewrite IH; destruct (enc_run (K := lag_codec) ops _) as [o1 e1]; by destruct (enc_run (K := lag_codec) ops' e1) as [o2 e2].
Qed.

#[local] Instance lag_laws : StreamCodecLaws lag_codec.
Proof.
  split.
  - intros ops. exists (snd (enc_run (K := lag_codec) ops [])). symmetry. exact (lag_run ops []).
  - intros ops. unfold enc_out. rewrite lag_app. destruct (enc_run (K := lag_codec) ops enc_new) as [o1 e1]. cbn. by rewrite last_snoc.
  - intros ops b rest _. pose proof (lag_run ops []) as Hr. unfold enc_out. cbn [needs_more lag_codec dec enc_new] in *.
    rewrite lag_app. destruct (enc_run (K := lag_codec) ops []) as [o1 e1]. cbn in *.
    destruct (enc_run (K := lag_codec) (rest ++ [None]) b) as [o2 e2]. cbn in *. rewrite written_concat. cbn.
    rewrite <- Hr. rewrite app_assoc. by apply prefix_app_r.
Qed.

#[local] Instance lag_codecs : Codecs := {| zstd_codec := lag_codec; lz4_codec := lag_codec |}.
#[local] Instance lag_codecs_laws : CodecsLaws lag_codecs.
Proof. split; exact lag_laws. Qed.

Definition lag_out (comp : bool) : list op := enc_out (K := encoder CompMode_STREAM_LZ4) (inner_ops [7; 8] true comp).
Definition lag_run_net (comp : bool) := run_writes (write_all 99) limit_flush (lag_out comp) (mk_LimitWriter 0 0 0 true false, mk_toy_net 0 [] []).

(** Without the message that follows the flush, its last bytes would stay with
    the encoder. *)
Example nop_needed :
  tn_released (snd (snd (lag_run_net true))) = [0; 0; 0; 2; 7; 8; 0; 0; 0; 24] /\
  tn_released (snd (snd (lag_run_net false))) = [0; 0; 0; 2].
Proof. split; vm_compute; reflexivity. Qed.

Lemma lag_fuel : Forall (fun o => match o with Some buf => (length buf < 99)%nat | None => True end) (lag_out true).
Proof.
  assert (forallb (fun o => match o with Some buf => Nat.ltb (length buf) 99 | None => true end) (lag_out true) = true) as H
    by (vm_compute; reflexivity).
  rewrite forallb_forall in H. apply Forall_forall. intros o Ho. specialize (H o Ho).
  destruct o; [by apply Nat.ltb_lt|done].
Qed.

Lemma flushed_message_arrives_witness :
  fst (lag_run_net true) = Ok tt /\
  [0; 0; 0; 2; 7; 8] `prefix_of` decode CompMode_STREAM_LZ4 (tn_released (snd (snd (lag_run_net true)))).
Proof.
  destruct (lag_run_net true) as [r [l' w']] eqn:E.
  assert (r = Ok tt) as -> by (change r with (fst (r, (l', w'))); rewrite <- E; vm_compute; reflexivity).
  split; [reflexivity|].
  destruct (flushed_message_arrives 99 CompMode_STREAM_LZ4 [] [7; 8] (mk_LimitWriter 0 0 0 true false) (mk_toy_net 0 [] []) l' w') as [H _].
  - split_and!; cbn; try reflexivity. by left.
  - reflexivity.
  - exact lag_fuel.
  - exact E.
  - exact H.
Defined.
