(* ===== verification/Undo.v ===== *)
(** * Taking changes back with a two-way journal

    A server with a two-way journal serves requests that change permissions,
    ownership and times; replaying its journal backwards on the same tree gives
    every file the attributes it had before. This is the loop of [replay] in the
    direction that the command line cannot ask for ([ViewerMain]). *)

From stdpp Require Import base list numbers option gmap strings.
From Stdlib Require Import ZArith Lia.
From S2P Require Import Prelude Common Filestore Store StoreSpec StoreInst StoreRecovery Entries Bilog BilogProps Net NetInst Ops OpsSpec Server Handlers ServerSpec HandlerSpec Converge Viewer.

Local Open Scope Z_scope.

(** ** What the system calls do to [lstat]

    The call on one name changes the file, and so what is seen through each of
    its names. [chmod] keeps the type of a file; [chown] keeps the mode of one
    without set-user-id bits; neither is used on a symbolic link, which they
    follow. Time stamps are those of a clock, without the special values that
    [utimensat] gives a meaning. *)
Definition type_bits (mode : Z) : Z := Z.land mode 61440.
Definition IS_LNK : Z := 40960.

Definition clock_time (ns : Z) : Prop := 0 <= ns < 1000000000.

Definition meta_ok (c : VFSCall) (st : stat) : Prop :=
  type_bits (st_mode st) <> IS_LNK /\
  match c with
  | chmod _ mode => type_bits mode = type_bits (st_mode st)
  | security _ (Unix _ _) => Z.land (st_mode st) 3072 = 0
  | utimens _ (a, m, _) => clock_time (ts_low a) /\ clock_time (ts_low m) /\
      clock_time (st_atime_nsec st) /\ clock_time (st_mtime_nsec st)
  | _ => False
  end.

Section Laws.
Context {OS : Type} {Sys : Syscalls OS} (look : OS -> fsview).

Definition sets (os os' : OS) (ino : Z) (f : stat -> stat) : Prop :=
  forall q, fv_lstat (look os') q =
    match fv_lstat (look os) q with
    | inr st => inr (if st_ino st =? ino then f st else st)
    | inl e => inl e
    end.

Class MetaLaws := {
  ml_same_file : forall os p q st st', fv_lstat (look os) p = inr st -> fv_lstat (look os) q = inr st' ->
    st_ino st = st_ino st' -> st = st';
  ml_chmod : forall os p q mode st, fv_lstat (look os) p = inr st -> meta_ok (chmod q mode) st ->
    exists os', sys_chmod p mode os = (0, os') /\ sets os os' (st_ino st) (stat_after (chmod q mode));
  ml_chown : forall os p q uid gid st, fv_lstat (look os) p = inr st -> meta_ok (security q (Unix uid gid)) st ->
    exists os', sys_chown p uid gid os = (0, os') /\ sets os os' (st_ino st) (stat_after (security q (Unix uid gid)));
  ml_utimens : forall os p q a m z st, fv_lstat (look os) p = inr st -> meta_ok (utimens q (a, m, z)) st ->
    exists os', sys_utimensat p (a, m) os = (0, os') /\ sets os os' (st_ino st) (stat_after (utimens q (a, m, z))) }.

(** The same attributes everywhere. *)
Definition alike (os1 os2 : OS) : Prop := forall q, fv_lstat (look os1) q = fv_lstat (look os2) q.

Context {ML : MetaLaws}.
Context {F : MsgFormat} {C : Compressor} {D : Digest}.
Context {FB : StoreFormat BilogEntry} {FV : StoreFormat VFSCall} {LB : StoreFormatLaws BilogEntry}.

(** ** One change and its inverse *)
Lemma meta_dispatch c p root os st :
  meta_path c = Some p -> fv_lstat (look os) (translate_path p root) = inr st -> meta_ok c st ->
  exists os', dispatch c root os = (Ok 0, os') /\ sets os os' (st_ino st) (stat_after c).
Proof.
  intros Hp Hst Hok. destruct c as [| | | | | | |q mode| | | | | | | |q [[a m] z]| | |q [| uid gid|]]; try done.
  - injection Hp as ->. destruct (ml_chmod _ _ p mode st Hst Hok) as (os' & E & Hs).
    exists os'. split; [|done]. cbn. unfold xmp_chmod, checked, syscall. munfold. by rewrite E.
  - cbn in Hp. case_bool_decide; [|done]. injection Hp as ->. destruct (ml_utimens _ _ p a m z st Hst Hok) as (os' & E & Hs).
    exists os'. split; [|done]. cbn. unfold xmp_utimens, checked, syscall. munfold. by rewrite E.
  - injection Hp as ->. destruct (ml_chown _ _ p uid gid st Hst Hok) as (os' & E & Hs).
    exists os'. split; [|done]. cbn. unfold xmp_chown, checked, syscall. munfold. by rewrite E.
Qed.

Lemma restore_path c p st : meta_path c = Some p -> meta_path (restore_call c st) = Some p.
Proof. destruct c as [| | | | | | |q mode| | | | | | | |q [[a m] z]| | |q [| uid gid|]]; try done. cbn. case_bool_decide; done. Qed.

Lemma restore_stat c p st : meta_path c = Some p -> stat_after (restore_call c st) (stat_after c st) = st.
Proof.
  intros Hp. destruct c as [| | | | | | |q mode| | | | | | | |q [[a m] z]| | |q [| uid gid|]]; try done; by destruct st.
Qed.

Lemma restore_ok c p st : meta_path c = Some p -> meta_ok c st -> meta_ok (restore_call c st) (stat_after c st).
Proof.
  intros Hp [Hl Hok]. destruct c as [| | | | | | |q mode| | | | | | | |q [[a m] z]| | |q [| uid gid|]]; try done; split; cbn in *; try done.
  - congruence.
  - tauto.
Qed.

Lemma stat_after_ino c st : st_ino (stat_after c st) = st_ino st.
Proof. destruct c as [| | | | | | | | | | | | | | |q [[a m] z]| | |q [| uid gid|]]; done. Qed.

(** An entry taken back on a tree that shows the change. *)
Lemma undo_entry recover c p root os os1 os2 st e ctr :
  meta_path c = Some p -> fv_lstat (look os) (translate_path p root) = inr st -> meta_ok c st ->
  bilog_try_from (look os) c root = Ok e -> dispatch c root os = (Ok 0, os1) -> alike os2 os1 ->
  exists os3, replay_entry (JE := bilog_entry recover) look (stored (ctr, Payload e)) root os2 = (Ok tt, os3) /\ alike os3 os.
Proof.
  intros Hp Hst Hok Htry Hd Ha.
  destruct (meta_dispatch c p root os st Hp Hst Hok) as (os1' & Hd' & Hsets). rewrite Hd in Hd'. injection Hd' as <-.
  assert (fv_lstat (look os2) (translate_path p root) = inr (stat_after c st)) as Hst2.
  { rewrite Ha, Hsets, Hst, Z.eqb_refl. done. }
  destruct (bilog_undo_call recover (look os) (look os2) c p root st Hp Hst Hst2) as (e' & Htry' & Hundo).
  rewrite Htry in Htry'. injection Htry' as <-.
  destruct (meta_dispatch (restore_call c st) p root os2 (stat_after c st)) as (os3 & Hd3 & Hsets3).
  { by apply restore_path. } { done. } { by eapply restore_ok. }
  exists os3. split.
  - unfold replay_entry, stored. cbn. rewrite Hundo. by rewrite Hd3.
  - intros q. rewrite Hsets3, Ha, Hsets. destruct (fv_lstat (look os) q) as [|st'] eqn:Eq; [done|].
    rewrite stat_after_ino. destruct (st_ino st' =? st_ino st) eqn:Ei.
    + rewrite stat_after_ino, Ei. assert (st' = st) as -> by (eapply ml_same_file; [exact Eq|exact Hst|by apply Z.eqb_eq]).
      by rewrite (restore_stat c p).
    + by rewrite Ei.
Qed.

(** ** A run of changes and its journal *)
Inductive changes (root : path) : list VFSCall -> OS -> list BilogEntry -> OS -> Prop :=
| changes_nil os : changes root [] os [] os
| changes_cons c p l st e es os os1 os2 :
    meta_path c = Some p -> fv_lstat (look os) (translate_path p root) = inr st -> meta_ok c st ->
    bilog_try_from (look os) c root = Ok e -> dispatch c root os = (Ok 0, os1) ->
    changes root l os1 es os2 -> changes root (c :: l) os (e :: es) os2.

Lemma replay_all_app {T} {JE : JournalEntry T} es1 es2 p : forall os,
  replay_all look (es1 ++ es2) p os = (_ ← replay_all look es1 p; replay_all look es2 p) os.
Proof.
  induction es1 as [|e es1 IH]; intros os; [done|]. cbn [app replay_all]. unfold mbind, M_bind in *.
  by destruct (replay_entry look e p os) as [[[]| | |] os1].
Qed.

Definition entry_of (e : BilogEntry) : StoreEntry BilogEntry := stored (0, Payload e).

Lemma undo_changes recover root l os es os' :
  changes root l os es os' -> forall os2, alike os2 os' ->
  exists os3, replay_all (JE := bilog_entry recover) look (entry_of <$> rev es) root os2 = (Ok tt, os3) /\ alike os3 os.
Proof.
  induction 1 as [os|c p l st e es os os1 os2 Hp Hst Hok Htry Hd _ IH]; intros os3 Ha; [by exists os3|].
  destruct (IH os3 Ha) as (os4 & E4 & Ha4).
  destruct (undo_entry recover c p root os os1 os4 st e 0 Hp Hst Hok Htry Hd Ha4) as (os5 & E5 & Ha5).
  exists os5. split; [|done]. cbn [rev]. rewrite fmap_app, replay_all_app. unfold mbind, M_bind. rewrite E4.
  cbn [fmap list_fmap replay_all]. unfold mbind, M_bind, entry_of. by rewrite E5.
Qed.

(** Time stamps among the entries are skipped. *)
Definition bilog_payload (e : EntryContent BilogEntry) : list BilogEntry :=
  match e with Payload e => [e] | Time _ => [] end.

Lemma replay_skips_time recover (rs : list (Z * EntryContent BilogEntry)) p : forall os,
  replay_all (JE := bilog_entry recover) look (stored <$> rs) p os =
  replay_all (JE := bilog_entry recover) look (entry_of <$> (rs ≫= fun r => bilog_payload (snd r))) p os.
Proof.
  induction rs as [|[ctr c] rs IH]; intros os; [done|]. rewrite bind_cons, fmap_app, fmap_cons, replay_all_app.
  cbn [replay_all]. unfold mbind, M_bind. destruct c as [e|t]; cbn [bilog_payload snd fmap list_fmap replay_all];
    unfold mbind, M_bind; [|apply IH].
  change (replay_entry look (entry_of e) p os) with (replay_entry (JE := bilog_entry recover) look (stored (ctr, Payload e)) p os).
  by destruct (replay_entry look (stored (ctr, Payload e)) p os) as [[[]| | |] os1].
Qed.

Lemma bind_rev {A B} (f : A -> list B) (l : list A) :
  (forall x, (length (f x) <= 1)%nat) -> rev l ≫= f = rev (l ≫= f).
Proof.
  intros Hf. induction l as [|x l IH]; [done|]. cbn [rev]. rewrite bind_app, IH, bind_singleton, bind_cons, rev_app_distr. f_equal.
  pose proof (Hf x). destruct (f x) as [|y [|]]; cbn in *; [done..|lia].
Qed.

(** ** The server keeps the journal *)

(** The requests of a run: each sees the tree as it is, and can be taken back. *)
Fixpoint undoable (l : list req) (st : Server * OS) : Prop :=
  match l with
  | [] => True
  | q :: l =>
    (q_fi q = None /\ q_view q = look (snd st) /\
     exists p a, meta_path (q_call q) = Some p /\
       fv_lstat (look (snd st)) (translate_path p (sv_path (fst st))) = inr a /\ meta_ok (q_call q) a) /\
    undoable l (snd (serve_req q st))
  end.

(** What the server writes to its journal. *)
Definition journal_of (root : path) (l : list req) : list (Z * BilogEntry) :=
  l ≫= fun q => match bilog_try_from (q_view q) (q_call q) root with Ok e => [(q_now q, e)] | _ => [] end.

Lemma meta_unix c p : meta_path c = Some p -> unix_call c = true.
Proof.
  destruct c as [| | | | | | |q mode| | | | | | | |q [[a m] z]| | |q [| uid gid|]]; try done. cbn. by case_bool_decide as Hz; [subst z|].
Qed.

Lemma meta_act c p root : meta_path c = Some p -> act (OS := OS) c root None = dispatch c root.
Proof. by destruct c as [| | | | | | |q mode| | | | | | | |q [[a m] z]| | |q [| uid gid|]]. Qed.

Lemma meta_not_filestore fv c p root e :
  meta_path c = Some p -> bilog_try_from fv c root = Ok e ->
  match e with BE_filestore _ _ => False | _ => True end.
Proof.
  intros Hp Htry. destruct c as [| | | | | | |q mode| | | | | | | |q [[a m] z]| | |q [| uid gid|]]; try done;
    cbn [bilog_try_from] in Htry;
    match type of Htry with _ <$> ?o = _ => destruct o end; cbn in Htry; try discriminate; by injection Htry as <-.
Qed.

Lemma handler_bilog tid now fv call (m : M OS Z) s os r s' os' j e :
  handler tid now fv call m (s, os) = (Ok r, (s', os')) -> sv_journal s = Some j -> sv_journal_type s = JT_Bilog ->
  bilog_try_from fv call (sv_path s) = Ok e -> match e with BE_filestore _ _ => False | _ => True end ->
  m os = (Ok r, os') /\ sv_path s' = sv_path s /\ sv_journal_type s' = JT_Bilog /\
  exists j', write_entry now e j = (Ok tt, j') /\ sv_journal s' = Some j'.
Proof.
  unfold handler, handler_with, mbind, M_bind, mret, M_ret, pre_op, journal_op, must_write.
  intros E Hj Ht He Hf. destruct (sv_corked s); [done|].
  destruct (send_ops tid call (sv_cells s) (sv_clients s)) as [[ws| | |] [h l]]; try done.
  cbn [sv_set_clients sv_journal sv_journal_type sv_path] in E. rewrite Hj, Ht, He in E.
  destruct (write_entry now e j) as [[[]| | |] j'] eqn:Ew; try done.
  assert (match e with BE_filestore _ _ => Some 0 | _ => None end = None) as Hn by (by destruct e). rewrite Hn in E. cbn in E.
  destruct (m os) as [[a| | |] os1] eqn:Em; try done. unfold post_op in E. cbn in E.
  destruct (wait_all ws h) as [[] h']; cbn in E; try done. inv E. split_and!; try done. by exists j'.
Qed.

Lemma run_requests_changes l : forall s os codes s' os' j,
  run_requests l (s, os) = (Ok codes, (s', os')) -> undoable l (s, os) ->
  sv_journal s = Some j -> sv_journal_type s = JT_Bilog ->
  exists es j', changes (sv_path s) (q_call <$> l) os es os' /\ (journal_of (sv_path s) l).*2 = es /\
    write_entries (journal_of (sv_path s) l) j = (Ok tt, j') /\ sv_journal s' = Some j'.
Proof.
  induction l as [|q l IH]; intros s os codes s' os' j E Hu Hj Ht.
  { inv E. exists [], j. split; [constructor|done]. }
  destruct Hu as [(Hfi & Hv & p & a & Hp & Ha & Hok) Hul]. cbn [run_requests] in E. unfold mbind, M_bind, mret, M_ret in E.
  destruct (serve_req q (s, os)) as [[r| | |] [s1 os1]] eqn:E1; try done.
  destruct (run_requests l (s1, os1)) as [[rs| | |] [s2 os2]] eqn:E2; try done. inv E.
  unfold serve_req in E1. rewrite serve_handler in E1 by (by eapply meta_unix).
  cbn [fst snd] in *. destruct (meta_dispatch _ _ _ _ _ Hp Ha Hok) as (os1' & Hd & Hsets).
  destruct (bilog_undo_call (fun _ _ => Panic) (look os) (look os1') (q_call q) p (sv_path s) a Hp Ha) as (e & He & _).
  { by rewrite Hsets, Ha, Z.eqb_refl. }
  rewrite Hv in E1. destruct (handler_bilog _ _ _ _ _ _ _ _ _ _ _ e E1 Hj Ht He) as (Eact & Hp1 & Ht1 & j1 & Hw & Hj1).
  { by eapply meta_not_filestore. }
  rewrite Hfi in Eact.
  assert (act (q_call q) (sv_path s) None = dispatch (q_call q) (sv_path s)) as Hact.
  { by eapply meta_act. }
  rewrite Hact, Hd in Eact. injection Eact as <- <-.
  destruct (IH s1 os1' rs s' os' j1 E2 Hul Hj1 Ht1) as (es & j' & Hc & Hlen & Hws & Hj').
  rewrite Hp1 in Hc, Hlen, Hws.
  assert (journal_of (sv_path s) (q :: l) = (q_now q, e) :: journal_of (sv_path s) l) as Hjo.
  { unfold journal_of. rewrite bind_cons, Hv, He. done. }
  exists (e :: es), j'. rewrite Hjo. split; [by econstructor|]. split; [cbn; by rewrite Hlen|]. split; [|done].
  cbn [write_entries]. unfold mbind, M_bind. by rewrite Hw.
Qed.

Lemma history_bilogs l : forall last ctr, (history last ctr l ≫= fun r => bilog_payload (snd r)) = l.*2.
Proof.
  induction l as [|[now e] l IH]; intros last ctr; [done|]. cbn [history]. rewrite bind_app, IH.
  unfold entry_records. by destruct (1000000000 <? now - last).
Qed.

(** C8. A server with a new two-way journal serves requests that change the
    permissions, owners and times of files, by any of their names, some maybe
    several times. If the journal has dropped nothing, replaying it backwards on
    the same tree succeeds, and then every path has the attributes it had before
    the first request. *)
Theorem undo_restores_metadata recover f c st now k l s j os codes s' os' :
  0 < k -> HEADER_SIZE (T := BilogEntry) + k * BLOCK_SIZE <= f_len f < HEADER_SIZE (T := BilogEntry) + (k + 1) * BLOCK_SIZE -> f_len f < 2 ^ 63 ->
  c_journal_type c = JT_Bilog -> Journal_new (T := BilogEntry) f c now (Ok st) = Ok j ->
  sv_journal s = Some j -> sv_journal_type s = JT_Bilog ->
  run_requests l (s, os) = (Ok codes, (s', os')) -> undoable l (s, os) ->
  let es := journal_of (sv_path s) l in
  let rs := history now 0 es in
  clock_ok now es -> Forall rec_ok rs -> never_full k [] rs -> 2 * BLOCK_SIZE * (zlen rs + 1) < 2 ^ 63 ->
  mjoin (spec_history k rs) = rs ->
  exists j' os'', sv_journal s' = Some j' /\
    replay_main look recover true None false (S (length rs)) j' (sv_path s) os' = (Ok tt, os'') /\ alike os'' os.
Proof.
  intros Hk Hf Hlen Hty Hnew Hj Ht E Hu es rs Hclk Hok Hnf Hb Hkept.
  destruct (Journal_new_Repr (T := BilogEntry) f c now st k Hk Hf Hlen) as (j0 & Hnew0 & HRep & Hl & Hh).
  rewrite Hnew in Hnew0. injection Hnew0 as <-.
  destruct (run_requests_changes l s os codes s' os' j E Hu Hj Ht) as (es' & j' & Hc & Hes & Hw & Hj'). fold es in Hes, Hw.
  destruct (write_entries_refines k es 0 j []) as (q & j1 & Hw1 & HRep1 & _); rewrite ?Hl, ?Hh; try done.
  rewrite Hw in Hw1. injection Hw1 as <-. rewrite Hl, Hh in HRep1. cbn [h_trans_ctr] in HRep1. fold rs in HRep1.
  assert (exists it, collect next_reverse (S (length rs)) (read_reverse j') = (Ok (stored <$> rev (mjoin (spec_history k rs))), it)) as [it Hcol].
  { eapply collect_reverse_at; [by apply at_reverse_start|]. rewrite length_rev, Hkept. lia. }
  rewrite Hkept in Hcol.
  assert (h_ty (j_header j') = JT_Bilog) as Hty' by (rewrite (write_entries_type _ _ _ _ Hw), Hh; done).
  destruct (undo_changes recover (sv_path s) (q_call <$> l) os es' os' Hc os' ltac:(done)) as (os'' & Hre & Ha).
  exists j', os''. split; [done|]. split; [|done]. unfold replay_main, replay_as. rewrite Hty'.
  destruct (replay_collect (JE := bilog_entry recover) look next_reverse None false (S (length rs)) (sv_path s) eq_refl (read_reverse j') os' _ _ Hcol) as (it' & ->).
  rewrite replay_skips_time. rewrite (bind_rev (fun r => bilog_payload (snd r)) rs) by (intros [? []]; cbn; lia).
  unfold rs. rewrite history_bilogs, Hes. by rewrite Hre.
Qed.

End Laws.

(** ** An instance

    Attributes by the depth of a path: all names of a depth are names of one
    file. *)
Abbreviation attrs := (list stat).
Definition file_of (p : path) : nat := length (p_comps p).

Definition with_ino (n : nat) (st : stat) : stat :=
  mk_stat (st_mode st) (st_uid st) (st_gid st) (st_size st) (st_rdev st) (st_nlink st) (Z.of_nat n)
    (st_atime st) (st_atime_nsec st) (st_mtime st) (st_mtime_nsec st).

Definition attrs_view (os : attrs) : fsview :=
  mk_fsview (fun q => match os !! file_of q with Some st => inr (with_ino (file_of q) st) | None => inl ENOENT end)
    (fun _ => inl ENOENT) (fun _ _ => inl ENODATA) (fun _ => Panic) (fun _ => []).

Definition set_attrs (c : VFSCall) (p : path) (os : attrs) : Z * attrs := (0, alter (stat_after c) (file_of p) os).

Definition nothing (os : attrs) : Z * attrs := (0, os).

#[local] Instance attrs_sys : Syscalls attrs := {|
  sys_errno := fun _ => 0; sys_mkfifo := fun _ _ => nothing; sys_mknod := fun _ _ _ => nothing; sys_mkdir := fun _ _ => nothing;
  sys_unlink := fun _ => nothing; sys_rmdir := fun _ => nothing; sys_symlink := fun _ _ => nothing;
  sys_renameat2 := fun _ _ _ => nothing; sys_link := fun _ _ => nothing;
  sys_chmod := fun p mode => set_attrs (chmod p mode) p; sys_fchmod := fun _ _ => nothing;
  sys_chown := fun p uid gid => set_attrs (security p (Unix uid gid)) p; sys_lchown := fun _ _ _ => nothing;
  sys_fchown := fun _ _ _ => nothing; sys_truncate := fun _ _ => nothing; sys_ftruncate := fun _ _ => nothing;
  sys_open := fun _ _ _ => nothing; sys_close := fun _ => nothing; sys_pread := fun _ _ _ os => (inl 9, os);
  sys_pwrite := fun _ _ _ => nothing; sys_fallocate := fun _ _ _ _ => nothing; sys_lsetxattr := fun _ _ _ _ => nothing;
  sys_fsetxattr := fun _ _ _ _ => nothing; sys_lremovexattr := fun _ _ => nothing; sys_fremovexattr := fun _ _ => nothing;
  sys_utimensat := fun p ts => set_attrs (utimens p (fst ts, snd ts, mk_Timespec 0 0)) p; sys_futimens := fun _ _ => nothing;
  sys_fsync := fun _ => nothing; sys_fdatasync := fun _ => nothing |}.

Lemma with_ino_after n c st : with_ino n (stat_after c st) = stat_after c (with_ino n st).
Proof. destruct c as [| | | | | | | | | | | | | | |q [[a m] z]| | |q [| uid gid|]]; done. Qed.

Lemma set_attrs_sets c p os st :
  fv_lstat (attrs_view os) p = inr st ->
  exists os', set_attrs c p os = (0, os') /\ sets attrs_view os os' (st_ino st) (stat_after c).
Proof.
  cbn. destruct (os !! file_of p) as [st0|] eqn:Ep; [|done]. intros [= <-]. eexists. split; [done|]. intros q. cbn [fv_lstat attrs_view].
  destruct (decide (file_of q = file_of p)) as [He|Hne].
  - rewrite He, list_lookup_alter_eq, Ep. cbn. by rewrite Z.eqb_refl, with_ino_after.
  - rewrite list_lookup_alter_ne by done. destruct (os !! file_of q); [|done]. cbn.
    replace (Z.of_nat (file_of q) =? Z.of_nat (file_of p)) with false by (symmetry; apply Z.eqb_neq; lia). done.
Qed.

#[local] Instance attrs_laws : MetaLaws attrs_view.
Proof.
  split.
  - intros os p q st st'. cbn. destruct (os !! file_of p) eqn:Ep, (os !! file_of q) eqn:Eq; try done.
    intros [= <-] [= <-] He. cbn in He. apply Nat2Z.inj in He. rewrite He in *. congruence.
  - intros os p q mode st Hst _. destruct (set_attrs_sets (chmod p mode) p os st Hst) as (os' & E & H). by exists os'.
  - intros os p q uid gid st Hst _. destruct (set_attrs_sets (security p (Unix uid gid)) p os st Hst) as (os' & E & H). by exists os'.
  - intros os p q a m z st Hst _. destruct (set_attrs_sets (utimens p (a, m, mk_Timespec 0 0)) p os st Hst) as (os' & E & H). by exists os'.
Defined.

Definition undo_root : path := mk_path true ["r"%string].
Definition undo_path : path := mk_path true ["a"%string].
Definition undo_alias : path := mk_path true ["b"%string].
Definition undo_stat (mode uid : Z) : stat := mk_stat mode uid 100 5 0 2 0 7 8 9 10.
Definition undo_os : attrs := [undo_stat 16877 0; undo_stat 16877 0; undo_stat 33188 1000].

#[local] Existing Instance no_compressor.
#[local] Instance undo_msgs : MsgFormat := table_msgs [].
#[local] Instance undo_digest : Digest := byte_sum.
#[local] Instance undo_vfscalls : StoreFormat VFSCall := mapped_format (fun _ => []) (fun _ => unlink undo_path).

(** Entries of the two kinds and names of the example. *)
Definition entry_path (p : path) : Z := if bool_decide (p = undo_path) then 0 else 1.
Definition path_entry (z : Z) : path := if z =? 0 then undo_path else undo_alias.
Definition undo_bytes (e : BilogEntry) : list Z :=
  match e with
  | BE_chmod x => 1 :: entry_path (chm_path x) :: le_bytes 4 (chm_mode x) ++ le_bytes 8 (chm_checksum x)
  | BE_chown x => 2 :: entry_path (cho_path x) :: le_bytes 4 (cho_uid x) ++ le_bytes 4 (cho_gid x) ++ le_bytes 8 (cho_checksum x)
  | _ => []
  end.
Definition bytes_undo (l : list Z) : BilogEntry :=
  match l with
  | 1 :: p :: l => BE_chmod (mk_bilog_chmod (path_entry p) (le_val (take 4 l)) (le_val (drop 4 l)))
  | _ :: p :: l => BE_chown (mk_bilog_chown (path_entry p) (le_val (take 4 l)) (le_val (take 4 (drop 4 l))) (le_val (drop 8 l)))
  | _ => BE_filestore undo_path 0
  end.
#[local] Instance undo_format : StoreFormat BilogEntry := mapped_format undo_bytes bytes_undo.
#[local] Instance undo_laws : StoreFormatLaws BilogEntry := mapped_format_laws undo_bytes bytes_undo.

Definition undo_store : FileStore := mk_FileStore 0 0 0 0 undo_root FilestoreEntry.
Definition undo_file : file := mk_file (24 + 2 * BLOCK_SIZE) (fun _ => 0) 0.
Definition undo_config : JournalConfig := mk_JournalConfig false (24 + 2 * BLOCK_SIZE) 0 undo_root JT_Bilog.
Definition undo_journal : Journal :=
  mk_Journal (mk_JournalHeader 0 0 0 JT_Bilog) (2 * BLOCK_SIZE) undo_file false [] 0 undo_store.
Definition undo_server : Server := mk_Server false [] [] (Some undo_journal) JT_Bilog undo_root.

(** [chmod] by one name, [chown] by the other, [chmod] again. *)
Definition undo_requests : list req :=
  [mk_req 1 10 (attrs_view undo_os) (chmod undo_path 33024) None;
   mk_req 2 20 (attrs_view (alter (stat_after (chmod undo_path 33024)) 2%nat undo_os)) (security undo_alias (Unix 5 6)) None].

Lemma undo_restores_metadata_witness :
  exists s' os', run_requests undo_requests (undo_server, undo_os) = (Ok [0; 0], (s', os')) /\
    fv_lstat (attrs_view os') (translate_path undo_path undo_root) = inr (with_ino 2 (mk_stat 33024 5 6 5 0 2 0 7 8 9 10)) /\
    exists j' os'', sv_journal s' = Some j' /\
      replay_main attrs_view (fun _ p => Ok (unlink p)) true None false 3 j' undo_root os' = (Ok tt, os'') /\
      alike attrs_view os'' undo_os.
Proof.
  destruct (run_requests undo_requests (undo_server, undo_os)) as [r [s' os']] eqn:E.
  assert (r = Ok [0; 0]) as -> by (change r with (fst (r, (s', os'))); rewrite <- E; vm_compute; reflexivity).
  exists s', os'. split; [done|]. split.
  { change os' with (snd (snd (@Ok (list Z) [0; 0], (s', os')))). rewrite <- E. vm_compute. reflexivity. }
  destruct (undo_restores_metadata attrs_view (fun _ p => Ok (unlink p)) undo_file undo_config undo_store 0 2 undo_requests
    undo_server undo_journal undo_os [0; 0] s' os') as (j' & os'' & Hj & Hr & Ha);
    [ground|ground|ground|done|reflexivity|done|done|exact E| |ground| |ground|ground| |].
  - split; [|split; [|exact I]].
    + split; [done|]. split; [done|]. eexists _, _. split; [reflexivity|]. split; [vm_compute; reflexivity|]. split; [ground|vm_compute; reflexivity].
    + split; [done|]. split; [vm_compute; reflexivity|]. eexists _, _. split; [reflexivity|]. split; [vm_compute; reflexivity|]. split; [ground|vm_compute; reflexivity].
  - repeat constructor; ground.
  - vm_compute. reflexivity.
  - exists j', os''. exact (conj Hj (conj Hr Ha)).
Defined.
