(* ===== verification/SnapshotCmd.v ===== *)
(** * The snapshot command: [fsyncd/src/snapshot/mod.rs]

    [snapshot_main] opens or creates a snapshot, and merges a forward journal
    into it or applies it to a backing store. The state is the regular files the
    command line names and the operating system below the backing store; a
    snapshot's file is put back in every outcome. [dispatch_all] is the reference
    for applying: the calls one after the other, until one fails. *)

From stdpp Require Import base list numbers option gmap strings.
From Stdlib Require Import ZArith Lia.
From S2P Require Import Prelude Common BTree Filestore Store StoreSpec StoreInst StoreRecovery Snapshot SnapshotAlloc SnapshotWrite SnapshotInv SnapshotMerge SnapshotReplay SnapshotFormat SnapshotCompact SnapshotInst Net Ops OpsInst Cli.

Local Open Scope string_scope.
Local Open Scope list_scope.
Local Open Scope Z_scope.

Record CmdState (OS : Type) := mk_CmdState { cs_files : gmap string file; cs_os : OS }.
Arguments mk_CmdState {OS}.
Arguments cs_files {OS}.
Arguments cs_os {OS}.

Section Cmd.
Context {F : SnapFormat} {FV : StoreFormat VFSCall} {OS : Type} {Sys : Syscalls OS}.
(** Whether a name can be opened, for writing too; the clock of [Snapshot::new]
    and [Journal::open]; [FileStore::new]; [canonize_path]. *)
Context (may_open : string -> bool -> outcome unit) (now1 now2 now : Z) (fstore : outcome FileStore)
  (canonize_path : string -> outcome path).

(** [OpenOptions::open] of an existing file. *)
Definition open_existing (name : string) (write : bool) : M (CmdState OS) file := fun h =>
  match cs_files h !! name with
  | Some f => ((_ ← may_open name write; Ok (seek_start f 0)), h)
  | None => (Err NotFound, h)
  end.

(** [Path::exists], and the two ways to open the snapshot. *)
Definition open_snapshot (name : string) : M (CmdState OS) Snapshot := fun h =>
  match cs_files h !! name with
  | Some _ =>
    match open_existing name true h with
    | (Ok f, h) => (expect_ok (Snapshot_open f), h)
    | (_, h) => (Panic, h)
    end
  | None =>
    match may_open name true with
    | Ok _ => (Ok (Snapshot_new empty_file now1 now2),
               mk_CmdState (<[name := empty_file]> (cs_files h)) (cs_os h))
    | _ => (Panic, h)
    end
  end.

(** [merge_from] over [read_forward] without the time stamps: the journal is
    read as the calls are merged. *)
Fixpoint merge_journal (fuel : nat) : M (JournalIterator VFSCall * Snapshot) unit := fun '(it, s) =>
  match fuel with
  | O => (NoFuel, (it, s))
  | S fuel =>
    match next_forward it with
    | (Ok None, it) => (Ok tt, (it, s))
    | (Ok (Some e), it) =>
      match e_inner e with
      | Time _ => merge_journal fuel (it, s)
      | Payload call =>
        match merge_call call s with
        | (Ok _, s) => merge_journal fuel (it, s)
        | (r, s) => (r, (it, s))
        end
      end
    | (NoFuel, it) => (NoFuel, (it, s))
    | (_, it) => (Panic, (it, s))
    end
  end.

Definition merge_config : JournalConfig := mk_JournalConfig false 0 0 (mk_path false []) JT_Invalid.

(** [snapshot merge], from the opened journal file on. *)
Definition snapshot_merge (fuel : nat) (f : file) : M Snapshot unit := fun s =>
  match Journal_open (T := VFSCall) f merge_config now fstore with
  | Ok j =>
    if bool_decide (h_ty (j_header j) = JT_Forward) then
      match merge_journal fuel (read_forward j, s) with
      | (Ok _, (_, s)) => let '(r, s) := finalize s in (expect_ok r, s)
      | (r, (_, s)) => (expect_ok r, s)
      end
    else (Panic, s)
  | NoFuel => (NoFuel, s)
  | _ => (Panic, s)
  end.

(** [snapshot apply], from the opened snapshot on. *)
Fixpoint apply_loop (fuel : nat) (fs_path : path) : M (SnapshotApply * OS) unit := fun '(a, os) =>
  match fuel with
  | O => (NoFuel, (a, os))
  | S fuel =>
    match apply_next (S (S (length (ap_file_iter a)))) a with
    | (Ok None, a) => (Ok tt, (a, os))
    | (Ok (Some call), a) =>
      match dispatch call fs_path os with
      | (Ok res, os) => if res <? 0 then (Panic, (a, os)) else apply_loop fuel fs_path (a, os)
      | (r, os) => ((fun _ => tt) <$> r, (a, os))
      end
    | (r, a) => ((fun _ => tt) <$> r, (a, os))
    end
  end.

(** The two subcommands on the files; the snapshot's file keeps what was written. *)
Definition merge_with (fuel : nat) (snapshot_path journal_path : string) (snapshot : Snapshot) : M (CmdState OS) unit := fun h =>
  match open_existing journal_path false h with
  | (Ok f, h) =>
    let '(r, s) := snapshot_merge fuel f snapshot in
    (r, mk_CmdState (<[snapshot_path := sn_serialised s]> (cs_files h)) (cs_os h))
  | (_, h) => (Panic, h)
  end.

Definition apply_to (fuel : nat) (fs_path : path) (snapshot : Snapshot) : M (CmdState OS) unit := fun h =>
  let '(r, (_, os)) := apply_loop fuel fs_path (Snapshot_apply snapshot, cs_os h) in
  (r, mk_CmdState (cs_files h) os).

Definition snapshot_main (fuel : nat) (matches : ArgMatches) : M (CmdState OS) unit :=
  snapshot_matches ← lift (unwrap (subcommand_matches matches "snapshot"));
  snapshot_path ← lift (unwrap (value_of snapshot_matches "snapshot-path"));
  snapshot ← open_snapshot snapshot_path;
  if bool_decide (subcommand_name snapshot_matches = Some "merge") then
    merge_matches ← lift (unwrap (subcommand_matches snapshot_matches "merge"));
    journal_path ← lift (unwrap (value_of merge_matches "with"));
    merge_with fuel snapshot_path journal_path snapshot
  else if bool_decide (subcommand_name snapshot_matches = Some "apply") then
    apply_matches ← lift (unwrap (subcommand_matches snapshot_matches "apply"));
    store ← lift (unwrap (value_of apply_matches "backing-store"));
    fs_path ← lift (expect_ok (canonize_path store));
    apply_to fuel fs_path snapshot
  else panic.

(** ** Against the calls themselves *)
Fixpoint dispatch_all (calls : list VFSCall) (p : path) : M OS unit :=
  match calls with
  | [] => mret tt
  | c :: calls => res ← dispatch c p; if res <? 0 then panic else dispatch_all calls p
  end.

Definition calls_of (e : EntryContent VFSCall) : list VFSCall :=
  match e with Payload c => [c] | Time _ => [] end.

Lemma merge_journal_collect fuel : forall it es it' s,
  collect next_forward fuel it = (Ok es, it') ->
  exists it'', merge_journal fuel (it, s) =
    let '(r, s') := merge_from (es ≫= fun e => calls_of (e_inner e)) s in (r, (it'', s')).
Proof.
  induction fuel as [|fuel IH]; intros it es it' s E; cbn [collect] in E; [done|].
  unfold mbind, M_bind in E. cbn [merge_journal]. destruct (next_forward it) as [[o| | |] it1]; try done.
  destruct o as [e|]; [|inv E; by exists it'].
  destruct (collect next_forward fuel it1) as [[es1| | |] it2] eqn:E1; inv E.
  rewrite bind_cons. destruct (e_inner e) as [c|t]; [|by eapply IH].
  cbn [calls_of app merge_from]. munfold. destruct (merge_call c s) as [[[]| | |] s1]; try by exists it1.
  by eapply IH.
Qed.

Lemma apply_loop_all fuel p : forall a cs a' os,
  apply_all fuel a = (Ok cs, a') ->
  exists a'', apply_loop fuel p (a, os) = let '(r, os') := dispatch_all cs p os in (r, (a'', os')).
Proof.
  induction fuel as [|fuel IH]; intros a cs a' os E; cbn [apply_all] in E; munfold; [done|].
  cbn [apply_loop]. destruct (apply_next _ a) as [[o| | |] a1]; try done.
  destruct o as [c|]; [|inv E; by exists a'].
  destruct (apply_all fuel a1) as [[cs1| | |] a2] eqn:E1; inv E. cbn [dispatch_all]. munfold.
  destruct (dispatch c p os) as [[res| | |] os1]; try by exists a1.
  destruct (res <? 0); [by exists a1|]. by eapply IH.
Qed.

End Cmd.

(** ** What the arguments ask for *)
Definition asks_for (ms : ArgMatches) (sname cmd arg value : string) : Prop :=
  exists sm cm, subcommand_matches ms "snapshot" = Some sm /\ value_of sm "snapshot-path" = Some sname /\
    subcommand_matches sm cmd = Some cm /\ value_of cm arg = Some value.

Lemma subcommand_matches_name m n m' : subcommand_matches m n = Some m' -> subcommand_name m = Some n.
Proof. destruct m as [vs [[n0 m0]|]]; cbn; [|done]. by case_bool_decide; subst. Qed.

Section Main.
Context {F : SnapFormat} {FV : StoreFormat VFSCall} {OS : Type} {Sys : Syscalls OS}.
Context (may_open : string -> bool -> outcome unit) (now1 now2 now : Z) (fstore : outcome FileStore)
  (canonize_path : string -> outcome path).

Abbreviation snapshot_main := (snapshot_main may_open now1 now2 now fstore canonize_path).

Lemma snapshot_main_merge fuel ms sname jname :
  asks_for ms sname "merge" "with" jname ->
  forall h, snapshot_main fuel ms h =
    (s ← open_snapshot may_open now1 now2 sname; merge_with may_open now fstore fuel sname jname s) h.
Proof.
  intros (sm & mm & E1 & E2 & E3 & E4) h. unfold SnapshotCmd.snapshot_main. munfold. rewrite E1. cbn [unwrap]. rewrite E2. cbn [unwrap].
  destruct (open_snapshot _ _ _ _ _) as [[s| | |] h']; try done.
  rewrite (subcommand_matches_name sm "merge" mm E3), bool_decide_true, E3 by done. cbn [unwrap]. by rewrite E4.
Qed.

Lemma snapshot_main_apply fuel ms sname store root :
  asks_for ms sname "apply" "backing-store" store -> canonize_path store = Ok root ->
  forall h, snapshot_main fuel ms h =
    (s ← open_snapshot may_open now1 now2 sname; apply_to fuel root s) h.
Proof.
  intros (sm & mm & E1 & E2 & E3 & E4) Hc h. unfold SnapshotCmd.snapshot_main. munfold. rewrite E1. cbn [unwrap]. rewrite E2. cbn [unwrap].
  destruct (open_snapshot _ _ _ _ _) as [[s| | |] h']; try done.
  rewrite (subcommand_matches_name sm "apply" mm E3), bool_decide_false, bool_decide_true, E3 by done. cbn [unwrap].
  rewrite E4. cbn [unwrap]. by rewrite Hc.
Qed.

(** A name that did not exist, and one that did. *)
Lemma open_snapshot_new name files (os : OS) :
  files !! name = None -> may_open name true = Ok tt ->
  open_snapshot may_open now1 now2 name (mk_CmdState files os) =
    (Ok (Snapshot_new empty_file now1 now2), mk_CmdState (<[name := empty_file]> files) os).
Proof. intros Hn Hm. unfold open_snapshot. cbn. by rewrite Hn, Hm. Qed.

Lemma open_snapshot_old name files (os : OS) f :
  files !! name = Some f -> may_open name true = Ok tt ->
  open_snapshot may_open now1 now2 name (mk_CmdState files os) =
    (expect_ok (Snapshot_open f), mk_CmdState files os).
Proof.
  intros Hn Hm. unfold open_snapshot, open_existing. cbn. rewrite Hn, Hm. cbn.
  by replace (Snapshot_open (seek_start f 0)) with (Snapshot_open f).
Qed.

Context {LF : SnapFormatLaws} {LV : StoreFormatLaws VFSCall}.

(** The calls of the records of a history. *)
Lemma history_calls (l : list (Z * VFSCall)) : forall last ctr,
  (history last ctr l ≫= fun r => calls_of (snd r)) = l.*2.
Proof.
  induction l as [|[t c] l IH]; intros last ctr; [done|]. cbn [history]. rewrite bind_app, IH.
  unfold entry_records. by destruct (1000000000 <? t - last).
Qed.

Lemma stored_calls (rs : list (Z * EntryContent VFSCall)) :
  ((stored <$> rs) ≫= fun e => calls_of (e_inner e)) = rs ≫= fun r => calls_of (snd r).
Proof. induction rs as [|[i e] rs IH]; [done|]. rewrite fmap_cons, !bind_cons, IH. done. Qed.

(** Merging from a journal that can be opened. *)
Lemma snapshot_merge_ok fuel f j es it s s1 s2 :
  Journal_open f merge_config now fstore = Ok j -> h_ty (j_header j) = JT_Forward ->
  collect next_forward fuel (read_forward j) = (Ok es, it) ->
  merge_from (es ≫= fun e => calls_of (e_inner e)) s = (Ok tt, s1) -> finalize s1 = (Ok tt, s2) ->
  snapshot_merge now fstore fuel f s = (Ok tt, s2).
Proof.
  intros Ho Ht Hc Hm Hf. unfold snapshot_merge. rewrite Ho, bool_decide_true by done.
  destruct (merge_journal_collect fuel (read_forward j) es it s Hc) as (it' & ->). rewrite Hm. cbn. by rewrite Hf.
Qed.

(** Whether a file can be replayed depends on the length of the file only. *)
Lemma reopened_applicable ext t s f' :
  sinv snap_header_size ext t s -> t <= f_len f' ->
  forallb (applicable (sn_serialised s)) (sn_files s) = true -> forallb (applicable f') (sn_files s) = true.
Proof.
  intros Hs Hlen Hap. rewrite forallb_forall in Hap |- *. intros [p f] Hin. specialize (Hap _ Hin). unfold applicable in *.
  apply andb_prop in Hap as [[Hx _]%andb_prop Hc]. rewrite Hx, Hc, andb_true_r. cbn [andb].
  unfold readable. apply forallb_forall. intros [k b] Hb. destruct (f_blocks f) as [d|] eqn:Ed; [|done].
  apply list_elem_of_In in Hin, Hb.
  destruct (wi_block _ _ _ _ _ (si_file _ _ _ _ Hs p d ltac:(by exists f)) _ _ Hb) as (? & ? & ? & ? & ? & ?).
  cbn. lia.
Qed.

(** Finalising a merged snapshot, and what is read back. *)
Lemma finalize_created ext t s s1 :
  sinv snap_header_size ext t s -> forallb (fun e => created (snd e)) (sn_files s) = true ->
  compact s = (Ok tt, s1) -> (exists t1, sinv snap_header_size ext t1 s1 /\ t1 <= t /\ forall p x v, sn_holds s1 p x v <-> sn_holds s p x v) ->
  t < ADDR_LIMIT -> files_ok (sn_files s1) ->
  0 <= hd_from (sn_header s) < 2 ^ 64 * 10 ^ 9 -> 0 <= hd_to (sn_header s) < 2 ^ 64 * 10 ^ 9 ->
  exists s' o, finalize s = (Ok tt, s') /\ Snapshot_open (sn_serialised s') = Ok o /\
    forallb (applicable (sn_serialised o)) (sn_files o) = true /\
    forall p x v, effects (snapshot_calls o) nothing p x v <-> sn_holds s p x v.
Proof.
  intros Hs Hcr Hc (t1 & Hs1 & Ht1 & Hh) Hlim Hfiles Hfrom Hto.
  destruct (compact_keeps created (fun _ _ => eq_refl) s (Ok tt) s1 (si_sorted _ _ _ _ Hs) Hc) as [Hcr1 Hhd].
  { intros p f Hin. rewrite forallb_forall in Hcr. apply (Hcr (p, f)). by apply list_elem_of_In. }
  assert (forallb (fun e => created (snd e)) (sn_files s1) = true) as Hcr2.
  { apply forallb_forall. intros [p f] Hin. apply (Hcr1 p). by apply list_elem_of_In. }
  rewrite <- Hhd in Hfrom, Hto.
  pose proof (end_of_data_spec _ _ _ (si_free _ _ _ _ Hs1)) as He.
  assert (snap_header_size <= t1 < 2 ^ 63) as Ht.
  { destruct (wf_tail _ _ _ (si_free _ _ _ _ Hs1)) as (v & Hin & _).
    pose proof (wf_entry _ _ _ (si_free _ _ _ _ Hs1) _ _ Hin). unfold ADDR_LIMIT in *. lia. }
  destruct (finalize_spec s s1 t1 Hc He Ht Hfiles Hfrom Hto) as (s' & f' & E & _ & _ & Hsame & Hopen).
  destruct (reopened_same ext t1 s1 (sn_header s') f' Hs1 Hsame) as [Hcalls _].
  eexists s', _. split; [exact E|]. split; [exact Hopen|]. split.
  - destruct (created_applicable _ _ _ _ Hs1 Hcr2) as [Hap _]. cbn [sn_serialised sn_files].
    apply (reopened_applicable ext t1 s1); [done|apply Hsame|done].
  - intros p x v. rewrite Hcalls, (snapshot_calls_effects _ _ _ _ _ _ _ Hs1 Hcr2). apply Hh.
Qed.
End Main.
