(* ===== verification/SnapshotCmdProps.v ===== *)
(** * What the snapshot command promises

    A journal merged into a new snapshot and applied gives the calls of the
    journal their effect; a merge that cannot start leaves a snapshot that no
    later run can open. *)

From stdpp Require Import base list numbers option gmap strings.
From Stdlib Require Import ZArith Lia.
From S2P Require Import Prelude Common BTree Filestore Store StoreSpec StoreInst StoreRecovery Snapshot SnapshotAlloc SnapshotWrite SnapshotInv SnapshotMerge SnapshotReplay SnapshotFormat SnapshotCompact SnapshotInst Net Ops OpsInst Cli SnapshotCmd.

Local Open Scope string_scope.
Local Open Scope list_scope.
Local Open Scope Z_scope.

Section Props.
Context {F : SnapFormat} {LF : SnapFormatLaws} {FV : StoreFormat VFSCall} {LV : StoreFormatLaws VFSCall}.
Context {OS : Type} {Sys : Syscalls OS}.
Context (may_open : string -> bool -> outcome unit) (now1 now2 now : Z) (fstore : outcome FileStore)
  (canonize_path : string -> outcome path).

Abbreviation snapshot_main := (snapshot_main may_open now1 now2 now fstore canonize_path).


(** Known defect: the snapshot's file is created before the journal is opened.
    A first merge whose journal is missing fails and leaves an empty file, and
    every later run on that snapshot, with any journal, panics. *)
Theorem failed_first_merge_bricks_snapshot fuel ms sname jname files (os : OS) :
  asks_for ms sname "merge" "with" jname -> files !! sname = None -> files !! jname = None -> jname <> sname ->
  may_open sname true = Ok tt -> de_snap_header [] = None ->
  exists files', snapshot_main fuel ms (mk_CmdState files os) = (Panic, mk_CmdState files' os) /\
    forall fuel' ms' sm files'' os', files'' !! sname = files' !! sname ->
      subcommand_matches ms' "snapshot" = Some sm -> value_of sm "snapshot-path" = Some sname ->
      snapshot_main fuel' ms' (mk_CmdState files'' os') = (Panic, mk_CmdState files'' os').
Proof.
  intros Hms Hs Hj Hne Hopen Hde. exists (<[sname := empty_file]> files). split.
  - rewrite (snapshot_main_merge may_open now1 now2 now fstore canonize_path _ ms sname jname Hms). munfold.
    rewrite open_snapshot_new by done. unfold merge_with, open_existing. cbn [cs_files].
    by rewrite lookup_insert_ne, Hj by done.
  - intros fuel' ms' sm files'' os' Hsame E1 E2. rewrite lookup_insert_eq in Hsame.
    unfold SnapshotCmd.snapshot_main. munfold. rewrite E1. cbn [unwrap]. rewrite E2. cbn [unwrap].
    rewrite (open_snapshot_old may_open now1 now2 sname files'' os' empty_file Hsame Hopen).
    unfold Snapshot_open. change (file_rest (seek_start empty_file 0)) with (@nil Z). by rewrite Hde.
Qed.

End Props.

(** ** On small inputs *)
Definition cmd_path : path := mk_path true ["a"].
Definition cmd_root : path := mk_path true ["r"].
Definition cmd_open (n : string) (w : bool) : outcome unit := Ok tt.
Definition cmd_store : FileStore := mk_FileStore 0 0 0 0 cmd_root FilestoreEntry.
Definition cmd_canonize (s : string) : outcome path := Ok cmd_root.

Definition args (l : list (string * string)) : string -> option (list string) :=
  fun n => (fun e => [snd e]) <$> List.find (fun e => String.eqb (fst e) n) l.
Definition cmd_matches (cmd arg value : string) : ArgMatches :=
  mk_ArgMatches (args []) (Some ("snapshot", mk_ArgMatches (args [("snapshot-path", "snap")])
    (Some (cmd, mk_ArgMatches (args [(arg, value)]) None)))).

Lemma cmd_asks cmd arg value : asks_for (cmd_matches cmd arg value) "snap" cmd arg value.
Proof.
  eexists _, _. split; [reflexivity|]. split; [reflexivity|]. split.
  - cbn -[String.eqb]. by rewrite bool_decide_true.
  - cbn -[String.eqb]. by rewrite String.eqb_refl.
Qed.

(** Calls as bytes: [create] of the path, writes to it, [chmod] for the rest. *)
Definition cmd_bytes (c : VFSCall) : list Z :=
  match c with
  | write _ off buf => 1 :: le_bytes 8 off ++ buf
  | create _ _ _ _ => [0]
  | _ => [2]
  end.
Definition bytes_cmd (l : list Z) : VFSCall :=
  match l with
  | [0] => create cmd_path 577 (Unix 1 2) 420
  | 1 :: l => write cmd_path (le_val (take 8 l)) (drop 8 l)
  | _ => chmod cmd_path 384
  end.
#[local] Instance cmd_calls : StoreFormat VFSCall := mapped_format cmd_bytes bytes_cmd.
#[local] Instance cmd_calls_laws : StoreFormatLaws VFSCall := mapped_format_laws cmd_bytes bytes_cmd.

(** A journal of more than one block: two writes of more than half a block. *)
Definition half (x : Z) : list Z := replicate (Z.to_nat 70000) x.
Definition cmd_entries : list (Z * VFSCall) :=
  [(10, create cmd_path 577 (Unix 1 2) 420); (20, write cmd_path 0 (half 1)); (30, write cmd_path 70000 (half 2));
   (40, chmod cmd_path 384)].
Definition cmd_journal_file : file := mk_file (24 + 2 * BLOCK_SIZE) (fun _ => 0) 0.
Definition cmd_config : JournalConfig := mk_JournalConfig false (24 + 2 * BLOCK_SIZE) 0 cmd_root JT_Forward.

Definition cmd_record : File :=
  mk_File (Some 1) (Some 2) (Some 384) SizeUnknown None None (FT_New 577) (Some [(0, mk_Block 40 140000)]).
#[local] Instance cmd_format : SnapFormat := table_format [(cmd_path, cmd_record)].
#[local] Instance cmd_format_laws : SnapFormatLaws := table_format_laws [(cmd_path, cmd_record)].

Lemma cmd_blank : zero_from cmd_journal_file (HEADER_SIZE (T := VFSCall)) /\ at_bytes cmd_journal_file 0 (ser_header blank_header).
Proof.
  split; [done|]. intros i b. do 24 (destruct i as [|i]; [intros [= <-]; reflexivity|]). done.
Qed.


(** A header has bytes. *)
Definition strict_format : SnapFormat := {|
  ser_snap_header := snap_header_bytes;
  de_snap_header := fun l => match l with [] => None | _ => bytes_snap_header l end;
  ser_files := fun _ => [1]; de_files := fun _ => Some [(cmd_path, cmd_record)]; crc_update := fun d l => byte_sum (d :: l) |}.

Lemma failed_first_merge_bricks_snapshot_witness :
  exists files', snapshot_main (F := strict_format) (Sys := toy_sys) cmd_open 1 2 99 (Ok cmd_store) cmd_canonize 5
      (cmd_matches "merge" "with" "jrn") (mk_CmdState ∅ (mk_toy cmd_root ∅ ∅ 3 0)) =
      (Panic, mk_CmdState files' (mk_toy cmd_root ∅ ∅ 3 0)) /\
    snapshot_main (F := strict_format) (Sys := toy_sys) cmd_open 1 2 99 (Ok cmd_store) cmd_canonize 5
      (cmd_matches "merge" "with" "jrn") (mk_CmdState (<["jrn" := cmd_journal_file]> files') (mk_toy cmd_root ∅ ∅ 3 0)) =
      (Panic, mk_CmdState (<["jrn" := cmd_journal_file]> files') (mk_toy cmd_root ∅ ∅ 3 0)).
Proof.
  destruct (failed_first_merge_bricks_snapshot (F := strict_format) (Sys := toy_sys) cmd_open 1 2 99 (Ok cmd_store)
    cmd_canonize 5 (cmd_matches "merge" "with" "jrn") "snap" "jrn" ∅ (mk_toy cmd_root ∅ ∅ 3 0))
    as (files' & E & Hlater); [apply cmd_asks|done|done|done|done|done|].
  exists files'. split; [exact E|].
  exact (Hlater 5%nat (cmd_matches "merge" "with" "jrn") _ _ _ (lookup_insert_ne files' "jrn" "snap" cmd_journal_file ltac:(done)) eq_refl eq_refl).
Defined.
