(* ===== verification/WinSecurity.v ===== *)
(** * Security descriptors on Windows: [fsyncd/src/common/security_windows.rs]

    A descriptor travels as SDDL text. When SIDs are translated, every SID in the
    text is replaced by the name of its account between quotes, and on the other
    side every quoted name by a SID. The two patterns are matched as the source
    writes them; the conversions and account look-ups of the operating system are
    parameters. *)

From stdpp Require Import base list numbers option strings.
From Stdlib Require Import ZArith Lia Ascii.
From Stdlib Require String.
From S2P Require Import Prelude Common Entries.

Local Open Scope char_scope.
Local Open Scope string_scope.
Local Open Scope list_scope.
Local Open Scope Z_scope.

Abbreviation text := (list ascii).

(** ** The patterns *)
Definition SDDL_DELIM : ascii := "'"%char.
Definition newline : ascii := "010"%char.
Definition is_digit (c : ascii) : bool := bool_decide (is_Some (digit_val c)).

(** The longest [(-[0-9]+)*] after a digit: how many characters it takes. *)
Fixpoint sid_tail (l : text) : nat :=
  match l with
  | c :: l' =>
    if is_digit c then S (sid_tail l')
    else if Ascii.eqb c "-" then
      match l' with
      | d :: l'' => if is_digit d then S (S (sid_tail l'')) else O
      | [] => O
      end
    else O
  | [] => O
  end.

(** [SID_REGEX], [S-1-5(-[0-9]+)+], at the start of the text. *)
Definition sid_match (l : text) : option nat :=
  match l with
  | a :: b :: c :: d :: e :: f :: g :: l' =>
    if bool_decide ([a; b; c; d; e; f] = String.list_ascii_of_string "S-1-5-") && is_digit g
    then Some (7 + sid_tail l')%nat else None
  | _ => None
  end.

(** [NAME_REGEX], ['(.+?)'] : the closing quote is the first one after at least
    one character; [.] is anything but the end of a line. *)
Fixpoint find_quote (l : text) : option nat :=
  match l with
  | c :: l => if Ascii.eqb c SDDL_DELIM then Some O else if Ascii.eqb c newline then None else S <$> find_quote l
  | [] => None
  end.

Definition name_match (l : text) : option nat :=
  match l with
  | q :: c :: l' =>
    if Ascii.eqb q SDDL_DELIM && negb (Ascii.eqb c newline) then (fun n => 3 + n)%nat <$> find_quote l' else None
  | _ => None
  end.

(** [Regex::replace_all]: from the left, without overlaps. Every round takes a
    character, so the length of the text is fuel enough. *)
Fixpoint replace_from (fuel : nat) (m : text -> option nat) (f : text -> outcome text) (l : text) : outcome text :=
  match fuel with
  | O => NoFuel
  | S fuel =>
    match l with
    | [] => Ok []
    | c :: l' =>
      match m l with
      | Some n => r ← f (take n l); rest ← replace_from fuel m f (drop n l); Ok (r ++ rest)
      | None => rest ← replace_from fuel m f l'; Ok (c :: rest)
      end
    end
  end.

Definition replace_all (m : text -> option nat) (f : text -> outcome text) (l : text) : outcome text :=
  replace_from (S (length l)) m f l.

(** ** Accounts and descriptors of the operating system *)
Class WinSec := {
  win_desc : Type;
  sid_valid : text -> bool;                              (* [ConvertStringSidToSidW] *)
  account_of_sid : text -> Z + (list Z * list Z);        (* [LookupAccountSidA]: domain and name *)
  sid_of_account : text -> Z + text;                     (* [LookupAccountNameW] *)
  desc_to_sddl : win_desc -> Z -> Z + text;
  sddl_to_desc : text -> Z + win_desc;
  desc_owner : win_desc -> bool;                         (* not null *)
  desc_group : win_desc -> bool;
  desc_control : win_desc -> Z;
  desc_set_control : Z -> win_desc -> win_desc;
  token_user : Z -> Z + text }.                          (* [GetTokenInformation], the SID *)

Section Security.
Context {W : WinSec}.

Definition of_os {A} (r : Z + A) : outcome A := match r with inl e => Err (OsError e) | inr a => Ok a end.

(** [CStr::from_bytes_with_nul] and [to_str] of what was written to a buffer. *)
Definition c_text (l : list Z) : outcome text :=
  if existsb (Z.eqb 0) l || negb (utf8_valid l) then Panic else Ok ((fun b => ascii_of_nat (Z.to_nat b)) <$> l).

Definition string_to_sid (ssid : text) : outcome text := if sid_valid ssid then Ok ssid else Panic.

Definition lookup_account (sid : text) : outcome (text * text) :=
  '(domain, name) ← of_os (account_of_sid sid);
  domain ← c_text domain;
  name ← c_text name;
  Ok (domain, name).

Definition lookup_sid (name : text) : outcome text := of_os (sid_of_account name).

Definition OWNER_SECURITY_INFORMATION : Z := 1.
Definition GROUP_SECURITY_INFORMATION : Z := 2.
Definition DACL_SECURITY_INFORMATION : Z := 4.
Definition SACL_SECURITY_INFORMATION : Z := 8.
Definition UNPROTECTED_SACL_SECURITY_INFORMATION : Z := 2 ^ 28.
Definition UNPROTECTED_DACL_SECURITY_INFORMATION : Z := 2 ^ 29.
Definition PROTECTED_SACL_SECURITY_INFORMATION : Z := 2 ^ 30.
Definition PROTECTED_DACL_SECURITY_INFORMATION : Z := 2 ^ 31.

Definition all_information : Z :=
  foldl Z.lor 0 [DACL_SECURITY_INFORMATION; PROTECTED_DACL_SECURITY_INFORMATION; PROTECTED_SACL_SECURITY_INFORMATION;
    OWNER_SECURITY_INFORMATION; SACL_SECURITY_INFORMATION; DACL_SECURITY_INFORMATION; GROUP_SECURITY_INFORMATION;
    UNPROTECTED_DACL_SECURITY_INFORMATION; UNPROTECTED_SACL_SECURITY_INFORMATION].

(** The two replacements. *)
Definition quote_account (ssid : text) : outcome text :=
  psid ← string_to_sid ssid;
  match lookup_account psid with
  | Ok (_, name) => Ok (SDDL_DELIM :: name ++ [SDDL_DELIM])
  | Err _ => Ok ssid
  | Panic => Panic
  | NoFuel => NoFuel
  end.

Definition nobody_sid : text := String.list_ascii_of_string "S-1-0-0".

Definition unquote_account (quoted : text) : outcome text :=
  match lookup_sid (removelast (tail quoted)) with
  | Err _ => Ok nobody_sid
  | r => r
  end.

(** [FileSecurity::parse_security]; a null descriptor is [None]. *)
Definition parse_security (desc : option win_desc) (info : option Z) (translate_sid : bool) : outcome FileSecurity :=
  match desc with
  | None => Ok (Windows EmptyString info)
  | Some desc =>
    str_desc ← of_os (desc_to_sddl desc (default all_information info));
    str_desc ← (if translate_sid then
                  if existsb (Ascii.eqb SDDL_DELIM) str_desc then Panic
                  else replace_all sid_match quote_account str_desc
                else Ok str_desc);
    Ok (Windows (String.string_of_list_ascii str_desc) info)
  end.

(** [FileSecurity::to_descriptor]. *)
Definition to_descriptor (s : FileSecurity) : outcome win_desc :=
  match s with
  | Windows str_desc _ =>
    sddl ← replace_all name_match unquote_account (String.list_ascii_of_string str_desc);
    of_os (sddl_to_desc sddl)
  | _ => Panic
  end.

(** ** Replacing, without the fuel *)
Definition progress (m : text -> option nat) : Prop := forall l n, m l = Some n -> (0 < n <= length l)%nat.

Lemma replace_from_fuel m f : progress m -> forall k1 k2 l, (length l < k1)%nat -> (length l < k2)%nat ->
  replace_from k1 m f l = replace_from k2 m f l.
Proof.
  intros Hm. induction k1 as [|k1 IH]; intros [|k2] l H1 H2; try lia. cbn [replace_from].
  destruct l as [|c l]; [done|]. destruct (m (c :: l)) as [n|] eqn:E.
  - specialize (Hm _ _ E). destruct (f _); try done. cbn [mbind outcome_bind].
    rewrite (IH k2); [done|..]; rewrite length_drop; cbn in *; lia.
  - rewrite (IH k2); [done|..]; cbn in *; lia.
Qed.

Lemma replace_all_nil m f : replace_all m f [] = Ok [].
Proof. done. Qed.

Lemma replace_all_match m f l n : progress m -> m l = Some n ->
  replace_all m f l = (r ← f (take n l); rest ← replace_all m f (drop n l); Ok (r ++ rest)).
Proof.
  intros Hm E. pose proof (Hm _ _ E). unfold replace_all. destruct l as [|c l]; [cbn in *; lia|].
  cbn [replace_from]. rewrite E. destruct (f _); try done. cbn [mbind outcome_bind].
  rewrite (replace_from_fuel m f Hm _ (S (length (drop n (c :: l))))); [done|..]; rewrite length_drop; cbn in *; lia.
Qed.

Lemma replace_all_skip m f c l : m (c :: l) = None ->
  replace_all m f (c :: l) = (rest ← replace_all m f l; Ok (c :: rest)).
Proof. intros E. unfold replace_all. cbn [replace_from length]. by rewrite E. Qed.

Lemma sid_tail_le l : (sid_tail l <= length l)%nat.
Proof.
  assert (forall n l, (length l <= n)%nat -> (sid_tail l <= length l)%nat) as H; [|by apply (H (length l))].
  induction n as [|n IH]; intros [|c [|d l']] Hl; cbn in Hl; try lia; [cbn; lia..|cbn; repeat case_match; lia|].
  pose proof (IH l' ltac:(lia)). pose proof (IH (d :: l') ltac:(cbn; lia)) as H1.
  change (sid_tail (c :: d :: l')) with (if is_digit c then S (sid_tail (d :: l'))
    else if Ascii.eqb c "-" then if is_digit d then S (S (sid_tail l')) else O else O).
  cbn [length] in *. repeat case_match; lia.
Qed.

Lemma sid_match_progress : progress sid_match.
Proof.
  intros l n E. unfold sid_match in E. do 7 (destruct l as [|? l]; [done|]). case_match; [|done]. injection E as <-.
  pose proof (sid_tail_le l). cbn. lia.
Qed.

Lemma find_quote_lt l : forall n, find_quote l = Some n -> (n < length l)%nat.
Proof.
  induction l as [|c l IH]; intros n E; [done|]. cbn in *. case_match; [injection E as <-; lia|]. case_match; [done|].
  destruct (find_quote l) as [k|]; [|done]. injection E as <-. specialize (IH k eq_refl). lia.
Qed.

Lemma name_match_progress : progress name_match.
Proof.
  intros [|q [|c l]] n E; try done. cbn -[Nat.add] in E. case_match; [|done].
  destruct (find_quote l) as [k|] eqn:Ek; [|done]. injection E as <-. apply find_quote_lt in Ek. cbn. lia.
Qed.

(** ** Names that survive *)

(** No quote and no end of line, and not empty. *)
Definition plain_char (c : ascii) : bool := negb (Ascii.eqb c SDDL_DELIM) && negb (Ascii.eqb c newline).
Definition plain (name : text) : bool :=
  match name with [] => false | _ => forallb plain_char name end.

Lemma find_quote_plain name rest :
  forallb plain_char name = true -> find_quote (name ++ SDDL_DELIM :: rest) = Some (length name).
Proof.
  induction name as [|c name IH]; [done|]. cbn [forallb app find_quote]. intros [Hc Hn]%andb_prop.
  unfold plain_char in Hc. apply andb_prop in Hc as [Hq Hnl]. apply negb_true_iff in Hq, Hnl.
  rewrite Hq, Hnl, IH by done. done.
Qed.

Lemma name_match_quoted name rest :
  plain name = true -> name_match (SDDL_DELIM :: name ++ SDDL_DELIM :: rest) = Some (2 + length name)%nat.
Proof.
  destruct name as [|c name]; [done|]. unfold plain. intros Hp. cbn [forallb] in Hp. apply andb_prop in Hp as [Hc Hn].
  unfold plain_char in Hc. apply andb_prop in Hc as [_ Hnl]. cbn -[Nat.add]. rewrite Hnl. cbn -[Nat.add].
  by rewrite find_quote_plain.
Qed.

Lemma name_match_none c l : Ascii.eqb SDDL_DELIM c = false -> name_match (c :: l) = None.
Proof. intros Hc. destruct l; [done|]. unfold name_match. by rewrite Ascii.eqb_sym, Hc. Qed.

(** Text without quotes is left alone. *)
Lemma unquote_skip p rest :
  existsb (Ascii.eqb SDDL_DELIM) p = false ->
  replace_all name_match unquote_account (p ++ rest) =
    (r ← replace_all name_match unquote_account rest; Ok (p ++ r)).
Proof.
  induction p as [|c p IH]; cbn [existsb app]; intros Hp.
  - by destruct (replace_all _ _ rest).
  - apply orb_false_iff in Hp as [Hc Hp]. rewrite replace_all_skip, IH by (done || by apply name_match_none).
    by destruct (replace_all _ _ rest).
Qed.

(** An account that can be found by its name again, or not at all. *)
Definition account_ok (sid : text) : Prop :=
  sid_valid sid = true /\
  ((exists e, lookup_account sid = Err e) \/
   exists domain name, lookup_account sid = Ok (domain, name) /\ plain name = true /\ lookup_sid name = Ok sid).

(** The SIDs of a text. *)
Inductive sids_ok : text -> Prop :=
| sids_nil : sids_ok []
| sids_match l n : sid_match l = Some n -> account_ok (take n l) -> sids_ok (drop n l) -> sids_ok l
| sids_skip c l : sid_match (c :: l) = None -> sids_ok l -> sids_ok (c :: l).

Lemma quote_account_ok sid : account_ok sid ->
  quote_account sid = Ok sid \/
  exists name, quote_account sid = Ok (SDDL_DELIM :: name ++ [SDDL_DELIM]) /\ plain name = true /\ lookup_sid name = Ok sid.
Proof.
  intros [Hv Ha]. unfold quote_account, string_to_sid. rewrite Hv. cbn [mbind outcome_bind].
  destruct Ha as [(e & ->)|(domain & name & -> & Hp & Hs)]; [by left|right; by exists name].
Qed.

Lemma unquote_quoted name sid : lookup_sid name = Ok sid -> unquote_account (SDDL_DELIM :: name ++ [SDDL_DELIM]) = Ok sid.
Proof. intros Hs. unfold unquote_account. cbn [tail]. by rewrite removelast_last, Hs. Qed.

Lemma existsb_take_drop (P : ascii -> bool) n l :
  existsb P l = false -> existsb P (take n l) = false /\ existsb P (drop n l) = false.
Proof. rewrite <- (take_drop n l) at 1. rewrite existsb_app. apply orb_false_iff. Qed.

Lemma quote_unquote l : sids_ok l -> existsb (Ascii.eqb SDDL_DELIM) l = false ->
  exists l', replace_all sid_match quote_account l = Ok l' /\ replace_all name_match unquote_account l' = Ok l.
Proof.
  induction 1 as [|l n Em Ha _ IH|c l Em _ IH]; intros Hq.
  - by exists [].
  - destruct (existsb_take_drop _ n l Hq) as [Hqt Hqd]. destruct (IH Hqd) as (l' & E & E').
    rewrite (replace_all_match _ _ l n sid_match_progress Em).
    destruct (quote_account_ok _ Ha) as [->|(name & -> & Hp & Hs)]; cbn [mbind outcome_bind]; rewrite E;
      (eexists; split; [reflexivity|]).
    + rewrite unquote_skip, E' by done. cbn. by rewrite take_drop.
    + cbn [app]. rewrite <- app_assoc. cbn [app].
      rewrite (replace_all_match _ _ _ _ name_match_progress (name_match_quoted name l' Hp)).
      assert (take (2 + length name) (SDDL_DELIM :: name ++ SDDL_DELIM :: l') = SDDL_DELIM :: name ++ [SDDL_DELIM]) as ->.
      { replace (SDDL_DELIM :: name ++ SDDL_DELIM :: l') with ((SDDL_DELIM :: name ++ [SDDL_DELIM]) ++ l') by (cbn; by rewrite <- app_assoc).
        apply take_app_length'. cbn. rewrite length_app. cbn. lia. }
      assert (drop (2 + length name) (SDDL_DELIM :: name ++ SDDL_DELIM :: l') = l') as ->.
      { replace (SDDL_DELIM :: name ++ SDDL_DELIM :: l') with ((SDDL_DELIM :: name ++ [SDDL_DELIM]) ++ l') by (cbn; by rewrite <- app_assoc).
        apply drop_app_length'. cbn. rewrite length_app. cbn. lia. }
      rewrite (unquote_quoted _ _ Hs). cbn [mbind outcome_bind]. rewrite E'. cbn. by rewrite take_drop.
  - cbn [existsb] in Hq. apply orb_false_iff in Hq as [Hc Hq]. destruct (IH Hq) as (l' & E & E').
    rewrite (replace_all_skip _ _ _ _ Em), E. eexists. split; [reflexivity|].
    change (c :: l') with ([c] ++ l'). rewrite unquote_skip, E'; [done|]. cbn [existsb]. by rewrite Hc.
Qed.

End Security.
