(* ===== verification/WinOps.v ===== *)
(** * Operations and dispatch on Windows

    [fsyncd/src/common/ops_windows.rs], the C functions it declares
    ([fsyncd/write_windows.c]) and [fsyncd/src/client/dispatch_windows.rs]. The
    functions of the Windows API are parameters ([Win32]): [false] is failure,
    whose code [GetLastError] then has. The Windows sources build calls with the
    older syntax [VFSCall::mkdir(mkdir {..})]; the fields are those of the calls
    in [common/mod.rs]. *)

From stdpp Require Import base list numbers option strings.
From Stdlib Require Import ZArith Lia.
From S2P Require Import Prelude Common WinSecurity.

Local Open Scope Z_scope.

(** ** The Windows API *)
Record FILETIME := mk_FILETIME { dwHighDateTime : Z; dwLowDateTime : Z }.

(** [From<FILETIME> for Timespec] and [Into<FILETIME>]. *)
Definition timespec_of_filetime (t : FILETIME) : Timespec := mk_Timespec (dwHighDateTime t) (dwLowDateTime t).
Definition filetime_of_timespec (t : Timespec) : FILETIME := mk_FILETIME (u32 (ts_high t)) (u32 (ts_low t)).

(** [std::fs::OpenOptions], with [access_mode] and [attributes]. *)
Record OpenOptions := mk_OpenOptions { oo_read : bool; oo_write : bool; oo_access : option Z; oo_attributes : Z }.

(** [symlink_metadata]. *)
Record wstat := mk_wstat { ws_is_dir : bool; ws_attributes : Z; ws_len : Z }.

Class Win32 (W : WinSec) (OS : Type) := {
  GetLastError : OS -> Z;
  win_open : path -> OpenOptions -> OS -> (io_error + Z) * OS;
  CloseHandle : Z -> OS -> OS;
  CreateFile : path -> Z -> Z -> option win_desc -> Z -> Z -> OS -> Z * OS;   (* access, share, security, disposition, flags *)
  CreateDirectory : path -> option win_desc -> OS -> bool * OS;
  GetFileAttributes : path -> OS -> Z;
  SetFileAttributes : path -> Z -> OS -> bool * OS;
  SetFileRenameInfo : Z -> path -> bool -> OS -> bool * OS;                   (* [SetFileInformationByHandle] *)
  FlushFileBuffers : Z -> OS -> bool * OS;
  DeleteFile : path -> OS -> bool * OS;
  RemoveDirectory : path -> OS -> bool * OS;
  SetUserObjectSecurity : Z -> Z -> option win_desc -> OS -> bool * OS;
  SetFileTime : Z -> FILETIME -> FILETIME -> FILETIME -> OS -> bool * OS;
  SetFilePointerEx : Z -> Z -> OS -> bool * OS;
  SetEndOfFile : Z -> OS -> bool * OS;
  WriteFile : Z -> list Z -> Z -> Z -> OS -> (bool * Z) * OS;                 (* [Offset], [OffsetHigh] *)
  seek_read : Z -> Z -> Z -> OS -> (io_error + list Z) * OS;
  GetFileSizeEx : Z -> OS -> option Z;
  win_lstat : path -> OS -> io_error + wstat;
  ImpersonateLoggedOnUser : Z -> OS -> bool * OS;
  RevertToSelf : OS -> OS;
  DokanOpenRequestorToken : OS -> Z * OS }.

Definition ERROR_SUCCESS : Z := 0.
Definition ERROR_ACCESS_DENIED : Z := 5.
Definition ERROR_INVALID_HANDLE : Z := 6.
Definition ERROR_ALREADY_EXISTS : Z := 183.
Definition INVALID_HANDLE_VALUE : Z := 2 ^ 64 - 1.
Definition INVALID_FILE_ATTRIBUTES : Z := 2 ^ 32 - 1.

Definition CREATE_NEW : Z := 1.
Definition CREATE_ALWAYS : Z := 2.
Definition OPEN_EXISTING : Z := 3.
Definition OPEN_ALWAYS : Z := 4.
Definition TRUNCATE_EXISTING : Z := 5.

Definition FILE_ATTRIBUTE_READONLY : Z := 1.
Definition FILE_ATTRIBUTE_HIDDEN : Z := 2.
Definition FILE_ATTRIBUTE_SYSTEM : Z := 4.
Definition FILE_FLAG_DELETE_ON_CLOSE : Z := 2 ^ 26.
Definition FILE_FLAG_BACKUP_SEMANTICS : Z := 2 ^ 25.
Definition FILE_SHARE_READ : Z := 1.
Definition FILE_SHARE_ALL : Z := 7.
Definition DELETE : Z := 2 ^ 16.
Definition WRITE_DAC : Z := 2 ^ 18.
Definition WRITE_OWNER : Z := 2 ^ 19.
Definition ACCESS_SYSTEM_SECURITY : Z := 2 ^ 24.
Definition GENERIC_WRITE : Z := 2 ^ 30.

Definition SE_DACL_PRESENT : Z := 4.
Definition SE_DACL_DEFAULTED : Z := 8.
Definition SE_SACL_PRESENT : Z := 16.
Definition SE_SACL_DEFAULTED : Z := 32.

(** [flagset!] and [|=]. *)
Definition flagset (v flag : Z) : bool := negb (Z.land v flag =? 0).

Section WinOps.
Context {W : WinSec} {OS : Type} {Win : Win32 W OS}.

(** [if f == 0 { return GetLastError(); } k]. *)
Definition win_checked (f : OS -> bool * OS) (k : M OS Z) : M OS Z := fun os =>
  let '(ok, os) := f os in if ok : bool then k os else (Ok (GetLastError os), os).

Definition win_call (f : OS -> bool * OS) : M OS Z := win_checked f (mret ERROR_SUCCESS).

(** [assert!(!handle.is_null() && handle != INVALID_HANDLE_VALUE)]. *)
Definition handle_ok (h : Z) : bool := negb (h =? 0) && negb (h =? INVALID_HANDLE_VALUE).
Definition on_handle (h : Z) (m : M OS Z) : M OS Z := if handle_ok h then m else panic.

(** ** [ops_windows.rs] *)
Definition OpFlushFileBuffers (h : Z) : M OS Z := win_call (FlushFileBuffers h).
Definition OpDeleteFile (p : path) : M OS Z := win_call (DeleteFile p).
Definition OpDeleteDirectory (p : path) : M OS Z := win_call (RemoveDirectory p).
Definition OpSetFileSecurity (info : Z) (d : option win_desc) (h : Z) : M OS Z :=
  on_handle h (win_call (SetUserObjectSecurity h info d)).
Definition OpSetFileTime (creation access write : FILETIME) (h : Z) : M OS Z :=
  on_handle h (win_call (SetFileTime h creation access write)).
Definition OpSetFileAttributes (p : path) (attributes : Z) : M OS Z := win_call (SetFileAttributes p attributes).
Definition OpSetEndOfFile (byte_offset h : Z) : M OS Z :=
  on_handle h (win_checked (SetFilePointerEx h byte_offset) (win_call (SetEndOfFile h))).

(** The status and [*bytes_written]. *)
Definition OpWriteFile (buffer : list Z) (byte_offset h : Z) : M OS (Z * Z) := fun os =>
  if handle_ok h then
    let '((ok, written), os) := WriteFile h buffer (u32 byte_offset) (u32 (Z.shiftr byte_offset 32)) os in
    (Ok (if ok : bool then ERROR_SUCCESS else GetLastError os, written), os)
  else (Panic, os).

(** ** [write_windows.c]

    The status and [*handle], which was [handle] before. *)
Definition OpCreateDirectory (p : path) (d : option win_desc) (access flags share disposition handle : Z)
  : M OS (Z * Z) := fun os =>
  let '(failed, os) :=
    if (disposition =? CREATE_NEW) || (disposition =? OPEN_ALWAYS) then
      let '(ok, os) := CreateDirectory p d os in
      if ok : bool then (None, os)
      else
        let error := GetLastError os in
        if negb (error =? ERROR_ALREADY_EXISTS) || (disposition =? CREATE_NEW) then (Some error, os) else (None, os)
    else (None, os) in
  match failed with
  | Some error => (Ok (error, handle), os)
  | None =>
    let '(h, os) := CreateFile p access share d OPEN_EXISTING (Z.lor flags FILE_FLAG_BACKUP_SEMANTICS) os in
    (Ok (if h =? INVALID_HANDLE_VALUE then GetLastError os else ERROR_SUCCESS, h), os)
  end.

Definition OpCreateFile (p : path) (d : option win_desc) (access flags share disposition handle : Z)
  : M OS (Z * Z) := fun os =>
  let attr := GetFileAttributes p os in
  let exists_ := negb (attr =? INVALID_FILE_ATTRIBUTES) in
  if exists_ &&
     ((negb (flagset flags FILE_ATTRIBUTE_HIDDEN) && flagset attr FILE_ATTRIBUTE_HIDDEN) ||
      (negb (flagset flags FILE_ATTRIBUTE_SYSTEM) && flagset attr FILE_ATTRIBUTE_SYSTEM)) &&
     ((disposition =? TRUNCATE_EXISTING) || (disposition =? CREATE_ALWAYS))
  then (Ok (ERROR_ACCESS_DENIED, handle), os)
  else
    let access := if disposition =? TRUNCATE_EXISTING then Z.lor access GENERIC_WRITE else access in
    let '(h, os) := CreateFile p access share d disposition flags os in
    if h =? INVALID_HANDLE_VALUE then (Ok (GetLastError os, h), os)
    else if exists_ && (disposition =? TRUNCATE_EXISTING) then
      let '(ok, os) := SetFileAttributes p (Z.lor flags attr) os in
      (Ok (if ok : bool then ERROR_SUCCESS else GetLastError os, h), os)
    else (Ok (ERROR_SUCCESS, h), os).

Definition OpMoveFile (new_name : path) (replace h : Z) : M OS Z :=
  if handle_ok h then win_call (SetFileRenameInfo h new_name (negb (replace =? 0))) else mret ERROR_INVALID_HANDLE.

(** ** [dispatch] *)

(** [with_file], whose failure becomes the code of the operating system. *)
Definition win_with_file (p : path) (options : OpenOptions) (f : Z -> M OS Z) : M OS Z := fun os =>
  match win_open p options os with
  | (inl (OsError code), os) => (Ok code, os)
  | (inl _, os) => (Panic, os)
  | (inr handle, os) =>
    match f handle os with
    | (Ok res, os) => (Ok res, CloseHandle handle os)
    | r => r
    end
  end.

Definition to_write : OpenOptions := mk_OpenOptions false true None 0.
Definition to_diff : OpenOptions := mk_OpenOptions true true None 0.
Definition to_stamp : OpenOptions := mk_OpenOptions false true None FILE_FLAG_BACKUP_SEMANTICS.
Definition to_rename : OpenOptions := mk_OpenOptions false false (Some DELETE) FILE_FLAG_BACKUP_SEMANTICS.
Definition to_secure : OpenOptions := mk_OpenOptions false false
  (Some (Z.lor (Z.lor (Z.lor ACCESS_SYSTEM_SECURITY GENERIC_WRITE) WRITE_DAC) WRITE_OWNER)) FILE_FLAG_BACKUP_SEMANTICS.

(** The descriptor a file is created with. *)
Definition created_descriptor (sec : FileSecurity) : outcome win_desc :=
  match to_descriptor sec with
  | Ok d =>
    let c := desc_control d in
    let c := if flagset c SE_DACL_PRESENT then c else Z.lor c SE_DACL_DEFAULTED in
    let c := if flagset c SE_SACL_PRESENT then c else Z.lor c SE_SACL_DEFAULTED in
    Ok (desc_set_control c d)
  | NoFuel => NoFuel
  | _ => Panic
  end.

Definition close_created (r : Z * Z) : M OS Z := fun os =>
  let '(res, handle) := r in
  (Ok (i32 res), if handle =? INVALID_HANDLE_VALUE then os else CloseHandle handle os).

(** The closure of [diff_write]: the difference is applied to what is there. *)
Definition apply_diff (buf : list Z) (offset h : Z) : M OS Z := fun os =>
  match seek_read h (zlen buf) (u64 offset) os with
  | (inl (OsError code), os) => (Ok code, os)
  | (inl _, os) => (Panic, os)
  | (inr old_buf, os) =>
    if zlen buf <? zlen old_buf then (Panic, os)
    else ('(res, _) ← OpWriteFile (xor_prefix buf old_buf) offset h; mret (i32 res)) os
  end.

Definition dispatch_windows (call : VFSCall) (root : path) : M OS Z :=
  match call with
  | utimens p (created, accessed, written) =>
      win_with_file (translate_path p root) to_stamp (fun h =>
        res ← OpSetFileTime (filetime_of_timespec created) (filetime_of_timespec accessed) (filetime_of_timespec written) h;
        mret (i32 res))
  | create p flags sec mode =>
      descriptor ← lift (created_descriptor sec);
      r ← OpCreateFile (translate_path p root) (Some descriptor) (Z.lor (Z.lor GENERIC_WRITE WRITE_OWNER) WRITE_DAC)
            mode FILE_SHARE_ALL (u32 flags) INVALID_HANDLE_VALUE;
      close_created r
  | diff_write p offset buf => win_with_file (translate_path p root) to_diff (apply_diff buf offset)
  | write p offset buf =>
      win_with_file (translate_path p root) to_write (fun h =>
        '(res, _) ← OpWriteFile buf offset h; mret (i32 res))
  | truncate p size => win_with_file (translate_path p root) to_write (fun h =>
      res ← OpSetEndOfFile size h; mret (i32 res))
  | rename from to flags =>
      win_with_file (translate_path from root) to_rename (fun h =>
        res ← OpMoveFile (translate_path to root) (i32 flags) h; mret (i32 res))
  | rmdir p => res ← OpDeleteDirectory (translate_path p root); mret (i32 res)
  | unlink p => res ← OpDeleteFile (translate_path p root); mret (i32 res)
  | mkdir p sec mode =>
      descriptor ← lift (created_descriptor sec);
      r ← OpCreateDirectory (translate_path p root) (Some descriptor) GENERIC_WRITE mode FILE_SHARE_ALL CREATE_NEW INVALID_HANDLE_VALUE;
      close_created r
  | security p sec =>
      match sec with
      | Windows _ (Some info) =>
        descriptor ← lift (match to_descriptor sec with Err _ => Panic | r => r end);
        win_with_file (translate_path p root) to_secure (fun h =>
          res ← OpSetFileSecurity info (Some descriptor) h; mret (i32 res))
      | _ => panic
      end
  | chmod p mode => res ← OpSetFileAttributes (translate_path p root) mode; mret (i32 res)
  | fsync _ _ => mret ERROR_SUCCESS
  | _ => panic
  end.

End WinOps.
