(* ===== verification/WinHandlers.v ===== *)
(** * The server's handlers on Windows: [fsyncd/src/dokan/write_windows.rs]

    One definition per Dokan callback that changes the backing store. There is no
    journal on Windows: [pre_op] only sends the call. [info] is the
    [DOKAN_FILE_INFO] of the request; the handlers that change it return it.
    Statuses are those of [DokanNtStatusFromWin32], which is a parameter, as is
    [DokanMapKernelToUserCreateFileFlags]. *)

From stdpp Require Import base list numbers option strings gmap.
From Stdlib Require Import ZArith Lia.
From Stdlib Require String.
From S2P Require Import Prelude Common Filestore Store Entries Bilog Net Server WinSecurity WinOps.

Local Open Scope Z_scope.

Record DOKAN_FILE_INFO := mk_DOKAN_FILE_INFO {
  Context : Z; IsDirectory : Z; DeleteOnClose : Z; PagingIo : Z; WriteToEndOfFile : Z }.

Definition set_Context (h : Z) (i : DOKAN_FILE_INFO) : DOKAN_FILE_INFO :=
  mk_DOKAN_FILE_INFO h (IsDirectory i) (DeleteOnClose i) (PagingIo i) (WriteToEndOfFile i).
Definition set_IsDirectory (i : DOKAN_FILE_INFO) : DOKAN_FILE_INFO :=
  mk_DOKAN_FILE_INFO (Context i) 1 (DeleteOnClose i) (PagingIo i) (WriteToEndOfFile i).

Definition FILE_NON_DIRECTORY_FILE : Z := 64.
Definition STATUS_SUCCESS : Z := 0.

Class Dokan := {
  DokanNtStatusFromWin32 : Z -> Z;
  DokanMapKernelToUserCreateFileFlags : Z -> Z -> Z -> Z -> Z * Z * Z;  (* access, attributes, disposition *)
  STATUS_FILE_IS_A_DIRECTORY : Z;
  STATUS_CANNOT_DELETE : Z;
  STATUS_OBJECT_NAME_COLLISION : Z }.

(** [io::Error::kind() == ErrorKind::NotFound]: file or path not found. *)
Definition win_not_found (e : io_error) : bool :=
  match e with NotFound => true | OsError code => (code =? 2) || (code =? 3) | _ => false end.

Section Handlers.
Context {F : MsgFormat} {C : Compressor} {FB : StoreFormat BilogEntry} {FV : StoreFormat VFSCall}.
Context {W : WinSec} {OS : Type} {Win : Win32 W OS} {Dk : Dokan}.
Context (tid : Z) (TRANSLATE_SIDS : bool).

(** [pre_op] without the part that journals. *)
Definition win_pre_op (call : VFSCall) : M Server OpRef := fun s =>
  if sv_corked s then (Err WouldBlock, s)
  else
    let '(r, (h, l)) := send_ops tid call (sv_cells s) (sv_clients s) in
    (mk_OpRef None <$> r, sv_set_clients s h l).

(** The operation between [pre_op] and [post_op]; [op_ret] is never set. *)
Definition win_handler {A} (call : VFSCall) (act : M OS (Z * A)) : M (Server * OS) (Z * A) := fun '(s, os) =>
  match win_pre_op call s with
  | (Ok opref, s) =>
    match act os with
    | (Ok (status, a), os) =>
      let '(r, s) := post_op opref (i32 status) s in
      ((fun r => (DokanNtStatusFromWin32 (u32 r), a)) <$> r, (s, os))
    | (Err e, os) => (Err e, (s, os))
    | (Panic, os) => (Panic, (s, os))
    | (NoFuel, os) => (NoFuel, (s, os))
    end
  | (Err e, s) => (Err e, (s, os))
  | (Panic, s) => (Panic, (s, os))
  | (NoFuel, s) => (NoFuel, (s, os))
  end.

Definition win_simple (call : VFSCall) (act : M OS Z) : M (Server * OS) Z :=
  '(r, _) ← win_handler call (status ← act; mret (status, tt)); mret r.

(** *** [MirrorCreateFile] *)

(** [defaulted_descriptor]: the user's SID where there is no owner. *)
Definition defaulted_descriptor (sec_desc : option win_desc) (user_handle : Z) : outcome FileSecurity :=
  s ← parse_security sec_desc None TRANSLATE_SIDS;
  let no_owner := match sec_desc with None => true | Some d => negb (desc_owner d) end in
  let no_group := match sec_desc with None => true | Some d => negb (desc_group d) end in
  if no_owner || no_group then
    user_sid ← of_os (token_user user_handle);
    match s with
    | Windows sddl info =>
      let owner := if no_owner then (String.list_ascii_of_string "O:" ++ user_sid)%list else [] in
      Ok (Windows (String.string_of_list_ascii (owner ++ String.list_ascii_of_string sddl)%list) info)
    | _ => Panic
    end
  else Ok s.

(** [as_user]: the token is closed afterwards. *)
Definition as_user {A} (handle : Z) (f : M OS A) : M OS A := fun os =>
  let '(ok, os) := ImpersonateLoggedOnUser handle os in
  if ok : bool then
    match f os with
    | (Ok res, os) => (Ok res, CloseHandle handle (RevertToSelf os))
    | r => r
    end
  else (Panic, os).

(** The call that is replicated when a path is opened, if any, with the
    security of a new file. *)
Definition open_call (p : path) (exists_ : bool) (attributes disposition : Z) (sec : outcome FileSecurity)
  : outcome (option VFSCall) :=
  if exists_ && ((disposition =? TRUNCATE_EXISTING) || (disposition =? CREATE_ALWAYS)) then Ok (Some (truncate p 0))
  else if negb exists_ && ((disposition =? CREATE_ALWAYS) || (disposition =? CREATE_NEW) || (disposition =? OPEN_ALWAYS)) then
    match sec with
    | Ok sec => Ok (Some (create p (i32 disposition) sec attributes))
    | NoFuel => NoFuel
    | _ => Panic
    end
  else Ok None.

(** The last part: the status once the operation is done. A status that comes
    out of [post_op] may become a collision. *)
Definition with_info {A} (info : DOKAN_FILE_INFO) (r : outcome (A * Z)) : outcome (A * DOKAN_FILE_INFO) :=
  (fun r => (fst r, set_Context (snd r) info)) <$> r.

Definition collision (exists_ : bool) (disposition : Z) (r : Z * DOKAN_FILE_INFO) : Z * DOKAN_FILE_INFO :=
  let '(s, info) := r in
  if (s =? STATUS_SUCCESS) && negb (Context info =? INVALID_HANDLE_VALUE) && (disposition =? OPEN_ALWAYS) && exists_
  then (STATUS_OBJECT_NAME_COLLISION, info) else (s, info).

Definition open_with (call : option VFSCall) (act : M OS (Z * Z)) (exists_ : bool) (disposition : Z) (info : DOKAN_FILE_INFO)
  : M (Server * OS) (Z * DOKAN_FILE_INFO) := fun '(s, os) =>
  match call with
  | Some call =>
    let '(r, st) := win_handler call act (s, os) in (collision exists_ disposition <$> with_info info r, st)
  | None =>
    let '(r, os) := act os in
    (with_info info ((fun r => (DokanNtStatusFromWin32 (fst r), snd r)) <$> r), (s, os))
  end.

Definition MirrorCreateFile (p : path) (sec_desc : option win_desc) (dokan_access dokan_attributes shared
  dokan_disposition dokan_options : Z) (info : DOKAN_FILE_INFO) : M (Server * OS) (Z * DOKAN_FILE_INFO) := fun '(s, os) =>
  let real_path := translate_path p (sv_path s) in
  let attr := win_lstat real_path os in
  match (match attr with inl e => if win_not_found e then None else Some e | inr _ => None end) with
  | Some (OsError code) => (Ok (DokanNtStatusFromWin32 (u32 code), info), (s, os))
  | Some _ => (Panic, (s, os))
  | None =>
    let exists_ := match attr with inl _ => false | inr _ => true end in
    let is_dir := match attr with inl _ => false | inr a => ws_is_dir a end in
    let file_attributes := match attr with inl _ => 0 | inr a => ws_attributes a end in
    let '(user_handle, os) := DokanOpenRequestorToken os in
    if user_handle =? INVALID_HANDLE_VALUE then (Panic, (s, os))
    else
      let '(access, attributes, disposition) :=
        DokanMapKernelToUserCreateFileFlags dokan_access dokan_attributes dokan_options dokan_disposition in
      if is_dir && flagset dokan_options FILE_NON_DIRECTORY_FILE then (Ok (STATUS_FILE_IS_A_DIRECTORY, info), (s, os))
      else
        let info := if is_dir then set_IsDirectory info else info in
        let shared := if is_dir then Z.lor shared FILE_SHARE_READ else shared in
        let attributes := if is_dir then Z.lor attributes FILE_FLAG_BACKUP_SEMANTICS else attributes in
        let sec := match defaulted_descriptor sec_desc user_handle with Err _ => Panic | r => r end in
        if negb exists_ && ((disposition =? CREATE_ALWAYS) || (disposition =? CREATE_NEW)) && negb (IsDirectory info =? 0) then
          match sec with
          | Ok sec =>
            open_with (Some (mkdir p sec attributes))
              (as_user user_handle (OpCreateDirectory real_path sec_desc access attributes shared disposition (Context info)))
              exists_ disposition info (s, os)
          | NoFuel => (NoFuel, (s, os))
          | _ => (Panic, (s, os))
          end
        else if ((exists_ && flagset file_attributes FILE_ATTRIBUTE_READONLY) || flagset attributes FILE_ATTRIBUTE_READONLY)
                && flagset attributes FILE_FLAG_DELETE_ON_CLOSE
        then (Ok (STATUS_CANNOT_DELETE, info), (s, os))
        else
          match open_call p exists_ attributes disposition sec with
          | Ok call =>
            open_with call
              (as_user user_handle (OpCreateFile real_path sec_desc access attributes shared disposition (Context info)))
              exists_ disposition info (s, os)
          | NoFuel => (NoFuel, (s, os))
          | _ => (Panic, (s, os))
          end
  end.

(** *** The other callbacks *)

Definition MirrorCleanup (p : path) (info : DOKAN_FILE_INFO) : M (Server * OS) DOKAN_FILE_INFO := fun '(s, os) =>
  let real_path := translate_path p (sv_path s) in
  let open := negb (Context info =? 0) && negb (Context info =? INVALID_HANDLE_VALUE) in
  let '(info, os) := if open then (set_Context 0 info, CloseHandle (Context info) os) else (info, os) in
  if DeleteOnClose info =? 0 then (Ok info, (s, os))
  else
    let '(r, st) :=
      if negb (IsDirectory info =? 0) then win_simple (rmdir p) (OpDeleteDirectory real_path) (s, os)
      else win_simple (unlink p) (OpDeleteFile real_path) (s, os) in
    ((fun _ => info) <$> r, st).

(** The range of a write: the end of the file, or for paging what lies within
    the file; [inl] is the status and [*bytes_written] of a write that is over
    already. *)
Definition write_range (p : path) (s : Server) (len offset : Z) (info : DOKAN_FILE_INFO) (os : OS)
  : outcome ((Z * option Z) + (Z * Z)) :=
  if negb (WriteToEndOfFile info =? 0) then Ok (inr (len, 2 ^ 63 - 1))
  else if negb (PagingIo info =? 0) then
    match win_lstat (translate_path p (sv_path s)) os with
    | inl (OsError code) => Ok (inl (DokanNtStatusFromWin32 (u32 code), None))
    | inl _ => Panic
    | inr stat =>
      let file_size := ws_len stat in
      if file_size <=? u64 offset then Ok (inl (STATUS_SUCCESS, Some 0))
      else if file_size <? u64 (u64 offset + len) then
        let bytes := u64 (file_size - u64 offset) in
        Ok (inr (if negb (Z.shiftr bytes 32 =? 0) then u32 (Z.land bytes 4294967295) else u32 bytes, offset))
      else Ok (inr (len, offset))
    end
  else Ok (inr (len, offset)).

(** The call, from what is read at the range. *)
Definition write_call (diff_writes : bool) (p : path) (new_buf : list Z) (offset handle : Z) : M OS VFSCall := fun os =>
  if diff_writes then
    match seek_read handle (zlen new_buf) (u64 offset) os with
    | (inl _, os) => (Ok (write p offset new_buf), os)
    | (inr old_buf, os) =>
      if zlen new_buf <? zlen old_buf then (Panic, os)
      else (Ok (diff_write p offset (xor_prefix new_buf old_buf)), os)
    end
  else (Ok (write p offset new_buf), os).

(** The status and [*bytes_written], if it was set; [buffer] has [len] bytes. *)
Definition MirrorWriteFile (diff_writes : bool) (p : path) (buffer : list Z) (offset : Z) (info : DOKAN_FILE_INFO)
  : M (Server * OS) (Z * option Z) := fun '(s, os) =>
  match write_range p s (zlen buffer) offset info os with
  | Ok (inl r) => (Ok r, (s, os))
  | Ok (inr (len, offset)) =>
    let new_buf := take (Z.to_nat len) buffer in
    match write_call diff_writes p new_buf offset (Context info) os with
    | (Ok call, os) =>
      win_handler call ('(r, written) ← OpWriteFile new_buf offset (Context info); mret (r, Some written)) (s, os)
    | (Err e, os) => (Err e, (s, os))
    | (Panic, os) => (Panic, (s, os))
    | (NoFuel, os) => (NoFuel, (s, os))
    end
  | Err e => (Err e, (s, os))
  | Panic => (Panic, (s, os))
  | NoFuel => (NoFuel, (s, os))
  end.

Definition MirrorSetFileAttributes (p : path) (attributes : Z) : M (Server * OS) Z := fun '(s, os) =>
  let real_path := translate_path p (sv_path s) in
  win_simple (chmod p attributes) (OpSetFileAttributes real_path attributes) (s, os).

Definition MirrorSetFileTime (p : path) (creation access write : FILETIME) (info : DOKAN_FILE_INFO) : M (Server * OS) Z :=
  win_simple (utimens p (timespec_of_filetime creation, timespec_of_filetime access, timespec_of_filetime write))
    (OpSetFileTime creation access write (Context info)).

Definition MirrorMoveFile (p new_name : path) (replace : Z) (info : DOKAN_FILE_INFO) : M (Server * OS) Z := fun '(s, os) =>
  let real_new_name := translate_path new_name (sv_path s) in
  win_simple (rename p new_name (u32 replace)) (OpMoveFile real_new_name replace (Context info)) (s, os).

Definition MirrorSetEndOfFile (p : path) (offset : Z) (info : DOKAN_FILE_INFO) : M (Server * OS) Z :=
  win_simple (truncate p offset) (OpSetEndOfFile offset (Context info)).

Definition MirrorSetAllocationSize (p : path) (size : Z) (info : DOKAN_FILE_INFO) : M (Server * OS) Z := fun '(s, os) =>
  match GetFileSizeEx (Context info) os with
  | None => (Ok (DokanNtStatusFromWin32 (GetLastError os)), (s, os))
  | Some file_size =>
    if file_size <=? size then (Ok STATUS_SUCCESS, (s, os))
    else win_simple (truncate p size) (OpSetEndOfFile size (Context info)) (s, os)
  end.

Definition MirrorSetFileSecurity (p : path) (sec_info : Z) (descriptor : option win_desc) (info : DOKAN_FILE_INFO)
  : M (Server * OS) Z :=
  file_sec ← lift (match parse_security descriptor (Some sec_info) TRANSLATE_SIDS with Err _ => Panic | r => r end);
  win_simple (security p file_sec) (OpSetFileSecurity sec_info descriptor (Context info)).

Definition MirrorFlushFileBuffers (p : path) (info : DOKAN_FILE_INFO) : M (Server * OS) Z :=
  win_simple (fsync p 0) (OpFlushFileBuffers (Context info)).

End Handlers.
