(* ===== verification/WinSpec.v ===== *)
(** * Two copies of a file system on Windows

    [WinMirror] is what it takes for the Windows API to do the same to two
    copies, the server's under [r1], worked on through the handle of a request,
    and the client's under [r2], where every call opens the file anew. A request
    that is served is then mirrored by the [dispatch] of the call it sent. *)

From stdpp Require Import base list numbers option strings gmap.
From Stdlib Require Import ZArith Lia.
From S2P Require Import Prelude Common Filestore Store Entries Bilog Net Server WinSecurity WinOps WinHandlers.

Local Open Scope Z_scope.

(** ** Requests on an open file, without the creation of files *)
Section Requests.
Context {W : WinSec}.

Inductive win_request :=
| Req_WriteFile (diff_writes : bool) (buffer : list Z) (offset : Z)
| Req_SetFileAttributes (attributes : Z)
| Req_SetFileTime (creation access written : FILETIME)
| Req_MoveFile (new_name : path) (replace : Z)
| Req_SetEndOfFile (offset : Z)
| Req_SetAllocationSize (size : Z)
| Req_SetFileSecurity (sec_info : Z) (descriptor : win_desc)
| Req_FlushFileBuffers.

Context {F : MsgFormat} {C : Compressor} {FB : StoreFormat BilogEntry} {FV : StoreFormat VFSCall}.
Context {OS : Type} {Win : Win32 W OS} {Dk : Dokan} (tid : Z) (TRANSLATE_SIDS : bool).

Definition serve_windows (p : path) (req : win_request) (info : DOKAN_FILE_INFO) : M (Server * OS) Z :=
  match req with
  | Req_WriteFile diff buffer offset => '(status, _) ← MirrorWriteFile tid diff p buffer offset info; mret status
  | Req_SetFileAttributes attributes => MirrorSetFileAttributes tid p attributes
  | Req_SetFileTime creation access written => MirrorSetFileTime tid p creation access written info
  | Req_MoveFile new_name replace => MirrorMoveFile tid p new_name replace info
  | Req_SetEndOfFile offset => MirrorSetEndOfFile tid p offset info
  | Req_SetAllocationSize size => MirrorSetAllocationSize tid p size info
  | Req_SetFileSecurity sec_info d => MirrorSetFileSecurity tid TRANSLATE_SIDS p sec_info (Some d) info
  | Req_FlushFileBuffers => MirrorFlushFileBuffers tid p info
  end.

(** What a handler that returned did. *)
Lemma win_handler_inv {A} call (act : M OS (Z * A)) s os st a s' os' :
  win_handler tid call act (s, os) = (Ok (st, a), (s', os')) ->
  exists opref s1 code, win_pre_op tid call s = (Ok opref, s1) /\ act os = (Ok (code, a), os') /\
    post_op opref (i32 code) s1 = (Ok (i32 code), s') /\ st = DokanNtStatusFromWin32 (u32 (i32 code)).
Proof.
  unfold win_handler. intros E. destruct (win_pre_op tid call s) as [[opref| | |] s1]; try done.
  destruct (act os) as [[[code a']| | |] os1]; try done. exists opref, s1, code. unfold post_op in *.
  destruct (wait_all _ _) as [[] h]; by inv E.
Qed.

Lemma win_simple_inv call (act : M OS Z) s os st s' os' :
  win_simple tid call act (s, os) = (Ok st, (s', os')) ->
  exists opref s1 code, win_pre_op tid call s = (Ok opref, s1) /\ act os = (Ok code, os') /\
    post_op opref (i32 code) s1 = (Ok (i32 code), s') /\ st = DokanNtStatusFromWin32 (u32 (i32 code)).
Proof.
  unfold win_simple, mbind, M_bind, mret, M_ret. intros E. destruct (win_handler _ _ _ _) as [[[r []]| | |] [s2 os2]] eqn:Eh; inv E.
  apply win_handler_inv in Eh as (opref & s1 & code & Hp & Ha & Hw & ->). exists opref, s1, code. split; [done|]. split; [|done].
  destruct (act os) as [[| | |] ?]; by inv Ha.
Qed.
End Requests.

Section Mirror.
Context {W : WinSec} {OS1 OS2 : Type} {Win1 : Win32 W OS1} {Win2 : Win32 W OS2}.

Definition same_win (R : OS1 -> OS2 -> Prop) (x : bool * OS1) (y : bool * OS2) : Prop :=
  fst x = fst y /\ (fst x = false -> GetLastError (snd x) = GetLastError (snd y)) /\ R (snd x) (snd y).

(** [wm_open o h p]: [h] is a handle of the file at [p]; [wm_file]: these handles
    are of the same file; [wm_at]: and are at the same position. A path is the one below the mount. *)
Class WinMirror (r1 r2 : path) := {
  wm_rel : OS1 -> OS2 -> Prop;
  wm_open : OS1 -> Z -> path -> Prop;
  wm_file : OS1 -> OS2 -> Z -> Z -> Prop;
  wm_at : OS1 -> OS2 -> Z -> Z -> Prop;
  wm_handle o h p : wm_open o h p -> handle_ok h = true;
  wm_opens o1 o2 h p opts : wm_rel o1 o2 -> wm_open o1 h p ->
    exists h2 o2', win_open (translate_path p r2) opts o2 = (inr h2, o2') /\ wm_rel o1 o2' /\
      handle_ok h2 = true /\ wm_file o1 o2' h h2;
  wm_write o1 o2 h h2 buf lo hi : wm_rel o1 o2 -> wm_file o1 o2 h h2 ->
    snd (fst (WriteFile h buf lo hi o1)) = snd (fst (WriteFile h2 buf lo hi o2)) /\
    same_win wm_rel (fst (fst (WriteFile h buf lo hi o1)), snd (WriteFile h buf lo hi o1))
      (fst (fst (WriteFile h2 buf lo hi o2)), snd (WriteFile h2 buf lo hi o2));
  (* reading moves no more than a cursor, which the other copy does not have *)
  wm_read_again o1 o2 h p n off : wm_rel o1 o2 -> wm_open o1 h p ->
    wm_rel (snd (seek_read h n off o1)) o2 /\ wm_open (snd (seek_read h n off o1)) h p /\
    fst (seek_read h n off (snd (seek_read h n off o1))) = fst (seek_read h n off o1);
  wm_read o1 o2 h h2 n off : wm_rel o1 o2 -> wm_file o1 o2 h h2 ->
    fst (seek_read h2 n off o2) = fst (seek_read h n off o1) /\
    wm_rel o1 (snd (seek_read h2 n off o2)) /\ wm_file o1 (snd (seek_read h2 n off o2)) h h2;
  wm_pointer o1 o2 h h2 off : wm_rel o1 o2 -> wm_file o1 o2 h h2 ->
    same_win (fun o1 o2 => wm_rel o1 o2 /\ wm_at o1 o2 h h2) (SetFilePointerEx h off o1) (SetFilePointerEx h2 off o2);
  wm_end o1 o2 h h2 : wm_rel o1 o2 -> wm_at o1 o2 h h2 -> same_win wm_rel (SetEndOfFile h o1) (SetEndOfFile h2 o2);
  wm_rename o1 o2 h h2 to b : wm_rel o1 o2 -> wm_file o1 o2 h h2 ->
    same_win wm_rel (SetFileRenameInfo h (translate_path to r1) b o1) (SetFileRenameInfo h2 (translate_path to r2) b o2);
  wm_time o1 o2 h h2 c a w : wm_rel o1 o2 -> wm_file o1 o2 h h2 ->
    same_win wm_rel (SetFileTime h c a w o1) (SetFileTime h2 c a w o2);
  wm_security o1 o2 h h2 i d : wm_rel o1 o2 -> wm_file o1 o2 h h2 ->
    same_win wm_rel (SetUserObjectSecurity h i d o1) (SetUserObjectSecurity h2 i d o2);
  wm_attributes o1 o2 p a : wm_rel o1 o2 ->
    same_win wm_rel (SetFileAttributes (translate_path p r1) a o1) (SetFileAttributes (translate_path p r2) a o2);
  (* whether or not it succeeds, flushing changes nothing another handle could see *)
  wm_flush o1 o2 h p : wm_rel o1 o2 -> wm_open o1 h p -> wm_rel (snd (FlushFileBuffers h o1)) o2;
  wm_close o1 o2 h2 : wm_rel o1 o2 -> wm_rel o1 (CloseHandle h2 o2) }.

Context {r1 r2 : path} {Mi : WinMirror r1 r2}.

(** ** One operation on both sides *)

(** The same code, and mirrored copies after it. *)
Definition follows (m1 : M OS1 Z) (m2 : M OS2 Z) (o1 : OS1) (o2 : OS2) : Prop :=
  exists code o1' o2', m1 o1 = (Ok code, o1') /\ m2 o2 = (Ok (i32 code), o2') /\ wm_rel o1' o2'.

Lemma win_call_same f1 f2 o1 o2 (R : OS1 -> OS2 -> Prop) : same_win R (f1 o1) (f2 o2) ->
  exists code o1' o2', win_call f1 o1 = (Ok code, o1') /\ win_call f2 o2 = (Ok code, o2') /\ R o1' o2'.
Proof.
  intros (E & He & HR). unfold win_call, win_checked, mret, M_ret. destruct (f1 o1) as [b1 o1'], (f2 o2) as [b2 o2'].
  cbn [fst snd] in *. subst b2. destruct b1; [by exists ERROR_SUCCESS, o1', o2'|].
  exists (GetLastError o1'), o1', o2'. by rewrite He.
Qed.

(** The client opens the file the server has a handle of. *)
Lemma with_file_follows (m1 : M OS1 Z) (f2 : Z -> M OS2 Z) o1 o2 h p opts :
  wm_rel o1 o2 -> wm_open o1 h p ->
  (forall o2 h2, wm_rel o1 o2 -> handle_ok h2 = true -> wm_file o1 o2 h h2 -> follows m1 (f2 h2) o1 o2) ->
  follows m1 (win_with_file (translate_path p r2) opts f2) o1 o2.
Proof.
  intros HR Ho Hf. destruct (wm_opens o1 o2 h p opts HR Ho) as (h2 & o2a & E & HR2 & Hh & Hfile).
  destruct (Hf o2a h2 HR2 Hh Hfile) as (code & o1' & o2' & E1 & E2 & HR').
  exists code, o1', (CloseHandle h2 o2'). split; [done|]. unfold win_with_file. rewrite E, E2. split; [done|]. by apply wm_close.
Qed.

Lemma follows_i32 (m1 : M OS1 Z) (m2 : M OS2 Z) o1 o2 :
  (exists code o1' o2', m1 o1 = (Ok code, o1') /\ m2 o2 = (Ok code, o2') /\ wm_rel o1' o2') ->
  follows m1 (res ← m2; mret (i32 res)) o1 o2.
Proof.
  intros (code & o1' & o2' & E1 & E2 & HR). exists code, o1', o2'. split; [done|]. unfold mbind, M_bind. by rewrite E2.
Qed.

Lemma end_of_file_follows size h p o1 o2 : wm_rel o1 o2 -> wm_open o1 h p ->
  follows (OpSetEndOfFile size h) (dispatch_windows (truncate p size) r2) o1 o2.
Proof.
  intros HR Ho. apply (with_file_follows _ _ o1 o2 h); [done..|]. intros o2' h2 HR2 Hh Hf. apply follows_i32.
  unfold OpSetEndOfFile, on_handle. rewrite (wm_handle o1 h p Ho), Hh. unfold win_checked.
  destruct (wm_pointer o1 o2' h h2 size HR2 Hf) as (E & He & HR3).
  destruct (SetFilePointerEx h size o1) as [b1 o1a], (SetFilePointerEx h2 size o2') as [b2 o2a]. cbn [fst snd] in *. subst b2.
  destruct b1; [|exists (GetLastError o1a), o1a, o2a; rewrite He by done; tauto].
  destruct HR3 as [HR3 Hf3]. by apply win_call_same, wm_end.
Qed.

Lemma move_follows new_name replace h p o1 o2 : wm_rel o1 o2 -> wm_open o1 h p -> - 2 ^ 31 <= replace < 2 ^ 31 ->
  follows (OpMoveFile (translate_path new_name r1) replace h) (dispatch_windows (rename p new_name (u32 replace)) r2) o1 o2.
Proof.
  intros HR Ho Hr. apply (with_file_follows _ _ o1 o2 h); [done..|]. intros o2' h2 HR2 Hh Hf. apply follows_i32.
  unfold OpMoveFile. rewrite (wm_handle o1 h p Ho), Hh.
  assert (i32 (u32 replace) = replace) as ->.
  { unfold i32, u32, swrap, wrap. rewrite Zplus_mod_idemp_l, Z.mod_small by lia. lia. }
  by apply win_call_same, wm_rename.
Qed.

Definition filetime_ok (t : FILETIME) : Prop := 0 <= dwHighDateTime t < 2 ^ 32 /\ 0 <= dwLowDateTime t < 2 ^ 32.

Lemma filetime_round t : filetime_ok t -> filetime_of_timespec (timespec_of_filetime t) = t.
Proof.
  intros [Hh Hl]. destruct t as [hi lo]. unfold filetime_of_timespec, timespec_of_filetime, u32, wrap. cbn in *.
  by rewrite !Z.mod_small by lia.
Qed.

Lemma time_follows c a w h p o1 o2 : wm_rel o1 o2 -> wm_open o1 h p -> filetime_ok c -> filetime_ok a -> filetime_ok w ->
  follows (OpSetFileTime c a w h)
    (dispatch_windows (utimens p (timespec_of_filetime c, timespec_of_filetime a, timespec_of_filetime w)) r2) o1 o2.
Proof.
  intros HR Ho Hc Ha Hw. apply (with_file_follows _ _ o1 o2 h); [done..|]. intros o2' h2 HR2 Hh Hf. apply follows_i32.
  rewrite !filetime_round by done. unfold OpSetFileTime, on_handle. rewrite (wm_handle o1 h p Ho), Hh.
  by apply win_call_same, wm_time.
Qed.

Lemma attributes_follows p a o1 o2 : wm_rel o1 o2 ->
  follows (OpSetFileAttributes (translate_path p r1) a) (dispatch_windows (chmod p a) r2) o1 o2.
Proof. intros HR. apply follows_i32. by apply win_call_same, wm_attributes. Qed.

Lemma security_follows info sec d h p o1 o2 : wm_rel o1 o2 -> wm_open o1 h p ->
  to_descriptor (Windows sec (Some info)) = Ok d ->
  follows (OpSetFileSecurity info (Some d) h) (dispatch_windows (security p (Windows sec (Some info))) r2) o1 o2.
Proof.
  intros HR Ho Hd. cbn [dispatch_windows]. rewrite Hd. unfold lift, mbind, M_bind.
  apply (with_file_follows _ _ o1 o2 h); [done..|]. intros o2' h2 HR2 Hh Hf. apply follows_i32.
  unfold OpSetFileSecurity, on_handle. rewrite (wm_handle o1 h p Ho), Hh. by apply win_call_same, wm_security.
Qed.

(** Writing, also through a difference. *)
Lemma write_same buf offset h h2 o1 o2 : wm_rel o1 o2 -> handle_ok h = true -> handle_ok h2 = true -> wm_file o1 o2 h h2 ->
  exists code w o1' o2', OpWriteFile buf offset h o1 = (Ok (code, w), o1') /\
    OpWriteFile buf offset h2 o2 = (Ok (code, w), o2') /\ wm_rel o1' o2'.
Proof.
  intros HR H1 H2 Hf. unfold OpWriteFile. rewrite H1, H2. set (lo := u32 offset). set (hi := u32 _).
  destruct (wm_write o1 o2 h h2 buf lo hi HR Hf) as (Ew & E & He & HR').
  destruct (WriteFile h buf lo hi o1) as [[b1 w1] o1'], (WriteFile h2 buf lo hi o2) as [[b2 w2] o2']. cbn [fst snd] in *. subst.
  eexists _, w2, o1', o2'. split; [reflexivity|]. split; [|done]. destruct b2; [done|]. by rewrite He.
Qed.

Lemma write_follows diff buf offset h p o1 o2 call o1a : wm_rel o1 o2 -> wm_open o1 h p ->
  write_call diff p buf offset h o1 = (Ok call, o1a) ->
  follows ('(r, _) ← OpWriteFile buf offset h; mret r) (dispatch_windows call r2) o1a o2.
Proof.
  intros HR Ho Ec. unfold write_call in Ec.
  assert (forall o1, wm_rel o1 o2 -> wm_open o1 h p ->
    follows ('(r, _) ← OpWriteFile buf offset h; mret r) (dispatch_windows (write p offset buf) r2) o1 o2) as Hplain.
  { clear. intros o1 HR Ho. apply (with_file_follows _ _ o1 o2 h); [done..|]. intros o2' h2 HR2 Hh Hf.
    destruct (write_same buf offset h h2 o1 o2' HR2 (wm_handle o1 h p Ho) Hh Hf) as (code & w & o1' & o2'' & E1 & E2 & HR').
    exists code, o1', o2''. unfold mbind, M_bind, mret, M_ret. by rewrite E1, E2. }
  destruct diff; [|injection Ec as <- <-; by apply Hplain].
  destruct (wm_read_again o1 o2 h p (zlen buf) (u64 offset) HR Ho) as (HRa & Hoa & Hagain).
  destruct (seek_read h (zlen buf) (u64 offset) o1) as [r o1b] eqn:Er. cbn [fst snd] in *.
  destruct r as [e|old]; [injection Ec as <- <-; by apply Hplain|].
  destruct (zlen buf <? zlen old) eqn:El; [done|]. injection Ec as <- <-.
  apply (with_file_follows _ _ o1b o2 h); [done..|]. intros o2' h2 HR2 Hh Hf.
  destruct (wm_read o1b o2' h h2 (zlen buf) (u64 offset) HR2 Hf) as (Eread & HR3 & Hf3). rewrite Hagain in Eread.
  unfold apply_diff. assert (zlen (xor_prefix buf old) = zlen buf) as Hlen by (unfold zlen; by rewrite length_xor_prefix).
  rewrite Hlen. destruct (seek_read h2 (zlen buf) (u64 offset) o2') as [r2' o2b] eqn:E3. cbn [fst snd] in *. subst r2'.
  destruct (write_same buf offset h h2 o1b o2b HR3 (wm_handle o1b h p Hoa) Hh Hf3) as (code & w & o1' & o2'' & E1 & E2 & HR').
  exists code, o1', o2''. unfold mbind, M_bind, mret, M_ret. rewrite E1, E3, El, xor_prefix_cancel, E2. done.
Qed.

(** ** The requests *)

(** The values a request can have: 32-bit fields, and a descriptor that comes
    back from the text it is sent as. *)
Definition request_ok (TRANSLATE_SIDS : bool) (req : win_request) : Prop :=
  match req with
  | Req_SetFileTime c a w => filetime_ok c /\ filetime_ok a /\ filetime_ok w
  | Req_MoveFile _ replace => - 2 ^ 31 <= replace < 2 ^ 31
  | Req_SetFileSecurity info d =>
      exists sec, parse_security (Some d) (Some info) TRANSLATE_SIDS = Ok (Windows sec (Some info)) /\
        to_descriptor (Windows sec (Some info)) = Ok d
  | _ => True
  end.

Context {F : MsgFormat} {C : Compressor} {FB : StoreFormat BilogEntry} {FV : StoreFormat VFSCall} {Dk : Dokan}.
Context (tid : Z) (TRANSLATE_SIDS : bool).

(** The call a request on the file at [p] sends, in the state it is made in. *)
Definition request_call (p : path) (req : win_request) (info : DOKAN_FILE_INFO) (s : Server) (o1 : OS1) (call : VFSCall) : Prop :=
  match req with
  | Req_WriteFile diff buffer offset =>
      exists len off, write_range p s (zlen buffer) offset info o1 = Ok (inr (len, off)) /\
        let buf := take (Z.to_nat len) buffer in
        call = match diff, fst (seek_read (Context info) (zlen buf) (u64 off) o1) with
               | true, inr old => diff_write p off (xor_prefix buf old)
               | _, _ => write p off buf
               end
  | Req_SetFileAttributes attributes => call = chmod p attributes
  | Req_SetFileTime c a w => call = utimens p (timespec_of_filetime c, timespec_of_filetime a, timespec_of_filetime w)
  | Req_MoveFile new_name replace => call = rename p new_name (u32 replace)
  | Req_SetEndOfFile offset => call = truncate p offset
  | Req_SetAllocationSize size => call = truncate p size /\ exists n, GetFileSizeEx (Context info) o1 = Some n /\ size < n
  | Req_SetFileSecurity sec_info d =>
      exists sec, parse_security (Some d) (Some sec_info) TRANSLATE_SIDS = Ok sec /\ call = security p sec
  | Req_FlushFileBuffers => call = fsync p 0
  end.

(** A request that is over before anything is sent. *)
Definition request_void (p : path) (req : win_request) (info : DOKAN_FILE_INFO) (s : Server) (o1 : OS1) (st : Z) : Prop :=
  match req with
  | Req_WriteFile _ buffer offset => exists written, write_range p s (zlen buffer) offset info o1 = Ok (inl (st, written))
  | Req_SetAllocationSize size =>
      match GetFileSizeEx (Context info) o1 with
      | None => st = DokanNtStatusFromWin32 (GetLastError o1)
      | Some n => n <= size /\ st = STATUS_SUCCESS
      end
  | _ => False
  end.

(** What the client answers to the server's code. It flushes nothing. *)
Definition client_code (req : win_request) (info : DOKAN_FILE_INFO) (o1 o1' : OS1) (scode code : Z) : Prop :=
  match req with
  | Req_FlushFileBuffers => OpFlushFileBuffers (Context info) o1 = (Ok scode, o1') /\ code = ERROR_SUCCESS
  | _ => code = i32 scode
  end.

(** The call is sent once, [dispatch] on the client answers, and [post_op] waits
    for no more than that; the rest of the server is as the two leave it. *)
Definition mirrored (p : path) (req : win_request) (info : DOKAN_FILE_INFO) (s : Server) (o1 : OS1) (o2 : OS2)
  (st : Z) (s' : Server) (o1' : OS1) : Prop :=
  exists call opref s1 scode code o2', request_call p req info s o1 call /\
    win_pre_op tid call s = (Ok opref, s1) /\ post_op opref (i32 scode) s1 = (Ok (i32 scode), s') /\
    st = DokanNtStatusFromWin32 (u32 (i32 scode)) /\
    dispatch_windows call r2 o2 = (Ok code, o2') /\ client_code req info o1 o1' scode code /\ wm_rel o1' o2'.

Lemma simple_mirrored p req info call (act : M OS1 Z) s o1 o2 st s' o1' :
  request_call p req info s o1 call -> match req with Req_FlushFileBuffers => False | _ => True end ->
  follows act (dispatch_windows call r2) o1 o2 -> win_simple tid call act (s, o1) = (Ok st, (s', o1')) ->
  mirrored p req info s o1 o2 st s' o1'.
Proof.
  intros Hc Hq (code & o1a & o2' & E1 & E2 & HR) E.
  destruct (win_simple_inv tid call act s o1 st s' o1' E) as (opref & s1 & code' & Hp & Ha & Hw & ->).
  rewrite E1 in Ha. injection Ha as <- <-. exists call, opref, s1, code, (i32 code), o2'. split_and!; try done. by destruct req.
Qed.

Lemma flush_mirrored p info s o1 o2 st s' o1' : wm_rel o1 o2 -> wm_open o1 (Context info) p ->
  MirrorFlushFileBuffers tid p info (s, o1) = (Ok st, (s', o1')) ->
  mirrored p Req_FlushFileBuffers info s o1 o2 st s' o1'.
Proof.
  intros HR Ho E. destruct (win_simple_inv tid _ _ s o1 st s' o1' E) as (opref & s1 & code & Hp & Ha & Hw & ->).
  exists (fsync p 0), opref, s1, code, ERROR_SUCCESS, o2. split_and!; try done.
  pose proof (wm_flush o1 o2 (Context info) p HR Ho) as HR'. unfold OpFlushFileBuffers, win_call, win_checked in Ha.
  destruct (FlushFileBuffers (Context info) o1) as [[] o1a]; by inv Ha.
Qed.

Lemma write_mirrored diff p buffer offset info s o1 o2 st w s' o1' :
  wm_rel o1 o2 -> wm_open o1 (Context info) p ->
  MirrorWriteFile tid diff p buffer offset info (s, o1) = (Ok (st, w), (s', o1')) ->
  mirrored p (Req_WriteFile diff buffer offset) info s o1 o2 st s' o1' \/
  (request_void p (Req_WriteFile diff buffer offset) info s o1 st /\ s' = s /\ o1' = o1).
Proof.
  intros HR Ho E. unfold MirrorWriteFile in E.
  destruct (write_range p s (zlen buffer) offset info o1) as [[[st' w']|[len off]]| | |] eqn:Er; try done.
  { inv E. right. split; [by exists w|done]. }
  set (buf := take (Z.to_nat len) buffer) in *. destruct (write_call diff p buf off (Context info) o1) as [[call| | |] o1a] eqn:Ec; try done.
  left. destruct (win_handler_inv tid call _ s o1a st w s' o1' E) as (opref & s1 & code & Hp & Ha & Hw & ->).
  destruct (write_follows diff buf off (Context info) p o1 o2 call o1a HR Ho Ec) as (code' & o1b & o2' & E1 & E2 & HR').
  assert (request_call p (Req_WriteFile diff buffer offset) info s o1 call) as Hc.
  { exists len, off. split; [exact Er|]. cbn zeta. fold buf. unfold write_call in Ec. destruct diff; [|by inv Ec].
    destruct (seek_read _ _ _ _) as [[e|old] o]; [by inv Ec|]. cbn. destruct (_ <? _); by inv Ec. }
  unfold mbind, M_bind, mret, M_ret in Ha, E1.
  destruct (OpWriteFile buf off (Context info) o1a) as [[[r w']| | |] o1c]; try done. simplify_eq.
  eexists call, opref, s1, _, _, o2'. split; [exact Hc|]. split; [exact Hp|]. split; [exact Hw|]. by split_and!.
Qed.

Lemma request_mirrored p req info s o1 o2 st s' o1' :
  wm_rel o1 o2 -> wm_open o1 (Context info) p -> sv_path s = r1 -> request_ok TRANSLATE_SIDS req ->
  serve_windows tid TRANSLATE_SIDS p req info (s, o1) = (Ok st, (s', o1')) ->
  mirrored p req info s o1 o2 st s' o1' \/ (request_void p req info s o1 st /\ s' = s /\ o1' = o1).
Proof.
  intros HR Ho Hp Hok E. destruct req as [diff buf off|a|c a w|to b|off|size|i d|]; cbn [serve_windows] in E.
  - unfold mbind, M_bind, mret, M_ret in E. destruct (MirrorWriteFile _ _ _ _ _ _ _) as [[[st' w]| | |] [s1 o1a]] eqn:Ew; inv E.
    by eapply write_mirrored.
  - left. unfold MirrorSetFileAttributes in E. rewrite Hp in E. eapply simple_mirrored; [..|exact E]; [done..|]. by eapply attributes_follows.
  - left. destruct Hok as (? & ? & ?). eapply simple_mirrored; [..|exact E]; [done..|]. by eapply time_follows.
  - left. unfold MirrorMoveFile in E. rewrite Hp in E. eapply simple_mirrored; [..|exact E]; [done..|]. by eapply move_follows.
  - left. eapply simple_mirrored; [..|exact E]; [done..|]. by eapply end_of_file_follows.
  - unfold MirrorSetAllocationSize in E. cbn [request_void]. destruct (GetFileSizeEx _ _) as [fs|] eqn:Eg; [|inv E; by right].
    destruct (fs <=? size) eqn:El; [inv E; right; split_and!; [lia|done..]|].
    left. eapply simple_mirrored; [..|exact E]; [|done|by eapply end_of_file_follows]. split; [done|]. exists fs. split; [done|lia].
  - left. destruct Hok as (sec & Hs & Hd). unfold MirrorSetFileSecurity in E. rewrite Hs in E. unfold lift, mbind, M_bind in E.
    eapply simple_mirrored; [..|exact E]; [by eexists|done|]. by eapply security_follows.
  - left. by apply flush_mirrored.
Qed.

End Mirror.
