(* ===== verification/WinInst.v ===== *)
(** * A small Windows

    Descriptors that are their own text, two accounts, and files under a root
    with handles that have a cursor. Opening, reading, writing and setting the
    end of a file do what they say; the other calls succeed without effect. Two
    of them under different roots are a [WinMirror]. *)

From stdpp Require Import base list numbers option strings gmap.
From Stdlib Require Import ZArith Lia Ascii.
From Stdlib Require String.
From S2P Require Import Prelude Common OpsInst WinSecurity WinOps WinHandlers WinSpec.

Local Open Scope Z_scope.

(** ** Accounts *)
Definition chars (s : string) : list ascii := String.list_ascii_of_string s.
Definition bytes_of (s : string) : list Z := (fun c => Z.of_nat (nat_of_ascii c)) <$> chars s.

Definition ann_sid : list ascii := chars "S-1-5-21-7".
Definition brien_sid : list ascii := chars "S-1-5-21-9".

#[export] Instance toy_sec : WinSec := {|
  win_desc := list ascii;
  sid_valid := fun _ => true;
  account_of_sid := fun sid => if bool_decide (sid = ann_sid) then inr (bytes_of "DOM", bytes_of "ann")
                               else if bool_decide (sid = brien_sid) then inr (bytes_of "DOM", bytes_of "O'Brien") else inl 1332;
  sid_of_account := fun name => if bool_decide (name = chars "ann") then inr ann_sid else inl 1332;
  desc_to_sddl := fun d _ => inr d;
  sddl_to_desc := inr;
  desc_owner := fun _ => true;
  desc_group := fun _ => true;
  desc_control := fun _ => 4;
  desc_set_control := fun _ d => d;
  token_user := fun _ => inr ann_sid |}.

#[export] Instance toy_dokan : Dokan := {|
  DokanNtStatusFromWin32 := fun z => z;
  DokanMapKernelToUserCreateFileFlags := fun access attributes _ disposition => (access, attributes, disposition);
  STATUS_FILE_IS_A_DIRECTORY := 3221225658; STATUS_CANNOT_DELETE := 3221225761; STATUS_OBJECT_NAME_COLLISION := 3221225525 |}.

(** ** Files *)
Record wtoy := mk_wtoy { wt_root : path; wt_files : gmap (list string) (list Z); wt_handles : gmap Z (list string * Z) }.

Definition w_at (p : path) (o : wtoy) : list string := drop (length (p_comps (wt_root o))) (p_comps p).
Definition w_set_files (o : wtoy) (f : gmap (list string) (list Z)) : wtoy := mk_wtoy (wt_root o) f (wt_handles o).
Definition w_fine (o : wtoy) : bool * wtoy := (true, o).

Definition w_open (p : path) (o : wtoy) : (io_error + Z) * wtoy :=
  match wt_files o !! w_at p o with
  | Some _ => (inr 7, mk_wtoy (wt_root o) (wt_files o) (<[7 := (w_at p o, 0)]> (wt_handles o)))
  | None => (inl (OsError 2), o)
  end.

Definition w_write (h : Z) (buf : list Z) (lo hi : Z) (o : wtoy) : (bool * Z) * wtoy :=
  match wt_handles o !! h with
  | Some (k, _) => ((true, zlen buf), w_set_files o (alter (t_overlay (Z.to_nat (lo + hi * 2 ^ 32)) buf) k (wt_files o)))
  | None => ((false, 0), o)
  end.

Definition w_read (h n off : Z) (o : wtoy) : (io_error + list Z) * wtoy :=
  match wt_handles o !! h with
  | Some (k, _) => (inr (take (Z.to_nat n) (drop (Z.to_nat off) (default [] (wt_files o !! k)))), o)
  | None => (inl (OsError 6), o)
  end.

Definition w_seek (h off : Z) (o : wtoy) : bool * wtoy :=
  match wt_handles o !! h with
  | Some (k, _) => (true, mk_wtoy (wt_root o) (wt_files o) (<[h := (k, off)]> (wt_handles o)))
  | None => (false, o)
  end.

Definition w_end (h : Z) (o : wtoy) : bool * wtoy :=
  match wt_handles o !! h with
  | Some (k, off) => (true, w_set_files o (alter (t_resize (Z.to_nat off)) k (wt_files o)))
  | None => (false, o)
  end.

#[export] Instance toy_win : Win32 toy_sec wtoy := {|
  GetLastError := fun _ => 6; win_open := fun p _ => w_open p; CloseHandle := fun _ o => o;
  CreateFile := fun p _ _ _ _ _ o => let '(r, o) := w_open p o in (match r with inr h => h | inl _ => INVALID_HANDLE_VALUE end, o);
  CreateDirectory := fun _ _ => w_fine;
  GetFileAttributes := fun p o => match wt_files o !! w_at p o with Some _ => 0 | None => INVALID_FILE_ATTRIBUTES end;
  SetFileAttributes := fun _ _ => w_fine; SetFileRenameInfo := fun _ _ _ => w_fine; FlushFileBuffers := fun _ => w_fine;
  DeleteFile := fun _ => w_fine; RemoveDirectory := fun _ => w_fine; SetUserObjectSecurity := fun _ _ _ => w_fine;
  SetFileTime := fun _ _ _ _ => w_fine; SetFilePointerEx := w_seek; SetEndOfFile := w_end; WriteFile := w_write;
  seek_read := w_read; GetFileSizeEx := fun h o => '(k, _) ← wt_handles o !! h; zlen <$> wt_files o !! k;
  win_lstat := fun p o => match wt_files o !! w_at p o with Some l => inr (mk_wstat false 0 (zlen l)) | None => inl (OsError 2) end;
  ImpersonateLoggedOnUser := fun _ => w_fine; RevertToSelf := fun o => o; DokanOpenRequestorToken := fun o => (5, o) |}.

(** ** Two of them *)
Lemma w_at_translate p o r : wt_root o = r -> w_at (translate_path p r) o = p_comps p.
Proof.
  intros <-. unfold w_at, translate_path, path_join, strip_root.
  destruct (p_abs p) eqn:Ep; cbn; rewrite ?Ep; cbn; apply drop_app_length.
Qed.

Definition w_rel (r1 r2 : path) (o1 o2 : wtoy) : Prop := wt_root o1 = r1 /\ wt_root o2 = r2 /\ wt_files o1 = wt_files o2.

Definition w_same_file (o1 o2 : wtoy) (h1 h2 : Z) : Prop :=
  exists k c1 c2, wt_handles o1 !! h1 = Some (k, c1) /\ wt_handles o2 !! h2 = Some (k, c2).

Definition w_same_place (o1 o2 : wtoy) (h1 h2 : Z) : Prop :=
  exists k c, wt_handles o1 !! h1 = Some (k, c) /\ wt_handles o2 !! h2 = Some (k, c).

#[export] Instance toy_win_mirror (r1 r2 : path) : WinMirror (Win1 := toy_win) (Win2 := toy_win) r1 r2.
Proof.
  refine (@Build_WinMirror toy_sec wtoy wtoy toy_win toy_win r1 r2 (w_rel r1 r2)
    (fun o h p => handle_ok h = true /\ exists c, wt_handles o !! h = Some (p_comps p, c) /\ is_Some (wt_files o !! p_comps p))
    w_same_file w_same_place _ _ _ _ _ _ _ _ _ _ _ _ _); try solve [intros; cbn; unfold same_win; cbn; tauto].
  - intros o1 o2 h p opts (H1 & H2 & H3) (_ & c & Hh & Hf). cbn. unfold w_open. rewrite (w_at_translate p o2 r2 H2), <- H3.
    destruct Hf as [l ->]. eexists _, _. split; [reflexivity|]. split; [done|]. split; [done|].
    exists (p_comps p), c, 0. split; [done|]. cbn. by rewrite lookup_insert_eq.
  - intros o1 o2 h h2 buf lo hi (H1 & H2 & H3) (k & c1 & c2 & E1 & E2). cbn. unfold w_write, same_win, w_rel. rewrite E1, E2. cbn. by rewrite H3.
  - intros o1 o2 h p n off HR (Hk & c & Hh & Hf). cbn. unfold w_read. rewrite Hh. cbn. rewrite Hh. split_and!; try done. by exists c.
  - intros o1 o2 h h2 n off (H1 & H2 & H3) (k & c1 & c2 & E1 & E2). cbn. unfold w_read. rewrite E1, E2, H3. cbn. split_and!; try done. by exists k, c1, c2.
  - intros o1 o2 h h2 off (H1 & H2 & H3) (k & c1 & c2 & E1 & E2). cbn. unfold w_seek, same_win, w_rel. rewrite E1, E2. cbn. split_and!; try done.
    exists k, off. cbn. by rewrite !lookup_insert_eq.
  - intros o1 o2 h h2 (H1 & H2 & H3) (k & c & E1 & E2). cbn. unfold w_end, same_win, w_rel. rewrite E1, E2. cbn. by rewrite H3.
Defined.
