(* ===== verification/WinProps.v ===== *)
(** * What the Windows port promises

    The text a descriptor is sent as gives the descriptor back; a request served
    on an open file is mirrored by the client's [dispatch]; and three places
    where the handlers do not do what they mean to. *)

From stdpp Require Import base list numbers option strings gmap.
From Stdlib Require Import ZArith Lia Ascii.
From Stdlib Require String.
From S2P Require Import Prelude Common Filestore Store StoreInst Entries Bilog Net NetInst OpsInst Server WinSecurity WinOps WinHandlers WinSpec WinInst.

Local Open Scope Z_scope.

Section Security.
Context {W : WinSec}.

(** C33. A security descriptor is sent as text, with every SID replaced by the
    quoted name of its account if SIDs are translated. The text gives the same
    descriptor back, provided that the system's own text does, and every account
    found for a SID has a name without quotes that leads back to the SID. *)
Theorem windows_security_roundtrip d info translate str :
  desc_to_sddl d (default all_information info) = inr str -> sddl_to_desc str = inr d ->
  existsb (Ascii.eqb SDDL_DELIM) str = false -> sids_ok str ->
  exists s, parse_security (Some d) info translate = Ok s /\ to_descriptor s = Ok d.
Proof.
  intros Hs Hd Hq Hsids. unfold parse_security. rewrite Hs. cbn [of_os mbind outcome_bind]. destruct translate.
  - rewrite Hq. destruct (quote_unquote str Hsids Hq) as (l & E & E'). rewrite E. cbn [mbind outcome_bind].
    eexists. split; [reflexivity|]. unfold to_descriptor. rewrite String.list_ascii_of_string_of_list_ascii, E'.
    cbn [mbind outcome_bind]. by rewrite Hd.
  - cbn [mbind outcome_bind]. eexists. split; [reflexivity|]. unfold to_descriptor.
    rewrite String.list_ascii_of_string_of_list_ascii. rewrite <- (app_nil_r str) at 1. rewrite unquote_skip by done.
    cbn [mbind outcome_bind]. rewrite replace_all_nil. cbn [mbind outcome_bind]. rewrite app_nil_r. by rewrite Hd.
Qed.

(** Known defect: a quote in the name of an account is taken for the end of
    the name. The text of a descriptor that is just the SID of such an account
    is read back as something else. *)
Theorem windows_quoted_name_breaks sid domain a b :
  sid_valid sid = true -> sid_match sid = Some (length sid) -> existsb (Ascii.eqb SDDL_DELIM) sid = false ->
  lookup_account sid = Ok (domain, a ++ SDDL_DELIM :: b) -> plain a = true -> existsb (Ascii.eqb SDDL_DELIM) b = false ->
  exists l, replace_all sid_match quote_account sid = Ok l /\
    replace_all name_match unquote_account l =
      (x ← unquote_account (SDDL_DELIM :: a ++ [SDDL_DELIM]); Ok (x ++ b ++ [SDDL_DELIM])) /\
    replace_all name_match unquote_account l <> Ok sid.
Proof.
  intros Hv Hm Hq Hl Ha Hb. rewrite (replace_all_match _ _ sid _ sid_match_progress Hm).
  rewrite take_ge, drop_ge, replace_all_nil by lia.
  assert (quote_account sid = Ok (SDDL_DELIM :: (a ++ SDDL_DELIM :: b) ++ [SDDL_DELIM])) as ->.
  { unfold quote_account, string_to_sid. rewrite Hv. cbn [mbind outcome_bind]. by rewrite Hl. }
  cbn [mbind outcome_bind]. rewrite app_nil_r, <- app_assoc. cbn [app]. eexists. split; [reflexivity|].
  assert (replace_all name_match unquote_account (SDDL_DELIM :: a ++ SDDL_DELIM :: b ++ [SDDL_DELIM]) =
    (x ← unquote_account (SDDL_DELIM :: a ++ [SDDL_DELIM]); Ok (x ++ b ++ [SDDL_DELIM]))) as E.
  { rewrite (replace_all_match _ _ _ _ name_match_progress (name_match_quoted a _ Ha)).
    replace (SDDL_DELIM :: a ++ SDDL_DELIM :: b ++ [SDDL_DELIM]) with ((SDDL_DELIM :: a ++ [SDDL_DELIM]) ++ b ++ [SDDL_DELIM])
      by (cbn; by rewrite <- app_assoc).
    assert (2 + length a = length (SDDL_DELIM :: a ++ [SDDL_DELIM]))%nat as -> by (cbn; rewrite length_app; cbn; lia).
    rewrite take_app_length, drop_app_length. rewrite unquote_skip by done.
    by replace (replace_all name_match unquote_account [SDDL_DELIM]) with (Ok [SDDL_DELIM]) by reflexivity. }
  split; [exact E|]. rewrite E. destruct (unquote_account _) as [x| | |]; try done. cbn [mbind outcome_bind]. intros [= Hx].
  rewrite <- Hx, !existsb_app in Hq. apply orb_false_iff in Hq as [_ Hq]. apply orb_false_iff in Hq as [_ Hq]. by vm_compute in Hq.
Qed.
End Security.

Section Handlers.
Context {F : MsgFormat} {C : Compressor} {FB : StoreFormat BilogEntry} {FV : StoreFormat VFSCall}.
Context {W : WinSec} {Dk : Dokan} (tid : Z) (TRANSLATE_SIDS : bool).

(** C15. A request on an open file (a write, plain or as a difference, and every
    change of size, name, times, attributes or security, and a flush) that
    returns is either over before anything was sent, and then nothing changed: a
    paging write past the end or whose file cannot be examined, an allocation
    not below the size. Or the call of the request, and no other, went to the
    clients, the server is as sending it and waiting for its acks leave it, the
    status is that of the server's code, [dispatch] of the call on a mirrored copy
    gives the server's code, and the copies are mirrored again. Only a flush is
    answered with success whatever the server's own flush gave. *)
Theorem windows_requests_mirrored {OS1 OS2} {Win1 : Win32 W OS1} {Win2 : Win32 W OS2} {r1 r2} {Mi : WinMirror r1 r2}
    p req info s o1 o2 st s' o1' :
  wm_rel o1 o2 -> wm_open o1 (Context info) p -> sv_path s = r1 -> request_ok TRANSLATE_SIDS req ->
  serve_windows tid TRANSLATE_SIDS p req info (s, o1) = (Ok st, (s', o1')) ->
  (exists call opref s1 scode code o2', request_call TRANSLATE_SIDS p req info s o1 call /\
     win_pre_op tid call s = (Ok opref, s1) /\ post_op opref (i32 scode) s1 = (Ok (i32 scode), s') /\
     st = DokanNtStatusFromWin32 (u32 (i32 scode)) /\
     dispatch_windows call r2 o2 = (Ok code, o2') /\ client_code req info o1 o1' scode code /\ wm_rel o1' o2') \/
  (request_void p req info s o1 st /\ s' = s /\ o1' = o1).
Proof. intros HR Ho Hp Hok E. by apply (request_mirrored tid TRANSLATE_SIDS p req info s o1 o2 st s' o1'). Qed.

Context {OS : Type} {Win : Win32 W OS}.

(** A paging write is cut to what lies within the file, so it never makes it
    longer, and is over without a call when it starts past the end. *)
Theorem windows_paging_write_within p s len offset info os stat :
  WriteToEndOfFile info = 0 -> PagingIo info <> 0 -> win_lstat (translate_path p (sv_path s)) os = inr stat ->
  0 <= offset < 2 ^ 63 -> 0 <= len < 2 ^ 32 -> 0 <= ws_len stat < 2 ^ 63 ->
  write_range p s len offset info os =
    Ok (if ws_len stat <=? offset then inl (STATUS_SUCCESS, Some 0)
        else inr (Z.min len (ws_len stat - offset), offset)).
Proof.
  intros Hw Hp Hs Ho Hl Hn. unfold write_range. rewrite Hw, Hs. apply Z.eqb_neq in Hp. rewrite Hp. cbn [negb].
  rewrite (u64_small offset) by lia. destruct (ws_len stat <=? offset) eqn:E; [done|]. rewrite u64_small by lia.
  destruct (ws_len stat <? offset + len) eqn:E2; [|do 3 f_equal; lia].
  rewrite (u64_small (ws_len stat - offset)) by lia. rewrite Z.shiftr_div_pow2 by lia. rewrite Z.div_small by lia. cbn [Z.eqb negb].
  do 3 f_equal. unfold u32, wrap. rewrite Z.mod_small; lia.
Qed.

(** Known defect: a write to the end of the file is given the offset
    [i64::MAX], on the clients too. [WriteFile] appends when both words of the
    offset are all ones, but the high word that reaches it is [0x7FFFFFFF]. *)
Theorem windows_append_misses_end p buffer offset info s os :
  WriteToEndOfFile info <> 0 -> handle_ok (Context info) = true ->
  MirrorWriteFile tid false p buffer offset info (s, os) =
    win_handler tid (write p (2 ^ 63 - 1) buffer) (fun os =>
      let '((ok, written), os) := WriteFile (Context info) buffer (2 ^ 32 - 1) (2 ^ 31 - 1) os in
      (Ok (if ok : bool then ERROR_SUCCESS else GetLastError os, Some written), os)) (s, os).
Proof.
  intros Hw Hh. unfold MirrorWriteFile, write_range. apply Z.eqb_neq in Hw. rewrite Hw. cbn [negb].
  unfold zlen. rewrite Nat2Z.id, firstn_all. unfold write_call, win_handler. destruct (win_pre_op _ _ _) as [[opref| | |] s1]; try done.
  unfold mbind, M_bind, mret, M_ret, OpWriteFile. rewrite Hh.
  change (u32 (2 ^ 63 - 1)) with (2 ^ 32 - 1). change (u32 (Z.shiftr (2 ^ 63 - 1) 32)) with (2 ^ 31 - 1).
  by destruct (WriteFile _ _ _ _ _) as [[ok w] os1].
Qed.

(** Known defect: opening an existing file with [OPEN_ALWAYS] should report a
    collision, as the comment says. The test for it is made only when a call was
    sent, and none is sent for a file that exists: the status is that of any
    other open. *)
Theorem windows_open_always_no_collision p sec_desc access attributes shared disposition options info s os stat token os1
    access' attributes' h os2 :
  win_lstat (translate_path p (sv_path s)) os = inr stat -> ws_is_dir stat = false ->
  flagset (ws_attributes stat) FILE_ATTRIBUTE_READONLY = false -> flagset attributes' FILE_ATTRIBUTE_READONLY = false ->
  DokanOpenRequestorToken os = (token, os1) -> token <> INVALID_HANDLE_VALUE ->
  DokanMapKernelToUserCreateFileFlags access attributes options disposition = (access', attributes', OPEN_ALWAYS) ->
  as_user token (OpCreateFile (translate_path p (sv_path s)) sec_desc access' attributes' shared OPEN_ALWAYS (Context info)) os1 =
    (Ok (ERROR_SUCCESS, h), os2) ->
  MirrorCreateFile tid TRANSLATE_SIDS p sec_desc access attributes shared disposition options info (s, os) =
    (Ok (DokanNtStatusFromWin32 ERROR_SUCCESS, set_Context h info), (s, os2)).
Proof.
  intros Hs Hd Hro Hra Ht Hne Hmap Hact. unfold MirrorCreateFile. rewrite Hs, Ht, Hmap, Hd. apply Z.eqb_neq in Hne. rewrite Hne.
  cbn [andb negb]. rewrite Hro, Hra. cbn [andb orb]. unfold open_call. cbn [andb negb orb Z.eqb OPEN_ALWAYS TRUNCATE_EXISTING CREATE_ALWAYS].
  cbn [Pos.eqb open_with]. rewrite Hact. done.
Qed.
End Handlers.

(** ** On the small Windows *)
Definition sd_text : list ascii := chars "O:S-1-5-21-7G:S-1-5-32-544D:(A;;FA;;;WD)".

Lemma windows_security_roundtrip_witness :
  exists s, parse_security (W := toy_sec) (Some sd_text) (Some 5) true = Ok s /\ to_descriptor s = Ok sd_text.
Proof.
  apply (windows_security_roundtrip (W := toy_sec) sd_text (Some 5) true sd_text); [reflexivity|reflexivity|reflexivity|].
  do 2 (apply sids_skip; [reflexivity|]). eapply (sids_match _ 10); [reflexivity|..].
  { split; [done|]. right. exists (chars "DOM"), (chars "ann"). split_and!; reflexivity. }
  do 2 (apply sids_skip; [reflexivity|]). eapply (sids_match _ 12); [reflexivity|..].
  { split; [done|]. left. by exists (OsError 1332). }
  repeat (apply sids_skip; [reflexivity|]). apply sids_nil.
Defined.

Lemma windows_quoted_name_breaks_witness :
  exists l, replace_all sid_match (quote_account (W := toy_sec)) brien_sid = Ok l /\ l = chars "'O'Brien'" /\
    replace_all name_match (unquote_account (W := toy_sec)) l <> Ok brien_sid.
Proof.
  destruct (windows_quoted_name_breaks (W := toy_sec) brien_sid (chars "DOM") (chars "O") (chars "Brien"))
    as (l & E & _ & Hne); [reflexivity|reflexivity|reflexivity|reflexivity|reflexivity|reflexivity|].
  exists l. split; [exact E|]. split; [|exact Hne]. injection E as <-. reflexivity.
Defined.

Definition w_root (n : string) : path := mk_path true [n].
Definition w_path : path := mk_path true ["a"%string].
Definition w_side (n : string) (handles : gmap Z (list string * Z)) : wtoy :=
  mk_wtoy (w_root n) (<[["a"%string] := [1; 2; 3; 4]]> ∅) handles.
Definition w_server_os : wtoy := w_side "srv" (<[9 := (["a"%string], 0)]> ∅).
Definition w_client_os : wtoy := w_side "cli" ∅.
Definition w_info (paging append : Z) : DOKAN_FILE_INFO := mk_DOKAN_FILE_INFO 9 0 0 paging append.

#[local] Existing Instance no_compressor.
#[local] Instance w_msgs : MsgFormat := table_msgs [].
#[local] Instance w_bilogs : StoreFormat BilogEntry := mapped_format (fun _ => []) (fun _ => BE_filestore w_path 0).
#[local] Instance w_calls : StoreFormat VFSCall := mapped_format (fun _ => []) (fun _ => unlink w_path).
Definition w_server : Server := mk_Server false [] [] None JT_Invalid (w_root "srv").

(** A write over the second half and past the end, sent as a difference. *)
Lemma windows_requests_mirrored_witness :
  exists s' o1', serve_windows 1 true w_path (Req_WriteFile true [7; 8; 9] 2) (w_info 0 0) (w_server, w_server_os) = (Ok 0, (s', o1')) /\
    wt_files o1' !! ["a"%string] = Some [1; 2; 7; 8; 9] /\
    ((exists call opref s1 scode code o2',
       request_call true w_path (Req_WriteFile true [7; 8; 9] 2) (w_info 0 0) w_server w_server_os call /\
       win_pre_op 1 call w_server = (Ok opref, s1) /\ post_op opref (i32 scode) s1 = (Ok (i32 scode), s') /\
       0 = DokanNtStatusFromWin32 (u32 (i32 scode)) /\
       dispatch_windows call (w_root "cli") w_client_os = (Ok code, o2') /\
       client_code (Req_WriteFile true [7; 8; 9] 2) (w_info 0 0) w_server_os o1' scode code /\
       w_rel (w_root "srv") (w_root "cli") o1' o2') \/
     (request_void w_path (Req_WriteFile true [7; 8; 9] 2) (w_info 0 0) w_server w_server_os 0 /\ s' = w_server /\ o1' = w_server_os)).
Proof.
  destruct (serve_windows 1 true w_path (Req_WriteFile true [7; 8; 9] 2) (w_info 0 0) (w_server, w_server_os)) as [r [s' o1']] eqn:E.
  assert (r = Ok 0) as -> by (change r with (fst (r, (s', o1'))); rewrite <- E; vm_compute; reflexivity).
  exists s', o1'. split; [reflexivity|]. split.
  { change o1' with (snd (snd (@Ok Z 0, (s', o1')))). rewrite <- E. vm_compute. reflexivity. }
  apply (windows_requests_mirrored (Mi := toy_win_mirror (w_root "srv") (w_root "cli")) 1 true w_path (Req_WriteFile true [7; 8; 9] 2)
    (w_info 0 0) w_server w_server_os w_client_os 0 s' o1'); [done| |done|exact I|exact E].
  split; [reflexivity|]. exists 0. split; [reflexivity|]. by eexists.
Defined.

Lemma windows_paging_write_within_witness :
  write_range w_path w_server 8 1 (w_info 1 0) w_server_os = Ok (inr (3, 1)).
Proof.
  exact (windows_paging_write_within w_path w_server 8 1 (w_info 1 0) w_server_os (mk_wstat false 0 4)
    eq_refl ltac:(discriminate) eq_refl ltac:(split; [discriminate|reflexivity]) ltac:(split; [discriminate|reflexivity])
    ltac:(split; [discriminate|reflexivity])).
Defined.

Lemma windows_append_misses_end_witness :
  MirrorWriteFile 1 false w_path [7] 0 (w_info 0 1) (w_server, w_server_os) =
    win_handler 1 (write w_path (2 ^ 63 - 1) [7]) (fun os =>
      let '((ok, written), os) := WriteFile 9 [7] (2 ^ 32 - 1) (2 ^ 31 - 1) os in
      (Ok (if ok : bool then ERROR_SUCCESS else GetLastError os, Some written), os)) (w_server, w_server_os).
Proof.
  exact (windows_append_misses_end 1 w_path [7] 0 (w_info 0 1) w_server w_server_os ltac:(discriminate) eq_refl).
Defined.

Lemma windows_open_always_no_collision_witness :
  exists os2, MirrorCreateFile 1 true w_path None 0 0 0 OPEN_ALWAYS 0 (w_info 0 0) (w_server, w_server_os) =
    (Ok (0, set_Context 7 (w_info 0 0)), (w_server, os2)).
Proof.
  eexists. exact (windows_open_always_no_collision 1 true w_path None 0 0 0 OPEN_ALWAYS 0 (w_info 0 0) w_server w_server_os
    (mk_wstat false 0 4) 5 w_server_os 0 0 7 _ eq_refl eq_refl eq_refl eq_refl eq_refl ltac:(discriminate) eq_refl eq_refl).
Defined.
