(* ===== verification/WinStart.v ===== *)
(** * Starting on Windows

    [canonize_path], the checksum of a tree and [WinapiBox] of
    [fsyncd/src/common/mod.rs] as they are on Windows, [copy_security] of
    [common/security_windows.rs], the end of [figure_out_paths] and of
    [server_main] of [server/mod.rs], and [dokan/src/lib.rs]. The Windows API and
    the Dokan library are parameters. *)

From stdpp Require Import base list numbers option strings.
From Stdlib Require Import ZArith Lia.
From S2P Require Import Prelude Common Hash.

Local Open Scope Z_scope.

(** ** Wide strings *)

(** A zero-terminated string in 16-bit units. *)
Definition os_to_wstr (s : list Z) : list Z := s ++ [0].

(** Up to the first zero; [None] when there is none and [wcslen] leaves the
    buffer. *)
Fixpoint wstr_to_os (buf : list Z) : option (list Z) :=
  match buf with
  | [] => None
  | c :: buf => if c =? 0 then Some [] else cons c <$> wstr_to_os buf
  end.

(** ** [canonize_path] *)

(** [GetFullPathNameW] for a buffer of so many units: what it returns and what it
    has put into the buffer. Its documentation: 0 for a failure; the length of
    the path, which is in the buffer with a zero behind it, if there is room for
    both; the room that is needed if there is not. [full_path] is the path or the
    error code. *)
Class FullPath := {
  GetFullPathNameW : list Z -> Z -> Z * list Z;
  full_path : list Z -> Z + list Z;
  path_error : list Z -> Z;
  law_no_path : forall w n e, full_path w = inl e -> GetFullPathNameW w n = (0, []) /\ path_error w = e;
  law_path_fits : forall w n p, full_path w = inr p -> zlen p < n -> GetFullPathNameW w n = (zlen p, p ++ [0]);
  law_path_long : forall w n p, full_path w = inr p -> n <= zlen p -> fst (GetFullPathNameW w n) = zlen p + 1;
  law_path_named : forall w p, full_path w = inr p -> p <> [] /\ Forall (fun c => c <> 0) p }.

Definition MAX_PATH : Z := 32767.
Definition verbatim_prefix : list Z := [92; 92; 63; 92].

Section Paths.
Context {FP : FullPath}.

(** The outer [None] is a write behind the end of [buf]. *)
Definition canonize_path (p : list Z) : option (outcome (list Z)) :=
  let wpath := os_to_wstr p in
  let buf := verbatim_prefix ++ replicate (Z.to_nat MAX_PATH - 4) 0 in
  let '(r, written) := GetFullPathNameW wpath MAX_PATH in
  if MAX_PATH <? 4 + zlen written then None
  else
    let buf := take 4 buf ++ written ++ drop (4 + length written) buf in
    if r =? 0 then Some (Err (OsError (path_error wpath)))
    else Some (match wstr_to_os buf with Some s => Ok s | None => Panic end).

End Paths.

(** ** The checksum of a tree

    The entries come in the order in which the file system lists them. *)
Record win_metadata := mk_win_metadata { wm_is_dir : bool; wm_attributes : Z; wm_len : Z; wm_modified : outcome Z }.

Record win_entry := mk_win_entry { we_path : list string; we_type : Z; we_meta : outcome win_metadata }.

Inductive win_node := WinNode (ftype : Z) (meta : outcome win_metadata) (unlisted : option io_error) (kids : list (string * win_node)).

Fixpoint win_walk (rel : list string) (n : win_node) : list (outcome win_entry) :=
  match n with
  | WinNode ft meta unlisted kids =>
    Ok (mk_win_entry rel ft meta) ::
      (if ft =? S_IFDIR then
         match unlisted with
         | Some e => [Err e]
         | None => mjoin ((fun k => win_walk (rel ++ [fst k]) (snd k)) <$> kids)
         end
       else [])
  end.

Section Hash.
Context {H : Hasher}.

Fixpoint win_hash_entries (l : list (outcome win_entry)) (h : hasher) : outcome hasher :=
  match l with
  | [] => Ok h
  | e :: l =>
    e ← e;
    if bool_decide (we_path e = []) then win_hash_entries l h
    else
      let h := hasher_feed (HashFileType (we_type e)) (hasher_feed (HashPath (we_path e)) h) in
      stat ← we_meta e;
      let h := hasher_feed (HashU32 (wm_attributes stat)) h in
      let h := if wm_is_dir stat then h else hasher_feed (HashU64 (wm_len stat)) h in
      modified ← wm_modified stat;
      win_hash_entries l (hasher_feed (HashU64 modified) h)
  end.

Definition win_hash_metadata (root : win_node) : outcome Z :=
  hasher_finish <$> win_hash_entries (win_walk [] root) hasher_new.

End Hash.

(** ** [WinapiBox]: what the operating system has allocated *)
Inductive WinapiBox := mk_WinapiBox (t : Z) (borrows : list WinapiBox).

Definition box_ptr (b : WinapiBox) : Z := match b with mk_WinapiBox t _ => t end.

Definition box_from_raw (t : Z) : outcome WinapiBox := if t =? 0 then Panic else Ok (mk_WinapiBox t []).

(** The borrowed box itself is forgotten. *)
Definition add_borrow (self b : WinapiBox) : outcome WinapiBox :=
  match self with
  | mk_WinapiBox t borrows => b' ← box_from_raw (box_ptr b); Ok (mk_WinapiBox t (borrows ++ [b']))
  end.

(** The calls of [LocalFree] when a box goes out of scope. *)
Fixpoint drop_box (b : WinapiBox) : list Z :=
  match b with mk_WinapiBox t borrows => t :: mjoin (drop_box <$> borrows) end.

(** ** Files and their security *)
Class WinHost (OS : Type) := {
  wh_error : OS -> Z;
  wh_open : path -> option Z -> Z -> option Z -> OS -> (io_error + Z) * OS;   (* access, flags, share mode *)
  wh_close : Z -> OS -> OS;
  wh_get_security : Z -> Z -> Z -> OS -> (bool * list Z * Z) * OS;            (* what was written, and what is needed *)
  wh_set_security : Z -> Z -> list Z -> OS -> bool * OS;
  wh_remove_dir : path -> M OS unit;
  wh_create_dir : path -> M OS unit }.

Definition BACKUP_SEMANTICS : Z := 2 ^ 25.
Definition ERROR_SHARING_VIOLATION : Z := 32.
Definition DESC_LENGTH : Z := 4096.

Section Host.
Context {OS : Type} {WH : WinHost OS}.

(** [with_file], whose results are both [trace!]d. *)
Definition on_opened {A} (p : path) (access : Z) (f : Z -> OS -> outcome A * OS) : M OS A := fun os =>
  match wh_open p (Some access) BACKUP_SEMANTICS None os with
  | (inl e, os) => (Err e, os)
  | (inr handle, os) => let '(r, os) := f handle os in (r, wh_close handle os)
  end.

Definition copied_information : Z := Z.lor (Z.lor (Z.lor 1 2) 4) 8.

Definition read_security (handle : Z) : M OS (list Z * Z) := fun os =>
  let '((ok, written, needed), os) := wh_get_security handle copied_information DESC_LENGTH os in
  if ok : bool then (Ok (written ++ drop (length written) (replicate (Z.to_nat DESC_LENGTH) 0), needed), os)
  else (Err (OsError (wh_error os)), os).

Definition write_security (desc : list Z) (handle : Z) : M OS unit := fun os =>
  let '(ok, os) := wh_set_security handle copied_information desc os in
  if ok : bool then (Ok tt, os) else (Err (OsError (wh_error os)), os).

(** [ACCESS_SYSTEM_SECURITY] with [GENERIC_READ] and [READ_CONTROL], or with
    [GENERIC_WRITE] and [WRITE_DAC]. *)
Definition win_copy_security (src dst : path) : M OS unit :=
  '(desc, needed) ← on_opened src (Z.lor (Z.lor (2 ^ 24) (2 ^ 31)) (2 ^ 17)) read_security;
  if DESC_LENGTH <? needed then panic
  else on_opened dst (Z.lor (Z.lor (2 ^ 24) (2 ^ 30)) (2 ^ 18)) (write_security desc).

(** *** The end of [figure_out_paths]: the mount path has to be free *)

(** [raw_os_error]. *)
Definition raw_os_error (e : io_error) : option Z := match e with OsError c => Some c | _ => None end.

(** [OpenOptions::open] for writing and alone, and closing it again. *)
Definition try_mount_path (p : path) : M OS (option io_error) := fun os =>
  match wh_open p None BACKUP_SEMANTICS (Some 0) os with
  | (inl e, os) => (Ok (Some e), os)
  | (inr handle, os) => (Ok None, wh_close handle os)
  end.

Fixpoint own_mount_path (fuel : nat) (recreated : bool) (mount_path backing_store : path) : M OS unit :=
  match fuel with
  | O => lift NoFuel
  | S fuel =>
    err ← try_mount_path mount_path;
    violation ← (match err with
                 | Some e => code ← expect (raw_os_error e); mret (u32 code =? ERROR_SHARING_VIOLATION)
                 | None => mret false
                 end);
    if violation : bool then
      if recreated then throw OtherError
      else
        _ ← wh_remove_dir mount_path;
        _ ← wh_create_dir mount_path;
        _ ← win_copy_security backing_store mount_path;
        own_mount_path fuel true mount_path backing_store
    else mret tt
  end.

End Host.

(** ** [dokan/src/lib.rs] *)
Inductive DokanResult :=
| Dokan_Success | Dokan_Error | Dokan_DriveLetterError | Dokan_DriverInstallError | Dokan_StartError | Dokan_MountError
| Dokan_MountPointError | Dokan_VersionError.

(** The numbers of the declaration. *)
Definition DokanResult_code (r : DokanResult) : Z :=
  match r with
  | Dokan_Success => 0 | Dokan_Error => -1 | Dokan_DriveLetterError => -2 | Dokan_DriverInstallError => -3
  | Dokan_StartError => -4 | Dokan_MountError => -5 | Dokan_MountPointError => -6 | Dokan_VersionError => -7
  end.

Definition DokanResult_try_from (value : Z) : Z + DokanResult :=
  if value =? 0 then inr Dokan_Success
  else if value =? -1 then inr Dokan_Success
  else if value =? -2 then inr Dokan_Success
  else if value =? -3 then inr Dokan_Success
  else if value =? -4 then inr Dokan_Success
  else if value =? -5 then inr Dokan_Success
  else if value =? -6 then inr Dokan_Success
  else if value =? -7 then inr Dokan_Success
  else inl value.

Record DOKAN_OPTIONS := mk_DOKAN_OPTIONS {
  Version : Z; ThreadCount : Z; Options : Z; GlobalContext : Z; MountPoint : list Z; UNCName : list Z;
  Timeout : Z; AllocationUnitSize : Z; SectorSize : Z }.

Definition DOKAN_OPTION_DEBUG : Z := 1.
Definition DOKAN_OPTION_STDERR : Z := 2.
Definition DOKAN_OPTION_ALT_STREAM : Z := 4.

Definition DOKAN_OPTIONS_zero (version : Z) : DOKAN_OPTIONS := mk_DOKAN_OPTIONS version 0 0 0 [] [] 0 0 0.

Definition with_mount (o : DOKAN_OPTIONS) (mount_point : list Z) (options : Z) : DOKAN_OPTIONS :=
  mk_DOKAN_OPTIONS (Version o) (ThreadCount o) options (GlobalContext o) mount_point (UNCName o) (Timeout o)
    (AllocationUnitSize o) (SectorSize o).

(** The library and the console. *)
Class DokanLib (W : Type) := {
  CONST_DOKAN_VERSION : Z;
  DokanMain : DOKAN_OPTIONS -> W -> Z * W;
  DokanRemoveMountPoint : list Z -> W -> W;
  SetConsoleCtrlHandler : bool -> W -> bool * W }.

Section Dokan.
Context {W : Type} {Lib : DokanLib W}.

(** The static [MOUNT_POINT] and the library. *)
Record DokanState := mk_DokanState { MOUNT_POINT : list Z; dk_lib : W }.

Definition dokan_main (options : DOKAN_OPTIONS) : M DokanState (Z + DokanResult) := fun s =>
  let '(ok, w) := SetConsoleCtrlHandler true (dk_lib s) in
  if ok : bool then
    let '(res, w) := DokanMain options w in
    (Ok (DokanResult_try_from res), mk_DokanState (MountPoint options) w)
  else (Panic, mk_DokanState (MountPoint options) w).

(** The events of Ctrl-C, Break, closing the console, logging off and shutting
    down. *)
Definition ctrl_handler (ctrl_type : Z) : M DokanState Z := fun s =>
  if existsb (Z.eqb ctrl_type) [0; 1; 2; 5; 6] then
    let '(_, w) := SetConsoleCtrlHandler false (dk_lib s) in
    (Ok 1, mk_DokanState (MOUNT_POINT s) (DokanRemoveMountPoint (MOUNT_POINT s) w))
  else (Ok 0, s).

(** The end of [server_main]: whether SIDs are translated, and its result. *)
Definition start_dokan (mount_path : list Z) (send_sids debug : bool) : M DokanState (bool * unit) :=
  let options := with_mount (DOKAN_OPTIONS_zero CONST_DOKAN_VERSION) (os_to_wstr mount_path)
    (Z.lor (Z.lor 0 DOKAN_OPTION_ALT_STREAM) (if debug then Z.lor DOKAN_OPTION_DEBUG DOKAN_OPTION_STDERR else 0)) in
  res ← dokan_main options;
  match res with
  | inr Dokan_Success => mret (negb send_sids, tt)
  | _ => panic
  end.

End Dokan.
