(* ===== verification/WinStartProps.v ===== *)
(** * Starting on Windows: theorems

    What [canonize_path] makes of long paths, what the checksum of a tree depends
    on, how the mount path is taken, and what failures of Dokan come to. *)

From stdpp Require Import base list numbers option strings countable.
From Stdlib Require Import ZArith Lia.
From S2P Require Import Prelude Common Hash WinStart.

Local Open Scope Z_scope.

(** ** Wide strings *)

(** A string comes back as far as its first zero, whatever lies behind it in the
    buffer. *)
Lemma wstr_roundtrip s rest : Forall (fun c => c <> 0) s -> wstr_to_os (os_to_wstr s ++ rest) = Some s.
Proof.
  unfold os_to_wstr. induction 1 as [|c s Hc _ IH]; [done|]. cbn.
  rewrite (proj2 (Z.eqb_neq c 0) Hc). cbn in IH. by rewrite IH.
Qed.

Lemma wstr_cut a b rest : Forall (fun c => c <> 0) a -> wstr_to_os (os_to_wstr (a ++ 0 :: b) ++ rest) = Some a.
Proof.
  intros Ha. unfold os_to_wstr. rewrite <- (app_assoc _ [0]), <- app_assoc. cbn [app].
  change (0 :: b ++ 0 :: rest) with ([0] ++ (b ++ 0 :: rest)). rewrite app_assoc. by apply wstr_roundtrip.
Qed.

Section Paths.
Context {FP : FullPath}.

(** C37. [canonize_path] tells [GetFullPathNameW] that the whole buffer is free
    although the first four units are taken: it gives the full path behind the
    prefix for paths of at most 32762 units; for the four lengths above it, what
    the function writes goes behind the end of the buffer; and a path that is
    longer still is not noticed, it is no error. Paths that cannot be resolved
    are. *)
Theorem canonize_path_bounds p :
  match full_path (os_to_wstr p) with
  | inl e => canonize_path p = Some (Err (OsError e))
  | inr f =>
    (zlen f <= MAX_PATH - 5 -> canonize_path p = Some (Ok (verbatim_prefix ++ f))) /\
    (MAX_PATH - 5 < zlen f < MAX_PATH -> canonize_path p = None) /\
    (MAX_PATH <= zlen f -> forall e, canonize_path p <> Some (Err e))
  end.
Proof.
  destruct (full_path (os_to_wstr p)) as [e|f] eqn:E; unfold canonize_path.
  - by destruct (law_no_path _ MAX_PATH _ E) as [-> ->].
  - destruct (law_path_named _ _ E) as [Hne Hf]. pose proof (zlen_nonneg f) as Hz.
    assert (zlen f <> 0) as Hf0 by (destruct f; [done|unfold zlen; cbn; lia]).
    split; [|split].
    + intros Hl. rewrite (law_path_fits _ MAX_PATH _ E) by lia.
      rewrite (proj2 (Z.ltb_ge _ _)) by (unfold zlen in *; rewrite length_app; cbn; unfold MAX_PATH in *; lia).
      rewrite (proj2 (Z.eqb_neq _ _) Hf0). rewrite take_app_length'; [|done].
      rewrite <- (app_assoc f [0]), (app_assoc verbatim_prefix f).
      pose proof (wstr_roundtrip (verbatim_prefix ++ f)
        (drop (4 + length (f ++ [0])) (verbatim_prefix ++ replicate (Z.to_nat MAX_PATH - 4) 0))) as Hw.
      unfold os_to_wstr in Hw. rewrite <- app_assoc in Hw. rewrite Hw; [done|].
      apply Forall_app_2; [by repeat constructor|done].
    + intros Hl. rewrite (law_path_fits _ MAX_PATH _ E) by lia.
      rewrite (proj2 (Z.ltb_lt _ _)); [done|]. unfold zlen in *. rewrite length_app. cbn. unfold MAX_PATH in *. lia.
    + intros Hl e'. pose proof (law_path_long _ MAX_PATH _ E Hl) as Hr.
      destruct (GetFullPathNameW (os_to_wstr p) MAX_PATH) as [r w]. cbn in Hr. subst r.
      destruct (_ <? _); [done|]. rewrite (proj2 (Z.eqb_neq _ _)) by lia. by destruct (wstr_to_os _).
Qed.

End Paths.

(** ** The checksum *)
Section Hash.
Context {H : Hasher}.

(** What the hasher is fed. *)
Fixpoint fed (l : list (outcome win_entry)) : outcome (list hash_item) :=
  match l with
  | [] => Ok []
  | e :: l =>
    e ← e;
    if bool_decide (we_path e = []) then fed l
    else
      stat ← we_meta e;
      modified ← wm_modified stat;
      items ← fed l;
      Ok ([HashPath (we_path e); HashFileType (we_type e); HashU32 (wm_attributes stat)] ++
          (if wm_is_dir stat then [] else [HashU64 (wm_len stat)]) ++ [HashU64 modified] ++ items)
  end.

Definition feed_all (items : list hash_item) (h : hasher) : hasher := foldl (fun h i => hasher_feed i h) h items.

Lemma win_hash_fed l : forall h, win_hash_entries l h = (fun items => feed_all items h) <$> fed l.
Proof.
  induction l as [|e l IH]; intros h; [done|]. cbn [win_hash_entries fed]. munfold. destruct e as [e| | |]; try done.
  destruct (bool_decide (we_path e = [])); [apply IH|].
  destruct (we_meta e) as [stat| | |]; try done. destruct (wm_modified stat) as [m| | |]; try done.
  rewrite IH. destruct (fed l) as [items| | |]; try done. cbn. by destruct (wm_is_dir stat).
Qed.

(** The files of a tree below its root, in the order in which they are listed. *)
Definition win_paths (n : win_node) : list (list string) :=
  omap (fun e => match e with Ok e => if bool_decide (we_path e = []) then None else Some (we_path e) | _ => None end)
    (win_walk [] n).

Definition item_path (i : hash_item) : option (list string) := match i with HashPath p => Some p | _ => None end.

Lemma fed_paths l : forall items, fed l = Ok items ->
  omap item_path items =
  omap (fun e => match e with Ok e => if bool_decide (we_path e = []) then None else Some (we_path e) | _ => None end) l.
Proof.
  induction l as [|e l IH]; intros items E; [by injection E as <-|]. cbn [fed] in E. munfold. destruct e as [e| | |]; try done.
  cbn [omap list_omap]. destruct (bool_decide (we_path e = [])); [by apply IH|].
  destruct (we_meta e) as [stat| | |]; try done. destruct (wm_modified stat) as [m| | |]; try done.
  destruct (fed l) as [its| | |]; try done. injection E as <-. specialize (IH its eq_refl).
  destruct (wm_is_dir stat); cbn; by rewrite IH.
Qed.

(** On Windows the entries are not sorted: with a hasher that tells what it is
    fed apart, two trees have the same checksum only if their files are listed in
    the same order. *)
Theorem win_hash_sees_order n1 n2 h :
  (forall l1 l2, hasher_finish (feed_all l1 hasher_new) = hasher_finish (feed_all l2 hasher_new) -> l1 = l2) ->
  win_hash_metadata n1 = Ok h -> win_hash_metadata n2 = Ok h -> win_paths n1 = win_paths n2.
Proof.
  intros Hinj E1 E2. unfold win_hash_metadata in *. rewrite win_hash_fed in E1, E2.
  destruct (fed (win_walk [] n1)) as [l1| | |] eqn:F1; try done. destruct (fed (win_walk [] n2)) as [l2| | |] eqn:F2; try done.
  cbn in E1, E2. injection E1 as E1. injection E2 as E2. rewrite <- E2 in E1. apply Hinj in E1 as ->.
  unfold win_paths. by rewrite <- (fed_paths _ _ F1), <- (fed_paths _ _ F2).
Qed.

End Hash.

(** ** [WinapiBox] *)

(** The borrowed pointer is freed with its new owner, after what that had; what
    the borrowed box had borrowed itself never is. *)
Lemma add_borrow_frees self b self' : add_borrow self b = Ok self' -> drop_box self' = drop_box self ++ [box_ptr b].
Proof.
  destruct self as [t bs]. cbn. unfold box_from_raw. case_match; [done|]. intros [= <-]. cbn.
  by rewrite fmap_app, join_app.
Qed.

(** ** The mount path *)
Section Host.
Context {OS : Type} {WH : WinHost OS}.
Context (Hrm : forall p os, fst (wh_remove_dir p os) <> NoFuel) (Hmk : forall p os, fst (wh_create_dir p os) <> NoFuel).

Lemma on_opened_total {A} p access (f : Z -> OS -> outcome A * OS) os :
  (forall h os, fst (f h os) <> NoFuel) -> fst (on_opened p access f os) <> NoFuel.
Proof.
  intros Hf. unfold on_opened. destruct (wh_open _ _ _ _ os) as [[e|h] os1]; [done|].
  specialize (Hf h os1). by destruct (f h os1).
Qed.

Lemma win_copy_security_total src dst os : fst (win_copy_security src dst os) <> NoFuel.
Proof.
  unfold win_copy_security. unfold mbind, M_bind.
  pose proof (on_opened_total src (Z.lor (Z.lor (2 ^ 24) (2 ^ 31)) (2 ^ 17)) read_security os) as Hs.
  destruct (on_opened src _ read_security os) as [[[desc needed]| | |] os1]; try done.
  - destruct (_ <? _); [done|]. apply on_opened_total. intros h os2. unfold write_security. by destruct (wh_set_security _ _ _ os2) as [[] ?].
  - exfalso. apply Hs; [|done]. intros h os2. unfold read_security. by destruct (wh_get_security _ _ _ os2) as [[[[] ?] ?] ?].
Qed.

(** Another process has the path open. *)
Definition violation (err : option io_error) : bool :=
  match err with Some (OsError c) => u32 c =? ERROR_SHARING_VIOLATION | _ => false end.

(** One try: the path is ours or cannot be ours, or the rest is done. *)
Lemma own_try fuel recreated mp bs os err os1 : try_mount_path mp os = (Ok err, os1) ->
  own_mount_path (S fuel) recreated mp bs os =
    if violation err then
      (if recreated then throw OtherError
       else _ ← wh_remove_dir mp; _ ← wh_create_dir mp; _ ← win_copy_security bs mp; own_mount_path fuel true mp bs) os1
    else match err with Some (OsError _) | None => (Ok tt, os1) | _ => (Panic, os1) end.
Proof.
  intros E. cbn [own_mount_path]. unfold mbind at 1, M_bind at 1. rewrite E. unfold violation.
  destruct err as [[c| | | |]|]; try done. munfold. cbn. by destruct (u32 c =? ERROR_SHARING_VIOLATION).
Qed.

Lemma try_ok mp os : exists err os1, try_mount_path mp os = (Ok err, os1).
Proof. unfold try_mount_path. destruct (wh_open _ _ _ _ os) as [[e|h] os1]; by eexists _, _. Qed.

(** The directory was busy and has been made anew. *)
Definition made_anew (bs mp : path) (os os1 : OS) : Prop :=
  exists err os2 os3 os4, try_mount_path mp os = (Ok err, os2) /\ violation err = true /\
    wh_remove_dir mp os2 = (Ok tt, os3) /\ wh_create_dir mp os3 = (Ok tt, os4) /\ win_copy_security bs mp os4 = (Ok tt, os1).

(** The mount path could be opened by nobody else, or not at all. *)
Definition taken (mp : path) (os os' : OS) : Prop :=
  exists err, try_mount_path mp os = (Ok err, os') /\ violation err = false.

Lemma own_recreated fuel mp bs os r os' : own_mount_path (S fuel) true mp bs os = (r, os') ->
  r <> NoFuel /\ (r = Ok tt -> taken mp os os').
Proof.
  destruct (try_ok mp os) as (err & os1 & E). rewrite (own_try _ _ _ _ _ _ _ E).
  destruct (violation err) eqn:Ev; [by intros [= <- <-]|].
  intros Er. assert (os1 = os') as <- by (destruct err as [[]|]; by injection Er).
  split; [by destruct err as [[]|]; injection Er as <-|]. intros _. by exists err.
Qed.

(** Taking the mount path ends within two tries: when another process has it
    open, it is made anew at most once. Success means that the last try did not
    meet a sharing violation, before or after making it anew. *)
Theorem own_mount_path_ends fuel mp bs os r os' :
  own_mount_path (2 + fuel) false mp bs os = (r, os') ->
  r <> NoFuel /\ (r = Ok tt -> taken mp os os' \/ exists os1, made_anew bs mp os os1 /\ taken mp os1 os').
Proof.
  destruct (try_ok mp os) as (err & os2 & E). change (2 + fuel)%nat with (S (S fuel)). rewrite (own_try _ _ _ _ _ _ _ E).
  destruct (violation err) eqn:Ev.
  - unfold mbind, M_bind. pose proof (Hrm mp os2) as H1. destruct (wh_remove_dir mp os2) as [[[]| | |] os3] eqn:E1; cbn in H1;
      [|by intros [= <- <-]..].
    pose proof (Hmk mp os3) as H2. destruct (wh_create_dir mp os3) as [[[]| | |] os4] eqn:E2; cbn in H2; [|by intros [= <- <-]..].
    pose proof (win_copy_security_total bs mp os4) as H3.
    destruct (win_copy_security bs mp os4) as [[[]| | |] os5] eqn:E3; cbn in H3; [|by intros [= <- <-]..].
    intros Er. apply own_recreated in Er as [Hn Ht]. split; [done|]. intros Hr. right. exists os5. split; [|by apply Ht].
    by exists err, os2, os3, os4.
  - intros Er. assert (os2 = os') as <- by (destruct err as [[]|]; by injection Er).
    split; [by destruct err as [[]|]; injection Er as <-|]. intros _. left. by exists err.
Qed.

End Host.

(** ** Dokan *)
Section Dokan.
Context {W : Type} {Lib : DokanLib W}.

(** Known defect: [DokanResult::try_from] makes [Success] of every number that
    Dokan has a name for. The server ends with [Ok] when Dokan could not mount,
    install its driver or start, and panics only on numbers without a name. *)
Theorem dokan_failure_is_success mount_path send_sids debug s code w w' :
  SetConsoleCtrlHandler true (dk_lib s) = (true, w) ->
  (forall o, DokanMain o w = (code, w')) ->
  fst (start_dokan mount_path send_sids debug s) =
    (if (-7 <=? code) && (code <=? 0) then Ok (negb send_sids, tt) else Panic) /\
  (forall r, DokanResult_code r = code -> fst (start_dokan mount_path send_sids debug s) = Ok (negb send_sids, tt)).
Proof.
  intros Hc Hm. assert (fst (start_dokan mount_path send_sids debug s) =
    (if (-7 <=? code) && (code <=? 0) then Ok (negb send_sids, tt) else Panic)) as E.
  { unfold start_dokan, dokan_main. munfold. rewrite Hc, Hm. cbn [fst]. unfold DokanResult_try_from.
    repeat match goal with |- context [code =? ?x] => destruct (Z.eqb_spec code x) as [->|]; [done|] end.
    destruct (Z.leb_spec (-7) code), (Z.leb_spec code 0); try done. lia. }
  split; [exact E|]. intros r <-. rewrite E. by destruct r.
Qed.

End Dokan.

(** ** Instances *)

(** Every path is its own full path. *)
Lemma cut_named (l : list Z) : Forall (fun c => c <> 0) (default [] (wstr_to_os (l ++ [0]))).
Proof.
  induction l as [|c l IH]; [constructor|]. cbn. destruct (Z.eqb_spec c 0); [constructor|].
  destruct (wstr_to_os (l ++ [0])); cbn in *; [by constructor|constructor].
Qed.

Definition demo_full (w : list Z) : Z + list Z :=
  match default [] (wstr_to_os (w ++ [0])) with [] => inl 123 | p => inr p end.

#[local] Instance demo_paths : FullPath.
Proof.
  refine {| GetFullPathNameW := fun w n => match demo_full w with
                                           | inl _ => (0, [])
                                           | inr p => if zlen p <? n then (zlen p, p ++ [0]) else (zlen p + 1, [])
                                           end;
            full_path := demo_full; path_error := fun _ => 123 |}.
  - intros w n e E. rewrite E. split; [done|]. unfold demo_full in E. case_match; [by injection E|done].
  - intros w n p E Hl. rewrite E. by apply Z.ltb_lt in Hl as ->.
  - intros w n p E Hl. rewrite E. by apply Z.ltb_ge in Hl as ->.
  - intros w p E. unfold demo_full in E. pose proof (cut_named w) as Hn.
    destruct (default [] (wstr_to_os (w ++ [0]))) as [|c l]; [done|]. by injection E as <-.
Defined.

(** A short path, and the shortest that is written behind the end. *)
Lemma canonize_path_bounds_witness :
  canonize_path [67; 58; 92] = Some (Ok ([92; 92; 63; 92] ++ [67; 58; 92])) /\
  canonize_path (replicate (Z.to_nat 32763) 97) = None.
Proof.
  split.
  - pose proof (canonize_path_bounds [67; 58; 92]) as H. cbn [demo_paths full_path] in H.
    assert (demo_full (os_to_wstr [67; 58; 92]) = inr [67; 58; 92]) as E by (vm_compute; reflexivity).
    rewrite E in H. apply (proj1 H). vm_compute. discriminate.
  - pose proof (canonize_path_bounds (replicate (Z.to_nat 32763) 97)) as H. cbn [demo_paths full_path] in H.
    assert (demo_full (os_to_wstr (replicate (Z.to_nat 32763) 97)) = inr (replicate (Z.to_nat 32763) 97)) as E.
    { unfold demo_full, os_to_wstr. rewrite <- app_assoc. cbn [app].
      pose proof (wstr_roundtrip (replicate (Z.to_nat 32763) 97) [0]) as Hw. unfold os_to_wstr in Hw. rewrite <- app_assoc in Hw. cbn [app] in Hw.
      rewrite Hw; [reflexivity|]. apply Forall_replicate. discriminate. }
    rewrite E in H. apply (proj1 (proj2 H)). unfold zlen. rewrite length_replicate. vm_compute. split; reflexivity.
Defined.

(** A hasher that tells apart what it is fed: the number of the list. *)
Definition item_code (i : hash_item) : list string + (Z * Z) :=
  match i with HashPath p => inl p | HashFileType t => inr (0, t) | HashU32 z => inr (1, z) | HashU64 z => inr (2, z) end.

#[local] Instance demo_hasher : Hasher := {|
  hasher := list hash_item; hasher_new := []; hasher_feed := fun i l => i :: l;
  hasher_finish := fun l => Z.pos (encode (item_code <$> l)) |}.

Lemma feed_all_rev l : forall h, feed_all l h = rev l ++ h.
Proof. induction l as [|i l IH]; intros h; [done|]. change (feed_all (i :: l) h) with (feed_all l (i :: h)). rewrite IH. cbn. by rewrite <- app_assoc. Qed.

Lemma demo_hasher_injective l1 l2 :
  hasher_finish (feed_all l1 hasher_new) = hasher_finish (feed_all l2 hasher_new) -> l1 = l2.
Proof.
  cbn. rewrite !feed_all_rev, !app_nil_r. intros [= E]. apply (inj encode) in E.
  assert (Inj (=) (=) item_code) as Hi by (intros [] []; cbn; congruence).
  apply (inj (fmap item_code)) in E. apply (f_equal (@rev hash_item)) in E. by rewrite !rev_involutive in E.
Qed.

Definition demo_leaf (len : Z) : win_node := WinNode 32768 (Ok (mk_win_metadata false 32 len (Ok 1))) None [].
Definition demo_dir (kids : list (string * win_node)) : win_node :=
  WinNode S_IFDIR (Ok (mk_win_metadata true 16 0 (Ok 1))) None kids.

(** The same two files, listed in two orders. *)
Lemma win_hash_sees_order_witness :
  let n1 := demo_dir [("a"%string, demo_leaf 3); ("b"%string, demo_leaf 5)] in
  let n2 := demo_dir [("b"%string, demo_leaf 5); ("a"%string, demo_leaf 3)] in
  win_hash_metadata n1 <> win_hash_metadata n2 /\ exists h, win_hash_metadata n1 = Ok h.
Proof.
  intros n1 n2. assert (exists h, win_hash_metadata n1 = Ok h) as Hh by (eexists; reflexivity).
  split; [|exact Hh]. intros E. destruct Hh as [h Hh].
  pose proof (win_hash_sees_order n1 n2 h demo_hasher_injective Hh (eq_trans (eq_sym E) Hh)) as Hp.
  discriminate Hp.
Defined.

(** A mount path that is busy until it has been made anew: the state is whether
    it has been, and the directories opened. *)
#[local] Instance demo_host : WinHost (bool * nat) := {|
  wh_error := fun _ => 5;
  wh_open := fun _ access _ _ os => let '(anew, n) := os in
    match access with
    | None => if anew : bool then (inr 4, (anew, S n)) else (inl (OsError ERROR_SHARING_VIOLATION), (anew, n))
    | Some _ => (inr 4, (anew, S n))
    end;
  wh_close := fun _ os => (fst os, pred (snd os));
  wh_get_security := fun _ _ _ os => ((true, [1; 2], 2), os);
  wh_set_security := fun _ _ _ os => (true, os);
  wh_remove_dir := fun _ os => (Ok tt, os);
  wh_create_dir := fun _ os => (Ok tt, (true, snd os)) |}.

Lemma own_mount_path_ends_witness :
  let mp := mk_path true ["m"%string] in let bs := mk_path true ["b"%string] in
  own_mount_path 2 false mp bs (false, O) = (Ok tt, (true, O)) /\
  exists os1, made_anew bs mp (false, O) os1 /\ taken mp os1 (true, O).
Proof.
  intros mp bs. split; [vm_compute; reflexivity|].
  assert (forall p (os : bool * nat), fst (wh_remove_dir p os) <> NoFuel) as Hr by (intros p os; discriminate).
  assert (forall p (os : bool * nat), fst (wh_create_dir p os) <> NoFuel) as Hc by (intros p os; discriminate).
  destruct (own_mount_path_ends Hr Hc 0 mp bs (false, O) (Ok tt) (true, O) ltac:(vm_compute; reflexivity)) as [_ H].
  destruct (H eq_refl) as [(err & E & Hv)|H']; [|exact H'].
  exfalso. vm_compute in E. discriminate E.
Defined.

(** A Dokan that cannot mount. *)
#[local] Instance demo_dokan : DokanLib unit := {|
  CONST_DOKAN_VERSION := 122; DokanMain := fun _ w => (-5, w); DokanRemoveMountPoint := fun _ w => w;
  SetConsoleCtrlHandler := fun _ w => (true, w) |}.

Lemma dokan_failure_is_success_witness :
  fst (start_dokan [77; 58] false false (mk_DokanState [] tt)) = Ok (true, tt).
Proof.
  exact (proj2 (dokan_failure_is_success [77; 58] false false (mk_DokanState [] tt) (-5) tt tt eq_refl (fun _ => eq_refl))
    Dokan_MountError eq_refl).
Defined.
