(* ===== verification/Readers.v ===== *)
(** * The handlers that only read: [fsyncd/src/fuse_hl/read_unix.rs]

    They call the system at the translated path, or on the handle of [fi], and
    never [pre_op]: nothing they do is replicated. [xmp_readdir] and
    [xmp_read_buf] are C. A call that gives data gives its [errno] or the data;
    the calls that make or close descriptors are those of [Syscalls] and [dup],
    [opendir] and [closedir]. *)

From stdpp Require Import base list numbers option strings gmap.
From Stdlib Require Import ZArith Lia.
From S2P Require Import Prelude Common Entries Ops OpsInst.

Local Open Scope Z_scope.

Class ReadCalls (OS : Type) := {
  rd_statvfs_t : Type;
  rd_lstat : path -> OS -> Z + stat;
  rd_fstat : Z -> OS -> Z + stat;
  rd_readlink : path -> Z -> OS -> Z + list Z;
  rd_getxattr : path -> list Z -> Z -> OS -> Z + (Z * list Z);   (* the result and what is in the buffer *)
  rd_listxattr : path -> Z -> OS -> Z + (Z * list Z);
  rd_statvfs : path -> OS -> Z + rd_statvfs_t;
  rd_dup : Z -> OS -> Z * OS;
  rd_opendir : path -> OS -> Z * OS;                             (* 0 is null *)
  rd_closedir : Z -> OS -> OS }.

Definition O_TRUNC : Z := 512.

Section Readers.
Context {OS : Type} {Sys : Syscalls OS} {Rd : ReadCalls OS} (root : path).

(** [if res == -1 { return neg_errno(); }] of a call that does not change the
    system: the result, and the data if there is any. *)
Definition answer {A} (r : Z + A) (code : A -> Z) : Z * option A :=
  match r with inl e => (- e, None) | inr a => (code a, Some a) end.

Definition zero {A} (_ : A) : Z := 0.

Definition xmp_opendir (p : path) : M OS (Z * option Z) := fun os =>
  let '(dp, os) := rd_opendir (translate_path p root) os in
  if dp =? 0 then (Ok (- sys_errno os, None), os) else (Ok (0, Some dp), os).

Definition xmp_releasedir (fi : option Z) : M OS Z := fun os =>
  match fi with Some d => (Ok 0, rd_closedir d os) | None => (Panic, os) end.

Definition xmp_listxattr (p : path) (size : Z) (os : OS) : Z * option (Z * list Z) :=
  answer (rd_listxattr (translate_path p root) size os) (fun r => i32 (fst r)).

Definition xmp_getxattr (p : path) (name : list Z) (size : Z) (os : OS) : Z * option (Z * list Z) :=
  answer (rd_getxattr (translate_path p root) name size os) (fun r => i32 (fst r)).

Definition xmp_release (fi : option Z) : M OS Z :=
  match fi with Some fh => _ ← syscall (sys_close (i32 fh)); mret 0 | None => panic end.

Definition xmp_flush (fi : option Z) : M OS Z :=
  match fi with
  | Some fh => fd ← syscall (rd_dup (i32 fh)); checked (sys_close fd) (mret 0)
  | None => panic
  end.

Definition xmp_statfs (p : path) (os : OS) : Z * option rd_statvfs_t :=
  answer (rd_statvfs (translate_path p root) os) zero.

Definition pread (fd size offset : Z) : M OS (Z + list Z) := fun os =>
  let '(r, os) := sys_pread fd size offset os in (Ok r, os).

Definition read_result (r : Z + list Z) : Z * option (list Z) := answer r (fun l => i32 (zlen l)).

(** Without a handle the file is opened for the read, and closed on every
    branch. *)
Definition xmp_read (p : path) (size offset : Z) (fi : option Z) : M OS (Z * option (list Z)) :=
  match fi with
  | Some fh => r ← pread (i32 fh) size offset; mret (read_result r)
  | None =>
    fd ← syscall (sys_open (translate_path p root) 0 0);
    if fd =? -1 then e ← neg_errno; mret (e, None)
    else
      r ← pread fd size offset;
      _ ← syscall (sys_close fd);
      mret (read_result r)
  end.

Definition xmp_open (p : path) (flags : Z) : M OS (Z * option Z) :=
  fd ← syscall (sys_open (translate_path p root) flags 0);
  if fd =? -1 then e ← neg_errno; mret (e, None) else mret (0, Some (u64 fd)).

(** The buffer has a NUL after the link. *)
Definition xmp_readlink (p : path) (size : Z) (os : OS) : Z * option (list Z) :=
  answer (match rd_readlink (translate_path p root) (u64 (size - 1)) os with inl e => inl e | inr l => inr (l ++ [0]) end) zero.

Definition xmp_getattr (p : path) (fi : option Z) (os : OS) : Z * option stat :=
  answer (match fi with Some fh => rd_fstat (i32 fh) os | None => rd_lstat (translate_path p root) os end) zero.

(** ** Requests: the read half of the table of [fuse_main] *)
Inductive read_request :=
| Req_getattr (p : path) (fi : option Z)
| Req_readlink (p : path) (size : Z)
| Req_opendir (p : path)
| Req_releasedir (fi : option Z)
| Req_open (p : path) (flags : Z)
| Req_read (p : path) (size offset : Z) (fi : option Z)
| Req_statfs (p : path)
| Req_flush (fi : option Z)
| Req_release (fi : option Z)
| Req_getxattr (p : path) (name : list Z) (size : Z)
| Req_listxattr (p : path) (size : Z).

(** The code, and the new handle of [fi]. *)
Definition serve_read (req : read_request) : M OS (Z * option Z) := fun os =>
  match req with
  | Req_getattr p fi => (Ok (fst (xmp_getattr p fi os), None), os)
  | Req_readlink p size => (Ok (fst (xmp_readlink p size os), None), os)
  | Req_opendir p => xmp_opendir p os
  | Req_releasedir fi => (r ← xmp_releasedir fi; mret (r, None)) os
  | Req_open p flags => xmp_open p flags os
  | Req_read p size offset fi => ('(r, _) ← xmp_read p size offset fi; mret (r, None)) os
  | Req_statfs p => (Ok (fst (xmp_statfs p os), None), os)
  | Req_flush fi => (r ← xmp_flush fi; mret (r, None)) os
  | Req_release fi => (r ← xmp_release fi; mret (r, None)) os
  | Req_getxattr p name size => (Ok (fst (xmp_getxattr p name size os), None), os)
  | Req_listxattr p size => (Ok (fst (xmp_listxattr p size os), None), os)
  end.

(** ** What the system promises

    [rd_tree] is all that can be seen of the files, [rd_fds] the open descriptors
    and [rd_dirs] the open directories. *)
Class ReadLaws := {
  rd_tree_t : Type;
  rd_tree : OS -> rd_tree_t;
  rd_content : rd_tree_t -> path -> option (list Z);
  rd_fds : OS -> gset Z;
  rd_dirs : OS -> gset Z;
  law_open p flags mode os fd os' : sys_open p flags mode os = (fd, os') ->
    rd_dirs os' = rd_dirs os /\ rd_fds os' = (if fd =? -1 then rd_fds os else {[fd]} ∪ rd_fds os) /\
    (fd <> -1 -> fd ∉ rd_fds os /\ 0 <= fd < 2 ^ 31) /\
    (fd = -1 -> rd_tree os' = rd_tree os);
  (* without creating or truncating nothing changes *)
  law_open_keeps p flags mode os : Z.land flags O_TRUNC = 0 -> Z.land flags 64 = 0 ->
    rd_tree (snd (sys_open p flags mode os)) = rd_tree os;
  law_open_truncates p flags mode os fd os' : sys_open p flags mode os = (fd, os') -> fd <> -1 ->
    Z.land flags O_TRUNC <> 0 -> rd_content (rd_tree os') p = Some [];
  law_close fd os : rd_tree (snd (sys_close fd os)) = rd_tree os /\ rd_dirs (snd (sys_close fd os)) = rd_dirs os /\
    rd_fds (snd (sys_close fd os)) = rd_fds os ∖ {[fd]};
  law_dup fd os fd' os' : rd_dup fd os = (fd', os') -> rd_tree os' = rd_tree os /\ rd_dirs os' = rd_dirs os /\
    rd_fds os' = (if fd' =? -1 then rd_fds os else {[fd']} ∪ rd_fds os) /\ (fd' <> -1 -> fd' ∉ rd_fds os);
  law_pread fd n off os : rd_tree (snd (sys_pread fd n off os)) = rd_tree os /\
    rd_dirs (snd (sys_pread fd n off os)) = rd_dirs os /\ rd_fds (snd (sys_pread fd n off os)) = rd_fds os;
  law_opendir p os d os' : rd_opendir p os = (d, os') -> rd_tree os' = rd_tree os /\ rd_fds os' = rd_fds os /\
    rd_dirs os' = (if d =? 0 then rd_dirs os else {[d]} ∪ rd_dirs os);
  law_closedir d os : rd_tree (rd_closedir d os) = rd_tree os /\ rd_fds (rd_closedir d os) = rd_fds os /\
    rd_dirs (rd_closedir d os) = rd_dirs os ∖ {[d]} }.

(** Opening in a way that changes the file. *)
Definition changes_tree (req : read_request) : bool :=
  match req with Req_open _ flags => negb (Z.land flags O_TRUNC =? 0) || negb (Z.land flags 64 =? 0) | _ => false end.

(** The descriptors and directories a request should leave. *)
Definition fds_after (req : read_request) (fh : option Z) (fds : gset Z) : gset Z :=
  match req, fh with
  | Req_open _ _, Some fd => {[fd]} ∪ fds
  | Req_release (Some fd), _ => fds ∖ {[i32 fd]}
  | _, _ => fds
  end.
Definition dirs_after (req : read_request) (fh : option Z) (dirs : gset Z) : gset Z :=
  match req, fh with
  | Req_opendir _, Some d => {[d]} ∪ dirs
  | Req_releasedir (Some d), _ => dirs ∖ {[d]}
  | _, _ => dirs
  end.

Context {RL : ReadLaws}.

Lemma open_close p os fd os' : sys_open p 0 0 os = (fd, os') -> fd <> -1 -> rd_fds os' ∖ {[fd]} = rd_fds os.
Proof.
  intros E Hne. destruct (law_open _ _ _ _ _ _ E) as (_ & Hf & Hn & _). apply Z.eqb_neq in Hne as Hb. rewrite Hb in Hf.
  destruct (Hn Hne) as [Hfresh _]. rewrite Hf. clear -Hfresh. set_solver.
Qed.

Lemma read_neutral p size offset fi os r os' : xmp_read p size offset fi os = (Ok r, os') ->
  rd_tree os' = rd_tree os /\ rd_fds os' = rd_fds os /\ rd_dirs os' = rd_dirs os.
Proof.
  unfold xmp_read, pread, syscall, neg_errno. munfold. destruct fi as [fh|].
  - destruct (law_pread (i32 fh) size offset os) as (Ht & Hd & Hf). destruct (sys_pread _ _ _ os) as [r0 os1].
    cbn [snd] in *. intros [= _ <-]. done.
  - destruct (sys_open (translate_path p root) 0 0 os) as [fd os1] eqn:Eo.
    pose proof (law_open_keeps (translate_path p root) 0 0 os eq_refl eq_refl) as Ht. rewrite Eo in Ht. cbn [snd] in Ht.
    destruct (law_open _ _ _ _ _ _ Eo) as (Hd & Hf & _). destruct (fd =? -1) eqn:Efd; [by intros [= _ <-]|].
    destruct (law_pread fd size offset os1) as (Ht1 & Hd1 & Hf1). destruct (sys_pread _ _ _ os1) as [r0 os2]. cbn [snd] in *.
    destruct (law_close fd os2) as (Ht2 & Hd2 & Hf2). destruct (sys_close fd os2) as [c os3]. cbn [snd] in *. intros [= _ <-].
    split_and!; [congruence| |congruence]. rewrite Hf2, Hf1. apply (open_close _ _ _ _ Eo). by apply Z.eqb_neq.
Qed.

Lemma flush_neutral fi os r os' : -1 ∉ rd_fds os -> xmp_flush fi os = (Ok r, os') ->
  rd_tree os' = rd_tree os /\ rd_fds os' = rd_fds os /\ rd_dirs os' = rd_dirs os.
Proof.
  intros Hno. unfold xmp_flush, checked, syscall, neg_errno. destruct fi as [fh|]; [|done]. munfold.
  destruct (rd_dup (i32 fh) os) as [fd os1] eqn:Ed. destruct (law_dup _ _ _ _ Ed) as (Ht & Hd & Hf & Hfresh).
  destruct (law_close fd os1) as (Ht2 & Hd2 & Hf2). destruct (sys_close fd os1) as [c os2]. cbn [snd] in *.
  assert (rd_fds os2 = rd_fds os) as Hfds.
  { rewrite Hf2, Hf. destruct (fd =? -1) eqn:E.
    - apply Z.eqb_eq in E as ->. clear -Hno. set_solver.
    - apply Z.eqb_neq in E. specialize (Hfresh E). clear -Hfresh. set_solver. }
  destruct (c =? -1); intros [= _ <-]; split_and!; congruence.
Qed.

End Readers.
