(* ===== verification/ReadersProps.v ===== *)
(** * What the reading handlers promise

    They leave the files alone and leak no descriptor; the exception is opening a
    file to truncate it, which changes the file and is not replicated. *)

From stdpp Require Import base list numbers option strings gmap.
From Stdlib Require Import ZArith Lia.
From S2P Require Import Prelude Common Entries Ops OpsInst Readers.

Local Open Scope Z_scope.

Section Props.
Context {OS : Type} {Sys : Syscalls OS} {Rd : ReadCalls OS} {RL : ReadLaws} (root : path).

(** C32. A reading handler that returns leaves every file as it was, unless it
    opens one to create or truncate it. It leaves the open descriptors and
    directories as they were, but for the one that [open] or [opendir] puts into
    [fi] and the one that [release] or [releasedir] is given: whatever fails in
    between, nothing is leaked. *)
Theorem reading_is_neutral req os code fh os' :
  -1 ∉ rd_fds os -> serve_read root req os = (Ok (code, fh), os') ->
  (changes_tree req = false -> rd_tree os' = rd_tree os) /\
  rd_fds os' = fds_after req fh (rd_fds os) /\ rd_dirs os' = dirs_after req fh (rd_dirs os).
Proof.
  intros Hno. destruct req as [p fi|p size|p|fi|p flags|p size offset fi|p|fi|fi|p name size|p size];
    cbn [serve_read changes_tree]; try (by intros [= _ <- <-]).
  - unfold xmp_opendir. destruct (rd_opendir _ os) as [d os1] eqn:E. destruct (law_opendir _ _ _ _ E) as (Ht & Hf & Hd).
    destruct (d =? 0); by intros [= _ <- <-].
  - unfold xmp_releasedir. munfold. destruct fi as [d|]; [|done]. destruct (law_closedir d os) as (Ht & Hf & Hd). by intros [= _ <- <-].
  - unfold xmp_open, syscall, neg_errno. munfold. destruct (sys_open _ _ _ os) as [fd os1] eqn:E.
    destruct (law_open _ _ _ _ _ _ E) as (Hd & Hf & Hfresh & Hfail).
    pose proof (law_open_keeps (translate_path p root) flags 0 os) as Hkeep. rewrite E in Hkeep. cbn [snd] in Hkeep.
    destruct (fd =? -1) eqn:Efd; intros [= _ <- <-]; (split; [|split; [|done]]).
    + intros _. apply Hfail. lia.
    + done.
    + intros [H1 H2]%orb_false_iff. apply negb_false_iff, Z.eqb_eq in H1. apply negb_false_iff, Z.eqb_eq in H2. by apply Hkeep.
    + apply Z.eqb_neq in Efd. destruct (Hfresh Efd) as [_ Hr]. rewrite Hf. cbn [fds_after]. by rewrite u64_small by lia.
  - munfold. destruct (xmp_read _ _ _ _ _ os) as [[[r l]| | |] os1] eqn:E; try done. intros [= _ <- <-].
    by destruct (read_neutral _ _ _ _ _ _ _ _ E).
  - munfold. destruct (xmp_flush fi os) as [[r| | |] os1] eqn:E; try done. intros [= _ <- <-].
    by destruct (flush_neutral _ _ _ _ Hno E).
  - unfold xmp_release, syscall. munfold. destruct fi as [fd|]; [|done]. destruct (law_close (i32 fd) os) as (Ht & Hd & Hf).
    destruct (sys_close _ os) as [c os1]. cbn [snd] in *. by intros [= _ <- <-].
Qed.

(** Known defect: a file that is opened for truncation is emptied by the
    system call of [open], and no call is sent: a client whose copy had bytes
    keeps them. *)
Theorem open_truncation_not_replicated {OS2 : Type} {Sys2 : Syscalls OS2} {Rd2 : ReadCalls OS2} {RL2 : ReadLaws (OS := OS2)} root2
    p flags os os2 fh os' b l :
  Z.land flags O_TRUNC <> 0 ->
  rd_content (rd_tree os) (translate_path p root) = Some (b :: l) -> rd_content (rd_tree os2) (translate_path p root2) = Some (b :: l) ->
  serve_read root (Req_open p flags) os = (Ok (0, Some fh), os') ->
  rd_content (rd_tree os') (translate_path p root) <> rd_content (rd_tree os2) (translate_path p root2).
Proof.
  intros Ht _ H2. cbn [serve_read]. unfold xmp_open, syscall, neg_errno. munfold.
  destruct (sys_open _ _ _ os) as [fd os1] eqn:E. destruct (fd =? -1) eqn:Efd; [done|]. intros [= _ <-].
  rewrite (law_open_truncates _ _ _ _ _ _ E) by (done || by apply Z.eqb_neq). by rewrite H2.
Qed.
End Props.

(** ** A system with files and a hundred descriptors *)
Record rtoy := mk_rtoy { rt_files : gmap (list string) (list Z); rt_fds : gset Z; rt_dirs : gset Z }.

Definition free_fd (fds : gset Z) : Z := default (-1) (head (filter (fun fd => fd ∉ fds) (seqZ 3 100))).

Definition rt_open (p : path) (flags : Z) (o : rtoy) : Z * rtoy :=
  let k := p_comps p in
  let fd := free_fd (rt_fds o) in
  if (fd =? -1) || (bool_decide (rt_files o !! k = None) && (Z.land flags 64 =? 0)) then (-1, o)
  else (fd, mk_rtoy (if Z.land flags O_TRUNC =? 0 then
                       match rt_files o !! k with Some _ => rt_files o | None => <[k := []]> (rt_files o) end
                     else <[k := []]> (rt_files o)) ({[fd]} ∪ rt_fds o) (rt_dirs o)).

Definition rt_close (fd : Z) (o : rtoy) : Z * rtoy := (0, mk_rtoy (rt_files o) (rt_fds o ∖ {[fd]}) (rt_dirs o)).
Definition rt_dup (fd : Z) (o : rtoy) : Z * rtoy :=
  let fd' := free_fd (rt_fds o) in
  if fd' =? -1 then (-1, o) else (fd', mk_rtoy (rt_files o) ({[fd']} ∪ rt_fds o) (rt_dirs o)).
Definition rt_fine (o : rtoy) : Z * rtoy := (0, o).

#[local] Instance rtoy_sys : Syscalls rtoy := {|
  sys_errno := fun _ => 2; sys_mkfifo := fun _ _ => rt_fine; sys_mknod := fun _ _ _ => rt_fine; sys_mkdir := fun _ _ => rt_fine;
  sys_unlink := fun _ => rt_fine; sys_rmdir := fun _ => rt_fine; sys_symlink := fun _ _ => rt_fine;
  sys_renameat2 := fun _ _ _ => rt_fine; sys_link := fun _ _ => rt_fine; sys_chmod := fun _ _ => rt_fine;
  sys_fchmod := fun _ _ => rt_fine; sys_chown := fun _ _ _ => rt_fine; sys_lchown := fun _ _ _ => rt_fine;
  sys_fchown := fun _ _ _ => rt_fine; sys_truncate := fun _ _ => rt_fine; sys_ftruncate := fun _ _ => rt_fine;
  sys_open := fun p flags _ => rt_open p flags; sys_close := rt_close;
  sys_pread := fun fd n off o => (if bool_decide (fd ∈ rt_fds o) then inr [] else inl 9, o); sys_pwrite := fun _ _ _ => rt_fine;
  sys_fallocate := fun _ _ _ _ => rt_fine; sys_lsetxattr := fun _ _ _ _ => rt_fine; sys_fsetxattr := fun _ _ _ _ => rt_fine;
  sys_lremovexattr := fun _ _ => rt_fine; sys_fremovexattr := fun _ _ => rt_fine; sys_utimensat := fun _ _ => rt_fine;
  sys_futimens := fun _ _ => rt_fine; sys_fsync := fun _ => rt_fine; sys_fdatasync := fun _ => rt_fine |}.

#[local] Instance rtoy_reads : ReadCalls rtoy := {|
  rd_statvfs_t := unit; rd_lstat := fun _ _ => inl 2; rd_fstat := fun _ _ => inl 9; rd_readlink := fun _ _ _ => inl 22;
  rd_getxattr := fun _ _ _ _ => inl 61; rd_listxattr := fun _ _ _ => inl 95; rd_statvfs := fun _ _ => inr tt;
  rd_dup := rt_dup; rd_opendir := fun _ o => (1, mk_rtoy (rt_files o) (rt_fds o) ({[1]} ∪ rt_dirs o));
  rd_closedir := fun d o => mk_rtoy (rt_files o) (rt_fds o) (rt_dirs o ∖ {[d]}) |}.

Lemma free_fd_fresh fds : free_fd fds = -1 \/ (free_fd fds ∉ fds /\ 3 <= free_fd fds < 103).
Proof.
  unfold free_fd. destruct (filter _ _) as [|fd l] eqn:E; [by left|]. right. cbn.
  assert (fd ∈ filter (fun fd => fd ∉ fds) (seqZ 3 100)) as Hin by (rewrite E; by left).
  apply list_elem_of_filter in Hin as [Hn Hin]. apply elem_of_seqZ in Hin. split; [done|lia].
Qed.

#[local] Instance rtoy_laws : ReadLaws.
Proof.
  refine (@Build_ReadLaws rtoy rtoy_sys rtoy_reads _ rt_files (fun t p => t !! p_comps p) rt_fds rt_dirs _ _ _ _ _ _ _ _).
  - intros p flags mode os fd os'. cbn. unfold rt_open. pose proof (free_fd_fresh (rt_fds os)) as Hfree.
    destruct (free_fd (rt_fds os) =? -1) eqn:E1; cbn [orb]; [by intros [= <- <-]|].
    destruct (bool_decide _ && _); intros [= <- <-]; [done|]. cbn. rewrite E1. apply Z.eqb_neq in E1. split_and!; try done.
    intros _. destruct Hfree as [?|[? ?]]; [done|]. split; [done|lia].
  - intros p flags mode os Ht Hc. cbn. unfold rt_open. rewrite Ht, Hc. destruct (_ || _) eqn:E; [done|]. cbn.
    destruct (rt_files os !! p_comps p) eqn:Ef; [done|]. apply orb_false_iff in E as [_ E]. by rewrite bool_decide_true in E.
  - intros p flags mode os fd os'. cbn. unfold rt_open. destruct (_ || _); [by intros [= <- <-]|]. intros [= <- <-] _ Ht.
    apply Z.eqb_neq in Ht. rewrite Ht. cbn. by rewrite lookup_insert_eq.
  - done.
  - intros fd os fd' os'. cbn. unfold rt_dup. pose proof (free_fd_fresh (rt_fds os)) as Hfree.
    destruct (free_fd (rt_fds os) =? -1) eqn:E; intros [= <- <-]; [done|]. cbn. rewrite E. apply Z.eqb_neq in E.
    by destruct Hfree as [?|[? ?]].
  - done.
  - intros p os d os'. cbn. by intros [= <- <-].
  - done.
Defined.

(** A file with three bytes, and what the handlers make of it. *)
Definition rt_root : path := mk_path true ["srv"%string].
Definition rt_file : path := mk_path true ["f"%string].
Definition rt_start : rtoy := mk_rtoy {[ ["srv"; "f"]%string := [1; 2; 3] ]} {[0; 1; 2]} ∅.

Lemma reading_is_neutral_witness :
  rd_fds (snd (serve_read rt_root (Req_read rt_file 4 0 None) rt_start)) = rd_fds rt_start.
Proof.
  destruct (serve_read rt_root (Req_read rt_file 4 0 None) rt_start) as [[[code fh]| | |] os'] eqn:E; [|by vm_compute in E..].
  apply (reading_is_neutral rt_root (Req_read rt_file 4 0 None) rt_start code fh os'); [|exact E].
  cbn. set_solver.
Defined.

Lemma open_truncation_not_replicated_witness :
  rd_content (rd_tree (snd (serve_read rt_root (Req_open rt_file 513) rt_start))) (translate_path rt_file rt_root)
  <> rd_content (rd_tree rt_start) (translate_path rt_file rt_root).
Proof.
  destruct (serve_read rt_root (Req_open rt_file 513) rt_start) as [r os'] eqn:E.
  assert (r = Ok (0, Some 3)) as -> by (change r with (fst (r, os')); rewrite <- E; vm_compute; reflexivity).
  apply (open_truncation_not_replicated rt_root rt_root rt_file 513 rt_start rt_start 3 os' 1 [2; 3]).
  - done.
  - vm_compute. reflexivity.
  - vm_compute. reflexivity.
  - exact E.
Defined.
