(* ===== verification/FuseTable.v ===== *)
(** * The table of callbacks: [fsyncd/src/fuse_hl/mod.rs] and [fuseops.rs]

    The table that [fuse_main] hands to libfuse, with the callback under each
    name; the configuration that [xmp_init] asks for; and the requests of the
    kernel that reach a handler of [Handlers] or [Readers]. *)

From stdpp Require Import base list numbers option strings.
From Stdlib Require Import ZArith Lia.
From S2P Require Import Prelude Common Filestore Store Entries Bilog Net Ops OpsSpec Server Handlers ServerSpec HandlerSpec Converge Readers.

Local Open Scope Z_scope.

(** ** The callbacks that the sources define *)
Inductive callback_fn :=
| f_do_mknod | f_do_mkdir | f_do_symlink | f_do_unlink | f_do_rmdir | f_do_rename | f_do_link | f_do_chmod | f_do_chown
| f_do_truncate | f_do_create | f_do_write | f_do_utimens | f_do_fallocate | f_do_setxattr | f_do_removexattr | f_do_fsync
| f_xmp_init | f_xmp_getattr | f_xmp_readlink | f_xmp_opendir | f_xmp_readdir | f_xmp_releasedir | f_xmp_open | f_xmp_read
| f_xmp_read_buf | f_xmp_statfs | f_xmp_flush | f_xmp_release | f_xmp_getxattr | f_xmp_listxattr.

#[export] Instance callback_fn_eq_dec : EqDecision callback_fn.
Proof. solve_decision. Defined.

(** [fuse_operations]: a null pointer is [None]. *)
Record fuse_operations := mk_fuse_operations {
  op_getattr : option callback_fn; op_readlink : option callback_fn; op_mknod : option callback_fn;
  op_mkdir : option callback_fn; op_unlink : option callback_fn; op_rmdir : option callback_fn;
  op_symlink : option callback_fn; op_rename : option callback_fn; op_link : option callback_fn;
  op_chmod : option callback_fn; op_chown : option callback_fn; op_truncate : option callback_fn;
  op_open : option callback_fn; op_read : option callback_fn; op_write : option callback_fn;
  op_statfs : option callback_fn; op_flush : option callback_fn; op_release : option callback_fn;
  op_fsync : option callback_fn; op_setxattr : option callback_fn; op_getxattr : option callback_fn;
  op_listxattr : option callback_fn; op_removexattr : option callback_fn; op_opendir : option callback_fn;
  op_readdir : option callback_fn; op_releasedir : option callback_fn; op_fsyncdir : option callback_fn;
  op_init : option callback_fn; op_destroy : option callback_fn; op_access : option callback_fn;
  op_create : option callback_fn; op_lock : option callback_fn; op_utimens : option callback_fn;
  op_bmap : option callback_fn; op_ioctl : option callback_fn; op_poll : option callback_fn;
  op_write_buf : option callback_fn; op_read_buf : option callback_fn; op_flock : option callback_fn;
  op_fallocate : option callback_fn }.

(** The table of [fuse_main]. *)
Definition fuse_main_ops : fuse_operations := {|
  op_mknod := Some f_do_mknod; op_mkdir := Some f_do_mkdir; op_symlink := Some f_do_symlink;
  op_unlink := Some f_do_unlink; op_rmdir := Some f_do_rmdir; op_rename := Some f_do_rename; op_link := Some f_do_link;
  op_chmod := Some f_do_chmod; op_chown := Some f_do_chown; op_truncate := Some f_do_truncate;
  op_create := Some f_do_create; op_write := Some f_do_write; op_utimens := Some f_do_utimens;
  op_fallocate := Some f_do_fallocate; op_setxattr := Some f_do_setxattr; op_removexattr := Some f_do_removexattr;
  op_fsync := Some f_do_fsync;
  op_init := Some f_xmp_init; op_getattr := Some f_xmp_getattr; op_readlink := Some f_xmp_readlink;
  op_opendir := Some f_xmp_opendir; op_readdir := Some f_xmp_readdir; op_releasedir := Some f_xmp_releasedir;
  op_open := Some f_xmp_open; op_read := Some f_xmp_read; op_read_buf := Some f_xmp_read_buf;
  op_statfs := Some f_xmp_statfs; op_flush := Some f_xmp_flush; op_release := Some f_xmp_release;
  op_getxattr := Some f_xmp_getxattr; op_listxattr := Some f_xmp_listxattr;
  op_fsyncdir := None; op_destroy := None; op_access := None; op_lock := None; op_bmap := None; op_ioctl := None;
  op_poll := None; op_write_buf := None; op_flock := None |}.

Definition all_fields (o : fuse_operations) : list (option callback_fn) :=
  [op_getattr o; op_readlink o; op_mknod o; op_mkdir o; op_unlink o; op_rmdir o; op_symlink o; op_rename o; op_link o;
   op_chmod o; op_chown o; op_truncate o; op_open o; op_read o; op_write o; op_statfs o; op_flush o; op_release o;
   op_fsync o; op_setxattr o; op_getxattr o; op_listxattr o; op_removexattr o; op_opendir o; op_readdir o;
   op_releasedir o; op_fsyncdir o; op_init o; op_destroy o; op_access o; op_create o; op_lock o; op_utimens o; op_bmap o;
   op_ioctl o; op_poll o; op_write_buf o; op_read_buf o; op_flock o; op_fallocate o].

(** ** [xmp_init] *)
Record fuse_conn_info := mk_fuse_conn_info {
  proto_major : Z; proto_minor : Z; max_write : Z; max_read : Z; max_readahead : Z; capable : Z; want : Z;
  max_background : Z; congestion_threshold : Z; time_gran : Z }.

(** The timeouts, which are doubles, are left to libfuse. *)
Record fuse_config := mk_fuse_config {
  set_gid : Z; cfg_gid : Z; set_uid : Z; cfg_uid : Z; set_mode : Z; cfg_umask : Z; intr : Z; intr_signal : Z; remember : Z;
  hard_remove : Z; use_ino : Z; readdir_ino : Z; direct_io : Z; kernel_cache : Z; auto_cache : Z; nullpath_ok : Z }.

Definition xmp_init (conn : fuse_conn_info) (cfg : fuse_config) : fuse_conn_info * fuse_config :=
  (mk_fuse_conn_info (proto_major conn) (proto_minor conn) (32 * 1024) (max_read conn) (max_readahead conn) (capable conn)
     (want conn) (max_background conn) (congestion_threshold conn) (time_gran conn),
   mk_fuse_config (set_gid cfg) (cfg_gid cfg) (set_uid cfg) (cfg_uid cfg) (set_mode cfg) (cfg_umask cfg) (intr cfg)
     (intr_signal cfg) (remember cfg) (hard_remove cfg) 1 (readdir_ino cfg) (direct_io cfg) (kernel_cache cfg) 1
     (nullpath_ok cfg)).

(** ** What reaches a handler *)

(** The callback that a call of the kernel is made for; [None] for calls that
    exist on Windows only or in journals. *)
Definition callback_of (call : VFSCall) : option callback_fn :=
  match call with
  | mknod _ _ _ _ => Some f_do_mknod | mkdir _ _ _ => Some f_do_mkdir | unlink _ => Some f_do_unlink
  | rmdir _ => Some f_do_rmdir | symlink _ _ _ => Some f_do_symlink | rename _ _ _ => Some f_do_rename
  | link _ _ _ => Some f_do_link | chmod _ _ => Some f_do_chmod | security _ _ => Some f_do_chown
  | truncate _ _ => Some f_do_truncate | write _ _ _ => Some f_do_write | fallocate _ _ _ _ => Some f_do_fallocate
  | setxattr _ _ _ _ => Some f_do_setxattr | removexattr _ _ => Some f_do_removexattr
  | create _ _ _ _ => Some f_do_create | utimens _ _ => Some f_do_utimens | fsync _ _ => Some f_do_fsync
  | diff_write _ _ _ | truncating_write _ _ _ _ => None
  end.

Definition reader_of (r : read_request) : callback_fn :=
  match r with
  | Req_getattr _ _ => f_xmp_getattr | Req_readlink _ _ => f_xmp_readlink | Req_opendir _ => f_xmp_opendir
  | Req_releasedir _ => f_xmp_releasedir | Req_open _ _ => f_xmp_open | Req_read _ _ _ _ => f_xmp_read
  | Req_statfs _ => f_xmp_statfs | Req_flush _ => f_xmp_flush | Req_release _ => f_xmp_release
  | Req_getxattr _ _ _ => f_xmp_getxattr | Req_listxattr _ _ => f_xmp_listxattr
  end.

(** A request of either kind. *)
Inductive fuse_request := Changing (q : req) | Reading (r : read_request).

Definition request_callback (r : fuse_request) : option callback_fn :=
  match r with Changing q => callback_of (q_call q) | Reading r => Some (reader_of r) end.

Section Serve.
Context {F : MsgFormat} {C : Compressor} {D : Digest} {FB : StoreFormat BilogEntry} {FV : StoreFormat VFSCall}.
Context {OS : Type} {Sys : Syscalls OS} {Rd : ReadCalls OS}.

(** libfuse calls what is in the table, and answers [-ENOSYS] itself if there is
    nothing. *)
Definition fuse_call (table : fuse_operations) (r : fuse_request) : M (Server * OS) (Z * option Z) := fun '(s, os) =>
  match request_callback r with
  | Some f =>
    if bool_decide (Some f ∈ all_fields table) then
      match r with
      | Changing q => (code ← serve_req q; mret (code, None)) (s, os)
      | Reading r => let '(a, os) := serve_read (sv_path s) r os in (a, (s, os))
      end
    else (Ok (-38, None), (s, os))
  | None => (Ok (-38, None), (s, os))
  end.

(** The table is complete for what the handlers serve: no request that the
    model has is answered by libfuse itself, and every callback in the table but
    [init] and the two that are written in C is one that a request reaches. *)
Theorem table_complete :
  (forall q s os, unix_call (q_call q) = true ->
     fuse_call fuse_main_ops (Changing q) (s, os) = (code ← serve_req q; mret (code, None)) (s, os)) /\
  (forall r s os, fuse_call fuse_main_ops (Reading r) (s, os) =
     let '(a, os) := serve_read (sv_path s) r os in (a, (s, os))) /\
  (forall f, Some f ∈ all_fields fuse_main_ops -> f ∈ [f_xmp_init; f_xmp_readdir; f_xmp_read_buf] \/
     (exists call, unix_call call = true /\ callback_of call = Some f) \/ exists r, reader_of r = f).
Proof.
  split; [|split].
  - intros q s os Hu. unfold fuse_call. cbn [request_callback].
    destruct (q_call q) eqn:Eq; try (cbn in Hu; discriminate Hu); reflexivity.
  - intros r s os. destruct r; reflexivity.
  - intros f _. set (p := mk_path true []).
    destruct f; try (left; repeat constructor; fail);
      first [right; left; first [exists (mknod p 0 0 (Unix 0 0)); done | exists (mkdir p (Unix 0 0) 0); done
             | exists (symlink p p (Unix 0 0)); done | exists (unlink p); done | exists (rmdir p); done
             | exists (rename p p 0); done | exists (link p p (Unix 0 0)); done | exists (chmod p 0); done
             | exists (security p (Unix 0 0)); done | exists (truncate p 0); done | exists (create p 0 (Unix 0 0) 0); done
             | exists (write p 0 []); done | exists (utimens p (mk_Timespec 0 0, mk_Timespec 0 0, mk_Timespec 0 0)); done
             | exists (fallocate p 0 0 0); done | exists (setxattr p [] [] 0); done | exists (removexattr p []); done
             | exists (fsync p 0); done]
            | right; right; first [exists (Req_getattr p None); done | exists (Req_readlink p 0); done | exists (Req_opendir p); done
             | exists (Req_releasedir None); done | exists (Req_open p 0); done | exists (Req_read p 0 0 None); done
             | exists (Req_statfs p); done | exists (Req_flush None); done | exists (Req_release None); done
             | exists (Req_getxattr p [] 0); done | exists (Req_listxattr p 0); done]].
Qed.

End Serve.
