(* ===== verification/ViewerMain.v ===== *)
(** * The journal command: [viewer_main] in [fsyncd/src/journal/viewer.rs]

    [journal view] and [journal replay] from the arguments on: the journal is
    opened from its file, and the loops of [Viewer] run over it. The direction is
    looked for among the arguments of [journal], which declares none: both
    commands always read forward. *)

From stdpp Require Import base list numbers option gmap strings.
From Stdlib Require Import ZArith Lia.
From S2P Require Import Prelude Common Filestore Store StoreSpec StoreInst StoreRecovery Entries Bilog Net NetInst Ops OpsSpec OpsInst Server Handlers ServerSpec HandlerSpec Converge HandlerProps Viewer ViewerProps Cli StartupInst StartupProps SnapshotCmd.

Local Open Scope string_scope.
Local Open Scope list_scope.
Local Open Scope Z_scope.

(** The entries that [view] prints. *)
Inductive shown :=
| ShownCalls (l : list (StoreEntry VFSCall))
| ShownEntries (l : list (StoreEntry BilogEntry))
| ShownNothing.

Section Main.
Context {D : Digest} {FB : StoreFormat BilogEntry} {FV : StoreFormat VFSCall}.
Context {OS : Type} {Sys : Syscalls OS} (look : OS -> fsview) (recover : Z -> path -> outcome VFSCall).
(** Opening a file; the clock; [Path::new]; [FileStore::new] below [vfsroot];
    [canonize_path]; [Regex::new]. *)
Context (may_open : string -> bool -> outcome unit) (now : Z) (path_new : string -> path) (fstore : path -> outcome FileStore)
  (canonize_path : string -> outcome path) (regex : string -> option (path -> bool)).

(** The [filter] of [view_matches] or [replay_matches]. *)
Definition filter_arg (m : ArgMatches) : outcome (option (path -> bool)) :=
  match value_of m "filter" with Some s => f ← unwrap (regex s); Ok (Some f) | None => Ok None end.

(** [view::<T>]: the entries it prints. *)
Definition view_command {T} {FT : StoreFormat T} (JE : JournalEntry T) (fuel : nat) (journal_matches : ArgMatches) (j : Journal)
  : outcome (list (StoreEntry T)) :=
  let reverse := is_present journal_matches "reverse" in
  view_matches ← unwrap (subcommand_matches journal_matches "view");
  filter ← filter_arg view_matches;
  let inverse := is_present view_matches "invert-filter" in
  if reverse then fst (view next_reverse filter inverse fuel (read_reverse j))
  else fst (view next_forward filter inverse fuel (read_forward j)).

(** [replay::<T>]. *)
Definition replay_command {T} {FT : StoreFormat T} (JE : JournalEntry T) (fuel : nat) (journal_matches : ArgMatches) (j : Journal)
  : M OS unit :=
  let reverse := is_present journal_matches "reverse" in
  replay_matches ← lift (unwrap (subcommand_matches journal_matches "replay"));
  store ← lift (unwrap (value_of replay_matches "backing-store"));
  p ← lift (expect_ok (canonize_path store));
  filter ← lift (filter_arg replay_matches);
  replay_as look JE reverse filter (is_present replay_matches "invert-filter") fuel j p.

Definition viewer_config (journal_matches : ArgMatches) : JournalConfig :=
  let store := subcommand_matches journal_matches "replay" ≫= fun r => value_of r "backing-store" in
  mk_JournalConfig false 0 0 (path_new (default EmptyString store)) JT_Invalid.

(** From the opened journal on. The header of a journal is decoded by the format
    of forward journals: it is the same in both. *)
Definition view_journal (fuel : nat) (journal_matches : ArgMatches) (j : Journal) : outcome shown :=
  match h_ty (j_header j) with
  | JT_Forward => l ← view_command forward_entry fuel journal_matches j; Ok (ShownCalls l)
  | JT_Undo => Ok ShownNothing
  | JT_Bilog => l ← view_command (bilog_entry recover) fuel journal_matches j; Ok (ShownEntries l)
  | JT_Invalid => Panic
  end.

Definition replay_journal (fuel : nat) (journal_matches : ArgMatches) (j : Journal) : M OS unit :=
  match h_ty (j_header j) with
  | JT_Forward =>
    if is_present journal_matches "reverse" then panic else replay_command forward_entry fuel journal_matches j
  | JT_Undo => if negb (is_present journal_matches "reverse") then panic else mret tt
  | JT_Bilog => replay_command (bilog_entry recover) fuel journal_matches j
  | JT_Invalid => panic
  end.

Definition viewer_main (fuel : nat) (matches : ArgMatches) : M (CmdState OS) shown := fun h =>
  let go : outcome (ArgMatches * Journal) :=
    journal_matches ← unwrap (subcommand_matches matches "journal");
    journal_path ← unwrap (value_of journal_matches "journal-path");
    f ← expect_ok (fst (open_existing may_open journal_path false h));
    let c := viewer_config journal_matches in
    j ← expect_ok (Journal_open (T := VFSCall) f c now (fstore (c_vfsroot c)));
    Ok (journal_matches, j) in
  match go with
  | Ok (journal_matches, j) =>
    if bool_decide (subcommand_name journal_matches = Some "view") then (view_journal fuel journal_matches j, h)
    else if bool_decide (subcommand_name journal_matches = Some "replay") then
      let '(r, os) := replay_journal fuel journal_matches j (cs_os h) in
      ((fun _ => ShownNothing) <$> r, mk_CmdState (cs_files h) os)
    else (Panic, h)
  | r => ((fun _ => ShownNothing) <$> r, h)
  end.

(** ** What the arguments ask for *)
Record asks_replay (ms jm rm : ArgMatches) (jname store : string) : Prop := {
  ar_journal : subcommand_matches ms "journal" = Some jm;
  ar_name : value_of jm "journal-path" = Some jname;
  ar_replay : subcommand_matches jm "replay" = Some rm;
  ar_store : value_of rm "backing-store" = Some store }.

Lemma journal_app_of m m' : parsed main_app m -> subcommand_matches m "journal" = Some m' -> parsed journal_app m'.
Proof.
  intros Hp. apply (subcommand_parsed _ _ m "journal" journal_app Hp). intros app' Hin. cbn in Hin.
  rewrite !elem_of_cons, elem_of_nil in Hin. by destruct_or! Hin; simplify_eq.
Qed.


(** [journal] declares no direction. *)
Lemma never_reverse ms jm : parsed main_app ms -> subcommand_matches ms "journal" = Some jm -> is_present jm "reverse" = false.
Proof.
  intros Hp Hj. pose proof (journal_app_of _ _ Hp Hj) as Hpj. inversion Hpj as [args subs vs sub Hd _ _ _]; subst.
  cbn. apply bool_decide_false. intros Hs. destruct (Hd "reverse" Hs) as (a & Ha & Hin).
  apply list_elem_of_singleton in Ha as ->. cbn in Hin. by apply list_elem_of_singleton in Hin.
Qed.

(** An accepted [journal replay] of a journal that can be opened. *)
Lemma viewer_main_replay fuel ms jm rm jname store f j p filter files os :
  parsed main_app ms -> asks_replay ms jm rm jname store ->
  files !! jname = Some f -> may_open jname false = Ok tt ->
  Journal_open (T := VFSCall) f (viewer_config jm) now (fstore (path_new store)) = Ok j ->
  canonize_path store = Ok p -> filter_arg rm = Ok filter ->
  viewer_main fuel ms (mk_CmdState files os) =
    let '(r, os') := replay_main look recover false filter (is_present rm "invert-filter") fuel j p os in
    ((fun _ => ShownNothing) <$> r, mk_CmdState files os').
Proof.
  intros Hp [Hj Hn Hr Hs] Hf Hopen Ho Hc Hfl. pose proof (never_reverse _ _ Hp Hj) as Hrev.
  assert (c_vfsroot (viewer_config jm) = path_new store) as Hroot by (unfold viewer_config; rewrite Hr; cbn; by rewrite Hs).
  unfold viewer_main, open_existing. rewrite Hj. cbn [unwrap mbind outcome_bind]. rewrite Hn. cbn [unwrap mbind outcome_bind cs_files].
  rewrite Hf, Hopen. cbn [fst expect_ok mbind outcome_bind]. rewrite Hroot.
  change (Journal_open (seek_start f 0)) with (Journal_open (T := VFSCall) f). rewrite Ho. cbn [expect_ok mbind outcome_bind].
  rewrite (subcommand_matches_name _ _ _ Hr), bool_decide_false, bool_decide_true by done. cbn [cs_os].
  assert (forall T (FT : StoreFormat T) (JE : JournalEntry T),
    replay_command JE fuel jm j os = replay_as look JE false filter (is_present rm "invert-filter") fuel j p os) as Hcmd.
  { intros T FT JE. unfold replay_command. munfold. rewrite Hr. cbn [unwrap]. rewrite Hs. cbn [unwrap].
    rewrite Hc. cbn [expect_ok]. by rewrite Hfl, Hrev. }
  unfold replay_journal, replay_main. rewrite Hrev. by destruct (h_ty (j_header j)); rewrite ?Hcmd.
Qed.

(** C21. Known defect: a journal is never taken back by the command. However
    [replay] is called, with [--reverse] or without, it does what a replay
    without it does: a two-way journal is replayed forward, and one of type
    [Undo], which can only be replayed backwards, panics. *)
Theorem journal_command_never_reverses fuel ms jm rm jname store f j p filter files os :
  parsed main_app ms -> asks_replay ms jm rm jname store -> is_present rm "reverse" = true ->
  files !! jname = Some f -> may_open jname false = Ok tt ->
  Journal_open (T := VFSCall) f (viewer_config jm) now (fstore (path_new store)) = Ok j ->
  canonize_path store = Ok p -> filter_arg rm = Ok filter ->
  let '(r, os') := replay_main look recover false filter (is_present rm "invert-filter") fuel j p os in
  viewer_main fuel ms (mk_CmdState files os) = ((fun _ => ShownNothing) <$> r, mk_CmdState files os') /\
  (h_ty (j_header j) = JT_Undo -> r = Panic /\ os' = os).
Proof.
  intros Hp Ha _ Hf Hopen Ho Hc Hfl.
  pose proof (viewer_main_replay fuel ms jm rm jname store f j p filter files os Hp Ha Hf Hopen Ho Hc Hfl) as E.
  destruct (replay_main look recover false filter _ fuel j p os) as [r os'] eqn:Er. split; [done|].
  intros Ht. unfold replay_main in Er. rewrite Ht in Er. by injection Er as <- <-.
Qed.
End Main.

(** ** Recovery by the command *)
Section Recovery.
Context {F : MsgFormat} {L : MsgFormatLaws} {C : Compressor} {D : Digest}.
Context {FB : StoreFormat BilogEntry} {FV : StoreFormat VFSCall} {LV : StoreFormatLaws VFSCall}.
Context {OS1 OS2 : Type} {Sys1 : Syscalls OS1} {Sys2 : Syscalls OS2} {r1 r2 : path}.
Context {Mi : Mirror (OS1 := OS1) (OS2 := OS2) r1 r2}.
Context (look : OS2 -> fsview) (recover : Z -> path -> outcome VFSCall).
Context (may_open : string -> bool -> outcome unit) (now : Z) (path_new : string -> path) (fstore : path -> outcome FileStore)
  (canonize_path : string -> outcome path) (regex : string -> option (path -> bool)).

(** C11. Recovery: a server with a new forward journal on a file of zeros serves
    requests and stops, before the journal has gone round its ring and after it
    has used more than one block. From the file alone, the command [journal
    replay], without a filter, opens the journal, and brings a copy of the tree
    as it was at the start to the tree of the server; but only if no request
    failed: a call is journalled before it is tried, and a failed one makes the
    command panic. A journal of a single block is refused and one that has gone
    round has lost its first calls; neither is covered. *)
Theorem journal_command_recovers f c st st' now0 k l s j o1 o2 codes s' o1' ms jm rm jname store :
  0 < k -> HEADER_SIZE (T := VFSCall) + k * BLOCK_SIZE <= f_len f < HEADER_SIZE (T := VFSCall) + (k + 1) * BLOCK_SIZE ->
  f_len f < 2 ^ 63 -> zero_from f (HEADER_SIZE (T := VFSCall)) -> at_bytes f 0 (ser_header blank_header) ->
  c_journal_type c = JT_Forward -> Journal_new (T := VFSCall) f c now0 (Ok st) = Ok j ->
  let rs := history now0 0 (logged <$> l) in
  clock_ok now0 (logged <$> l) -> Forall rec_ok rs -> first_lap k [] rs -> 2 * BLOCK_SIZE * (zlen rs + 1) < 2 ^ 63 ->
  1 < zlen (spec_history k rs) ->
  run_requests l (s, o1) = (Ok codes, (s', o1')) -> ready_all (r1 := r1) (r2 := r2) (OS2 := OS2) l (s, o1) ->
  sv_journal s = Some j -> sv_journal_type s = JT_Forward -> sv_path s = r1 -> mi_rel o1 o2 ->
  parsed main_app ms -> asks_replay ms jm rm jname store -> value_of rm "filter" = None ->
  may_open jname false = Ok tt -> fstore (path_new store) = Ok st' -> canonize_path store = Ok r2 ->
  exists j', sv_journal s' = Some j' /\
    forall files, files !! jname = Some (j_file j') ->
      let run := viewer_main look recover may_open now path_new fstore canonize_path regex (S (length rs)) ms (mk_CmdState files o2) in
      if forallb (fun r => 0 <=? r) codes
      then exists o2', run = (Ok ShownNothing, mk_CmdState files o2') /\ mi_rel o1' o2'
      else fst run = Panic.
Proof.
  intros Hk Hf Hlen Hz Hblank Hty Hnew rs Hclk Hok Hlap Hb Hmany E Hr Hj Ht Hpath HR Hp Ha Hfl Hopen Hst Hc.
  destruct (journal_reopened f c (viewer_config path_new jm) now0 now st st' k (logged <$> l))
    as (j0 & j1 & j'' & it & Hnew0 & Hw1 & Ho & Hty'' & Hcol); try done.
  rewrite Hnew in Hnew0. injection Hnew0 as <-. rewrite Hty in Hty''.
  destruct (run_requests_journal l s o1 o2 codes s' o1' j E Hr Hj Ht Hpath HR) as (j' & o2' & Hw & Hj' & Hd & HR').
  rewrite Hw in Hw1. injection Hw1 as <-. exists j'. split; [done|]. intros files Hfile run. subst run.
  rewrite (viewer_main_replay look recover may_open now path_new fstore canonize_path regex (S (length rs)) ms jm rm jname store
    (j_file j') j'' r2 None files o2); [|done..| |done|unfold filter_arg; by rewrite Hfl]; [|by rewrite Hst].
  pose proof (replay_run (r2 := r2) look recover (is_present rm "invert-filter") j'' now0 0 l (S (length rs)) it o2 codes o2' Hty'' Hcol Hd) as Hre.
  subst rs. destruct (forallb _ codes).
  - exists o2'. split; [|done]. by rewrite Hre.
  - destruct (replay_main _ _ _ _ _ _ _ _ _) as [r o]. cbn in Hre. by subst r.
Qed.
End Recovery.

(** ** On small inputs

    The server of [ViewerProps] again, with records of more than half a block. *)
#[local] Existing Instance demo_msgs.
#[local] Existing Instance demo_laws.
#[local] Existing Instance demo_compressor.
#[local] Existing Instance demo_digest.
#[local] Existing Instance demo_bilogs.
#[local] Existing Instance demo_sys.
#[local] Existing Instance demo_mirror.

Definition long_bytes (call : VFSCall) : list Z := call_index demo_calls call :: replicate (Z.to_nat 70000) 0.
Definition bytes_long (l : list Z) : VFSCall :=
  match l with n :: _ => default (unlink demo_path) (demo_calls !! Z.to_nat n) | [] => unlink demo_path end.
#[local] Instance long_format : StoreFormat VFSCall := mapped_format long_bytes bytes_long.
#[local] Instance long_laws : StoreFormatLaws VFSCall := mapped_format_laws long_bytes bytes_long.

Definition may_all (n : string) (w : bool) : outcome unit := Ok tt.
Definition named (n : string) : path := mk_path true [n].
Definition stored_below (p : path) : outcome FileStore := Ok log_store.
Definition the_copy (s : string) : outcome path := Ok (demo_root "cli").
Definition no_regex (s : string) : option (path -> bool) := None.
Definition not_stored (ino : Z) (p : path) : outcome VFSCall := Ok (unlink p).

Definition replay_values : list (string * list string) := [("backing-store", ["cli"]); ("reverse", ["1"])].
Definition replay_matches : ArgMatches := mk_ArgMatches (lookup_in replay_values) None.
Definition journal_matches : ArgMatches := mk_ArgMatches (lookup_in [("journal-path", ["log"])]) (Some ("replay", replay_matches)).

Lemma journal_command_parsed : parsed main_app (command "journal" journal_matches).
Proof.
  apply conforms_parsed; [vm_compute; reflexivity|].
  apply (parsed_some_sub _ "journal" journal_app); [repeat constructor|].
  apply conforms_parsed; [vm_compute; reflexivity|].
  eapply (parsed_some_sub _ "replay"); [right; left; reflexivity|]. apply conforms_parsed; [vm_compute; reflexivity|constructor].
Qed.

Lemma journal_command_asks : asks_replay (command "journal" journal_matches) journal_matches replay_matches "log" "cli".
Proof. by split. Qed.

Definition long_final := run_requests demo_requests (log_server, demo_os "srv" ∅ ∅).

Lemma journal_command_recovers_witness :
  exists j' o2', sv_journal (fst (snd long_final)) = Some j' /\
    viewer_main log_view not_stored may_all 9 named stored_below the_copy no_regex 3 (command "journal" journal_matches)
      (mk_CmdState {["log" := j_file j']} (demo_os "cli" ∅ ∅)) =
      (Ok ShownNothing, mk_CmdState {["log" := j_file j']} o2') /\
    t_files (snd (snd long_final)) = t_files o2'.
Proof.
  destruct long_final as [r [s' o1']] eqn:E.
  assert (r = Ok [0; 1]) as -> by (change r with (fst (r, (s', o1'))); rewrite <- E; vm_compute; reflexivity).
  destruct (journal_command_recovers (r1 := demo_root "srv") (r2 := demo_root "cli") log_view not_stored may_all 9 named
    stored_below the_copy no_regex log_file
    (mk_JournalConfig false (24 + 2 * BLOCK_SIZE) 0 (mk_path true []) JT_Forward) log_store log_store 0 2 demo_requests
    log_server log_journal (demo_os "srv" ∅ ∅) (demo_os "cli" ∅ ∅) [0; 1] s' o1'
    (command "journal" journal_matches) journal_matches replay_matches "log" "cli") as (j' & Hj & Hrun).
  - ground.
  - ground.
  - ground.
  - intros i _. reflexivity.
  - intros i b. do 24 (destruct i as [|i]; [intros [= <-]; reflexivity|]). done.
  - reflexivity.
  - reflexivity.
  - ground.
  - repeat constructor; ground.
  - split; [exact I|]. split; [vm_compute; right; by split|exact I].
  - ground.
  - ground.
  - exact E.
  - split; [by split|split; [|exact I]]. split; [done|]. split; vm_compute; [done|by eexists].
  - reflexivity.
  - reflexivity.
  - reflexivity.
  - clear. repeat split; done.
  - apply journal_command_parsed.
  - apply journal_command_asks.
  - reflexivity.
  - reflexivity.
  - reflexivity.
  - reflexivity.
  - destruct (Hrun {["log" := j_file j']} (lookup_singleton_eq _ _)) as (o2' & Hm & HR). exists j', o2'.
    split; [exact Hj|]. split; [exact Hm|]. apply HR.
Defined.

(** A journal of type [Undo], and a command that asks for it backwards. *)
Definition undo_header : list Z := ser_header (mk_JournalHeader 0 0 0 JT_Undo).
Definition undo_log : file := mk_file (24 + 2 * BLOCK_SIZE) (fun i => nth (Z.to_nat i) undo_header 0) 0.

Lemma journal_command_never_reverses_witness :
  fst (viewer_main log_view not_stored may_all 9 named stored_below the_copy no_regex 3 (command "journal" journal_matches)
      (mk_CmdState {["log" := undo_log]} (demo_os "cli" ∅ ∅))) = Panic.
Proof.
  destruct (Journal_open (T := VFSCall) undo_log (viewer_config named journal_matches) 9 (stored_below (named "cli"))) as [j| | |] eqn:E;
    [|exfalso; vm_compute in E; discriminate..].
  assert (h_ty (j_header j) = JT_Undo) as Ht by (vm_compute in E; injection E as <-; reflexivity).
  pose proof (journal_command_never_reverses log_view not_stored may_all 9 named stored_below the_copy no_regex 3
    (command "journal" journal_matches) journal_matches replay_matches "log" "cli" undo_log j (demo_root "cli") None
    {["log" := undo_log]} (demo_os "cli" ∅ ∅) journal_command_parsed journal_command_asks eq_refl
    (lookup_singleton_eq _ _) eq_refl E eq_refl eq_refl) as H.
  destruct (replay_main _ _ _ _ _ _ _ _ _) as [r os']. destruct H as [-> H]. by destruct (H Ht) as [-> _].
Defined.
